(* ===== verification/_CoqProject ===== *)
-Q . S2P
Prelude.v
Cpp.v
Extern.v
Util.v
QueryLog.v
LruCache.v
Regex.v
Pool.v
MysqlProxy.v
MemcacheProxy.v
Protocol.v
ProtocolSpec.v
ProtocolRef.v
VaeTypes.v
ThriftTypes.v
ThriftSpec.v
Rpc.v
Processor.v
RpcSpec.v
Rubyd.v
Multiface.v
Objects.v
Results.v
Classes.v
Xml.v
XmlRef.v
Query.v
Site.v
QuerySpec.v
SiteSpec.v
S3.v
Response.v
ResponseSpec.v
SharedSite.v
ConcurrentRequests.v
Session.v
SiteFrame.v
SiteDestroy.v
Handler.v
HandlerSpec.v
ServerSpec.v
ServerInv.v
ServerDemo.v
Service.v
SiteThreads.v
SiteThreadsDemo.v
Main.v
Bus.v
SessionThreads.v
SessionCalls.v
ServerThreads.v
SiteLife.v
TypedSite.v
TypedServer.v
