(* ===== verification/Prelude.v ===== *)
(** * Vaedb: the query server of [wowazzz/vae_thrift]

    Vaedb is a C++ server.  A client (PHP) opens a session on a site, asks path
    queries against the site's XML feed, and gets lists of contexts, numbered so
    that later calls can name them as parents; the same sessions give access to
    caches in memcached and MySQL and to a lock per site.  Feeds are read from
    S3 with a copy on disk; a bus tells the server to reload a site; a reaper
    drops old sessions.  This library models the sources under [src/cpp], and
    the code under [src/gen-cpp] that carries the calls over Thrift.

    ** How code is modelled

    [Prelude]: a function without effects returns an [outcome]: a value, a C++
    exception, undefined behaviour ([UB], with the reason) or exhausted fuel; a
    function with state is an [eff S A], which keeps the state reached when it
    throws.  [Cpp] has what the program uses of C++ and its library: 32-bit
    integers with their wrap-around or overflow, [atoi], [strtol], [strstr],
    single precision floats, [std::map] in key order.  Strings are Rocq strings, a byte per
    character.  Locals and members keep the names they have in the source.
    Code outside the repository is a class: [CLib] and [Boost] (string to
    double), [Pcre] (pcrecpp), [LibXml] (parsing, XPath, tree surgery),
    [SqlEngine], [MemcacheClient], [S3Env], [Algorithms] ([std::sort],
    [random_shuffle]), [Os] (clock, [rand]), [TProtocol] (Thrift's protocol and
    transport), [ToString] (how Thrift prints a value), [Environment] (what
    [main] finds).  Where a theorem needs what such code documents, it is a class
    of laws ([BoostLaws], [LibXmlLaws], [RewriteLaws], [SqlLaws], [MemcacheLaws],
    [CommaLaw], [FileLaws], [AlgorithmLaws], [AlgorithmFrame], [AlgorithmThreads],
    [NodeSetLaws], [RandLaw], [ProtocolLaws]); each has an instance on a small executable model, on which the witnesses run ([Regex], [XmlRef],
    [SqlRef], [MemRef], [S3Ref], [SortRef], [ProtocolRef], [ServerDemo], [Counted]).

    ** Parts

    - [Util] ([util.cpp]): [str_replace], the tokenizer and [str_compare_nat].
      [str_replace_correct], [tokenize_merge_correct] and
      [str_compare_nat_natural] give their results; [str_compare_nat_antisym]
      totality; two theorems show where natural order fails.
    - [QueryLog] ([query_log.h], [query_log.cpp]): an entry per call.
      [ValueRep_string_spec]: printing ends exactly for strings without quote or
      backslash.
    - [LruCache] ([lru_cache.h]): the list, its index and the sizes;
      [lru_simulates] refines them to an association list in order of use.
    - [Pool] (the pools of [mysql_proxy.cpp] and [memcache_proxy.cpp]):
      [getConnection] and [freeConnection] under the mutex, and a step relation
      for threads.  [pool_safe], [pool_no_deadlock], [pool_empty_blocks].
    - [MysqlProxy], [MemcacheProxy]: the caches and locks over the pools; round
      trips, mutual exclusion of locks, failures that stay hidden.
    - [Query] ([query.cpp]), [QuerySpec]: a query against the immutable part of
      a site ([Tree]): permalinks, identifiers, siblings, rewriting to XPath.
      Rewriting ends ([to_xpath_total]); against a consistent tree every query
      ends in a result or an exception ([Query_new_defined]).
    - [Xml], [Site] ([site.cpp], [context.cpp]), [SiteSpec]: libxml2's nodes as
      a store of records, the contexts hanging off them, loading, associations
      (which alias subtrees), the query cache and the tables that contexts fill
      on demand.  The caches are invisible ([fetch_query_transparent],
      [context_tables_transparent]); nothing under staging is served in
      production ([staging_hidden]).
    - [Response] ([response.cpp]), [ResponseSpec]: options, paging, filters,
      uniqueness, sorting.  Pages are the slices of the nodes that match, in
      the order asked for.
    - [SharedSite], [ConcurrentRequests] ([context.cpp], [site.cpp],
      [response.cpp]): the handler runs requests on one site at the same time,
      with mutexes only around the query cache and the tables of each context.
      A computation on the site is cut into critical sections, unlocked reads and
      reads of the document ([Threaded], an interface with an instance for each
      operation and for [Response_query], [createInfo] and the writers); in every
      interleaving each request answers what it answers alone
      ([concurrent_requests]), by rely and guarantee: what a thread may count on
      is that tables stay sound and filled ones stay filled.
    - [Session] ([session.cpp]), [SiteFrame]: response numbers are stable
      ([response_ids_stable]); answering never writes to the document
      ([session_calls_read_only]).  [SessionThreads] runs several calls of [get]
      on one session, which has no mutex: numbers never go stale
      ([concurrent_gets]), but two calls can answer the same one ([same_number]).
      [SessionCalls] puts the calls of several sessions on one site, with the
      steps of [SharedSite]: each answers what it answers alone, on its session
      as it was at some moment, up to the number ([session_calls_serial]).
    - [SiteDestroy] ([site.cpp]): the destructor; a site that was loaded and
      queried frees each context once ([site_freed_once]), by an invariant of
      loading on the node that each context belongs to.
    - [S3] ([s3.cpp]): [read_s3_spec].
    - [Handler] ([vae_db_handler.cpp], [reaper.cpp], [bus.cpp]), [HandlerSpec],
      [ServerSpec], [ServerInv]: the state of the server ([World]) and every
      call.  [openSession_spec], [resetSite_spec], [reloadSite_spec],
      [reap_spec] describe single calls; [server_invariant] holds in every
      reachable state, and says that a session never sees a reload.
    - [SiteThreads]: the threads inside [getSite], [reloadSite] and [_resetSite],
      interleaved at their critical sections.  Alone, a thread is the definition
      of [Handler] ([threads_alone]); in every interleaving the mutex of a site
      has one holder and the server stays consistent ([threads_safe]), a site is
      loaded once by threads that get it ([site_loaded_once]), and every thread
      ends ([threads_end]).  [SiteThreadsDemo] has a schedule after which a
      reload is lost.
    - [ServerThreads] ([vae_db_handler.cpp], [reaper.cpp]): calls look sessions
      up while others open, close and reap them and sites are loaded; each call
      that found a session answers what it answers alone on it, up to the number
      of a new response ([server_calls_serial]).  The table is that of [Handler]
      ([sessions_of_open], [sessions_of_close], [sessions_of_reap]).
    - [Bus] ([bus.cpp]): [Bus::run] among those threads: it reloads, joins the
      threads it spawned and that have ended, spawns one more.  No thread object
      is deleted early or twice ([bus_safe]); every message is worked off, unless
      an exception ends the program ([bus_settles]).
    - [SiteLife] ([shared_ptr<Site>]): a relation between two servers whose sites
      have other addresses; deleting the sites that nothing points to, and using
      their addresses again, changes no answer ([freed_sites_invisible]).
    - [TypedSite], [TypedServer]: the values that the server answers have the
      types of [vae.thrift], with integers in range ([replies_typed]).
    - [Main] ([main.cpp], [logger.h], the constructors of the proxies and of the
      handler): from options and environment to the server ([main_ends]); in all
      it then does, [server_invariant]'s conclusions hold ([main_serves]).
    - [Protocol], [ThriftTypes], [Rpc], [Processor] ([vae_types.cpp], [VaeDb.cpp]),
      [ProtocolSpec], [ThriftSpec], [RpcSpec], [Service]: the generated code, as
      tables of fields and methods read by the bodies that the generated
      functions share.  Structures are read back as written; a call over the wire
      is the call itself ([rpc_transparent]); no message, well-formed or not,
      breaks the server ([served_bytes_safe]).  [Rubyd] ([VaeRubyd.cpp]) is the
      other service of [vae.thrift] on the same bodies ([rubyd_transparent]).
    - [Multiface] ([VaeDb.h], [VaeRubyd.h]): implementations as objects that
      answer by reference; [VaeDbMultiface], which runs several on one answer
      ([vaedb_multiface]), the factories and the handlers of the skeletons.
    - [Objects], [Results], [Classes] ([vae_types.h], [VaeDb.h], [VaeRubyd.h]): the
      C++ objects around those values, with the bits of [__isset]: [operator==],
      copies, [swap] ([structures_are_values]); which bits reading sets, and what
      a missing field leaves ([bits_after_reading]); the processor and the client
      on argument and result objects do what [Rpc] says ([objects_refine]).

    [Handler] calls [Session], which calls [Response], which calls [Site] and
    [Query]; [Service] makes the handlers an instance of [VaeDbIf], the class
    that [Processor] is written against.  The classes of laws are the interfaces against
    which the theorems of the callers are proved.

    ** Fuel

    Loops without a structural measure take fuel, and theorems show that it is
    enough: [replace_all] one round per character ([to_xpath_total]); [load_fuel]
    twice the nodes of the document; [evict_loop] one round per entry
    ([lru_simulates]); the loops of [Util] the length of the string.  [unused_id] takes [rand_fuel]:
    [openSession_answers] says when it suffices, since the loop ends only if [rand]
    finds a free number.  The escaping loop of the query log takes [log_fuel],
    and no fuel is enough when a character must be escaped
    ([ValueRep_string_spec]).  Readers of Thrift structures take the number of
    fields they may meet; seven is enough for what the generated code writes.

    ** Not modelled

    In [Handler] the calls of the server run one at a time; threads are modelled
    for the pools ([Pool]), for finding, reloading and resetting sites
    ([SiteThreads], [Bus]), on a site ([ConcurrentRequests], [SessionCalls]),
    inside a session ([SessionThreads]), for the table of sessions
    ([ServerThreads]) and for the numbers of the query log ([query_id_race]);
    these are separate theorems about separate steps.  Reads that the source
    makes without a mutex are taken as atomic, and requests in random order
    ([RAND()]) are outside [concurrent_requests].  [Handler] keeps a site object in
    [site_objects] after its last [shared_ptr] goes; [SiteLife] deletes it, and
    what its destructor then does is in [SiteDestroy].  Sockets, Thrift's thread
    pool and the parser of options; the lines that components other than [main]
    log.  The failures of [malloc], which abort.  [zmq.hpp], the PHP and Ruby trees and
    the build files: third-party, other languages.  Of the generated code: event
    handlers, byte counts, [operator<] (declared only) and the [main] of the
    skeletons.  [VaeDbHandler] is a [VaeDbIf] with return values: the methods
    that append to [_return] get an empty one from the processor. *)
From Stdlib Require Export Ascii ZifyBool.
From Stdlib Require String.
From stdpp Require Export base numbers gmap strings fin_maps relations pretty list.

(** * Outcomes of C++ code *)

(** What is thrown: the three Thrift exceptions that carry a message, the string
    literals thrown by the connection pools, the exceptions of the MySQL and
    memcached clients, which the proxies catch, and those of the Thrift library. *)
Inductive exn : Type :=
| InternalError (message : string)
| QueryError (message : string)
| SyntaxError (message : string)
| CStringError (message : string)
| SQLException (what : string)
| RuntimeError (what : string)
| ThriftError (what : string).

#[export] Instance exn_eq_dec : EqDecision exn.
Proof. solve_decision. Defined.

(** The result of running a piece of code: a value, an exception that
    propagates, undefined behaviour of C++ (with the reason), or the fuel of a
    loop that was not enough. *)
Inductive outcome (A : Type) : Type :=
| Ok (a : A)
| Throw (e : exn)
| UB (why : string)
| OutOfFuel.
Arguments Ok {A} a.
Arguments Throw {A} e.
Arguments UB {A} why.
Arguments OutOfFuel {A}.

#[export] Instance outcome_eq_dec {A} `{EqDecision A} : EqDecision (outcome A).
Proof. solve_decision. Defined.

Definition outcome_bind {A B} (f : A -> outcome B) (o : outcome A) : outcome B :=
  match o with
  | Ok a => f a
  | Throw e => Throw e
  | UB why => UB why
  | OutOfFuel => OutOfFuel
  end.

#[export] Instance outcome_mret : MRet outcome := @Ok.
#[export] Instance outcome_mbind : MBind outcome := @outcome_bind.
#[export] Instance outcome_fmap : FMap outcome := λ A B f, outcome_bind (λ a, Ok (f a)).

Definition is_ok {A} (o : outcome A) : Prop := ∃ a, o = Ok a.

(** "No undefined behaviour and enough fuel". *)
Definition defined {A} (o : outcome A) : Prop :=
  match o with Ok _ | Throw _ => True | UB _ | OutOfFuel => False end.

(** * Code with state, exceptions and undefined behaviour *)

(** A computation keeps the state it had reached when it throws, as a C++
    function does. *)
Definition eff (S A : Type) : Type := S -> outcome A * S.

Definition eff_ret {S A} (a : A) : eff S A := λ s, (Ok a, s).

Definition eff_bind {S A B} (f : A -> eff S B) (m : eff S A) : eff S B := λ s,
  match m s with
  | (Ok a, s') => f a s'
  | (Throw e, s') => (Throw e, s')
  | (UB why, s') => (UB why, s')
  | (OutOfFuel, s') => (OutOfFuel, s')
  end.

#[export] Instance eff_mret {S} : MRet (eff S) := @eff_ret S.
#[export] Instance eff_mbind {S} : MBind (eff S) := @eff_bind S.

Definition gets {S A} (f : S -> A) : eff S A := λ s, (Ok (f s), s).
Definition modify {S} (f : S -> S) : eff S unit := λ s, (Ok tt, f s).
Definition throw {S A} (e : exn) : eff S A := λ s, (Throw e, s).
Definition ub {S A} (why : string) : eff S A := λ s, (UB why, s).
Definition no_fuel {S A} : eff S A := λ s, (OutOfFuel, s).
Definition lift {S A} (o : outcome A) : eff S A := λ s, (o, s).
Definition when {S} (b : bool) (m : eff S unit) : eff S unit :=
  if b then m else mret ().

(** A pointer dereference: undefined behaviour when there is no object. *)
Definition deref {S A} (why : string) (o : option A) : eff S A :=
  match o with Some a => mret a | None => ub why end.

(** [for (x : l) body(x)]. *)
Fixpoint for_each {S A} (body : A -> eff S unit) (l : list A) : eff S unit :=
  match l with
  | [] => mret ()
  | x :: l' => body x ;; for_each body l'
  end.

(** [try { m } catch (sql::SQLException &e) { h }], and the same for
    [std::runtime_error]. *)
Definition catch_sql {S A} (m : eff S A) (h : eff S A) : eff S A := λ s,
  match m s with (Throw (SQLException _), s') => h s' | r => r end.
Definition catch_runtime {S A} (m : eff S A) (h : eff S A) : eff S A := λ s,
  match m s with (Throw (RuntimeError _), s') => h s' | r => r end.

(** A block with a local variable, initially [l]; the value of the block is the
    last value of the variable, also when an inner [catch] ended it early. *)
Definition with_local {S L} (l : L) (m : eff (S * L) unit) : eff S L := λ s,
  match m (s, l) with
  | (Ok _, (s', l')) => (Ok l', s')
  | (Throw e, (s', _)) => (Throw e, s')
  | (UB why, (s', _)) => (UB why, s')
  | (OutOfFuel, (s', _)) => (OutOfFuel, s')
  end.
(** Running a computation on the outer state, or on the local variable. *)
Definition outer {S L A} (m : eff S A) : eff (S * L) A := λ '(s, l),
  let '(o, s') := m s in (o, (s', l)).
Definition set_local {S L} (f : L -> L) : eff (S * L) unit := λ '(s, l), (Ok tt, (s, f l)).

(** Running a computation on a part of the state. *)
Definition zoom {S T A} (get : S -> T) (put : T -> S -> S) (m : eff T A) : eff S A :=
  λ s, let '(o, t) := m (get s) in (o, put t s).

Lemma outer_eq {S L A} (m : eff S A) s (l : L) o s' :
  m s = (o, s') → outer m (s, l) = (o, (s', l)).
Proof. intros H. unfold outer. by rewrite H. Qed.

(** ** Program logic *)

Section logic.
Context {S : Type}.

(** [triple P m Q]: from a state satisfying [P], the outcome and the final
    state of [m] satisfy [Q]. *)
Definition triple {A} (P : S -> Prop) (m : eff S A)
    (Q : outcome A -> S -> Prop) : Prop :=
  ∀ s, P s → Q (m s).1 (m s).2.

(** [m] keeps [I], whatever its outcome. *)
Definition preserves {A} (I : S -> Prop) (m : eff S A) : Prop :=
  ∀ s, I s → I (m s).2.

Lemma eff_bind_ok {A B} (m : eff S A) (f : A -> eff S B) s a s' :
  m s = (Ok a, s') → (m ≫= f) s = f a s'.
Proof. intros H. unfold mbind, eff_mbind, eff_bind. by rewrite H. Qed.

Lemma eff_bind_throw {A B} (m : eff S A) (f : A -> eff S B) s e s' :
  m s = (Throw e, s') → (m ≫= f) s = (Throw e, s').
Proof. intros H. unfold mbind, eff_mbind, eff_bind. by rewrite H. Qed.

Lemma eff_bind_inv {A B} (m : eff S A) (f : A -> eff S B) s b s' :
  (m ≫= f) s = (Ok b, s') → ∃ a s1, m s = (Ok a, s1) ∧ f a s1 = (Ok b, s').
Proof.
  unfold mbind, eff_mbind, eff_bind. destruct (m s) as [[] s1] eqn:E; naive_solver.
Qed.

Lemma eff_bind_ret {A B} (a : A) (f : A -> eff S B) s : (mret a ≫= f) s = f a s.
Proof. done. Qed.

Lemma eff_bind_gets {A B} (g : S -> A) (f : A -> eff S B) s :
  (gets g ≫= f) s = f (g s) s.
Proof. done. Qed.

Lemma eff_bind_lift {A B} (o : outcome A) (a : A) (f : A -> eff S B) s :
  o = Ok a → (lift o ≫= f) s = f a s.
Proof. by intros ->. Qed.

Lemma eff_bind_modify {B} (g : S -> S) (f : unit -> eff S B) s :
  (modify g ≫= f) s = f () (g s).
Proof. done. Qed.

Lemma eff_bind_assoc {A B C} (m : eff S A) (f : A -> eff S B) (g : B -> eff S C) s :
  ((m ≫= f) ≫= g) s = (m ≫= (λ a, f a ≫= g)) s.
Proof. unfold mbind, eff_mbind, eff_bind. by destruct (m s) as [[] ?]. Qed.

Section preserves.
Variable I : S -> Prop.

Lemma preserves_ret {A} (a : A) : preserves I (mret a : eff S A).
Proof. by intros s. Qed.
Lemma preserves_gets {A} (f : S -> A) : preserves I (gets f).
Proof. by intros s. Qed.
Lemma preserves_throw {A} e : preserves I (throw e : eff S A).
Proof. by intros s. Qed.
Lemma preserves_ub {A} w : preserves I (ub w : eff S A).
Proof. by intros s. Qed.
Lemma preserves_no_fuel {A} : preserves I (no_fuel : eff S A).
Proof. by intros s. Qed.
Lemma preserves_lift {A} (o : outcome A) : preserves I (lift o : eff S A).
Proof. by intros s. Qed.
Lemma preserves_deref {A} w (o : option A) : preserves I (deref w o : eff S A).
Proof. destruct o; by intros s. Qed.
Lemma preserves_modify f : (∀ s, I s → I (f s)) → preserves I (modify f).
Proof. by intros H s Hs; apply H. Qed.
Lemma preserves_bind {A B} (m : eff S A) (f : A -> eff S B) :
  preserves I m → (∀ a, preserves I (f a)) → preserves I (m ≫= f).
Proof.
  intros Hm Hf s Hs. specialize (Hm s Hs).
  unfold mbind, eff_mbind, eff_bind.
  destruct (m s) as [[] s1]; simpl in *; auto. by apply Hf.
Qed.
Lemma preserves_when b (m : eff S unit) : preserves I m → preserves I (when b m).
Proof. by destruct b; intros ? s Hs; auto. Qed.
Lemma preserves_for_each {A} (body : A -> eff S unit) l :
  (∀ x, preserves I (body x)) → preserves I (for_each body l).
Proof.
  intros Hb. induction l; simpl; [apply preserves_ret|].
  by apply preserves_bind.
Qed.
End preserves.
End logic.

(** [m] keeps [I] whatever its outcome, and a value it returns satisfies [Q]. *)
Definition keeps {S A} (I : S -> Prop) (m : eff S A) (Q : A -> Prop) : Prop :=
  ∀ s, I s → I (m s).2 ∧ ∀ a, (m s).1 = Ok a → Q a.

Lemma keeps_bind {S A B} (I : S → Prop) (m : eff S A) (f : A → eff S B) P Q :
  keeps I m P → (∀ a, P a → keeps I (f a) Q) → keeps I (m ≫= f) Q.
Proof.
  intros Hm Hf s Hs. destruct (Hm s Hs) as [H1 H2]. unfold mbind, eff_mbind, eff_bind.
  destruct (m s) as [[a| | |] s1]; simpl in *; [|by split..]. by apply Hf; [apply H2|].
Qed.

Lemma keeps_preserves {S A} (I : S → Prop) (m : eff S A) :
  preserves I m → keeps I m (λ _, True).
Proof. intros Hm s Hs. split; [by apply Hm|done]. Qed.

Lemma keeps_ret {S A} (I : S → Prop) (a : A) (Q : A → Prop) :
  Q a → keeps I (mret a : eff S A) Q.
Proof. intros Ha s Hs. split; [done|]. by intros ? [= <-]. Qed.

Lemma preserves_keeps {S A} (I : S → Prop) (m : eff S A) Q : keeps I m Q → preserves I m.
Proof. intros Hm s Hs. by apply Hm. Qed.

(** Two continuations of one computation. *)
Lemma eff_bind_proper {S A B} (m : eff S A) (f f' : A → eff S B) s :
  (∀ a s', f a s' = f' a s') → (m ≫= f) s = (m ≫= f') s.
Proof. intros Hf. unfold mbind, eff_mbind, eff_bind. by destruct (m s) as [[] ?]. Qed.

Create HintDb eff discriminated.
Create Rewrite HintDb effrw.
#[export] Hint Resolve preserves_ret preserves_gets preserves_throw preserves_ub
  preserves_no_fuel preserves_lift preserves_deref preserves_modify preserves_bind
  preserves_when preserves_for_each : eff.
#[export] Hint Rewrite @eff_bind_ret @eff_bind_gets @eff_bind_modify : effrw.

(** Case analysis on the first computation of a bind, keeping its equation. *)
Ltac run_case E :=
  match goal with
  | |- context [mbind _ ?m ?s] => destruct (m s) as [[?|?|?|] ?] eqn:E
  end.

(** Inversion of a run that ended with a value. *)
Ltac inv_bind H :=
  let a := fresh "a" in let s := fresh "s" in let E := fresh "E" in
  apply eff_bind_inv in H as (a & s & E & H).

(** [m], from a state in [P], ends with a value only as [Q] says. *)
Definition ensures {S A} (P : S → Prop) (m : eff S A) (Q : A → S → Prop) : Prop :=
  ∀ s a s', P s → m s = (Ok a, s') → Q a s'.

Section ensures.
Context {S : Type}.
Implicit Types P : S → Prop.

Lemma ensures_bind {A B} P (m : eff S A) (f : A → eff S B) Q R :
  ensures P m Q → (∀ a, ensures (Q a) (f a) R) → ensures P (m ≫= f) R.
Proof.
  intros Hm Hf s b s' Hs H. inv_bind H. eapply Hf; [|exact H]. by eapply Hm.
Qed.
Lemma ensures_ret {A} P (a : A) (Q : A → S → Prop) : (∀ s, P s → Q a s) → ensures P (mret a) Q.
Proof. intros HQ s b s' Hs [= <- <-]. by apply HQ. Qed.
Lemma ensures_keep {A} P (m : eff S A) : preserves P m → ensures P m (λ _, P).
Proof. intros Hm s a s' Hs E. specialize (Hm s Hs). by rewrite E in Hm. Qed.
Lemma ensures_weaken {A} P P' (m : eff S A) (Q Q' : A → S → Prop) :
  ensures P m Q → (∀ s, P' s → P s) → (∀ a s, Q a s → Q' a s) → ensures P' m Q'.
Proof. intros Hm HP HQ s a s' Hs E. eauto. Qed.
Lemma ensures_seq {A B} P (m : eff S A) (f : A → eff S B) R :
  preserves P m → (∀ a, ensures P (f a) R) → ensures P (m ≫= f) R.
Proof. intros Hm Hf. eapply ensures_bind; [by apply ensures_keep|done]. Qed.
Lemma ensures_for_each {A} P (body : A → eff S unit) l :
  (∀ x, ensures P (body x) (λ _, P)) → ensures P (for_each body l) (λ _, P).
Proof.
  intros Hb. induction l as [|x l IH]; simpl; [by apply ensures_ret|].
  eapply ensures_bind; [apply Hb|done].
Qed.
End ensures.

(** * Lists *)

Lemma filter_all {A} (P : A → Prop) `{!∀ x, Decision (P x)} (l : list A) :
  (∀ x, x ∈ l → P x) → filter P l = l.
Proof.
  induction l as [|x l IH]; intros Hl; [done|].
  rewrite filter_cons_True by (apply Hl; by left). f_equal. apply IH. intros y ?. apply Hl. by right.
Qed.

Lemma filter_none {A} (P : A → Prop) `{!∀ x, Decision (P x)} (l : list A) :
  (∀ x, x ∈ l → ¬ P x) → filter P l = [].
Proof.
  induction l as [|x l IH]; intros Hl; [done|].
  rewrite filter_cons_False by (apply Hl; by left). apply IH. intros y ?. apply Hl. by right.
Qed.

Lemma foldl_fmap {A B C} (g : C → B → C) (f : A → B) l d :
  foldl g d (f <$> l) = foldl (λ c a, g c (f a)) d l.
Proof. revert d. induction l as [|a l IH]; intros d; [done|]. apply IH. Qed.

(** * Maps *)

(** A check of every entry, for evaluation. *)
Definition all_of {K A} `{Countable K} (f : K → A → bool) (m : gmap K A) : bool :=
  forallb (λ e, f e.1 e.2) (map_to_list m).

Lemma all_of_lookup {K A} `{Countable K} (f : K → A → bool) (m : gmap K A) k a :
  all_of f m = true → m !! k = Some a → f k a = true.
Proof.
  unfold all_of. rewrite forallb_forall. intros Hf Hk.
  apply (Hf (k, a)), list_elem_of_In, elem_of_map_to_list, Hk.
Qed.

(** * Reachability *)

(** An invariant of a step relation holds in every reachable state. *)
Lemma rtc_invariant {A} (R : relation A) (I : A → Prop) x y :
  I x → (∀ a b, I a → R a b → I b) → rtc R x y → I y.
Proof. intros Hx Hs. induction 1; eauto. Qed.

(** One member of a list goes on; a list ends when its members do. *)
Definition one_of {A} (R : A → A → Prop) (l' l : list A) : Prop :=
  ∃ i x x', l !! i = Some x ∧ R x' x ∧ l' = <[i := x']> l.

Lemma one_of_cons {A} (R : A → A → Prop) x :
  Acc R x → ∀ l, Acc (one_of R) l → Acc (one_of R) (x :: l).
Proof.
  induction 1 as [x Hx IHx]. induction 1 as [l Hl IHl].
  constructor. intros l' ([|i] & x1 & x' & Hi & Hr & ->); simplify_eq/=.
  - apply IHx; [done|]. by constructor.
  - apply IHl. by exists i, x1, x'.
Qed.
Lemma one_of_finite {A} (R : A → A → Prop) (l : list A) : (∀ x, Acc R x) → Acc (one_of R) l.
Proof.
  intros HR. induction l as [|x l IH]; [constructor; by intros l' (i & x1 & x' & ? & _)|].
  by apply one_of_cons.
Qed.
