(* ===== verification/Cpp.v ===== *)
(** The parts of C++ and of its standard library that the program uses:
    machine integers, characters and [std::string] operations, [atoi],
    [strcasestr], [std::stringstream] extraction, and IEEE-754 arithmetic
    through the Standard Library's [SpecFloat]. *)
From Stdlib Require Import ZArith SpecFloat.
From Stdlib Require Export Ascii.
From Stdlib Require String.
From stdpp Require Import sorting.
From S2P Require Import Prelude.

(** * Integers *)

(** [int32_t] arithmetic overflows into undefined behaviour; conversions wrap. *)
Definition int_ok (w : Z) (z : Z) : bool := (- 2 ^ (w - 1) <=? z)%Z && (z <? 2 ^ (w - 1))%Z.
Definition int32_ok : Z -> bool := int_ok 32.
Definition wrap32 (z : Z) : Z := ((z + 2 ^ 31) `mod` 2 ^ 32 - 2 ^ 31)%Z.
Definition size_t (z : Z) : Z := (z `mod` 2 ^ 64)%Z.
Definition uint32 (z : Z) : Z := (z `mod` 2 ^ 32)%Z.

Definition int32 (z : Z) : outcome Z :=
  if int32_ok z then Ok z else UB "signed integer overflow".
Definition add32 (a b : Z) : outcome Z := int32 (a + b)%Z.
Definition sub32 (a b : Z) : outcome Z := int32 (a - b)%Z.
Definition mul32 (a b : Z) : outcome Z := int32 (a * b)%Z.

Lemma int32_ok_spec z : int32_ok z = true ↔ (- 2 ^ 31 ≤ z < 2 ^ 31)%Z.
Proof. unfold int32_ok, int_ok. rewrite andb_true_iff, Z.leb_le, Z.ltb_lt. done. Qed.

Lemma int32_id z : (- 2 ^ 31 ≤ z < 2 ^ 31)%Z → int32 z = Ok z.
Proof. intros H. unfold int32. apply int32_ok_spec in H. by rewrite H. Qed.

Lemma int32_overflow z : (2 ^ 31 ≤ z)%Z → int32 z = UB "signed integer overflow".
Proof.
  intros H. unfold int32. destruct (int32_ok z) eqn:E; [|done]. apply int32_ok_spec in E. lia.
Qed.

Lemma int32_inv z z' : int32 z = Ok z' → z' = z ∧ (- 2 ^ 31 ≤ z < 2 ^ 31)%Z.
Proof.
  unfold int32. destruct (int32_ok z) eqn:E; [|done].
  intros [= <-]. by apply int32_ok_spec in E.
Qed.

Lemma wrap32_id z : (- 2 ^ 31 ≤ z < 2 ^ 31)%Z → wrap32 z = z.
Proof. intros H. unfold wrap32. rewrite Z.mod_small; lia. Qed.

Lemma wrap32_range z : (- 2 ^ 31 ≤ wrap32 z < 2 ^ 31)%Z.
Proof. unfold wrap32. pose proof (Z.mod_pos_bound (z + 2 ^ 31) (2 ^ 32)). lia. Qed.

Lemma size_t_id z : (0 ≤ z < 2 ^ 64)%Z → size_t z = z.
Proof. apply Z.mod_small. Qed.

(** A negative [int32_t] converted to [size_t] is larger than any object size. *)
Lemma size_t_negative z : (- 2 ^ 31 ≤ z < 0)%Z → (2 ^ 63 ≤ size_t z)%Z.
Proof.
  intros H. unfold size_t. rewrite <- (Z_mod_plus_full z 1), Z.mod_small; lia.
Qed.

(** * Characters and strings *)

Definition chars : string -> list ascii := String.list_ascii_of_string.
Definition of_chars : list ascii -> string := String.string_of_list_ascii.

Lemma of_chars_chars s : of_chars (chars s) = s.
Proof. apply String.string_of_list_ascii_of_string. Qed.
Lemma chars_of_chars l : chars (of_chars l) = l.
Proof. apply String.list_ascii_of_string_of_list_ascii. Qed.
Lemma chars_app s t : chars (s +:+ t) = chars s ++ chars t.
Proof. induction s; [done|]. unfold chars in *. simpl. by f_equal. Qed.
Lemma of_chars_app k l : of_chars (k ++ l) = of_chars k +:+ of_chars l.
Proof. induction k; [done|]. unfold of_chars in *. simpl. by rewrite IHk. Qed.
Lemma chars_inj s t : chars s = chars t → s = t.
Proof. intros H. by rewrite <- (of_chars_chars s), H, of_chars_chars. Qed.

Create Rewrite HintDb chars.
#[export] Hint Rewrite of_chars_chars chars_of_chars chars_app of_chars_app : chars.

Definition code (c : ascii) : Z := Z.of_N (Ascii.N_of_ascii c).
Definition is_digit (c : ascii) : bool := (48 <=? code c)%Z && (code c <=? 57)%Z.
(** [isspace] in the C locale: space, \t, \n, \v, \f, \r. *)
Definition is_space (c : ascii) : bool :=
  (code c =? 32)%Z || ((9 <=? code c)%Z && (code c <=? 13)%Z).
(** [tolower] in the C locale. *)
Definition to_lower (c : ascii) : ascii :=
  if (65 <=? code c)%Z && (code c <=? 90)%Z
  then Ascii.ascii_of_N (Ascii.N_of_ascii c + 32) else c.

(** What [isdigit] returns for a digit: the C standard only promises a
    non-zero value. *)
Class CLib := {
  isdigit_true : Z;
  isdigit_true_nonzero : isdigit_true ≠ 0%Z;
}.

Definition isdigit `{CLib} (c : ascii) : Z := if is_digit c then isdigit_true else 0%Z.

(** Lexicographic comparison of [std::string], byte by byte, unsigned. *)
Fixpoint str_lt (s t : list ascii) : bool :=
  match s, t with
  | _, [] => false
  | [], _ :: _ => true
  | a :: s', b :: t' =>
      if (code a <? code b)%Z then true
      else if (code b <? code a)%Z then false else str_lt s' t'
  end.

(** The entries of a [std::map], in key order. *)
Definition key_le (a b : string * string) : Prop := str_lt (chars b.1) (chars a.1) = false.
#[export] Instance key_le_dec a b : Decision (key_le a b).
Proof. unfold key_le. apply _. Defined.
Definition entries (m : gmap string string) : list (string * string) :=
  merge_sort key_le (map_to_list m).

Lemma entries_perm m : entries m ≡ₚ map_to_list m.
Proof. apply merge_sort_Permutation. Qed.

(** [is_prefix_of p s]: [s] starts with [p]. *)
Fixpoint is_prefix_of (p s : list ascii) : bool :=
  match p, s with
  | [], _ => true
  | a :: p', b :: s' => bool_decide (a = b) && is_prefix_of p' s'
  | _ :: _, [] => false
  end.

(** [std::string::find(search, loc)]: the first position at or after [loc]
    where [search] occurs; [None] is [npos]. *)
Fixpoint find_at (search s : list ascii) (pos : nat) : option nat :=
  if is_prefix_of search s then Some pos
  else match s with [] => None | _ :: s' => find_at search s' (S pos) end.

Definition str_find (s search : list ascii) (loc : nat) : option nat :=
  if decide (length s < loc) then None else find_at search (drop loc s) loc.

(** [std::string::replace(pos, n, with)]. *)
Definition str_splice (s : list ascii) (pos n : nat) (w : list ascii) : list ascii :=
  take pos s ++ w ++ drop (pos + n) s.

(** [strcasestr(haystack, needle) != NULL] (C strings end at the first NUL). *)
Definition c_str (s : string) : list ascii :=
  let fix go l := match l with
    | [] => []
    | c :: l' => if (code c =? 0)%Z then [] else c :: go l'
    end in go (chars s).
Fixpoint occurs (search s : list ascii) : bool :=
  is_prefix_of search s || match s with [] => false | _ :: s' => occurs search s' end.
Definition strcasestr (haystack needle : string) : bool :=
  occurs (to_lower <$> c_str needle) (to_lower <$> c_str haystack).
Definition strcasecmp_eq (s t : string) : bool :=
  bool_decide (to_lower <$> c_str s = to_lower <$> c_str t).
Definition strstr (haystack needle : string) : bool :=
  occurs (c_str needle) (c_str haystack).

(** [while (ss >> buf)]: the maximal runs of non-blank characters. *)
Fixpoint words_go (cur : list ascii) (l : list ascii) : list (list ascii) :=
  match l with
  | [] => match cur with [] => [] | _ => [cur] end
  | c :: l' =>
      if is_space c
      then match cur with [] => words_go [] l' | _ => cur :: words_go [] l' end
      else words_go (cur ++ [c]) l'
  end.
Definition stream_words (s : string) : list string := of_chars <$> words_go [] (chars s).

(** [atoi] as glibc computes it: [strtol] saturates at [long], and the result
    is converted to [int]. *)
Fixpoint digits_value (acc : Z) (l : list ascii) : Z :=
  match l with
  | c :: l' => if is_digit c then digits_value (acc * 10 + (code c - 48))%Z l' else acc
  | [] => acc
  end.
Fixpoint skip_space (l : list ascii) : list ascii :=
  match l with c :: l' => if is_space c then skip_space l' else l | [] => [] end.
Definition clamp64 (z : Z) : Z := Z.max (- 2 ^ 63) (Z.min z (2 ^ 63 - 1)).
Definition strtol (s : string) : Z :=
  clamp64 match skip_space (c_str s) with
          | "-"%char :: l => (- digits_value 0 l)%Z
          | "+"%char :: l => digits_value 0 l
          | l => digits_value 0 l
          end.
Definition atoi (s : string) : Z := wrap32 (strtol s).

Example atoi_1 : atoi " -12ab" = (-12)%Z. Proof. vm_compute. reflexivity. Qed.
Example atoi_2 : atoi "all" = 0%Z. Proof. vm_compute. reflexivity. Qed.
Example atoi_3 : atoi "4294967297" = 1%Z. Proof. vm_compute. reflexivity. Qed.
Example words_1 : stream_words "  foo bar " = ["foo"; "bar"].
Proof. vm_compute. reflexivity. Qed.

(** * Floating point *)

(** [float] and [double] are the IEEE binary32 and binary64 of [SpecFloat],
    rounding to nearest even. *)
Definition double_sub : spec_float -> spec_float -> spec_float := SFsub 53 1024.
Definition float_of_int (z : Z) : spec_float := binary_normalize 24 128 z 0 false.
Definition float_div : spec_float -> spec_float -> spec_float := SFdiv 24 128.

(** [(int)ceil(f)]: undefined behaviour when the ceiling is not an [int]. *)
Definition int_of_ceil (f : spec_float) : outcome Z :=
  match f with
  | S754_zero _ => Ok 0%Z
  | S754_finite sgn m e =>
      let v := if sgn then Zneg m else Zpos m in
      let c := if (0 <=? e)%Z then (v * 2 ^ e)%Z else (- ((- v) / 2 ^ (- e)))%Z in
      if int32_ok c then Ok c else UB "float to int conversion out of range"
  | _ => UB "float to int conversion out of range"
  end.

Definition sf_finite (f : spec_float) : bool :=
  match f with S754_zero _ | S754_finite _ _ _ => true | _ => false end.

Example ceil_1 : int_of_ceil (float_div (float_of_int 7) (float_of_int 2)) = Ok 4%Z.
Proof. vm_compute. reflexivity. Qed.
Example ceil_2 : int_of_ceil (float_div (float_of_int (-7)) (float_of_int 2)) = Ok (-3)%Z.
Proof. vm_compute. reflexivity. Qed.
Example ceil_3 : is_ok (int_of_ceil (float_div (float_of_int 7) (float_of_int 0))) → False.
Proof. vm_compute. by intros [? ?]. Qed.

(** Swapping the operands of a subtraction only flips the sign. *)
Lemma SFabs_round_aux s1 s2 prec emax m e l :
  SFabs (binary_round_aux prec emax s1 m e l) = SFabs (binary_round_aux prec emax s2 m e l).
Proof.
  unfold binary_round_aux.
  destruct (shr_fexp _ _ m e l) as [mrs' e'].
  destruct (shr_fexp _ _ _ e' loc_Exact) as [mrs'' e''].
  destruct (shr_m mrs''); try done. by destruct (_ <=? _)%Z.
Qed.

Lemma SFabs_normalize_opp prec emax m e :
  SFabs (binary_normalize prec emax m e false)
  = SFabs (binary_normalize prec emax (- m) e false).
Proof.
  destruct m; simpl; try done; unfold binary_round;
    destruct (shl_align _ _ _); apply SFabs_round_aux.
Qed.

Lemma double_sub_sym a b :
  sf_finite a → sf_finite b → SFabs (double_sub a b) = SFabs (double_sub b a).
Proof.
  destruct a as [sa|?| |sa ma ea], b as [sb|?| |sb mb eb]; try done; intros _ _.
  - by destruct sa, sb.
  - unfold double_sub, SFsub. rewrite SFabs_normalize_opp.
    rewrite (Z.min_comm eb ea). do 2 f_equal. lia.
Qed.

Lemma SFcompare_swap a b : SFcompare b a = CompOpp <$> SFcompare a b.
Proof.
  destruct a as [[]|[]| |[] ma ea], b as [[]|[]| |[] mb eb]; try done; simpl;
    rewrite (Z.compare_antisym ea eb); destruct (ea ?= eb)%Z; try done; simpl;
    change (Pos.compare_cont Eq mb ma) with (mb ?= ma)%positive;
    rewrite (Pos.compare_antisym ma mb);
    change (Pos.compare_cont Eq ma mb) with (ma ?= mb)%positive;
    by destruct (ma ?= mb)%positive.
Qed.

Lemma SFcompare_eq_sub a b :
  sf_finite a → sf_finite b → SFcompare a b = Some Eq →
  ∃ s, SFabs (double_sub a b) = S754_zero s.
Proof.
  destruct a as [sa|?| |sa ma ea], b as [sb|?| |sb mb eb]; try done.
  - intros _ _ _. by destruct sa, sb; eexists.
  - by destruct sb.
  - by destruct sa.
  - intros _ _. simpl. intros H.
    assert (S754_finite sa ma ea = S754_finite sb mb eb) as E.
    { destruct sa, sb; try done; destruct (ea ?= eb)%Z eqn:Ee; try done;
        apply Z.compare_eq in Ee as ->;
        change (Pos.compare_cont Eq ma mb) with (ma ?= mb)%positive in H;
        destruct (ma ?= mb)%positive eqn:Em; try done;
        by apply Pos.compare_eq in Em as ->. }
    injection E as -> -> ->. exists false. unfold double_sub, SFsub.
    by rewrite Z.sub_diag.
Qed.
