(* ===== verification/Extern.v ===== *)
(** Interfaces to the string libraries the program links with: Boost's string
    algorithms and [lexical_cast], and PCRE's C++ wrapper.  Their code is not
    part of the repository, so each is a class of operations; the laws that a
    theorem uses are classes of their own, and [BoostRef] is a concrete
    instance on which the witnesses run. *)
From Stdlib Require Import ZArith SpecFloat.
From S2P Require Import Prelude Cpp.

(** * Boost *)

Class Boost := {
  (** [boost::split(out, s, boost::is_any_of(seps))]. *)
  split_any_of : string -> string -> list string;
  (** [boost::join(parts, sep)]. *)
  join : list string -> string -> string;
  (** [boost::lexical_cast<double>(s)]; [None] is [bad_lexical_cast]. *)
  lexical_cast_double : list ascii -> option spec_float;
}.

(** The documented behaviour of [split] and [join] on one separator. *)
Class BoostLaws `{Boost} : Prop := {
  split_nonempty seps s : split_any_of seps s ≠ [];
  join_split c s :
    join (split_any_of (String c EmptyString) s) (String c EmptyString) = s;
  join_single s sep : join [s] sep = s;
}.

(** * PCRE *)

Class Pcre := {
  (** [RE(pattern, caseless).Replace(rewrite, &s)]: the new string when the
      pattern matched. *)
  re_replace : bool -> string -> string -> string -> option string;
  (** [RE(pattern, caseless).FullMatch(s, &group1, ...)]. *)
  re_full_match : bool -> string -> string -> option (list string);
}.

(** * A concrete Boost *)

Module BoostRef.
Fixpoint split_go (seps cur l : list ascii) : list string :=
  match l with
  | [] => [of_chars cur]
  | c :: l' =>
      if decide (c ∈ seps) then of_chars cur :: split_go seps [] l'
      else split_go seps (cur ++ [c]) l'
  end.
Definition split (seps s : string) : list string := split_go (chars seps) [] (chars s).
Fixpoint join (parts : list string) (sep : string) : string :=
  match parts with
  | [] => ""
  | [p] => p
  | p :: ps => p +:+ sep +:+ join ps sep
  end.

(** Decimal literals [ddd] and [ddd.ddd], correctly rounded for values whose
    mantissa is exact. *)
Fixpoint parse_dec (acc : Z) (frac : option Z) (l : list ascii) : option (Z * Z) :=
  match l with
  | [] => Some (acc, default 0%Z frac)
  | c :: l' =>
      if is_digit c then parse_dec (acc * 10 + (code c - 48)) (Z.succ <$> frac) l'
      else if (code c =? 46)%Z then
        match frac with None => parse_dec acc (Some 0%Z) l' | Some _ => None end
      else None
  end.
Definition cast (l : list ascii) : option spec_float :=
  match l with
  | [] => None
  | _ =>
      match parse_dec 0 None l with
      | Some (m, k) =>
          let d := SFdiv 53 1024 (binary_normalize 53 1024 m 0 false)
                                 (binary_normalize 53 1024 (10 ^ k) 0 false) in
          if sf_finite d then Some d else None
      | None => None
      end
  end.

#[export] Instance boost_ref : Boost :=
  {| split_any_of := split; Extern.join := join; lexical_cast_double := cast |}.

Lemma split_go_nonempty seps cur l : split_go seps cur l ≠ [].
Proof. revert cur. induction l; intros cur; simpl; [done|]. by case_decide. Qed.

Lemma join_cons p ps sep : ps ≠ [] → join (p :: ps) sep = p +:+ sep +:+ join ps sep.
Proof. by destruct ps. Qed.

Lemma join_split_go c cur l :
  join (split_go [c] cur l) (String c EmptyString) = of_chars (cur ++ l).
Proof.
  revert cur. induction l as [|d l IH]; intros cur; simpl.
  - by rewrite app_nil_r.
  - case_decide as Hd.
    + rewrite join_cons, IH by apply split_go_nonempty.
      apply list_elem_of_singleton in Hd as ->. by rewrite (of_chars_app cur (c :: l)).
    + rewrite IH, <- app_assoc. done.
Qed.

Lemma cast_finite t d : cast t = Some d → sf_finite d.
Proof.
  unfold cast. destruct t; [done|]. destruct (parse_dec _ _ _) as [[m k]|]; [|done].
  cbv zeta. set (q := SFdiv _ _ _ _). destruct (sf_finite q) eqn:E; [|done].
  intros [= <-]. by rewrite E.
Qed.

#[export] Instance boost_ref_laws : BoostLaws.
Proof.
  split; simpl.
  - intros ??. apply split_go_nonempty.
  - intros c s. unfold split. change (chars (String c EmptyString)) with [c].
    rewrite join_split_go. apply of_chars_chars.
  - done.
Qed.
End BoostRef.
