(* ===== verification/Util.v ===== *)
(** [cpp/util.cpp]: [str_replace], the tokenizer, and the natural-order
    string comparison [str_compare_nat] that sorts query results. *)
From Stdlib Require Import ZArith SpecFloat.
From S2P Require Import Prelude Cpp Extern.

(** * [str_replace] *)

(** [while (i+j<strleng && j<sealeng && subject[i+j]==search[j]) j++;] *)
Fixpoint replace_match (fuel : nat) (search subject : list ascii) (strleng sealeng : Z)
    (i j : nat) : nat :=
  match fuel with
  | O => j
  | S fuel =>
      if (Z.of_nat (i + j) <? strleng)%Z && (Z.of_nat j <? sealeng)%Z
         && bool_decide (subject !! (i + j) = search !! j)
      then replace_match fuel search subject strleng sealeng i (S j)
      else j
  end.

(** [for (int i = 0, j = 0; i < strleng; j = 0) ...] *)
Fixpoint replace_loop (fuel : nat) (search rep subject : list ascii)
    (strleng sealeng : Z) (i : nat) (buffer : list ascii) : outcome (list ascii) :=
  match fuel with
  | O => OutOfFuel
  | S fuel =>
      if (Z.of_nat i <? strleng)%Z then
        let j := replace_match (S (length search)) search subject strleng sealeng i 0 in
        if (Z.of_nat j =? sealeng)%Z
        then replace_loop fuel search rep subject strleng sealeng (i + j) (buffer ++ rep)
        else replace_loop fuel search rep subject strleng sealeng (S i)
               (buffer ++ option_list (subject !! i))
      else Ok buffer
  end.

Definition str_replace (search rep subject : list ascii) : outcome (list ascii) :=
  let sealeng := wrap32 (Z.of_nat (length search)) in
  let strleng := wrap32 (Z.of_nat (length subject)) in
  if (sealeng =? 0)%Z then Ok subject
  else replace_loop (S (length subject)) search rep subject strleng sealeng 0 [].

(** * Tokens *)

Section tokens.
Context {clib : CLib}.

(** [while(b < l && (isdigit(s.at(b))^strmode)) ++b; return b;] *)
Fixpoint token_end_go (strmode : bool) (rest : list ascii) (b : nat) : nat :=
  match rest with
  | c :: rest' =>
      if bool_decide (Z.lxor (isdigit c) (Z.b2z strmode) ≠ 0%Z)
      then token_end_go strmode rest' (S b) else b
  | [] => b
  end.
Definition token_end (s : list ascii) (b : nat) (strmode : bool) : nat :=
  token_end_go strmode (drop b s) b.

(** [do { e = token_end(s, b=e, mstr = !mstr); tokens.push_back(s.substr(b, e-b)); }
    while (b < l);] *)
Fixpoint tokenize_loop (fuel : nat) (s : list ascii) (e : nat) (mstr : bool)
    (tokens : list (list ascii)) : outcome (list (list ascii)) :=
  match fuel with
  | O => OutOfFuel
  | S fuel =>
      let b := e in
      let mstr := negb mstr in
      let e := token_end s b mstr in
      let tokens := tokens ++ [take (e - b) (drop b s)] in
      if decide (b < length s) then tokenize_loop fuel s e mstr tokens else Ok tokens
  end.
Definition tokenize_string (s : list ascii) : outcome (list (list ascii)) :=
  tokenize_loop (2 * length s + 2) s 0 false [].

(** [merge_floats]: [l "." r] becomes one token when [l] and [r] are not
    empty; the last two tokens are copied. *)
Fixpoint merge_floats_go (skip : nat) (tokens : list (list ascii)) : list (list ascii) :=
  match tokens with
  | l :: ((c :: r :: _) as rest) =>
      match skip with
      | S skip => merge_floats_go skip rest
      | O =>
          if bool_decide (c = ["."%char]) && bool_decide (l ≠ [])
             && bool_decide (r ≠ [])
          then (l ++ c ++ r) :: merge_floats_go 2 rest
          else l :: merge_floats_go 0 rest
      end
  | _ => drop skip tokens
  end.
Definition merge_floats (tokens : list (list ascii)) : list (list ascii) :=
  merge_floats_go 0 tokens.
End tokens.

(** * [str_compare_nat] *)

(** [#define EPS 1e-10], as the nearest double. *)
Definition EPS : spec_float := S754_finite false 7737125245533627 (-86).

Section compare.
Context {clib : CLib} {boost : Boost}.

Definition is_empty (t : list ascii) : bool := bool_decide (t = []).

(** The numeric comparison inside the [try]: [Some None] is [continue],
    [None] is [bad_lexical_cast]. *)
Definition compare_double (stok1 stok2 : list ascii) : option (option Z) :=
  match lexical_cast_double stok1, lexical_cast_double stok2 with
  | Some d1, Some d2 =>
      Some (if SFltb (SFabs (double_sub d1 d2)) EPS then None
            else Some (if SFltb d1 d2 then 1%Z else (-1)%Z))
  | _, _ => None
  end.

(** One round of the loop; [None] is [continue]. *)
Definition compare_token (mstr : bool) (stok1 stok2 : list ascii) : option Z :=
  if is_empty stok1 && is_empty stok2 then None
  else if is_empty stok1 || is_empty stok2 then
    Some (if decide (length stok1 < length stok2) then 1%Z else (-1)%Z)
  else
    match (if mstr then None else compare_double stok1 stok2) with
    | Some r => r
    | None =>
        if bool_decide (stok1 = stok2) then None
        else Some (if str_lt stok1 stok2 then 1%Z else (-1)%Z)
    end.

Fixpoint compare_tokens (mstr : bool) (t1 t2 : list (list ascii)) : Z :=
  match t1, t2 with
  | a :: t1', b :: t2' =>
      let mstr := negb mstr in
      match compare_token mstr a b with
      | Some r => r
      | None => compare_tokens mstr t1' t2'
      end
  | [], [] => 0%Z
  | [], _ :: _ => 1%Z
  | _ :: _, [] => (-1)%Z
  end.

Definition str_compare_nat (s1 s2 : string) : outcome Z :=
  tok1 ← tokenize_string (chars s1);
  tok2 ← tokenize_string (chars s2);
  Ok (compare_tokens false (merge_floats tok1) (merge_floats tok2)).
End compare.

(** * A C library whose [isdigit] returns 1 (GCC's built-in) *)

#[export] Instance clib_builtin : CLib := {| isdigit_true := 1%Z; isdigit_true_nonzero := ltac:(done) |}.

(** ** [str_replace] replaces the leftmost occurrences, left to right *)

Inductive Replaced (search rep : list ascii) : list ascii → list ascii → Prop :=
| Replaced_nil : Replaced search rep [] []
| Replaced_hit t u :
    Replaced search rep t u → Replaced search rep (search ++ t) (rep ++ u)
| Replaced_miss c t u :
    is_prefix_of search (c :: t) = false →
    Replaced search rep t u → Replaced search rep (c :: t) (c :: u).

Lemma is_prefix_of_spec p s : is_prefix_of p s = true ↔ p `prefix_of` s.
Proof.
  revert s. induction p as [|a p IH]; intros [|b s]; simpl.
  - split; [intros _; apply prefix_nil|done].
  - split; [intros _; apply prefix_nil|done].
  - split; [done|intros H; by apply prefix_nil_not in H].
  - rewrite andb_true_iff, bool_decide_eq_true, IH. split.
    + intros [-> H]. by apply prefix_cons.
    + intros H. split; [by eapply prefix_cons_inv_1|by eapply prefix_cons_inv_2].
Qed.

(** The inner loop counts the matching characters. *)
Lemma replace_match_spec fuel search subject i j sl :
  Z.of_nat (length subject) = sl →
  length search - j < fuel → j ≤ length search → i + j ≤ length subject →
  replace_match fuel search subject sl (Z.of_nat (length search)) i j = length search
  ↔ drop j search `prefix_of` drop (i + j) subject.
Proof.
  intros <-. revert j. induction fuel as [|fuel IH]; intros j Hf Hj Hi; [lia|].
  simpl. destruct (decide (j = length search)) as [->|Hne].
  { replace (Z.of_nat (length search) <? Z.of_nat (length search))%Z with false by lia.
    rewrite andb_false_r, andb_false_l.
    rewrite drop_all. split; [intros _; apply prefix_nil|done]. }
  destruct (lookup_lt_is_Some_2 search j ltac:(lia)) as [c Hc].
  rewrite (drop_S search c j Hc).
  replace (Z.of_nat j <? Z.of_nat (length search))%Z with true by lia.
  rewrite andb_true_r. destruct (decide (i + j = length subject)) as [He|Hlt].
  { replace (Z.of_nat (i + j) <? Z.of_nat (length subject))%Z with false by lia.
    rewrite He, drop_all, andb_false_l.
    split; [intros ?; lia|intros H; by apply prefix_nil_not in H]. }
  replace (Z.of_nat (i + j) <? Z.of_nat (length subject))%Z with true by lia.
  destruct (lookup_lt_is_Some_2 subject (i + j) ltac:(lia)) as [d Hd].
  rewrite (drop_S subject d (i + j) Hd), Hd, Hc. simpl. case_bool_decide as E.
  - injection E as <-. rewrite IH, Nat.add_succ_r by lia.
    split; [apply prefix_cons|apply prefix_cons_inv_2].
  - split; [intros ?; lia|]. intros H. apply prefix_cons_inv_1 in H. congruence.
Qed.

Lemma replace_loop_spec fuel search rep subject i buf :
  search ≠ [] → i ≤ length subject → length subject - i < fuel →
  ∃ out, replace_loop fuel search rep subject (Z.of_nat (length subject))
           (Z.of_nat (length search)) i buf = Ok (buf ++ out)
       ∧ Replaced search rep (drop i subject) out.
Proof.
  intros Hs. revert i buf. induction fuel as [|fuel IH]; intros i buf Hi Hf; [lia|].
  cbn [replace_loop]. destruct (decide (i = length subject)) as [->|Hne].
  { replace (Z.of_nat (length subject) <? Z.of_nat (length subject))%Z with false by lia.
    exists []. rewrite app_nil_r, drop_all. split; [done|constructor]. }
  replace (Z.of_nat i <? Z.of_nat (length subject))%Z with true by lia.
  pose proof (replace_match_spec (S (length search)) search subject i 0 _ eq_refl
    ltac:(lia) ltac:(lia) ltac:(lia)) as M.
  rewrite drop_0, Nat.add_0_r in M.
  assert (0 < length search) by (destruct search; simpl; [done|lia]).
  destruct (Z.eqb_spec (Z.of_nat (replace_match (S (length search)) search subject
    (Z.of_nat (length subject)) (Z.of_nat (length search)) i 0))
    (Z.of_nat (length search))) as [E|E].
  - apply Nat2Z.inj in E. pose proof (proj1 M E) as [t Ht]. rewrite E.
    assert (length (drop i subject) = length search + length t) as Hl
      by (rewrite Ht, length_app; done).
    rewrite length_drop in Hl.
    destruct (IH (i + length search) (buf ++ rep)) as (out & -> & HR); [lia|lia|].
    exists (rep ++ out). rewrite app_assoc. split; [done|].
    rewrite Ht. constructor.
    by rewrite <- drop_drop, Ht, drop_app_length in HR.
  - destruct (lookup_lt_is_Some_2 subject i ltac:(lia)) as [c Hc]. rewrite Hc. simpl.
    destruct (IH (S i) (buf ++ [c])) as (out & -> & HR); [lia|lia|].
    exists (c :: out). rewrite <- app_assoc. split; [done|].
    rewrite (drop_S subject c i Hc) in *. constructor; [|done].
    apply not_true_is_false. intros Hp%is_prefix_of_spec. apply E. by rewrite (proj2 M Hp).
Qed.

(** [str_replace] terminates and replaces every leftmost occurrence of a
    non-empty search string, for strings shorter than 2^31. *)
Theorem str_replace_correct search rep subject :
  search ≠ [] → (Z.of_nat (length search) < 2 ^ 31)%Z →
  (Z.of_nat (length subject) < 2 ^ 31)%Z →
  ∃ out, str_replace search rep subject = Ok out ∧ Replaced search rep subject out.
Proof.
  intros Hs H1 H2. unfold str_replace. rewrite !wrap32_id by lia.
  destruct (Z.eqb_spec (Z.of_nat (length search)) 0); [destruct search; simpl in *; [done|lia]|].
  apply (replace_loop_spec (S (length subject)) search rep subject 0 []); [done|lia|lia].
Qed.

Example str_replace_correct_witness :
  ∃ out, str_replace (chars "--") (chars "-") (chars "a--b---c") = Ok out
       ∧ Replaced (chars "--") (chars "-") (chars "a--b---c") out ∧ out = chars "a-b--c".
Proof.
  destruct (str_replace_correct (chars "--") (chars "-") (chars "a--b---c")) as (out & E & Hr);
    [discriminate|reflexivity|reflexivity|].
  exists out. split; [exact E|]. split; [exact Hr|].
  assert (Ok (chars "a-b--c") = Ok out) as [=<-] by (rewrite <- E; vm_compute; reflexivity). reflexivity.
Defined.

(** ** The tokenizer *)

Section tokens_spec.
Context {clib : CLib}.

(** The test of [token_end]'s loop. *)
Definition keep (m : bool) (c : ascii) : Prop := Z.lxor (isdigit c) (Z.b2z m) ≠ 0%Z.

Lemma keep_one_mode c : keep true c ∨ keep false c.
Proof.
  unfold keep. simpl. rewrite Z.lxor_0_r.
  destruct (decide (isdigit c = 0%Z)) as [->|]; [left; done|by right].
Qed.

Lemma token_end_spec m rest b :
  ∃ k tl, rest = k ++ tl ∧ token_end_go m rest b = b + length k ∧ Forall (keep m) k
        ∧ (∀ c tl', tl = c :: tl' → ¬ keep m c).
Proof.
  revert b. induction rest as [|c rest IH]; intros b; simpl.
  { exists [], []. simpl. split_and!; [done|lia|done|done]. }
  case_bool_decide as E.
  - destruct (IH (S b)) as (k & tl & -> & -> & Hk & Ht).
    exists (c :: k), tl. simpl. split_and!; [done|lia|by constructor|done].
  - exists [], (c :: rest). simpl. split_and!; [done|lia|done|].
    intros ? ? [= <- <-] Hk. by apply Hk.
Qed.

(** Tokens in alternating modes, starting with mode [m]. *)
Fixpoint alternates (m : bool) (toks : list (list ascii)) : Prop :=
  match toks with
  | [] => True
  | t :: toks' => Forall (keep m) t ∧ alternates (negb m) toks'
  end.

Lemma tokenize_loop_spec fuel s e mstr acc :
  e ≤ length s →
  (2 * (length s - e) + 2 ≤ fuel
   ∨ (2 * (length s - e) + 1 ≤ fuel ∧ ∃ c, s !! e = Some c ∧ keep (negb mstr) c)) →
  ∃ new, tokenize_loop fuel s e mstr acc = Ok (acc ++ new)
       ∧ concat new = drop e s ∧ alternates (negb mstr) new ∧ new ≠ [].
Proof.
  revert e mstr acc. induction fuel as [|fuel IH]; intros e mstr acc He Hf; [lia|].
  cbn [tokenize_loop]. unfold token_end.
  destruct (token_end_spec (negb mstr) (drop e s) e) as (k & tl & Hkt & -> & Hk & Ht).
  rewrite Hkt. replace (e + length k - e) with (length k) by lia. rewrite take_app_length.
  pose proof (f_equal length Hkt) as Hl. rewrite length_app, length_drop in Hl.
  case_decide as Hlt; last first.
  { exists [k]. simpl. rewrite app_nil_r. assert (tl = []) as -> by (destruct tl; simpl in *; [done|lia]).
    rewrite app_nil_r. auto. }
  destruct (IH (e + length k) (negb mstr) (acc ++ [k])) as (new & -> & Hc & Ha & Hn).
  - lia.
  - destruct k as [|c0 k]; [|left; simpl in *; destruct Hf as [?|[? _]]; lia].
    right. simpl in *. destruct tl as [|c tl]; [simpl in *; lia|].
    assert (s !! e = Some c) as Hsc.
    { rewrite <- (Nat.add_0_r e), <- lookup_drop, Hkt. done. }
    specialize (Ht c tl eq_refl). split.
    + destruct Hf as [?|[_ (c' & ? & ?)]]; [lia|]. by simplify_eq.
    + exists c. rewrite Nat.add_0_r. split; [done|].
      by destruct (keep_one_mode c), mstr.
  - exists (k :: new). rewrite <- app_assoc. simpl. split_and!; [done| |done|done|done].
    by rewrite Hc, <- drop_drop, Hkt, drop_app_length.
Qed.

Lemma tokenize_string_correct s :
  ∃ toks, tokenize_string s = Ok toks ∧ concat toks = s ∧ alternates true toks ∧ toks ≠ [].
Proof.
  unfold tokenize_string.
  destruct (tokenize_loop_spec (2 * length s + 2) s 0 false []) as (toks & -> & ? & ? & ?);
    [lia|left; lia|].
  rewrite drop_0 in *. eauto.
Qed.

Lemma merge_floats_go_0 l c r toks :
  merge_floats_go 0 (l :: c :: r :: toks)
  = if bool_decide (c = ["."%char]) && bool_decide (l ≠ []) && bool_decide (r ≠ [])
    then (l ++ c ++ r) :: merge_floats_go 2 (c :: r :: toks)
    else l :: merge_floats_go 0 (c :: r :: toks).
Proof. done. Qed.
Lemma merge_floats_go_S k l c r toks :
  merge_floats_go (S k) (l :: c :: r :: toks) = merge_floats_go k (c :: r :: toks).
Proof. done. Qed.

Lemma concat_merge_floats_go k toks : concat (merge_floats_go k toks) = concat (drop k toks).
Proof.
  revert k. induction toks as [|l [|c [|r toks]] IH]; intros k; [done..|].
  destruct k as [|k]; [rewrite merge_floats_go_0|rewrite merge_floats_go_S; apply IH].
  destruct (_ && _ && _); cbn [concat]; rewrite IH; simpl; by rewrite <- ?app_assoc.
Qed.

Lemma merge_floats_concat toks : concat (merge_floats toks) = concat toks.
Proof. apply concat_merge_floats_go. Qed.

(** After merging, the digit positions also hold [digits.digits]. *)
Definition number_token (t : list ascii) : Prop :=
  Forall (keep false) t ∨
  ∃ l r, t = l ++ ["."%char] ++ r ∧ l ≠ [] ∧ r ≠ [] ∧ Forall (keep false) l ∧ Forall (keep false) r.

Fixpoint merged (m : bool) (toks : list (list ascii)) : Prop :=
  match toks with
  | [] => True
  | t :: toks' =>
      (if m then Forall (keep true) t else number_token t) ∧ merged (negb m) toks'
  end.

Fixpoint flip (k : nat) (m : bool) : bool :=
  match k with O => m | S k => flip k (negb m) end.

Lemma alternates_merged m toks : alternates m toks → merged m toks.
Proof.
  revert m. induction toks as [|t toks IH]; intros [] Ha; simpl in *; try done;
    destruct Ha; split; auto. by left.
Qed.

Lemma alternates_drop k m toks : alternates m toks → alternates (flip k m) (drop k toks).
Proof.
  revert m toks. induction k as [|k IH]; intros m [|t toks]; simpl; try done.
  intros [_ Ha]. by apply IH.
Qed.

Lemma dot_not_digit : ¬ keep false "."%char.
Proof. unfold keep, isdigit. simpl. intros []. done. Qed.

Lemma merge_floats_go_merged k m toks :
  alternates m toks → merged (flip k m) (merge_floats_go k toks).
Proof.
  revert k m. induction toks as [|l toks IH]; intros k m Ha; [by destruct k|].
  destruct toks as [|c [|r toks]];
    [by apply alternates_merged, alternates_drop..|].
  destruct Ha as [Hl Ha].
  destruct k as [|k]; [rewrite merge_floats_go_0|rewrite merge_floats_go_S; exact (IH k (negb m) Ha)].
  cbn [flip].
  destruct (_ && _ && _) eqn:E; [|split; [destruct m; [done|by left]|by apply (IH 0)]].
  rewrite !andb_true_iff, !bool_decide_eq_true in E. destruct E as [[-> Hln] Hrn].
  pose proof (IH 2 (negb m) Ha) as Hm. destruct Ha as [Hc [Hr _]].
  destruct m; [by apply Forall_inv, dot_not_digit in Hc|].
  split; [|done]. right. by exists l, r.
Qed.

(** With an [isdigit] that returns 1, the modes are what they mean. *)
Definition digit_free (t : list ascii) : Prop := Forall (λ c, is_digit c = false) t.
Definition decimal (t : list ascii) : Prop :=
  Forall (λ c, is_digit c = true) t ∨
  ∃ l r, t = l ++ ["."%char] ++ r ∧ l ≠ [] ∧ r ≠ []
       ∧ Forall (λ c, is_digit c = true) l ∧ Forall (λ c, is_digit c = true) r.

Lemma keep_digit m c : isdigit_true = 1%Z → keep m c → is_digit c = negb m.
Proof.
  unfold keep, isdigit. intros E. rewrite E.
  by destruct (is_digit c), m; simpl; intros Hk; try (by destruct Hk).
Qed.

Lemma merged_lookup m toks i t :
  isdigit_true = 1%Z → merged m toks → toks !! i = Some t →
  if flip i m then digit_free t else decimal t.
Proof.
  intros E. revert m i. induction toks as [|t' toks IH]; intros m [|i]; simpl; try done.
  - intros [Ht _] [= ->]. destruct m.
    + eapply Forall_impl; [exact Ht|]. intros c. by apply (keep_digit true).
    + destruct Ht as [Ht|(l & r & -> & ? & ? & Hl & Hr)]; [left|right; exists l, r; split_and!; try done];
        (eapply Forall_impl; [eassumption|]); intros c; by apply (keep_digit false).
  - intros [_ Ha]. by apply IH.
Qed.

Lemma flip_even i m : flip i m = if Nat.even i then m else negb m.
Proof.
  revert m. induction i as [|i IH]; intros m; [done|]. cbn [flip].
  rewrite IH, Nat.even_succ, <- Nat.negb_even. destruct (Nat.even i); simpl; [done|].
  apply negb_involutive.
Qed.

(** The tokenizer terminates; the merged tokens spell the input, those at
    even positions have no digit, and those at odd positions are [digits] or
    [digits.digits] (for an [isdigit] that returns 1). *)
Theorem tokenize_merge_correct s :
  isdigit_true = 1%Z →
  ∃ toks, tokenize_string s = Ok toks
        ∧ concat (merge_floats toks) = s
        ∧ ∀ i t, merge_floats toks !! i = Some t →
                 if Nat.even i then digit_free t else decimal t.
Proof.
  intros E. destruct (tokenize_string_correct s) as (toks & -> & Hc & Ha & _).
  exists toks. split; [done|]. split; [by rewrite merge_floats_concat|].
  intros i t Hi. pose proof (merge_floats_go_merged 0 true toks Ha) as Hm.
  pose proof (merged_lookup true _ i t E Hm Hi) as Hr.
  rewrite flip_even in Hr. by destruct (Nat.even i).
Qed.
End tokens_spec.

Example tokenize_merge_correct_witness :
  ∃ toks, tokenize_string (chars "v1.10b") = Ok toks ∧ concat (merge_floats toks) = chars "v1.10b"
        ∧ ∀ t, merge_floats toks !! 1 = Some t → decimal t.
Proof.
  destruct (tokenize_merge_correct (clib := clib_builtin) (chars "v1.10b") eq_refl) as (toks & E & Hc & Ht).
  exists toks. split; [exact E|]. split; [exact Hc|]. exact (Ht 1).
Defined.

(** ** The comparison *)

Section compare_spec.
Context {clib : CLib} {boost : Boost}.

Lemma str_lt_irrefl s : str_lt s s = false.
Proof. induction s; simpl; [done|]. by rewrite Z.ltb_irrefl. Qed.

Lemma code_inj a b : code a = code b → a = b.
Proof.
  unfold code. intros E. apply N2Z.inj in E.
  by rewrite <- (ascii_N_embedding a), E, ascii_N_embedding.
Qed.

Lemma str_lt_total s t : s ≠ t → str_lt t s = negb (str_lt s t).
Proof.
  revert t. induction s as [|a s IH]; intros [|b t]; simpl; try done. intros Hne.
  destruct (Z.ltb_spec (code a) (code b)), (Z.ltb_spec (code b) (code a)); try lia; try done.
  apply IH. intros ->. apply Hne. f_equal. apply code_inj. lia.
Qed.

Lemma compare_token_refl m t :
  (∀ d, lexical_cast_double t = Some d → sf_finite d) → compare_token m t t = None.
Proof.
  intros Hf. unfold compare_token. destruct (is_empty t); [done|]. simpl.
  rewrite bool_decide_true by done.
  destruct m; [done|]. unfold compare_double.
  destruct (lexical_cast_double t) as [d|] eqn:E; [|done].
  specialize (Hf d eq_refl).
  assert (SFcompare d d = Some Eq) as Ec.
  { pose proof (SFcompare_swap d d) as Hs. destruct (SFcompare d d) as [[]|] eqn:Ed;
      simpl in Hs; try done. by destruct d. }
  destruct (SFcompare_eq_sub d d Hf Hf Ec) as [s ->]. done.
Qed.

Hypothesis cast_finite : ∀ t d, lexical_cast_double t = Some d → sf_finite d.

Lemma compare_double_swap t1 t2 :
  compare_double t2 t1 = fmap (M:=option) Z.opp <$> compare_double t1 t2.
Proof.
  unfold compare_double.
  destruct (lexical_cast_double t1) as [d1|] eqn:E1,
    (lexical_cast_double t2) as [d2|] eqn:E2; try done.
  apply cast_finite in E1, E2. simpl. rewrite (double_sub_sym d2 d1) by done.
  destruct (SFltb _ EPS) eqn:Eeps; [done|]. simpl. do 2 f_equal.
  unfold SFltb in *. rewrite (SFcompare_swap d1 d2).
  destruct (SFcompare d1 d2) as [[]|] eqn:E; simpl; try done.
  - destruct (SFcompare_eq_sub d1 d2 E1 E2 E) as [s Hs]. by rewrite Hs in Eeps.
  - by destruct d1, d2.
Qed.

Lemma compare_token_swap m t1 t2 :
  compare_token m t2 t1 = Z.opp <$> compare_token m t1 t2.
Proof.
  unfold compare_token. rewrite (andb_comm (is_empty t2)), (orb_comm (is_empty t2)).
  destruct (is_empty t1 && is_empty t2) eqn:E1; [done|].
  destruct (is_empty t1 || is_empty t2) eqn:E2.
  { simpl. f_equal. unfold is_empty in *. destruct t1, t2; simpl in *; done. }
  assert ((if bool_decide (t2 = t1) then None else Some (if str_lt t2 t1 then 1%Z else (-1)%Z))
    = Z.opp <$> (if bool_decide (t1 = t2) then None else Some (if str_lt t1 t2 then 1%Z else (-1)%Z)))
    as Hstr.
  { do 2 case_bool_decide; try congruence; [done|]. rewrite str_lt_total by done.
    by destruct (str_lt t1 t2). }
  destruct m; [done|]. rewrite compare_double_swap.
  by destruct (compare_double t1 t2) as [[]|].
Qed.

Lemma compare_tokens_swap m l1 l2 : compare_tokens m l2 l1 = (- compare_tokens m l1 l2)%Z.
Proof.
  revert m l2. induction l1 as [|a l1 IH]; intros m [|b l2]; simpl; try done.
  rewrite compare_token_swap. destruct (compare_token (negb m) a b); simpl; [done|].
  apply IH.
Qed.

Lemma compare_tokens_range m l1 l2 : (-1 ≤ compare_tokens m l1 l2 ≤ 1)%Z.
Proof.
  revert m l2. induction l1 as [|a l1 IH]; intros m [|b l2]; simpl; try lia.
  destruct (compare_token (negb m) a b) as [r|] eqn:E; [|apply IH].
  unfold compare_token, compare_double in E.
  repeat case_match; simplify_eq; lia.
Qed.

Lemma compare_tokens_refl m l : compare_tokens m l l = 0%Z.
Proof.
  revert m. induction l as [|t l IH]; intros m; simpl; [done|].
  rewrite compare_token_refl by apply cast_finite. apply IH.
Qed.

(** [str_compare_nat] always returns, in {-1, 0, 1}; swapping the
    arguments negates the result, and a string compares equal to itself. *)
Theorem str_compare_nat_antisym s1 s2 :
  ∃ r, str_compare_nat s1 s2 = Ok r ∧ (-1 ≤ r ≤ 1)%Z
     ∧ str_compare_nat s2 s1 = Ok (- r)%Z ∧ (s1 = s2 → r = 0%Z).
Proof.
  unfold str_compare_nat.
  destruct (tokenize_string_correct (chars s1)) as (t1 & E1 & _).
  destruct (tokenize_string_correct (chars s2)) as (t2 & E2 & _).
  rewrite E1, E2. simpl. eexists. split; [done|].
  split; [apply compare_tokens_range|]. split; [by rewrite compare_tokens_swap|].
  intros <-. rewrite E1 in E2. injection E2 as <-. apply compare_tokens_refl.
Qed.
End compare_spec.

Example str_compare_nat_antisym_witness :
  ∃ r, str_compare_nat (boost := BoostRef.boost_ref) "img2" "img10" = Ok r ∧ (-1 ≤ r ≤ 1)%Z
     ∧ str_compare_nat (boost := BoostRef.boost_ref) "img10" "img2" = Ok (- r)%Z
     ∧ ("img2" = "img10" → r = 0%Z).
Proof. exact (str_compare_nat_antisym (boost := BoostRef.boost_ref) BoostRef.cast_finite "img2" "img10"). Defined.

(** ** Natural order *)

Section natural_order.
Context {clib : CLib} {boost : Boost}.

Lemma token_end_go_app m k tl b :
  Forall (keep m) k → match tl with c :: _ => ¬ keep m c | [] => True end →
  token_end_go m (k ++ tl) b = b + length k.
Proof.
  intros Hk Ht. revert b. induction k as [|c k IH]; intros b; simpl.
  - destruct tl as [|c tl]; simpl; [lia|]. rewrite bool_decide_false by done. lia.
  - inversion_clear Hk. rewrite bool_decide_true, IH by done. lia.
Qed.

Lemma digit_keep m c : isdigit_true = 1%Z → is_digit c = negb m → keep m c.
Proof. unfold keep, isdigit. intros -> ->. by destruct m. Qed.

Lemma tokenize_word_number w n :
  isdigit_true = 1%Z → digit_free w → n ≠ [] → Forall (λ c, is_digit c = true) n →
  tokenize_string (w ++ n) = Ok [w; n; []].
Proof.
  intros E Hw Hn Hd. unfold tokenize_string, token_end.
  assert (Forall (keep true) w) by (eapply Forall_impl; [done|]; intros; by apply digit_keep).
  assert (Forall (keep false) n) by (eapply Forall_impl; [done|]; intros; by apply digit_keep).
  destruct n as [|c n']; [done|]. set (n := c :: n') in *.
  replace (2 * length (w ++ n) + 2) with (S (S (S (2 * length (w ++ n) - 1))))
    by (rewrite length_app; simpl; lia).
  cbn [tokenize_loop negb]. unfold token_end. rewrite drop_0.
  rewrite (token_end_go_app true w n 0); [|done|].
  2: { subst n. inversion_clear Hd. intros K. apply (keep_digit true) in K; simpl in *; congruence. }
  rewrite Nat.add_0_l, Nat.sub_0_r, take_app_length.
  rewrite decide_True by (rewrite length_app; simpl; lia).
  rewrite drop_app_length. pose proof (token_end_go_app false n [] (length w)) as E2.
  rewrite app_nil_r in E2. rewrite E2 by done.
  replace (length w + length n - length w) with (length n) by lia.
  rewrite firstn_all, decide_True by (rewrite length_app; simpl; lia).
  rewrite drop_ge by (rewrite length_app; lia). simpl.
  rewrite decide_False by (rewrite length_app; simpl; lia). by rewrite take_nil.
Qed.


Lemma keep_any m c : isdigit_true ≠ 1%Z → m = true → keep m c.
Proof.
  unfold keep, isdigit. intros E ->. destruct (is_digit c); [|done].
  intros Hx%Z.lxor_eq. done.
Qed.

Lemma tokenize_nonunit s :
  isdigit_true ≠ 1%Z → s ≠ [] → tokenize_string s = Ok [s; []].
Proof.
  intros E Hs. unfold tokenize_string.
  replace (2 * length s + 2) with (S (S (2 * length s))) by lia.
  cbn [tokenize_loop negb]. unfold token_end. rewrite drop_0.
  pose proof (token_end_go_app true s [] 0) as E2. rewrite app_nil_r in E2.
  rewrite E2; [|apply Forall_forall; intros; by apply keep_any|done].
  rewrite Nat.add_0_l, Nat.sub_0_r, firstn_all.
  rewrite decide_True by (destruct s; simpl; [done|lia]).
  rewrite drop_ge by lia. simpl. rewrite decide_False by lia. by rewrite take_nil.
Qed.

(** With an [isdigit] that returns another non-zero value than 1, which
    the C standard allows, the bitwise exclusive or with [strmode] never
    stops at a digit: non-empty strings are compared byte by byte and numbers
    lose their natural order. *)
Theorem str_compare_nat_nonunit_isdigit (s1 s2 : string) :
  isdigit_true ≠ 1%Z → s1 ≠ "" → s2 ≠ "" → s1 ≠ s2 →
  str_compare_nat s1 s2 = Ok (if str_lt (chars s1) (chars s2) then 1%Z else (-1)%Z).
Proof.
  intros E H1 H2 Hne. unfold str_compare_nat.
  assert (chars s1 ≠ [] ∧ chars s2 ≠ []) as [? ?] by (by destruct s1, s2).
  rewrite !tokenize_nonunit by done. simpl. unfold compare_token, is_empty.
  rewrite !(bool_decide_false (_ = [])) by done. simpl.
  rewrite bool_decide_false; [done|]. by intros Hc%chars_inj.
Qed.
End natural_order.


Definition clib_table : CLib := {| isdigit_true := 2048%Z; isdigit_true_nonzero := ltac:(done) |}.

Example str_compare_nat_nonunit_isdigit_witness :
  str_compare_nat (clib := clib_table) (boost := BoostRef.boost_ref) "img2" "img10" = Ok (-1)%Z.
Proof.
  apply (str_compare_nat_nonunit_isdigit (clib := clib_table) (boost := BoostRef.boost_ref)
    "img2" "img10"); discriminate.
Defined.

(** The tolerance [EPS] makes "compares equal" non-transitive: the first and
    second string are equal, so are the second and third, yet the first comes
    before the third. The relation is not a strict weak order, which
    [std::sort] needs. *)
Theorem str_compare_nat_ties_not_transitive :
  let cmp := str_compare_nat (boost := BoostRef.boost_ref) in
  cmp "0" "0.00000000006" = Ok 0%Z ∧ cmp "0.00000000006" "0.00000000012" = Ok 0%Z
  ∧ cmp "0" "0.00000000012" = Ok 1%Z.
Proof. vm_compute. done. Qed.
