(* ===== verification/QueryLog.v ===== *)
(** [cpp/query_log.h] and [cpp/query_log.cpp]: the optional log of the calls
    the server answers, with its own [str_replace] and value printers. *)
From Stdlib Require Import ZArith.
From S2P Require Import Prelude Cpp.

(** * Printing the arguments of a call *)

(** [while((loc = str.find(search, loc)) != npos)
       str.replace(loc++, search.size(), replacement);] *)
Fixpoint str_replace_loop (fuel : nat) (str search replacement : list ascii)
    (loc : nat) : outcome (list ascii) :=
  match fuel with
  | O => OutOfFuel
  | S fuel =>
      match str_find str search loc with
      | None => Ok str
      | Some l =>
          str_replace_loop fuel (str_splice str l (length search) replacement)
            search replacement (S l)
      end
  end.
Definition str_replace (fuel : nat) (str search replacement : list ascii)
    : outcome (list ascii) :=
  str_replace_loop fuel str search replacement 0.

Definition backslash : ascii := "092"%char.
Definition dquote : ascii := "034"%char.
Definition newline : string := String "010"%char EmptyString.
Definition dquote_s : string := String dquote EmptyString.

(** [TypeHelper<std::string>::ValueRep] (and, with the same body, that of
    [char[2]]). *)
Definition ValueRep_string (fuel : nat) (val : string) : outcome string :=
  escaped ← str_replace fuel (chars val) [backslash] [backslash; backslash];
  escaped ← str_replace fuel escaped [dquote] [backslash; dquote];
  Ok (dquote_s +:+ of_chars escaped +:+ dquote_s).

(** The loop of [TypeHelper<std::map<K,V> >::ValueRep], over the entries in
    key order. *)
Fixpoint ValueRep_entries (fuel : nat) (val : list (string * string)) : outcome string :=
  match val with
  | [] => Ok ""
  | (k, v) :: val' =>
      k ← ValueRep_string fuel k;
      v ← ValueRep_string fuel v;
      rest ← ValueRep_entries fuel val';
      Ok (k +:+ ":" +:+ v +:+ "," +:+ rest)
  end.
Definition ValueRep_map (fuel : nat) (val : list (string * string)) : outcome string :=
  body ← ValueRep_entries fuel val;
  Ok ("{" +:+ body +:+ "}").

(** The types the handlers log. *)
Inductive log_value :=
| LString (s : string)
| LCharArray (s : string)
| LMap (m : list (string * string))
| LBool (b : bool)
| LInt (z : Z).

Definition typename_of (v : log_value) : string :=
  match v with
  | LString _ => "string"
  | LCharArray _ => "char[2]"
  | LMap _ => "map<string,string>"
  | LBool _ => "bool"
  | LInt _ => "i32"
  end.

Definition valuerep_of (fuel : nat) (v : log_value) : outcome string :=
  match v with
  | LString s => ValueRep_string fuel s
  | LCharArray s => ValueRep_string fuel s
  | LMap m => ValueRep_map fuel m
  | LBool b => Ok (if b then "1" else "0")
  | LInt z => Ok (pretty z)
  end.

(** * The log and its entries *)

(** [struct QueryLog]: what was written to [*_p_out] ([None] when the pointer
    is null, i.e. logging is off) and the counter of calls. *)
Record QueryLog := { p_out : option string; query_id : Z }.

Record QueryLogEntry := {
  entry_query_id : Z;
  start_time : Z;
  sslog : string;
  subdomain : string;
  method_name : string;
}.

Definition QueryLog_new (out : option string) : QueryLog :=
  {| p_out := out; query_id := 0 |}.

(** [QueryLogEntry::QueryLogEntry(QueryLog & log)]: [_query_id = _log._query_id++]
    on an [unsigned]. *)
Definition QueryLogEntry_new (log : QueryLog) : QueryLogEntry * QueryLog :=
  ({| entry_query_id := query_id log; start_time := 0; sslog := "";
      subdomain := ""; method_name := "" |},
   {| p_out := p_out log; query_id := uint32 (query_id log + 1) |}).

Definition is_logging (log : QueryLog) : bool := bool_decide (is_Some (p_out log)).

Definition set_subdomain (s : string) (e : QueryLogEntry) : QueryLogEntry :=
  {| entry_query_id := entry_query_id e; start_time := start_time e;
     sslog := sslog e; subdomain := s; method_name := method_name e |}.

Definition append_log (s : string) (e : QueryLogEntry) : QueryLogEntry :=
  {| entry_query_id := entry_query_id e; start_time := start_time e;
     sslog := sslog e +:+ s; subdomain := subdomain e; method_name := method_name e |}.

Definition method_call (log : QueryLog) (now : Z) (m : string) (e : QueryLogEntry)
    : QueryLogEntry :=
  if is_logging log then
    {| entry_query_id := entry_query_id e; start_time := now;
       sslog := sslog e +:+ "# begin query " +:+ pretty (entry_query_id e) +:+ newline
                +:+ "method_call(" +:+ m +:+ "):" +:+ newline;
       subdomain := subdomain e; method_name := m |}
  else e.

(** [operator<< (T const & value)]. *)
Definition log_arg (fuel : nat) (log : QueryLog) (v : log_value) (e : QueryLogEntry)
    : outcome QueryLogEntry :=
  if is_logging log then
    rep ← valuerep_of fuel v;
    Ok (append_log ("  " +:+ typename_of v +:+ ":" +:+ rep +:+ newline) e)
  else Ok e.

Fixpoint log_args (fuel : nat) (log : QueryLog) (vs : list log_value) (e : QueryLogEntry)
    : outcome QueryLogEntry :=
  match vs with
  | [] => Ok e
  | v :: vs' => e ← log_arg fuel log v e; log_args fuel log vs' e
  end.

Definition clear (e : QueryLogEntry) : QueryLogEntry :=
  {| entry_query_id := entry_query_id e; start_time := start_time e;
     sslog := ""; subdomain := subdomain e; method_name := method_name e |}.

Definition flush (e : QueryLogEntry) (log : QueryLog) : QueryLogEntry * QueryLog :=
  match p_out log with
  | None => (e, log)
  | Some out => (clear e, {| p_out := Some (out +:+ sslog e); query_id := query_id log |})
  end.

(** [QueryLogEntry::~QueryLogEntry()]. *)
Definition QueryLogEntry_destroy (now : Z) (e : QueryLogEntry) (log : QueryLog) : QueryLog :=
  if is_logging log then
    let e := append_log ("# end " +:+ method_name e +:+ " query "
      +:+ pretty (entry_query_id e) +:+ " after " +:+ pretty (now - start_time e)%Z
      +:+ " microseconds") e in
    let e := if decide (0 < String.length (subdomain e))
             then append_log (" for " +:+ subdomain e) e else e in
    let e := append_log ("." +:+ newline +:+ newline) e in
    (flush e log).2
  else log.

(** * Escaping *)

Section find.
Variable c : ascii.

Lemma find_at_None s pos : c ∉ s → find_at [c] s pos = None.
Proof.
  revert pos. induction s as [|d s IH]; intros pos Hc; [done|].
  apply not_elem_of_cons in Hc as [? ?]. simpl. rewrite bool_decide_false by done.
  by apply IH.
Qed.

Lemma find_at_Some s pos :
  c ∈ s → ∃ k, find_at [c] s pos = Some (pos + k) ∧ s !! k = Some c.
Proof.
  revert pos. induction s as [|d s IH]; intros pos Hc; [by apply not_elem_of_nil in Hc|].
  simpl. case_bool_decide as E.
  - subst d. exists 0. simpl. by rewrite Nat.add_0_r.
  - apply elem_of_cons in Hc as [->|Hc]; [done|].
    destruct (IH (S pos) Hc) as (k & -> & Hk). exists (S k).
    split; [f_equal; lia|done].
Qed.

Lemma str_replace_absent fuel str rep :
  c ∉ str → 0 < fuel → str_replace fuel str [c] rep = Ok str.
Proof.
  intros Hc Hf. destruct fuel as [|fuel]; [lia|]. unfold str_replace. cbn.
  unfold str_find. rewrite decide_False by lia. by rewrite drop_0, find_at_None.
Qed.

(** The replacement contains the searched character one position further, and
    the search resumes exactly there. *)
Lemma str_replace_loop_diverges fuel b str loc :
  c ∈ drop loc str → str_replace_loop fuel str [c] [b; c] loc = OutOfFuel.
Proof.
  revert str loc. induction fuel as [|fuel IH]; intros str loc Hc; [done|]. cbn.
  unfold str_find. rewrite decide_False.
  2: { intros ?. rewrite drop_ge in Hc by lia. by apply not_elem_of_nil in Hc. }
  destruct (find_at_Some (drop loc str) loc Hc) as (k & -> & Hk).
  rewrite lookup_drop in Hk. apply IH. unfold str_splice.
  assert (length (take (loc + k) str) = loc + k) as Hl.
  { rewrite length_take. apply lookup_lt_Some in Hk. lia. }
  change (take (loc + k) str ++ ([b; c] ++ ?r)) with (take (loc + k) str ++ ([b] ++ ([c] ++ r))).
  rewrite app_assoc, drop_app_ge by (rewrite length_app, Hl; simpl; lia).
  rewrite length_app, Hl. simpl.
  replace (S (loc + k) - (loc + k + 1)) with 0 by lia.
  rewrite drop_0. apply elem_of_cons. by left.
Qed.
End find.

Definition printable (s : string) : Prop :=
  (backslash ∉ chars s) ∧ (dquote ∉ chars s).

#[export] Instance printable_dec s : Decision (printable s).
Proof. unfold printable. apply _. Defined.

Lemma ValueRep_printable fuel s :
  printable s → 0 < fuel → ValueRep_string fuel s = Ok (dquote_s +:+ s +:+ dquote_s).
Proof.
  intros [H1 H2] Hf. unfold ValueRep_string.
  rewrite str_replace_absent by done. simpl. rewrite str_replace_absent by done. simpl.
  by rewrite of_chars_chars.
Qed.

(** Printing a string with a quote or a backslash never finishes, whatever
    the number of rounds: each replacement puts the searched character right
    where the search resumes. Every other string is printed between quotes. *)
Theorem ValueRep_string_spec fuel s :
  0 < fuel →
  ValueRep_string fuel s
  = if decide (printable s) then Ok (dquote_s +:+ s +:+ dquote_s) else OutOfFuel.
Proof.
  intros Hf. case_decide as Hp; [by apply ValueRep_printable|].
  unfold ValueRep_string, str_replace.
  destruct (decide (backslash ∈ chars s)) as [Hb|Hb].
  { by rewrite str_replace_loop_diverges by (by rewrite drop_0). }
  fold (str_replace fuel (chars s) [backslash] [backslash; backslash]).
  rewrite str_replace_absent by done. simpl.
  destruct (decide (dquote ∈ chars s)) as [Hd|Hd]; [|by destruct Hp].
  by rewrite str_replace_loop_diverges by (by rewrite drop_0).
Qed.

(** A string that contains a double quote. *)
Definition quoted : string := "say " +:+ dquote_s +:+ "hi" +:+ dquote_s.

Example ValueRep_string_spec_witness :
  ValueRep_string 1000 quoted = OutOfFuel
  ∧ ValueRep_string 1 "artists" = Ok (dquote_s +:+ "artists" +:+ dquote_s).
Proof.
  split; [apply (ValueRep_string_spec 1000 quoted)|apply (ValueRep_string_spec 1 "artists")]; lia.
Defined.

(** * A logged call *)

(** The life of an entry in a handler: construction, [method_call] and the
    arguments, [set_subdomain] when a session was found, destruction. *)
Definition logged_call (fuel : nat) (now_begin now_end : Z) (m : string)
    (args : list log_value) (site : option string) (log : QueryLog) : outcome QueryLog :=
  let '(e, log) := QueryLogEntry_new log in
  e ← log_args fuel log args (method_call log now_begin m e);
  let e := match site with Some s => set_subdomain s e | None => e end in
  Ok (QueryLogEntry_destroy now_end e log).

Definition value_printable (v : log_value) : Prop :=
  match v with
  | LString s | LCharArray s => printable s
  | LMap m => Forall (λ kv, printable kv.1 ∧ printable kv.2) m
  | LBool _ | LInt _ => True
  end.

(** What a printable value looks like in the log. *)
Definition quote (s : string) : string := dquote_s +:+ s +:+ dquote_s.
Fixpoint entries_text (m : list (string * string)) : string :=
  match m with
  | [] => ""
  | (k, v) :: m' => quote k +:+ ":" +:+ quote v +:+ "," +:+ entries_text m'
  end.
Definition value_text (v : log_value) : string :=
  match v with
  | LString s | LCharArray s => quote s
  | LMap m => "{" +:+ entries_text m +:+ "}"
  | LBool b => if b then "1" else "0"
  | LInt z => pretty z
  end.
Fixpoint args_text (vs : list log_value) : string :=
  match vs with
  | [] => ""
  | v :: vs' => "  " +:+ typename_of v +:+ ":" +:+ value_text v +:+ newline +:+ args_text vs'
  end.
Definition call_text (id : Z) (m : string) (args : list log_value) (elapsed : Z)
    (site : option string) : string :=
  "# begin query " +:+ pretty id +:+ newline +:+ "method_call(" +:+ m +:+ "):" +:+ newline
  +:+ args_text args
  +:+ "# end " +:+ m +:+ " query " +:+ pretty id +:+ " after " +:+ pretty elapsed
  +:+ " microseconds"
  +:+ match site with Some s => if decide (s = "") then "" else " for " +:+ s | None => "" end
  +:+ "." +:+ newline +:+ newline.

Lemma app_nil_r_str s : s +:+ "" = s.
Proof. apply chars_inj. rewrite chars_app. apply app_nil_r. Qed.
Lemma app_assoc_str s t u : (s +:+ t) +:+ u = s +:+ t +:+ u.
Proof. apply chars_inj. by rewrite !chars_app, app_assoc. Qed.

Lemma ValueRep_entries_printable fuel m :
  0 < fuel → Forall (λ kv, printable kv.1 ∧ printable kv.2) m →
  ValueRep_entries fuel m = Ok (entries_text m).
Proof.
  intros Hf. induction 1 as [|[k v] m [Hk Hv] _ IH]; [done|]. simpl in *.
  rewrite !ValueRep_printable by done. simpl. by rewrite IH.
Qed.

Lemma valuerep_of_printable fuel v :
  0 < fuel → value_printable v → valuerep_of fuel v = Ok (value_text v).
Proof.
  intros Hf Hv. destruct v; simpl in *; try done; try by apply ValueRep_printable.
  unfold ValueRep_map. by rewrite ValueRep_entries_printable.
Qed.

Lemma log_args_off fuel log vs e : is_logging log = false → log_args fuel log vs e = Ok e.
Proof.
  intros Hl. induction vs as [|v vs IH]; [done|]. simpl. unfold log_arg. by rewrite Hl.
Qed.

Lemma log_args_on fuel log vs e :
  0 < fuel → is_logging log = true → Forall value_printable vs →
  log_args fuel log vs e = Ok (append_log (args_text vs) e).
Proof.
  intros Hf Hl Hvs. revert e. induction Hvs as [|v vs Hv _ IH]; intros e; simpl.
  - unfold append_log. rewrite app_nil_r_str. by destruct e.
  - unfold log_arg. rewrite Hl, valuerep_of_printable by done. simpl. rewrite IH.
    unfold append_log. simpl. by rewrite !app_assoc_str.
Qed.

(** With logging on, a call whose arguments print appends exactly one
    complete block, naming the same query in its first and last line, and
    advances the counter. *)
Theorem logged_call_on fuel now_begin now_end m args site out id :
  0 < fuel → Forall value_printable args →
  logged_call fuel now_begin now_end m args site {| p_out := Some out; query_id := id |}
  = Ok {| p_out := Some (out +:+ call_text id m args (now_end - now_begin)%Z site);
          query_id := uint32 (id + 1) |}.
Proof.
  intros Hf Ha. unfold logged_call. simpl. rewrite log_args_on by done. simpl.
  unfold QueryLogEntry_destroy, flush. simpl. do 4 f_equal.
  unfold call_text. destruct site as [s|]; simpl; [|by rewrite !app_assoc_str].
  destruct s; simpl; by rewrite !app_assoc_str.
Qed.

Example logged_call_on_witness :
  logged_call 1 10 25 "ping" [LCharArray newline] None {| p_out := Some ""; query_id := 7 |}
  = Ok {| p_out := Some ("" +:+ call_text 7 "ping" [LCharArray newline] 15 None);
          query_id := uint32 (7 + 1) |}.
Proof.
  apply (logged_call_on 1 10 25 "ping" [LCharArray newline] None "" 7); [lia|].
  repeat constructor; vm_compute; by inversion 1 as [|??? H]; inversion H.
Defined.

(** With logging off nothing is printed, so nothing can diverge: only the
    counter changes. *)
Theorem logged_call_off fuel now_begin now_end m args site id :
  logged_call fuel now_begin now_end m args site {| p_out := None; query_id := id |}
  = Ok {| p_out := None; query_id := uint32 (id + 1) |}.
Proof. unfold logged_call. simpl. by rewrite log_args_off. Qed.

(** * Numbering entries from several threads *)

(** [boost::mutex::scoped_lock(_log._mutex);] names no variable: it creates a
    temporary that is destroyed, and the mutex released, before the next
    statement. [_query_id = _log._query_id++] therefore runs unlocked: a read
    of the counter, then a write. *)
Inductive numbering := Idle | HasRead (v : Z) | Numbered (id : Z).

Definition counter_state : Type := Z * list numbering.

Inductive number_step : counter_state → counter_state → Prop :=
| step_read i c ts :
    ts !! i = Some Idle → number_step (c, ts) (c, <[i := HasRead c]> ts)
| step_write i v c ts :
    ts !! i = Some (HasRead v) →
    number_step (c, ts) (uint32 (v + 1), <[i := Numbered v]> ts).

(** Two threads can get the same query number. *)
Theorem query_id_race :
  rtc number_step (0%Z, [Idle; Idle]) (1%Z, [Numbered 0; Numbered 0]).
Proof.
  eapply rtc_l; [by apply (step_read 0)|]. eapply rtc_l; [by apply (step_read 1)|].
  eapply rtc_l; [by apply (step_write 0 0)|]. eapply rtc_l; [by apply (step_write 1 0)|].
  apply rtc_refl.
Qed.

(** The run of one thread alone is what [QueryLogEntry_new] computes. *)
Lemma number_sequential log :
  rtc number_step (query_id log, [Idle])
    (query_id (QueryLogEntry_new log).2, [Numbered (entry_query_id (QueryLogEntry_new log).1)]).
Proof.
  eapply rtc_l; [by apply (step_read 0)|]. eapply rtc_l; [by apply (step_write 0 (query_id log))|].
  apply rtc_refl.
Qed.
