(* ===== verification/LruCache.v ===== *)
(** [cpp/lru_cache.h]: the size-bounded cache that keeps a doubly linked list
    of entries and an index from keys to list nodes.  The detailed definitions
    move and erase list nodes through the index, as the C++ does; they refine
    operations on an association list ([spec_insert] and friends). *)
From Stdlib Require Import ZArith.
From S2P Require Import Prelude Cpp.

(** A [std::list] iterator: the identity of a list node. *)
Abbreviation iter := positive.

Record LRUCache (Key Data : Type) `{Countable Key} := {
  list_ : list (iter * (Key * Data));
  index_ : gmap Key iter;
  max_size_ : Z;
  curr_size_ : Z;
  next_iter : iter;
}.
Arguments list_ {_ _ _ _} _.
Arguments index_ {_ _ _ _} _.
Arguments max_size_ {_ _ _ _} _.
Arguments curr_size_ {_ _ _ _} _.
Arguments next_iter {_ _ _ _} _.
Arguments Build_LRUCache {_ _ _ _} _ _ _ _ _.

(** [Countfn]: every element counts for one. *)
Definition Countfn {Data} (x : Data) : Z := 1.

Section cache.
Context {Key Data : Type} `{Countable Key}.
(** [Sizefn], and the value of [Data()]. *)
Variable Sizefn : Data → Z.
Variable Data_default : Data.

Abbreviation cache := (LRUCache Key Data).

(** ** List nodes *)

Fixpoint node_at (n : iter) (l : list (iter * (Key * Data))) : option (Key * Data) :=
  match l with
  | [] => None
  | (m, e) :: l' => if decide (m = n) then Some e else node_at n l'
  end.
Definition erase_node (n : iter) (l : list (iter * (Key * Data))) :=
  filter (λ e, e.1 ≠ n) l.
(** [_list.splice(_list.begin(), _list, it)]. *)
Definition splice_front (n : iter) (l : list (iter * (Key * Data))) :=
  match node_at n l with Some e => (n, e) :: erase_node n l | None => l end.

Definition set_list l (c : cache) : cache :=
  Build_LRUCache l (index_ c) (max_size_ c) (curr_size_ c) (next_iter c).

(** ** Operations *)

Definition LRUCache_new (size : Z) : cache := Build_LRUCache [] ∅ size 0 1.

Definition size : eff cache Z := gets curr_size_.
Definition max_size : eff cache Z := gets max_size_.

Definition clear : eff cache unit :=
  modify (λ c, Build_LRUCache [] ∅ (max_size_ c) 0 (next_iter c)).

Definition exists_ (key : Key) : eff cache bool :=
  gets (λ c, bool_decide (is_Some (index_ c !! key))).

(** [_touch]: the iterator found in the index, after moving its node. *)
Definition _touch (key : Key) : eff cache (option iter) :=
  miter ← gets (λ c, index_ c !! key);
  match miter with
  | None => mret None
  | Some n => modify (λ c, set_list (splice_front n (list_ c)) c);; mret (Some n)
  end.

(** [_remove(miter)], for an iterator of the index: its key and its node. *)
Definition _remove_iter (key : Key) (n : iter) : eff cache unit :=
  e ← gets (λ c, node_at n (list_ c));
  e ← deref "dangling list iterator" e;
  modify (λ c, Build_LRUCache (erase_node n (list_ c)) (delete key (index_ c))
                 (max_size_ c) (size_t (curr_size_ c - Sizefn e.2)) (next_iter c)).

Definition _remove_key (key : Key) : eff cache unit :=
  miter ← gets (λ c, index_ c !! key);
  n ← deref "dereference of end()" miter;
  _remove_iter key n.

Definition remove (key : Key) : eff cache unit :=
  miter ← gets (λ c, index_ c !! key);
  match miter with None => mret () | Some n => _remove_iter key n end.

Definition touch (key : Key) : eff cache unit := _ ← _touch key; mret ().

(** [fetch_ptr(key, touch)]: the argument [touch] is not used. *)
Definition fetch_ptr (key : Key) (touch : bool) : eff cache (option Data) :=
  miter ← gets (λ c, index_ c !! key);
  match miter with
  | None => mret None
  | Some n =>
      _ ← _touch key;
      e ← gets (λ c, node_at n (list_ c));
      e ← deref "dangling list iterator" e;
      mret (Some e.2)
  end.

Definition fetch (key : Key) (touch_data : bool) : eff cache Data :=
  miter ← gets (λ c, index_ c !! key);
  match miter with
  | None => mret Data_default
  | Some n =>
      e ← gets (λ c, node_at n (list_ c));
      e ← deref "dangling list iterator" e;
      when touch_data (touch key);;
      mret e.2
  end.

(** The overload that fills [data] and tells whether it did. *)
Definition fetch_into (key : Key) (data : Data) (touch_data : bool) : eff cache (bool * Data) :=
  miter ← gets (λ c, index_ c !! key);
  match miter with
  | None => mret (false, data)
  | Some n =>
      when touch_data (modify (λ c, set_list (splice_front n (list_ c)) c));;
      e ← gets (λ c, node_at n (list_ c));
      e ← deref "dangling list iterator" e;
      mret (true, e.2)
  end.

(** [while( _curr_size > _max_size ) { liter = _list.end(); --liter;
    _remove( liter->first ); }] *)
Fixpoint evict_loop (fuel : nat) : eff cache unit :=
  match fuel with
  | O => no_fuel
  | S fuel =>
      c ← gets (λ c : cache, c);
      if (max_size_ c <? curr_size_ c)%Z then
        e ← deref "decrement of begin()" (list.last (list_ c));
        _remove_key e.2.1;;
        evict_loop fuel
      else mret ()
  end.

Definition insert (key : Key) (data : Data) : eff cache unit :=
  miter ← _touch key;
  match miter with None => mret () | Some n => _remove_iter key n end;;
  modify (λ c, Build_LRUCache ((next_iter c, (key, data)) :: list_ c)
                 (match index_ c !! key with
                  | None => <[key := next_iter c]> (index_ c) | Some _ => index_ c end)
                 (max_size_ c) (size_t (curr_size_ c + Sizefn data))
                 (Pos.succ (next_iter c)));;
  fuel ← gets (λ c, S (length (list_ c)));
  evict_loop fuel.

Definition get_all_keys : eff cache (list Key) := gets (λ c, (λ e, e.2.1) <$> list_ c).

(** ** Specification: an association list, most recent first *)

Definition total (l : list (Key * Data)) : Z := foldr (λ e s, (Sizefn e.2 + s)%Z) 0%Z l.
Definition without (key : Key) (l : list (Key * Data)) := filter (λ e, e.1 ≠ key) l.
Fixpoint spec_lookup (key : Key) (l : list (Key * Data)) : option Data :=
  match l with
  | [] => None
  | (k, d) :: l' => if decide (k = key) then Some d else spec_lookup key l'
  end.
Definition spec_touch (key : Key) (l : list (Key * Data)) : list (Key * Data) :=
  match spec_lookup key l with Some d => (key, d) :: without key l | None => l end.
(** The longest prefix that fits. *)
Fixpoint fit (budget : Z) (l : list (Key * Data)) : list (Key * Data) :=
  match l with
  | [] => []
  | e :: l' =>
      if (Sizefn e.2 <=? budget)%Z then e :: fit (budget - Sizefn e.2) l' else []
  end.
Definition spec_insert (max : Z) (key : Key) (data : Data) (l : list (Key * Data)) :=
  fit max ((key, data) :: without key l).

(** ** Well-formed caches *)

Definition entries (c : cache) : list (Key * Data) := snd <$> list_ c.
Definition keys (l : list (Key * Data)) : list Key := fst <$> l.

Record linked (c : cache) : Prop := {
  linked_iters : NoDup (fst <$> list_ c);
  linked_keys : NoDup (keys (entries c));
  linked_index k n : index_ c !! k = Some n ↔ ∃ d, (n, (k, d)) ∈ list_ c;
  linked_fresh e : e ∈ list_ c → (e.1 < next_iter c)%positive;
  linked_size : curr_size_ c = total (entries c);
  linked_small : (total (entries c) < 2 ^ 64)%Z;
}.

Record wf (c : cache) : Prop := {
  wf_linked : linked c;
  wf_max : (0 ≤ max_size_ c < 2 ^ 64)%Z;
  wf_bound : (total (entries c) ≤ max_size_ c)%Z;
}.

Lemma node_at_in n e l : NoDup (fst <$> l) → (n, e) ∈ l → node_at n l = Some e.
Proof.
  induction l as [|[m e'] l IH]; csimpl; [by intros _ ?%not_elem_of_nil|].
  intros [Hm Hl]%NoDup_cons [[= -> ->]|Hin]%elem_of_cons; [by rewrite decide_True|].
  rewrite decide_False; [by apply IH|]. intros ->. apply Hm.
  apply list_elem_of_fmap. by exists (n, e).
Qed.

Lemma erase_entries n k l :
  (∀ e, e ∈ l → e.1 = n ↔ e.2.1 = k) → snd <$> erase_node n l = without k (snd <$> l).
Proof.
  induction l as [|e l IH]; intros Hl; [done|]. unfold erase_node, without in *.
  rewrite filter_cons, fmap_cons, filter_cons.
  pose proof (Hl e ltac:(by left)) as He.
  destruct (decide (e.1 = n)) as [E|E].
  - rewrite !decide_False by tauto.
    apply IH. intros e' ?. apply Hl. by right.
  - rewrite !decide_True by tauto. csimpl. f_equal.
    apply IH. intros e' ?. apply Hl. by right.
Qed.

Lemma keys_inj l (n1 n2 : iter) k d1 d2 :
  NoDup (keys (snd <$> l)) → (n1, (k, d1)) ∈ l → (n2, (k, d2)) ∈ l → n1 = n2 ∧ d1 = d2.
Proof.
  unfold keys. intros Hd H1 H2.
  apply list_elem_of_lookup in H1 as [i1 H1]. apply list_elem_of_lookup in H2 as [i2 H2].
  assert (i1 = i2) as <-.
  { eapply (NoDup_lookup _ _ _ k Hd); rewrite !list_lookup_fmap; by rewrite ?H1, ?H2. }
  by simplify_eq.
Qed.

Lemma linked_iter c k n :
  linked c → index_ c !! k = Some n →
  ∃ d, (n, (k, d)) ∈ list_ c ∧ node_at n (list_ c) = Some (k, d)
     ∧ ∀ e, e ∈ list_ c → e.1 = n ↔ e.2.1 = k.
Proof.
  intros L Hk. pose proof (proj1 (linked_index c L k n) Hk) as [d Hd].
  exists d. split_and!; [done|by apply node_at_in; [apply L|]|].
  intros [m [k' d']] He. simpl. split.
  - intros ->. apply (node_at_in _ _ _ (linked_iters c L)) in He, Hd. congruence.
  - intros ->. by edestruct (keys_inj (list_ c) m n k d' d (linked_keys c L)).
Qed.

Lemma spec_lookup_in k d l : NoDup (keys l) → (k, d) ∈ l → spec_lookup k l = Some d.
Proof.
  induction l as [|[k' d'] l IH]; csimpl; [by intros _ ?%not_elem_of_nil|].
  intros [Hk Hl]%NoDup_cons [[= -> ->]|Hin]%elem_of_cons; [by rewrite decide_True|].
  rewrite decide_False; [by apply IH|]. intros ->. apply Hk.
  apply list_elem_of_fmap. by exists (k, d).
Qed.

Lemma spec_lookup_None k l : spec_lookup k l = None ↔ k ∉ keys l.
Proof.
  induction l as [|[k' d'] l IH]; csimpl; [by split; [intros _ ?%not_elem_of_nil|]|].
  rewrite not_elem_of_cons. case_decide; [split; [done|intros [? _]; congruence]|].
  rewrite IH. split; [auto|by intros [_ ?]].
Qed.

(** The index is the lookup function of the entries. *)
Lemma index_lookup c k :
  linked c →
  match index_ c !! k with
  | Some n => ∃ d, node_at n (list_ c) = Some (k, d) ∧ spec_lookup k (entries c) = Some d
  | None => spec_lookup k (entries c) = None
  end.
Proof.
  intros L. destruct (index_ c !! k) as [n|] eqn:E.
  - destruct (linked_iter c k n L E) as (d & Hin & Hn & _). exists d. split; [done|].
    apply spec_lookup_in; [apply L|]. apply list_elem_of_fmap. by exists (n, (k, d)).
  - apply spec_lookup_None. unfold keys, entries. intros Hk.
    apply list_elem_of_fmap in Hk as ([k' d] & -> & Hk).
    apply list_elem_of_fmap in Hk as ([n e] & He & Hk). simpl in *. subst e.
    assert (index_ c !! k' = Some n) by (apply (linked_index c L); by exists d).
    congruence.
Qed.

Lemma total_app l1 l2 : total (l1 ++ l2) = (total l1 + total l2)%Z.
Proof. induction l1; simpl; lia. Qed.

Hypothesis Sizefn_nonneg : ∀ d, (0 ≤ Sizefn d)%Z.

Lemma total_nonneg l : (0 ≤ total l)%Z.
Proof. induction l as [|e l IH]; simpl; [lia|]. pose proof (Sizefn_nonneg e.2). lia. Qed.

Lemma without_absent k l : k ∉ keys l → without k l = l.
Proof.
  intros Hk. apply filter_all. intros e He <-. apply Hk, list_elem_of_fmap. eauto.
Qed.

Lemma keys_without k l : k ∉ keys (without k l).
Proof.
  unfold keys, without. intros (e & -> & He)%list_elem_of_fmap.
  apply list_elem_of_filter in He. by destruct He.
Qed.

Lemma NoDup_without k l : NoDup (keys l) → NoDup (keys (without k l)).
Proof.
  unfold keys, without. induction l as [|e l IH]; [done|]. csimpl.
  intros [He Hl]%NoDup_cons. rewrite filter_cons. case_decide; [|by apply IH]. csimpl.
  apply NoDup_cons. split; [|by apply IH]. intros (e' & E & He')%list_elem_of_fmap.
  apply list_elem_of_filter in He' as [_ He']. apply He. apply list_elem_of_fmap. eauto.
Qed.

Lemma total_without k d l :
  NoDup (keys l) → (k, d) ∈ l → total l = (Sizefn d + total (without k l))%Z.
Proof.
  unfold without. induction l as [|e l IH]; csimpl; [by intros _ ?%not_elem_of_nil|].
  intros [Hk Hl]%NoDup_cons [<-|Hin]%elem_of_cons; rewrite filter_cons.
  - rewrite decide_False by auto. pose proof (without_absent _ _ Hk) as E.
    unfold without in E. simpl in *. by rewrite E.
  - assert (e.1 ≠ k). { intros <-. apply Hk, list_elem_of_fmap. by exists (e.1, d). }
    rewrite decide_True by done. csimpl. rewrite IH by done. lia.
Qed.

(** ** The operations refine the specification *)

Lemma splice_front_spec n e l :
  NoDup (fst <$> l) → (n, e) ∈ l → splice_front n l ≡ₚ l.
Proof.
  intros Hd Hin. unfold splice_front. rewrite (node_at_in n e l Hd Hin).
  induction l as [|[m e'] l IH]; [by apply not_elem_of_nil in Hin|]. csimpl.
  unfold erase_node in *. rewrite filter_cons. apply NoDup_cons in Hd as [Hm Hd].
  apply elem_of_cons in Hin as [[= <- <-]|Hin].
  - rewrite decide_False by auto. f_equiv.
    rewrite filter_all; [done|]. intros e' He' E. apply Hm, list_elem_of_fmap. by exists e'.
  - rewrite decide_True; [rewrite perm_swap; f_equiv; by apply IH|].
    simpl. intros ->. apply Hm, list_elem_of_fmap. by exists (n, e).
Qed.

Lemma total_perm l1 l2 : l1 ≡ₚ l2 → total l1 = total l2.
Proof. induction 1; simpl; lia. Qed.

Lemma linked_perm l c : linked c → l ≡ₚ list_ c → linked (set_list l c).
Proof.
  intros L P. split; unfold entries, keys; simpl.
  - rewrite P. apply L.
  - rewrite P. apply L.
  - intros k n. rewrite (linked_index c L). by setoid_rewrite P.
  - intros e. rewrite P. apply L.
  - rewrite (total_perm _ (entries c)); [apply L|]. unfold entries. by rewrite P.
  - rewrite (total_perm _ (entries c)); [apply L|]. unfold entries. by rewrite P.
Qed.

Lemma touch_spec k c :
  linked c → ∃ c', _touch k c = (Ok (index_ c !! k), c') ∧ linked c'
    ∧ entries c' = spec_touch k (entries c)
    ∧ index_ c' = index_ c ∧ max_size_ c' = max_size_ c ∧ next_iter c' = next_iter c.
Proof.
  intros L. unfold _touch. rewrite eff_bind_gets.
  pose proof (index_lookup c k L) as Hl. unfold spec_touch.
  destruct (index_ c !! k) as [n|] eqn:E; [|exists c; by rewrite Hl].
  destruct Hl as (d & Hn & ->). rewrite eff_bind_modify.
  destruct (linked_iter c k n L E) as (d' & Hin & Hn' & Hlink).
  eexists. split; [done|]. split; [apply linked_perm; [done|]|].
  { eapply splice_front_spec; [apply L|done]. }
  split; [|done]. unfold entries, splice_front. simpl. rewrite Hn. csimpl. f_equal.
  by apply erase_entries.
Qed.

Lemma remove_iter_spec k n c :
  linked c → index_ c !! k = Some n →
  ∃ c', _remove_iter k n c = (Ok tt, c') ∧ linked c'
    ∧ entries c' = without k (entries c) ∧ index_ c' = delete k (index_ c)
    ∧ max_size_ c' = max_size_ c ∧ next_iter c' = next_iter c.
Proof.
  intros L E. destruct (linked_iter c k n L E) as (d & Hin & Hn & Hlink).
  unfold _remove_iter. rewrite eff_bind_gets, Hn. simpl.
  rewrite eff_bind_ret. eexists. split; [done|].
  pose proof (erase_entries n k (list_ c) Hlink) as Hent.
  assert ((k, d) ∈ entries c) as Hkd.
  { apply list_elem_of_fmap. by exists (n, (k, d)). }
  pose proof (total_without k d (entries c) (linked_keys c L) Hkd) as Ht.
  pose proof (total_nonneg (without k (entries c))). pose proof (linked_small c L). pose proof (Sizefn_nonneg d).
  split; [|unfold entries; simpl; by rewrite Hent].
  split; unfold entries; simpl; rewrite ?Hent.
  - eapply sublist_NoDup; [apply L|]. apply fmap_sublist, sublist_filter.
  - apply NoDup_without, L.
  - intros k' n'. rewrite lookup_delete_Some, (linked_index c L).
    unfold erase_node. setoid_rewrite list_elem_of_filter. simpl. split.
    + intros [Hk (d' & Hd')]. exists d'. split; [|done]. intros ->.
      apply Hk. symmetry. exact (proj1 (Hlink _ Hd') eq_refl).
    + intros (d' & Hn' & Hd'). split; [|by exists d']. intros <-.
      apply Hn'. exact (proj2 (Hlink _ Hd') eq_refl).
  - intros e He. apply list_elem_of_filter in He as [_ He]. by apply L.
  - rewrite (linked_size c L), Ht. fold (entries c). rewrite size_t_id; lia.
  - fold (entries c). lia.
Qed.

Lemma fit_all b l : (total l ≤ b)%Z → fit b l = l.
Proof.
  revert b. induction l as [|e l IH]; intros b Hb; simpl in *; [done|].
  pose proof (total_nonneg l). rewrite (proj2 (Z.leb_le _ _)) by lia. f_equal. apply IH. lia.
Qed.

Lemma fit_snoc b l e :
  (b < total (l ++ [e]))%Z → fit b (l ++ [e]) = fit b l.
Proof.
  revert b. induction l as [|e' l IH]; intros b Hb; simpl in *.
  - rewrite (proj2 (Z.leb_gt _ _)) by lia. done.
  - destruct (_ <=? b)%Z eqn:E; [|done]. f_equal. apply IH. lia.
Qed.

Lemma fit_total b l : (0 ≤ b)%Z → (total (fit b l) ≤ b)%Z.
Proof.
  revert b. induction l as [|e l IH]; intros b Hb; simpl; [done|].
  destruct (_ <=? b)%Z eqn:E; simpl; [|lia].
  assert (total (fit (b - Sizefn e.2) l) ≤ b - Sizefn e.2)%Z by (apply IH; lia). lia.
Qed.

Lemma without_last l e : NoDup (keys (l ++ [e])) → without e.1 (l ++ [e]) = l.
Proof.
  unfold keys, without. rewrite fmap_app, filter_app, NoDup_app. intros (_ & Hd & _).
  rewrite filter_cons_False, filter_nil, app_nil_r by auto.
  apply filter_all. intros e' He' E. apply (Hd e'.1); [apply list_elem_of_fmap; eauto|].
  rewrite E. by left.
Qed.

Lemma evict_loop_spec fuel c :
  linked c → (0 ≤ max_size_ c)%Z → length (list_ c) < fuel →
  ∃ c', evict_loop fuel c = (Ok tt, c') ∧ linked c'
    ∧ entries c' = fit (max_size_ c) (entries c) ∧ max_size_ c' = max_size_ c.
Proof.
  intros L Hm. revert c L Hm. induction fuel as [|fuel IH]; intros c L Hm Hf; [lia|].
  cbn [evict_loop]. rewrite eff_bind_gets, (linked_size c L).
  destruct (Z.ltb_spec (max_size_ c) (total (entries c))) as [Hlt|Hge]; last first.
  { exists c. by rewrite fit_all. }
  destruct (list.last (list_ c)) as [x|] eqn:El; last first.
  { apply last_None in El. unfold entries in Hlt. rewrite El in Hlt. simpl in Hlt. lia. }
  apply last_Some in El as [l El]. unfold deref. rewrite eff_bind_ret.
  assert (index_ c !! x.2.1 = Some x.1) as Hx.
  { apply (linked_index c L). exists x.2.2. rewrite El. destruct x as [? [? ?]].
    apply elem_of_app. right. by left. }
  destruct (remove_iter_spec _ _ c L Hx) as (c1 & E1 & L1 & En & _ & Em & _).
  assert (entries c = (snd <$> l) ++ [x.2]) as Ec by (unfold entries; by rewrite El, fmap_app).
  rewrite Ec, without_last in En by (rewrite <- Ec; apply L).
  assert (_remove_key x.2.1 c = (Ok tt, c1)) as Hr.
  { unfold _remove_key. rewrite eff_bind_gets, Hx. unfold deref. by rewrite eff_bind_ret. }
  rewrite (eff_bind_ok _ _ _ _ _ Hr).
  destruct (IH c1 L1) as (c2 & -> & L2 & E2 & M2); [lia| |].
  { unfold entries in En. apply (f_equal length) in En. rewrite !length_fmap in En.
    rewrite En. rewrite El, length_app in Hf. simpl in Hf. lia. }
  exists c2. split; [done|]. split; [done|]. split; [|congruence].
  rewrite E2, Em, En, Ec, fit_snoc; [done|]. by rewrite <- Ec.
Qed.

Lemma without_touch k l : without k (spec_touch k l) = without k l.
Proof.
  unfold spec_touch. destruct (spec_lookup k l) as [d|] eqn:E; [|done].
  unfold without. rewrite filter_cons_False by (simpl; auto).
  apply filter_all. intros e He. by apply list_elem_of_filter in He as [? _].
Qed.

(** The insertion proper, on a cache whose index does not have the key. *)
Lemma push_linked k d c :
  linked c → index_ c !! k = None →
  (total (entries c) + Sizefn d < 2 ^ 64)%Z →
  linked (Build_LRUCache ((next_iter c, (k, d)) :: list_ c)
    (<[k:=next_iter c]> (index_ c)) (max_size_ c) (size_t (curr_size_ c + Sizefn d))
    (Pos.succ (next_iter c))).
Proof.
  intros L Hk Hs. pose proof (Sizefn_nonneg d) as Hd. pose proof (index_lookup c k L) as Hl. rewrite Hk in Hl.
  apply spec_lookup_None in Hl.
  split; unfold entries, keys; csimpl.
  - apply NoDup_cons. split; [|apply L]. intros (e & E & He)%list_elem_of_fmap.
    apply (linked_fresh c L) in He. lia.
  - apply NoDup_cons. split; [done|apply L].
  - intros k' n'. rewrite lookup_insert_Some, (linked_index c L). split.
    + intros [[<- <-]|[Hne (d' & Hd')]]; eexists; [by left|right; done].
    + intros (d' & Hd'). apply elem_of_cons in Hd' as [[= -> -> ->]|Hd']; [by left|].
      right. split; [|by exists d']. intros <-. apply Hl. unfold keys, entries.
      apply list_elem_of_fmap. exists (k, d'). split; [done|].
      apply list_elem_of_fmap. by exists (n', (k, d')).
  - intros e [->|He]%elem_of_cons; simpl; [lia|].
    apply (linked_fresh c L) in He. lia.
  - rewrite (linked_size c L). unfold entries.
    pose proof (linked_small c L). pose proof (total_nonneg (entries c)).
    unfold entries in *. rewrite size_t_id; lia.
  - unfold entries in *. lia.
Qed.

Lemma wf_new m : (0 ≤ m < 2 ^ 64)%Z → wf (LRUCache_new m).
Proof.
  intros Hm. split; [|done|simpl; lia]. split; simpl; try constructor; try lia.
  - by rewrite lookup_empty.
  - by intros [? ?%not_elem_of_nil].
  - by intros e ?%not_elem_of_nil.
Qed.

(** [insert] never dereferences a bad iterator, its eviction loop ends, and
    the new entry goes first, an old entry with the same key disappears, and
    the least recent entries are dropped until the sizes fit. *)
Lemma insert_spec k d c :
  wf c → (max_size_ c + Sizefn d < 2 ^ 64)%Z →
  ∃ c', insert k d c = (Ok tt, c') ∧ wf c'
    ∧ entries c' = spec_insert (max_size_ c) k d (entries c)
    ∧ max_size_ c' = max_size_ c.
Proof.
  intros [L Hm Hb] Hs. unfold insert.
  destruct (touch_spec k c L) as (c1 & E1 & L1 & En1 & Ei1 & Em1 & _).
  rewrite (eff_bind_ok _ _ _ _ _ E1).
  assert (∃ c2, (match index_ c !! k with None => mret () | Some n => _remove_iter k n end) c1
    = (Ok tt, c2) ∧ linked c2 ∧ entries c2 = without k (entries c)
    ∧ index_ c2 !! k = None ∧ max_size_ c2 = max_size_ c) as (c2 & E2 & L2 & En2 & Ei2 & Em2).
  { pose proof (index_lookup c k L) as Hl. destruct (index_ c !! k) as [n|] eqn:Ek.
    - destruct (remove_iter_spec k n c1 L1) as (c2 & ? & ? & En & Ei & Em & _); [congruence|].
      exists c2. split_and!; [done|done| | |congruence].
      + by rewrite En, En1, without_touch.
      + by rewrite Ei, lookup_delete_eq.
    - exists c1. split_and!; [done|done| |congruence|done]. rewrite En1.
      unfold spec_touch. rewrite Hl. symmetry. by apply without_absent, spec_lookup_None. }
  rewrite (eff_bind_ok _ _ _ _ _ E2), eff_bind_modify, Ei2, eff_bind_gets.
  cbv beta. cbn [list_].
  assert (total (entries c2) ≤ total (entries c))%Z as Hle.
  { rewrite En2. pose proof (index_lookup c k L) as Hl. destruct (index_ c !! k) as [n|] eqn:Ek.
    - destruct (linked_iter c k n L Ek) as (d' & Hin & _).
      rewrite (total_without k d' (entries c)); [pose proof (Sizefn_nonneg d'); lia|apply L|].
      apply list_elem_of_fmap. by exists (n, (k, d')).
    - rewrite without_absent; [lia|]. by apply spec_lookup_None. }
  destruct (evict_loop_spec (S (length ((next_iter c2, (k, d)) :: list_ c2)))
    _ (push_linked k d c2 L2 Ei2 ltac:(lia))) as (c3 & -> & L3 & En3 & Em3); [simpl; lia..|].
  cbn [max_size_] in *. exists c3. split; [done|].
  assert (entries c3 = spec_insert (max_size_ c) k d (entries c)) as Hent.
  { rewrite En3. change (entries (Build_LRUCache _ _ _ _ _)) with ((k, d) :: entries c2).
    by rewrite En2, Em2. }
  split; [|split; [done|congruence]]. split; [done|by rewrite Em3, Em2|].
  rewrite Hent, Em3, Em2. unfold spec_insert. apply fit_total. lia.
Qed.

(** [fetch] returns what the specification holds for the key (or [Data()]),
    and reorders the entries only when asked to touch. *)
Lemma fetch_spec k t c :
  wf c →
  ∃ c', fetch k t c = (Ok (default Data_default (spec_lookup k (entries c))), c') ∧ wf c'
    ∧ entries c' = (if t then spec_touch k (entries c) else entries c)
    ∧ max_size_ c' = max_size_ c ∧ (t = false → c' = c).
Proof.
  intros W. pose proof W as [L Hm Hb]. unfold fetch. rewrite eff_bind_gets.
  pose proof (index_lookup c k L) as Hl. destruct (index_ c !! k) as [n|] eqn:Ek.
  - destruct Hl as (d & Hn & Hd). rewrite eff_bind_gets, Hn, Hd. unfold deref.
    rewrite eff_bind_ret. destruct t; cbn [when]; last first.
    { rewrite eff_bind_ret. by exists c. }
    destruct (touch_spec k c L) as (c1 & E1 & L1 & En1 & Ei1 & Em1 & _).
    unfold touch. rewrite eff_bind_assoc, (eff_bind_ok _ _ _ _ _ E1), eff_bind_ret.
    exists c1. split; [done|]. split; [|by split].
    split; [done|by rewrite Em1|]. rewrite En1, Em1. unfold spec_touch. rewrite Hd. simpl.
    destruct (linked_iter c k n L Ek) as (d' & Hin & Hn' & _).
    rewrite Hn in Hn'. injection Hn' as <-.
    rewrite <- (total_without k d (entries c)); [done|apply L|].
    apply list_elem_of_fmap. by exists (n, (k, d)).
  - rewrite Hl. exists c. split; [done|]. split; [done|]. split; [|done].
    destruct t; [|done]. unfold spec_touch. by rewrite Hl.
Qed.

(** [fetch_ptr] moves the entry to the front whatever its [touch] argument
    says. *)
Lemma fetch_ptr_spec k t c :
  wf c →
  ∃ c', fetch_ptr k t c = (Ok (spec_lookup k (entries c)), c') ∧ wf c'
    ∧ entries c' = spec_touch k (entries c) ∧ max_size_ c' = max_size_ c.
Proof.
  intros W. pose proof W as [L Hm Hb]. unfold fetch_ptr. rewrite eff_bind_gets.
  pose proof (index_lookup c k L) as Hl. destruct (index_ c !! k) as [n|] eqn:Ek.
  - destruct Hl as (d & Hn & Hd).
    destruct (touch_spec k c L) as (c1 & E1 & L1 & En1 & Ei1 & Em1 & _).
    rewrite (eff_bind_ok _ _ _ _ _ E1), eff_bind_gets.
    destruct (linked_iter c1 k n L1 ltac:(congruence)) as (d' & Hin & Hn' & _).
    rewrite Hn'. unfold deref. rewrite eff_bind_ret.
    assert (d' = d) as ->.
    { assert (spec_lookup k (entries c1) = Some d') as Hd'.
      { apply spec_lookup_in; [apply L1|]. apply list_elem_of_fmap. by exists (n, (k, d')). }
      rewrite En1 in Hd'. unfold spec_touch in Hd'. rewrite Hd in Hd'. simpl in Hd'.
      rewrite decide_True in Hd' by done. congruence. }
    rewrite Hd. exists c1. split; [done|]. split; [|done].
    split; [done|by rewrite Em1|]. rewrite Em1, En1. unfold spec_touch. rewrite Hd.
    change (total _) with (Sizefn d + total (without k (entries c)))%Z.
    rewrite <- (total_without k d (entries c)); [done|apply L|].
    destruct (linked_iter c k n L Ek) as (d'' & Hin'' & Hn'' & _).
    rewrite Hn in Hn''. injection Hn'' as <-.
    apply list_elem_of_fmap. by exists (n, (k, d)).
  - rewrite Hl. exists c. split; [done|]. split; [done|].
    unfold spec_touch. by rewrite Hl.
Qed.

(** [remove] deletes exactly the key's entry and keeps the order. *)
Lemma remove_spec k c :
  wf c → ∃ c', remove k c = (Ok tt, c') ∧ wf c' ∧ entries c' = without k (entries c)
              ∧ max_size_ c' = max_size_ c.
Proof.
  intros W. pose proof W as [L Hm Hb]. unfold remove. rewrite eff_bind_gets.
  pose proof (index_lookup c k L) as Hl. destruct (index_ c !! k) as [n|] eqn:Ek.
  - destruct (remove_iter_spec k n c L Ek) as (c1 & -> & L1 & En & _ & Em & _).
    exists c1. split; [done|]. split; [|by split]. split; [done|by rewrite Em|].
    destruct (linked_iter c k n L Ek) as (d & Hin & _).
    rewrite (total_without k d (entries c)) in Hb; [|apply L|].
    + pose proof (Sizefn_nonneg d). rewrite Em, En. lia.
    + apply list_elem_of_fmap. by exists (n, (k, d)).
  - exists c. split_and!; [done|done| |done].
    symmetry. by apply without_absent, spec_lookup_None.
Qed.

Lemma clear_spec c :
  wf c → ∃ c', clear c = (Ok tt, c') ∧ wf c' ∧ entries c' = [] ∧ max_size_ c' = max_size_ c.
Proof.
  intros [L Hm Hb]. eexists. split; [done|]. split; [|done]. split; [|done|simpl; lia].
  split; simpl; try constructor; try lia.
  - by rewrite lookup_empty.
  - by intros [? ?%not_elem_of_nil].
  - by intros e ?%not_elem_of_nil.
Qed.

Lemma exists_spec k c :
  wf c → exists_ k c = (Ok (bool_decide (is_Some (spec_lookup k (entries c)))), c).
Proof.
  intros [L _ _]. unfold exists_, gets. do 2 f_equal. apply bool_decide_ext.
  pose proof (index_lookup c k L) as Hl. destruct (index_ c !! k) as [n|].
  - destruct Hl as (d & _ & ->). split; eauto.
  - rewrite Hl. split; intros []; congruence.
Qed.

(** ** Programs over a cache *)

Inductive op :=
| Insert (k : Key) (d : Data) | Fetch (k : Key) (touch : bool)
| FetchPtr (k : Key) (touch : bool) | Remove (k : Key) | Exists_ (k : Key) | Clear.

(** What an operation answers: nothing, a value, perhaps a value, a boolean. *)
Definition answer : Type := unit + Data + option Data + bool.

Definition run_op (o : op) : eff cache answer :=
  match o with
  | Insert k d => insert k d;; mret (inl (inl (inl tt)))
  | Fetch k t => d ← fetch k t; mret (inl (inl (inr d)))
  | FetchPtr k t => d ← fetch_ptr k t; mret (inl (inr d))
  | Remove k => remove k;; mret (inl (inl (inl tt)))
  | Exists_ k => b ← exists_ k; mret (inr b)
  | Clear => clear;; mret (inl (inl (inl tt)))
  end.
Fixpoint run (os : list op) : eff cache (list answer) :=
  match os with
  | [] => mret []
  | o :: os' => a ← run_op o; l ← run os'; mret (a :: l)
  end.

Definition spec_op (max : Z) (o : op) (l : list (Key * Data)) : answer * list (Key * Data) :=
  match o with
  | Insert k d => (inl (inl (inl tt)), spec_insert max k d l)
  | Fetch k t => (inl (inl (inr (default Data_default (spec_lookup k l)))),
                  if t then spec_touch k l else l)
  | FetchPtr k _ => (inl (inr (spec_lookup k l)), spec_touch k l)
  | Remove k => (inl (inl (inl tt)), without k l)
  | Exists_ k => (inr (bool_decide (is_Some (spec_lookup k l))), l)
  | Clear => (inl (inl (inl tt)), [])
  end.
Fixpoint spec_run (max : Z) (os : list op) (l : list (Key * Data)) : list answer * list (Key * Data) :=
  match os with
  | [] => ([], l)
  | o :: os' =>
      let '(a, l) := spec_op max o l in
      let '(r, l) := spec_run max os' l in (a :: r, l)
  end.

(** The sizes inserted do not overflow the counter. *)
Definition fits (max : Z) (o : op) : Prop :=
  match o with Insert _ d => (max + Sizefn d < 2 ^ 64)%Z | _ => True end.

Lemma run_op_spec o c :
  wf c → fits (max_size_ c) o →
  ∃ c', run_op o c = (Ok (spec_op (max_size_ c) o (entries c)).1, c') ∧ wf c'
      ∧ entries c' = (spec_op (max_size_ c) o (entries c)).2 ∧ max_size_ c' = max_size_ c.
Proof.
  intros W Hf. destruct o as [k d|k t|k t|k|k|]; simpl.
  - destruct (insert_spec k d c W Hf) as (c' & E & H'). exists c'. by rewrite (eff_bind_ok _ _ _ _ _ E).
  - destruct (fetch_spec k t c W) as (c' & E & W' & H' & Hm & _). exists c'.
    by rewrite (eff_bind_ok _ _ _ _ _ E).
  - destruct (fetch_ptr_spec k t c W) as (c' & E & H'). exists c'. by rewrite (eff_bind_ok _ _ _ _ _ E).
  - destruct (remove_spec k c W) as (c' & E & H'). exists c'. by rewrite (eff_bind_ok _ _ _ _ _ E).
  - exists c. by rewrite (eff_bind_ok _ _ _ _ _ (exists_spec k c W)).
  - destruct (clear_spec c W) as (c' & E & H'). exists c'. by rewrite (eff_bind_ok _ _ _ _ _ E).
Qed.

(** C4: the cache implements its specification: any program over a new cache
    runs without touching a dead list node or looping, gives the answers that
    the association list gives, and ends in its state. Least recently used
    entries go first; [fetch_ptr] counts as a use whatever it is told. *)
Theorem lru_simulates max os :
  (0 ≤ max < 2 ^ 64)%Z → Forall (fits max) os →
  ∃ c', run os (LRUCache_new max) = (Ok (spec_run max os []).1, c') ∧ wf c'
      ∧ entries c' = (spec_run max os []).2.
Proof.
  intros Hm Hf. assert (∀ os c, wf c → Forall (fits (max_size_ c)) os →
    ∃ c', run os c = (Ok (spec_run (max_size_ c) os (entries c)).1, c') ∧ wf c'
        ∧ entries c' = (spec_run (max_size_ c) os (entries c)).2) as Hgen.
  { clear Hf Hm os max. induction os as [|o os IH]; intros c W Hf; [by exists c|].
    apply Forall_cons in Hf as [Ho Hf]. simpl.
    destruct (run_op_spec o c W Ho) as (c1 & E & W1 & En & Em). rewrite (eff_bind_ok _ _ _ _ _ E).
    destruct (IH c1 W1) as (c2 & E2 & W2 & En2); [by rewrite Em|].
    rewrite (eff_bind_ok _ _ _ _ _ E2). rewrite Em, En in *. exists c2.
    destruct (spec_op _ o _) as [a l]. simpl in *. by destruct (spec_run _ os l). }
  exact (Hgen os (LRUCache_new max) (wf_new max Hm) Hf).
Qed.

Lemma keys_entries c : (get_all_keys c).1 = Ok (keys (entries c)).
Proof. unfold get_all_keys, gets, keys, entries. simpl. by rewrite <- list_fmap_compose. Qed.
End cache.

(** With [Countfn], [_max_size] bounds the number of entries. *)
Lemma fit_Countfn {Key Data} `{Countable Key} (m : nat) (l : list (Key * Data)) :
  fit (Key := Key) Countfn (Z.of_nat m) l = take m l.
Proof.
  revert m. induction l as [|e l IH]; intros [|m]; [done..|].
  cbn [fit]. unfold Countfn at 1. rewrite (proj2 (Z.leb_le _ _)) by lia.
  rewrite firstn_cons. f_equal. rewrite <- IH. f_equal. unfold Countfn. lia.
Qed.

Lemma Countfn_nonneg {Data} (d : Data) : (0 ≤ Countfn d)%Z.
Proof. done. Qed.

(** ** The theorem on a small program *)

Definition demo_ops : list (op (Key := nat) (Data := string)) :=
  [Insert 1 "a"; Insert 2 "b"; FetchPtr 1 false; Insert 3 "c"; Exists_ 2; Fetch 1 false].

(** Entry 2 is the one evicted: [fetch_ptr] used entry 1. *)
Example lru_simulates_witness :
  (spec_run Countfn "" 2 demo_ops []).2 = [(3, "c"); (1, "a")] ∧
  ∃ c', run Countfn "" demo_ops (LRUCache_new 2) = (Ok (spec_run Countfn "" 2 demo_ops []).1, c')
      ∧ wf Countfn c' ∧ entries c' = (spec_run Countfn "" 2 demo_ops []).2.
Proof.
  split; [vm_compute; reflexivity|].
  apply (lru_simulates Countfn "" Countfn_nonneg 2 demo_ops); [done|].
  repeat constructor; vm_compute; reflexivity.
Defined.
