(* ===== verification/Regex.v ===== *)
(** A small backtracking matcher for the regular expressions that the program
    hands to PCRE: classes, groups, alternation, greedy repetition and [^].
    PCRE itself is a parameter of the development ([Extern.Pcre]); [pcre_ref]
    is the concrete instance on which witnesses and examples run. *)
From Stdlib Require Import ZArith.
From S2P Require Import Prelude Cpp Extern.

Inductive re :=
| Eps
| Bol
| Chr (p : ascii → bool)
| Seq (a b : re)
| Alt (a b : re)
| Star (a : re)
| Grp (n : nat) (a : re).

Abbreviation groups := (gmap nat (list ascii)).

(** [run]: matches [r] at the start of [s], with the continuation [k] on what is
    left; [total] is the length of the subject. *)
Fixpoint run {R} (fuel total : nat) (r : re) (s : list ascii) (g : groups)
    (k : list ascii → groups → option R) : option R :=
  match fuel with
  | O => None
  | S fuel =>
      match r with
      | Eps => k s g
      | Bol => if decide (length s = total) then k s g else None
      | Chr p => match s with c :: s' => if p c then k s' g else None | [] => None end
      | Seq a b => run fuel total a s g (λ s' g', run fuel total b s' g' k)
      | Alt a b =>
          match run fuel total a s g k with Some x => Some x | None => run fuel total b s g k end
      | Star a =>
          match run fuel total a s g (λ s' g',
                  if decide (length s' < length s) then run fuel total (Star a) s' g' k else None)
          with Some x => Some x | None => k s g end
      | Grp n a =>
          run fuel total a s g (λ s' g', k s' (<[n := take (length s - length s') s]> g'))
      end
  end.

(** ** Parsing patterns *)

Definition to_upper (c : ascii) : ascii :=
  if (97 <=? code c)%Z && (code c <=? 122)%Z
  then Ascii.ascii_of_N (Ascii.N_of_ascii c - 32) else c.
Definition fold_case (caseless : bool) (p : ascii → bool) (c : ascii) : bool :=
  if caseless then p (to_lower c) || p (to_upper c) else p c.
Definition in_range (a b c : ascii) : bool := (code a <=? code c)%Z && (code c <=? code b)%Z.

(** The items of a class, up to the closing bracket. *)
Fixpoint parse_class (fuel : nat) (l : list ascii) (p : ascii → bool) :
    option ((ascii → bool) * list ascii) :=
  match fuel with
  | O => None
  | S fuel =>
      match l with
      | "]"%char :: l' => Some (p, l')
      | "\"%char :: c :: l' => parse_class fuel l' (λ x, p x || in_range c c x)
      | a :: "-"%char :: b :: l' => parse_class fuel l' (λ x, p x || in_range a b x)
      | c :: l' => parse_class fuel l' (λ x, p x || in_range c c x)
      | [] => None
      end
  end.

Definition postfix (a : re) (l : list ascii) : re * list ascii :=
  match l with
  | "+"%char :: l' => (Seq a (Star a), l')
  | "*"%char :: l' => (Star a, l')
  | _ => (a, l)
  end.

(** A sequence up to [|], [)] or the end; [n] counts the groups opened. *)
Fixpoint parse (caseless : bool) (fuel : nat) (acc : re) (n : nat) (l : list ascii)
    : option (re * nat * list ascii) :=
  match fuel with
  | O => None
  | S fuel =>
      let atom p l := let '(a, l) := postfix (Chr (fold_case caseless p)) l in
                      parse caseless fuel (Seq acc a) n l in
      match l with
      | [] | ")"%char :: _ => Some (acc, n, l)
      | "|"%char :: l' =>
          '(b, n, l) ← parse caseless fuel Eps n l'; Some (Alt acc b, n, l)
      | "("%char :: l' =>
          '(a, n', l) ← parse caseless fuel Eps (S n) l';
          match l with
          | ")"%char :: l =>
              let '(a, l) := postfix (Grp (S n) a) l in parse caseless fuel (Seq acc a) n' l
          | _ => None
          end
      | "["%char :: "^"%char :: l' =>
          '(p, l) ← parse_class fuel l' (λ _, false); atom (λ c, negb (p c)) l
      | "["%char :: l' => '(p, l) ← parse_class fuel l' (λ _, false); atom p l
      | "\"%char :: c :: l' => atom (in_range c c) l'
      | "^"%char :: l' => parse caseless fuel (Seq acc Bol) n l'
      | "."%char :: l' => atom (λ c, negb (code c =? 10)%Z) l'
      | c :: l' => atom (in_range c c) l'
      end
  end.

Definition compile (caseless : bool) (pattern : string) : option (re * nat) :=
  let l := chars pattern in
  '(r, n, rest) ← parse caseless (S (length l)) Eps 0 l;
  match rest with [] => Some (r, n) | _ => None end.

(** ** The operations of [pcrecpp::RE] *)

Definition steps (pattern : string) (s : list ascii) : nat :=
  10 * (length (chars pattern) + 2) * (length s + 2).
Definition group (g : groups) (n : nat) : list ascii := default [] (g !! n).

(** The rewrite string: [\d] stands for a group. *)
Fixpoint expand (g : groups) (w : list ascii) : list ascii :=
  match w with
  | [] => []
  | "\"%char :: w' =>
      match w' with
      | d :: w'' => if is_digit d then group g (Z.to_nat (code d - 48)) ++ expand g w''
                    else d :: expand g w''
      | [] => []
      end
  | c :: w' => c :: expand g w'
  end.

(** The leftmost match. *)
Fixpoint search (r : re) (fuel total : nat) (before s : list ascii)
    : option (list ascii * groups * list ascii) :=
  match run fuel total r s ∅ (λ s' g, Some (s', g)) with
  | Some (s', g) => Some (before, g, s')
  | None =>
      match s with
      | [] => None
      | c :: s' => search r fuel total (before ++ [c]) s'
      end
  end.

Definition replace (caseless : bool) (pattern rewrite subject : string) : option string :=
  '(r, _) ← compile caseless pattern;
  let s := chars subject in
  '(before, g, after) ← search r (steps pattern s) (length s) [] s;
  Some (of_chars (before ++ expand g (chars rewrite) ++ after)).

Definition full_match (caseless : bool) (pattern subject : string) : option (list string) :=
  '(r, n) ← compile caseless pattern;
  let s := chars subject in
  g ← run (steps pattern s) (length s) r s ∅ (λ s' g, match s' with [] => Some g | _ => None end);
  Some ((λ i, of_chars (group g (S i))) <$> seq 0 n).

#[export] Instance pcre_ref : Pcre :=
  {| re_replace := replace; re_full_match := full_match |}.

Example replace_1 : replace false "/([0-9]+)" "[@id='\1']" "a/12/b" = Some "a[@id='12']/b".
Proof. vm_compute. reflexivity. Qed.
Example replace_2 :
  replace false "\[([_a-z])([a-z0-9_/]+)([^(a-z0-9_/])" "[\1\2/text()\3" "a[name='x']"
  = Some "a[name/text()='x']".
Proof. vm_compute. reflexivity. Qed.
Example replace_3 : replace true "REVERSE\(" "DESC(" "reverse(x)" = Some "DESC(x)".
Proof. vm_compute. reflexivity. Qed.
Example full_match_1 : full_match false "([0-9]+)(/.*|)" "12/a/b" = Some ["12"; "/a/b"].
Proof. vm_compute. reflexivity. Qed.
Example full_match_2 : full_match false "permalink/(.*)" "permalink/x/y" = Some ["x/y"].
Proof. vm_compute. reflexivity. Qed.
Example full_match_3 : full_match false "([0-9]+)(/.*|)" "a12" = None.
Proof. vm_compute. reflexivity. Qed.
Example full_match_4 :
  full_match true "COUNT\(([.A-Za-z0-9_()\/]+)\)" "count(a/b)" = Some ["a/b"].
Proof. vm_compute. reflexivity. Qed.

(** ** The language of a pattern *)

(** [matches total r s g s' g']: [r] matches the part of [s] before [s'] and
    turns the groups [g] into [g']. *)
Inductive matches (total : nat) : re → list ascii → groups → list ascii → groups → Prop :=
| m_eps s g : matches total Eps s g s g
| m_bol s g : length s = total → matches total Bol s g s g
| m_chr p c s g : p c = true → matches total (Chr p) (c :: s) g s g
| m_seq a b s g s1 g1 s2 g2 :
    matches total a s g s1 g1 → matches total b s1 g1 s2 g2 → matches total (Seq a b) s g s2 g2
| m_alt_l a b s g s' g' : matches total a s g s' g' → matches total (Alt a b) s g s' g'
| m_alt_r a b s g s' g' : matches total b s g s' g' → matches total (Alt a b) s g s' g'
| m_star_end a s g : matches total (Star a) s g s g
| m_star a s g s1 g1 s2 g2 :
    matches total a s g s1 g1 → matches total (Star a) s1 g1 s2 g2 →
    matches total (Star a) s g s2 g2
| m_grp n a s g s' g' :
    matches total a s g s' g' →
    matches total (Grp n a) s g s' (<[n := take (length s - length s') s]> g').

Lemma run_sound {R} fuel total r s g (k : list ascii → groups → option R) x :
  run fuel total r s g k = Some x → ∃ s' g', matches total r s g s' g' ∧ k s' g' = Some x.
Proof.
  revert r s g k. induction fuel as [|fuel IH]; intros r s g k; [done|].
  destruct r as [| |p|a b|a b|a|n a]; simpl; intros E.
  - eauto using matches.
  - case_decide; [|done]. eauto using matches.
  - destruct s as [|c s]; [done|]. destruct (p c) eqn:Ep; [|done]. eauto using matches.
  - apply IH in E as (s1 & g1 & M1 & E). apply IH in E as (s2 & g2 & M2 & E). eauto using matches.
  - destruct (run fuel total a s g k) as [y|] eqn:Ea.
    + injection E as <-. apply IH in Ea as (s' & g' & M & E). eauto using matches.
    + apply IH in E as (s' & g' & M & E). eauto using matches.
  - destruct (run fuel total a s g _) as [y|] eqn:Ea; [|eauto using matches].
    injection E as <-. apply IH in Ea as (s1 & g1 & M1 & E). case_decide; [|done].
    apply IH in E as (s2 & g2 & M2 & E). eauto using matches.
  - apply IH in E as (s' & g' & M & E). eauto using matches.
Qed.

Lemma search_sound r fuel total before s b g after :
  search r fuel total before s = Some (b, g, after) →
  ∃ a s0, s = a ++ s0 ∧ b = before ++ a ∧ matches total r s0 ∅ after g.
Proof.
  revert before. induction s as [|c s IH]; intros before; simpl.
  - destruct (run fuel total r [] ∅ _) as [[s' g']|] eqn:E; [|done].
    apply run_sound in E as (s1 & g1 & M & [= <- <-]). intros [= <- <- <-].
    exists [], []. by split_and!; [|rewrite app_nil_r|].
  - destruct (run fuel total r (c :: s) ∅ _) as [[s' g']|] eqn:E.
    + apply run_sound in E as (s1 & g1 & M & [= <- <-]). intros [= <- <- <-].
      exists [], (c :: s). by split_and!; [|rewrite app_nil_r|].
    + intros (a & s0 & -> & -> & M)%IH. exists (c :: a), s0.
      by split_and!; [|rewrite <- app_assoc|].
Qed.

(** A replacement splits the subject around a match. *)
Lemma replace_sound caseless pattern rewrite r n s s' :
  compile caseless pattern = Some (r, n) →
  replace caseless pattern rewrite s = Some s' →
  ∃ a m b g, chars s = a ++ m ++ b ∧ matches (length (chars s)) r (m ++ b) ∅ b g ∧
             chars s' = a ++ expand g (chars rewrite) ++ b.
Proof.
  intros Hc. unfold replace. rewrite Hc. cbn [mbind option_bind].
  destruct (search _ _ _ _ _) as [[[b g] after]|] eqn:E; cbn [mbind option_bind]; [|done].
  intros [= <-]. apply search_sound in E as (a & s0 & Es & -> & M).
  assert (∃ m, s0 = m ++ after) as [m ->].
  { clear -M. induction M; [by exists []|by exists []|by eexists [_]| |done|done|by exists []| |done];
      destruct IHM1 as [m1 ->], IHM2 as [m2 ->]; exists (m1 ++ m2); by rewrite app_assoc. }
  exists a, m, after, g. split; [done|]. split; [done|].
  by rewrite chars_of_chars.
Qed.

(** Repetition of a character class. *)
Lemma star_chr total p s g s' g' :
  matches total (Star (Chr p)) s g s' g' → ∃ w, s = w ++ s' ∧ Forall (λ c, p c = true) w ∧ g' = g.
Proof.
  intros M. remember (Star (Chr p)) as r eqn:Er.
  induction M as [| | | | | |a s g|a s g s1 g1 s2 g2 M1 _ M2 IH2|]; try discriminate Er;
    injection Er as ->.
  - by exists [].
  - destruct (IH2 eq_refl) as (w & -> & Hw & ->). inversion M1 as [| |q c| | | | | |]; subst.
    exists (c :: w). split; [done|]. by split; [constructor|].
Qed.

(** A class of one character. *)
Lemma in_range_refl a c : in_range a a c = true → a = c.
Proof.
  unfold in_range, code. intros [E1 E2]%andb_true_iff.
  rewrite <- (Ascii.ascii_N_embedding c), <- (Ascii.ascii_N_embedding a). f_equal. lia.
Qed.

(** The text of a group, in the forms in which inversion leaves it. *)
Lemma take_group (w s : list ascii) : take (length (w ++ s) - length s) (w ++ s) = w.
Proof. rewrite length_app, Nat.add_sub. apply take_app_length. Qed.
Lemma take_group_cons c (w s : list ascii) :
  take (length (c :: w ++ s) - length s) (c :: w ++ s) = c :: w.
Proof. apply (take_group (c :: w)). Qed.
Lemma take_group1 c (s : list ascii) : take (length (c :: s) - length s) (c :: s) = [c].
Proof. apply (take_group [c]). Qed.
Lemma take_group2 c d (s : list ascii) :
  take (length (c :: d :: s) - length s) (c :: d :: s) = [c; d].
Proof. apply (take_group [c; d]). Qed.
Lemma take_group3 c d e (s : list ascii) :
  take (length (c :: d :: e :: s) - length s) (c :: d :: e :: s) = [c; d; e].
Proof. apply (take_group [c; d; e]). Qed.

Create Rewrite HintDb groups.
#[export] Hint Rewrite take_group_cons take_group1 take_group2 take_group3 : groups.

(** Inversion of the matches of a concrete expression. *)
Ltac inv_matches :=
  repeat match goal with
  | H : matches _ (Seq _ _) _ _ _ _ |- _ => inversion H; clear H; subst
  | H : matches _ (Grp _ _) _ _ _ _ |- _ => inversion H; clear H; subst
  | H : matches _ (Chr _) _ _ _ _ |- _ => inversion H; clear H; subst
  | H : matches _ (Alt _ _) _ _ _ _ |- _ => inversion H; clear H; subst
  | H : matches _ Eps _ _ _ _ |- _ => inversion H; clear H; subst
  | H : matches _ (Star _) _ _ _ _ |- _ => apply star_chr in H as (? & -> & ? & ->)
  end.

(** From a replacement by a concrete pattern to the characters it matched. *)
Ltac inv_replace H :=
  eapply replace_sound in H; [|reflexivity];
  let a := fresh "a" in let m := fresh "m" in let b := fresh "b" in let g := fresh "g" in
  let M := fresh "M" in let E := fresh "E" in let E' := fresh "E'" in
  destruct H as (a & m & b & g & E & M & E');
  lazy -[fold_case in_range orb negb code app length take insert empty] in M;
  inv_matches; autorewrite with groups in E'; rewrite E, E';
  match goal with Em : m ++ b = _ |- _ => rewrite Em end;
  simpl; unfold group; simplify_map_eq.
