(* ===== verification/Pool.v ===== *)
(** The connection pool shared by [cpp/mysql_proxy.cpp] and
    [cpp/memcache_proxy.cpp]: [getConnection] waits on a condition variable
    until a connection is free, [freeConnection] (the deleter of the shared
    pointer) gives it back.  The first part is the code that runs under
    [poolMutex]; the second part is the interleaving of threads. *)
From Stdlib Require Import ZArith.
From S2P Require Import Prelude Cpp.

(** A connection object, by address. *)
Abbreviation con := positive.

Inductive conn_state := POOL_FREE | POOL_INUSE.

#[export] Instance conn_state_eq_dec : EqDecision conn_state.
Proof. solve_decision. Defined.

(** [std::map<Connection*, short>], in key order, and the counter. *)
Record Pool := {
  connPool : list (con * conn_state);
  availableConnections : Z;
}.

(** [connPool[con] = s]. *)
Fixpoint map_set (c : con) (s : conn_state) (m : list (con * conn_state)) :=
  match m with
  | [] => [(c, s)]
  | (c', s') :: m' =>
      match (c ?= c')%positive with
      | Lt => (c, s) :: m
      | Eq => (c, s) :: m'
      | Gt => (c', s') :: map_set c s m'
      end
  end.

(** The loop of the constructors, over the results of [createConnection]
    ([None] when it returned [NULL]). *)
Definition Pool_add (c : option con) (p : Pool) : Pool :=
  match c with
  | Some c => {| connPool := map_set c POOL_FREE (connPool p);
                 availableConnections := (availableConnections p + 1)%Z |}
  | None => p
  end.
Definition Pool_new (cons : list (option con)) : Pool :=
  fold_left (λ p c, Pool_add c p) cons {| connPool := []; availableConnections := 0 |}.

(** The first free connection, marked in use. *)
Fixpoint take_free (m : list (con * conn_state)) : option (con * list (con * conn_state)) :=
  match m with
  | [] => None
  | (c, POOL_FREE) :: m' => Some (c, (c, POOL_INUSE) :: m')
  | e :: m' => match take_free m' with Some (c, m'') => Some (c, e :: m'') | None => None end
  end.

(** One passage through [getConnection] with the mutex held; [None] means that
    the thread waits on the condition variable. *)
Definition getConnection (error : string) : eff Pool (option con) :=
  avail ← gets availableConnections;
  if (avail =? 0)%Z then mret None
  else
    m ← gets connPool;
    match take_free m with
    | Some (c, m') =>
        modify (λ p, {| connPool := m'; availableConnections := (availableConnections p - 1)%Z |});;
        mret (Some c)
    | None => throw (CStringError error)
    end.

(** [freeConnection]: every entry of the map is visited. *)
Fixpoint free_loop (c : con) (m : list (con * conn_state)) (avail : Z)
    : list (con * conn_state) * Z :=
  match m with
  | [] => ([], avail)
  | (c', s) :: m' =>
      let '(s, avail) := if decide (c' = c) then (POOL_FREE, (avail + 1)%Z) else (s, avail) in
      let '(m', avail) := free_loop c m' avail in
      ((c', s) :: m', avail)
  end.
Definition freeConnection (c : con) : eff Pool unit :=
  modify (λ p, let '(m, a) := free_loop c (connPool p) (availableConnections p) in
               {| connPool := m; availableConnections := a |}).

(** ** Borrowing a connection *)

(** [con = this->getConnection(); ...]: the body runs with a connection, which
    the shared pointer's deleter returns at the end of the scope, also when the
    body throws. A call that has to wait does not return by itself. *)
Definition pooled {S A} (error : string) (m : eff S A) : eff (Pool * S) A := λ '(p, s),
  match getConnection error p with
  | (Ok (Some c), p') => let '(o, s') := m s in (o, ((freeConnection c p').2, s'))
  | (Ok None, p') => (OutOfFuel, (p', s))
  | (Throw e, p') => (Throw e, (p', s))
  | (UB w, p') => (UB w, (p', s))
  | (OutOfFuel, p') => (OutOfFuel, (p', s))
  end.

(** * Threads *)

(** A worker about to take the mutex, waiting on [cond], using a connection, or
    done with it. *)
Inductive thread := Ready | Asleep | Holding (c : con) | Finished.

#[export] Instance thread_eq_dec : EqDecision thread.
Proof. solve_decision. Defined.

Record system := { pool : Pool; threads : list thread }.

Section steps.
Variable error : string.

(** [cond.notify_one()] wakes one waiting thread, if there is one. *)
Inductive notified : list thread → list thread → Prop :=
| notified_none ts : Asleep ∉ ts → notified ts ts
| notified_one i ts : ts !! i = Some Asleep → notified ts (<[i := Ready]> ts).

Inductive pool_step : system → system → Prop :=
| step_wait i p ts p' :
    ts !! i = Some Ready → getConnection error p = (Ok None, p') →
    pool_step {| pool := p; threads := ts |} {| pool := p'; threads := <[i := Asleep]> ts |}
| step_get i p ts c p' :
    ts !! i = Some Ready → getConnection error p = (Ok (Some c), p') →
    pool_step {| pool := p; threads := ts |} {| pool := p'; threads := <[i := Holding c]> ts |}
| step_free i p ts c p' ts' :
    ts !! i = Some (Holding c) → freeConnection c p = (Ok tt, p') →
    notified (<[i := Finished]> ts) ts' →
    pool_step {| pool := p; threads := ts |} {| pool := p'; threads := ts' |}
| step_spurious i p ts :
    ts !! i = Some Asleep →
    pool_step {| pool := p; threads := ts |} {| pool := p; threads := <[i := Ready]> ts |}.

Definition initial (cons : list (option con)) (n : nat) : system :=
  {| pool := Pool_new cons; threads := replicate n Ready |}.

(** ** Invariant *)

Definition held (t : thread) : option con :=
  match t with Holding c => Some c | _ => None end.
Definition holders (ts : list thread) : list con := omap held ts.
Definition with_state (s : conn_state) (m : list (con * conn_state)) : list con :=
  omap (λ e, if decide (e.2 = s) then Some e.1 else None) m.

Record pool_ok (p : Pool) : Prop := {
  ok_nodup : NoDup (fst <$> connPool p);
  ok_count : availableConnections p = Z.of_nat (length (with_state POOL_FREE (connPool p)));
}.

(** Somebody is awake whenever somebody waits. *)
Definition awake (t : thread) : Prop := t = Ready ∨ ∃ c, t = Holding c.
Record system_ok (s : system) : Prop := {
  sys_pool : pool_ok (pool s);
  sys_holders : holders (threads s) ≡ₚ with_state POOL_INUSE (connPool (pool s));
  sys_awake : Asleep ∈ threads s → connPool (pool s) ≠ [] → ∃ t, t ∈ threads s ∧ awake t;
}.

Lemma holders_insert i t t' ts :
  ts !! i = Some t →
  option_list (held t) ++ holders (<[i := t']> ts) ≡ₚ option_list (held t') ++ holders ts.
Proof.
  intros Hi. rewrite <- (take_drop_middle ts i t Hi) at 2.
  rewrite (insert_take_drop ts i t') by (by apply lookup_lt_Some in Hi).
  unfold holders. rewrite !omap_app. csimpl.
  destruct (held t), (held t'); csimpl; rewrite <- ?Permutation_middle; csimpl; try done.
  by rewrite Permutation_swap.
Qed.

Lemma take_free_spec m :
  match take_free m with
  | Some (c, m') =>
      fst <$> m' = fst <$> m
      ∧ with_state POOL_FREE m ≡ₚ c :: with_state POOL_FREE m'
      ∧ with_state POOL_INUSE m' ≡ₚ c :: with_state POOL_INUSE m
  | None => with_state POOL_FREE m = []
  end.
Proof.
  induction m as [|[c [|]] m IH]; csimpl; [done|done|].
  destruct (take_free m) as [[c' m']|]; csimpl; [|done].
  destruct IH as (-> & H1 & H2). split; [done|]. split; [done|].
  by rewrite H2, perm_swap.
Qed.

Lemma getConnection_spec p :
  pool_ok p →
  (availableConnections p = 0%Z ∧ getConnection error p = (Ok None, p))
  ∨ (∃ c p', getConnection error p = (Ok (Some c), p') ∧ pool_ok p'
      ∧ with_state POOL_INUSE (connPool p') ≡ₚ c :: with_state POOL_INUSE (connPool p)
      ∧ fst <$> connPool p' = fst <$> connPool p
      ∧ (0 < availableConnections p)%Z).
Proof.
  intros [Hd Hc]. unfold getConnection. rewrite eff_bind_gets.
  destruct (Z.eqb_spec (availableConnections p) 0) as [E|E]; [by left|right].
  rewrite eff_bind_gets. pose proof (take_free_spec (connPool p)) as Hs.
  destruct (take_free (connPool p)) as [[c m']|]; [|rewrite Hs in Hc; done].
  destruct Hs as (Hk & Hf & Hu). rewrite eff_bind_modify.
  exists c. eexists. split; [done|]. simpl. split; [split; simpl|].
  - by rewrite Hk.
  - rewrite Hc, Hf. simpl. lia.
  - split; [done|]. split; [done|lia].
Qed.

Lemma free_loop_spec c m a :
  NoDup (fst <$> m) →
  let '(m', a') := free_loop c m a in
  fst <$> m' = fst <$> m ∧
  (c ∉ (fst <$> m) → m' = m ∧ a' = a) ∧
  (c ∈ with_state POOL_INUSE m →
    a' = (a + 1)%Z ∧ with_state POOL_FREE m' ≡ₚ c :: with_state POOL_FREE m
    ∧ with_state POOL_INUSE m ≡ₚ c :: with_state POOL_INUSE m').
Proof.
  revert a. induction m as [|[c' s] m IH]; intros a Hd; csimpl in *.
  { split_and!; [done|done|by intros ?%not_elem_of_nil]. }
  apply NoDup_cons in Hd as [Hc' Hd].
  destruct (decide (c' = c)) as [->|Hne].
  - specialize (IH (a + 1)%Z Hd). destruct (free_loop c m (a + 1)) as [m' a'].
    destruct IH as (Hk & Hn & _). destruct (Hn Hc') as [-> ->]. csimpl.
    split; [done|]. split; [intros []%not_elem_of_cons; done|]. intros Hin.
    destruct s; csimpl in *; [|split_and!; done].
    exfalso. apply Hc'. unfold with_state in Hin. apply list_elem_of_omap in Hin as ([c0 s0] & Hin & E).
    case_decide; simplify_eq. apply list_elem_of_fmap. by eexists; split; [|exact Hin].
  - specialize (IH a Hd). destruct (free_loop c m a) as [m' a'].
    destruct IH as (Hk & Hn & Hu). csimpl. rewrite Hk. split; [done|].
    split; [intros []%not_elem_of_cons; by destruct Hn as [-> ->]|].
    intros Hin. destruct s; csimpl in *.
    + destruct (Hu Hin) as (-> & -> & ->). split_and!; [done|by rewrite perm_swap|done].
    + apply elem_of_cons in Hin as [?|Hin]; [by destruct Hne|].
      destruct (Hu Hin) as (-> & -> & ->). split_and!; [done|done|by rewrite perm_swap].
Qed.

Lemma freeConnection_spec c p :
  pool_ok p → c ∈ with_state POOL_INUSE (connPool p) →
  ∃ p', freeConnection c p = (Ok tt, p') ∧ pool_ok p'
      ∧ with_state POOL_INUSE (connPool p) ≡ₚ c :: with_state POOL_INUSE (connPool p')
      ∧ fst <$> connPool p' = fst <$> connPool p.
Proof.
  intros [Hd Hc] Hin. unfold freeConnection, modify.
  pose proof (free_loop_spec c (connPool p) (availableConnections p) Hd) as Hs.
  destruct (free_loop c (connPool p) (availableConnections p)) as [m a].
  destruct Hs as (Hk & _ & Hu). destruct (Hu Hin) as (-> & Hf & Hi).
  eexists. split; [done|]. simpl. split; [split; simpl|done].
  - by rewrite Hk.
  - rewrite Hc, Hf. simpl. lia.
Qed.

(** Giving back the connection just taken restores the pool. *)
Lemma free_loop_other c m a : c ∉ (fst <$> m) → free_loop c m a = (m, a).
Proof.
  revert a. induction m as [|[c' s] m IH]; intros a; csimpl; [done|].
  intros [Hne Hm]%not_elem_of_cons. rewrite decide_False by done. by rewrite IH.
Qed.

Lemma take_free_back m c m' a :
  NoDup (fst <$> m) → take_free m = Some (c, m') → free_loop c m' a = (m, (a + 1)%Z).
Proof.
  revert m' a. induction m as [|[c' s] m IH]; intros m' a; csimpl; [done|].
  intros [Hc Hd]%NoDup_cons. destruct s.
  - intros [= <- <-]. csimpl. rewrite decide_True by done. by rewrite free_loop_other.
  - destruct (take_free m) as [[c0 m0]|] eqn:E; [|done]. intros [= -> <-]. csimpl.
    rewrite decide_False; [by rewrite (IH m0)|]. intros ->. apply Hc.
    pose proof (take_free_spec m) as Hs. rewrite E in Hs. destruct Hs as (_ & Hs & _).
    assert (c ∈ with_state POOL_FREE m) as Hin by (rewrite Hs; by left).
    apply list_elem_of_omap in Hin as ([c0 s0] & Hin & Ec). case_decide; simplify_eq.
    apply list_elem_of_fmap. by eexists; split; [|exact Hin].
Qed.

Lemma getConnection_back p c p' :
  pool_ok p → getConnection error p = (Ok (Some c), p') → (freeConnection c p').2 = p.
Proof.
  intros [Hd _]. unfold getConnection. rewrite eff_bind_gets. case_match; [done|].
  rewrite eff_bind_gets. destruct (take_free _) as [[c' m']|] eqn:E; [|done].
  intros [= -> <-]. unfold freeConnection, modify. simpl.
  rewrite (take_free_back _ _ _ _ Hd E). destruct p as [m a]; simpl. f_equal. lia.
Qed.

Lemma pooled_ok {S A} (m : eff S A) p s :
  pool_ok p → availableConnections p ≠ 0%Z →
  pooled error m (p, s) = (let '(o, s') := m s in (o, (p, s'))).
Proof.
  intros Hp Ha. unfold pooled.
  destruct (getConnection_spec p Hp) as [[Hz E]|(c & p' & E & _)]; [done|].
  by rewrite E, (getConnection_back p c p').
Qed.

Lemma pooled_wait {S A} (m : eff S A) p s :
  availableConnections p = 0%Z → pooled error m (p, s) = (OutOfFuel, (p, s)).
Proof. intros E. unfold pooled, getConnection. by rewrite eff_bind_gets, E. Qed.

(** ** The constructors establish the invariant *)

Lemma map_set_new c s m :
  c ∉ (fst <$> m) → map_set c s m ≡ₚ (c, s) :: m.
Proof.
  induction m as [|[c' s'] m IH]; csimpl; [done|]. intros [Hne Hm]%not_elem_of_cons.
  destruct (Pos.compare_spec c c') as [->| |]; [done|done|].
  rewrite IH by done. apply perm_swap.
Qed.

Lemma with_state_perm s m1 m2 : m1 ≡ₚ m2 → with_state s m1 ≡ₚ with_state s m2.
Proof. intros P. unfold with_state. by rewrite P. Qed.

Lemma Pool_new_ok cons :
  NoDup (omap id cons) →
  pool_ok (Pool_new cons) ∧ with_state POOL_INUSE (connPool (Pool_new cons)) = []
  ∧ fst <$> connPool (Pool_new cons) ≡ₚ omap id cons.
Proof.
  unfold Pool_new. induction cons as [|oc cons IH] using rev_ind; intros Hd.
  { split_and!; [split; simpl; [constructor|done]|done|done]. }
  rewrite omap_app, NoDup_app in Hd. destruct Hd as (Hd1 & Hd2 & _).
  destruct (IH Hd1) as ([Hn Hc] & Hu & Hk). rewrite fold_left_app, omap_app.
  set (p := fold_left _ cons _) in *. destruct oc as [c|]; csimpl; [|by rewrite app_nil_r].
  assert (c ∉ (fst <$> connPool p)) as Hfresh.
  { rewrite Hk. intros Hin. apply (Hd2 c Hin). by left. }
  pose proof (map_set_new c POOL_FREE (connPool p) Hfresh) as P.
  split; [split|]; cbn [connPool availableConnections Pool_add].
  - rewrite P. csimpl. by apply NoDup_cons.
  - rewrite (with_state_perm POOL_FREE _ _ P). csimpl. lia.
  - split.
    + apply Permutation_nil. rewrite (with_state_perm POOL_INUSE _ _ P). csimpl. by rewrite Hu.
    + rewrite P. csimpl. by rewrite Hk, Permutation_cons_append.
Qed.

Lemma with_state_sublist s m : with_state s m `sublist_of` (fst <$> m).
Proof.
  induction m as [|[c s'] m IH]; [apply sublist_nil_l|]. unfold with_state in *. csimpl.
  case_decide; by constructor.
Qed.

Lemma holders_replicate n : holders (replicate n Ready) = [].
Proof. by induction n. Qed.

Lemma initial_ok cons n : NoDup (omap id cons) → system_ok (initial cons n).
Proof.
  intros Hd. destruct (Pool_new_ok cons Hd) as (Hok & Hu & _).
  split; simpl; [done|by rewrite holders_replicate, Hu|].
  intros []%elem_of_replicate. done.
Qed.

(** ** Every step keeps it *)

Lemma elem_insert_other (ts : list thread) i t t' :
  t ∈ <[i := t']> ts → t ≠ t' → t ∈ ts.
Proof.
  intros Hin Hne. apply list_elem_of_lookup in Hin as [j Hj].
  apply list_lookup_insert_Some in Hj as [(-> & <- & _)|[_ Hj]]; [done|].
  apply list_elem_of_lookup. eauto.
Qed.

Lemma elem_insert (ts : list thread) i t t' : ts !! i = Some t → t' ∈ <[i := t']> ts.
Proof.
  intros Hi. apply list_elem_of_lookup. exists i. apply list_lookup_insert_eq.
  by apply lookup_lt_Some in Hi.
Qed.

Lemma inuse_all m : with_state POOL_FREE m = [] → with_state POOL_INUSE m = (fst <$> m).
Proof. induction m as [|[c []] m IH]; csimpl; [done|done|]. intros E. by rewrite IH. Qed.

Lemma holders_elem c ts : c ∈ holders ts ↔ Holding c ∈ ts.
Proof.
  unfold holders. rewrite list_elem_of_omap. split; [|intros H; by exists (Holding c)].
  intros ([] & Hin & E); by simplify_eq/=.
Qed.

Lemma notified_holders ts ts' : notified ts ts' → holders ts' ≡ₚ holders ts.
Proof.
  destruct 1 as [|i ts Hi]; [done|]. by pose proof (holders_insert i _ Ready ts Hi).
Qed.

Lemma notified_awake ts ts' : notified ts ts' → Asleep ∈ ts' → ∃ t, t ∈ ts' ∧ awake t.
Proof.
  destruct 1 as [|i ts Hi]; [done|]. intros _. exists Ready.
  split; [by eapply elem_insert|by left].
Qed.

Lemma step_ok s s' : pool_step s s' → system_ok s → system_ok s'.
Proof.
  destruct 1 as [i p ts p' Hi Hg|i p ts c p' Hi Hg|i p ts c p' ts' Hi Hf Hn|i p ts Hi];
    intros [Hp Hh Ha]; simpl in *.
  - destruct (getConnection_spec p Hp) as [[Hz E]|(c & ? & E & _)]; [|congruence].
    rewrite E in Hg. injection Hg as <-. pose proof (holders_insert i _ Asleep ts Hi) as P.
    split; simpl; [done|by rewrite P|]. intros _ Hne.
    assert (with_state POOL_FREE (connPool p) = []) as Hnil.
    { apply nil_length_inv. pose proof (ok_count p Hp). lia. }
    pose proof (inuse_all _ Hnil) as Hall. destruct (connPool p) as [|[c0 s0] m] eqn:Em; [done|].
    rewrite Hall in Hh. csimpl in *. assert (c0 ∈ holders ts) as Hin by (rewrite Hh; by left).
    apply holders_elem in Hin. exists (Holding c0). split; [|right; eauto].
    apply list_elem_of_lookup in Hin as [j Hj]. apply list_elem_of_lookup. exists j.
    rewrite list_lookup_insert_ne; [done|]. intros ->. congruence.
  - destruct (getConnection_spec p Hp) as [[Hz E]|(c' & p1 & E & Hok & Hu & _)]; [congruence|].
    rewrite E in Hg. injection Hg as -> ->. pose proof (holders_insert i _ (Holding c) ts Hi) as P.
    csimpl in P. split; simpl; [done|by rewrite P, Hh, Hu|].
    intros _ _. exists (Holding c). split; [by eapply elem_insert|right; eauto].
  - assert (c ∈ with_state POOL_INUSE (connPool p)) as Hin.
    { rewrite <- Hh. apply holders_elem, list_elem_of_lookup. eauto. }
    destruct (freeConnection_spec c p Hp Hin) as (p1 & E & Hok & Hu & Hk).
    rewrite E in Hf. injection Hf as ->. pose proof (holders_insert i _ Finished ts Hi) as P.
    csimpl in P. split; simpl; [done| |].
    + rewrite (notified_holders _ _ Hn). apply (Permutation_cons_inv (a := c)).
      by rewrite P, Hh, Hu.
    + intros Has _. by apply (notified_awake _ _ Hn).
  - pose proof (holders_insert i _ Ready ts Hi) as P. split; simpl; [done|by rewrite P|].
    intros _ _. exists Ready. split; [by eapply elem_insert|by left].
Qed.

Lemma step_keys s s' :
  pool_step s s' → system_ok s →
  fst <$> connPool (pool s') = fst <$> connPool (pool s).
Proof.
  destruct 1 as [i p ts p' Hi Hg|i p ts c p' Hi Hg|i p ts c p' ts' Hi Hf Hn|i p ts Hi];
    intros [Hp Hh _]; simpl in *; [| | |done].
  - destruct (getConnection_spec p Hp) as [[Hz E]|(c & ? & E & _)]; congruence.
  - destruct (getConnection_spec p Hp) as [[Hz E]|(c' & p1 & E & _ & _ & E2 & _)]; congruence.
  - assert (c ∈ with_state POOL_INUSE (connPool p)) as Hin.
    { rewrite <- Hh. apply holders_elem, list_elem_of_lookup. eauto. }
    destruct (freeConnection_spec c p Hp Hin) as (p1 & E & _ & _ & Hk). congruence.
Qed.

Lemma reachable_ok cons n s :
  NoDup (omap id cons) → rtc pool_step (initial cons n) s →
  system_ok s ∧ fst <$> connPool (pool s) ≡ₚ omap id cons.
Proof.
  intros Hd.
  apply (rtc_invariant pool_step
    (λ s, system_ok s ∧ fst <$> connPool (pool s) ≡ₚ omap id cons)).
  - split; [by apply initial_ok|by apply Pool_new_ok].
  - intros s1 s2 [Hok Hk] Hs. split; [by eapply step_ok|]. by rewrite (step_keys _ _ Hs Hok).
Qed.

(** C8: in every reachable state no connection is used by two threads, the
    counter is the number of free connections, and taking a connection either
    waits or succeeds: the "Should never get here" exception is never thrown. *)
Theorem pool_safe cons n s :
  NoDup (omap id cons) → rtc pool_step (initial cons n) s →
  NoDup (holders (threads s))
  ∧ availableConnections (pool s) = Z.of_nat (length (with_state POOL_FREE (connPool (pool s))))
  ∧ (∃ r, (getConnection error (pool s)).1 = Ok r).
Proof.
  intros Hd Hr. destruct (reachable_ok cons n s Hd Hr) as [[Hp Hh _] _].
  split; [|split; [apply Hp|]].
  - rewrite Hh. eapply sublist_NoDup; [apply Hp|]. apply with_state_sublist.
  - destruct (getConnection_spec (pool s) Hp) as [[_ ->]|(c & p' & -> & _)]; eauto.
Qed.

(** A thread that holds a connection can give it back. *)
Lemma free_enabled p ts i c :
  system_ok {| pool := p; threads := ts |} → ts !! i = Some (Holding c) →
  ∃ s', pool_step {| pool := p; threads := ts |} s'
      ∧ length (holders (threads s')) ≠ length (holders ts).
Proof.
  intros [Hp Hh _] Hi. simpl in *.
  assert (c ∈ with_state POOL_INUSE (connPool p)) as Hin.
  { rewrite <- Hh. apply holders_elem, list_elem_of_lookup. eauto. }
  destruct (freeConnection_spec c p Hp Hin) as (p1 & E & _).
  pose proof (holders_insert i _ Finished ts Hi) as P. apply Permutation_length in P.
  assert (∃ ts', notified (<[i := Finished]> ts) ts') as [ts' Hn].
  { destruct (decide (Asleep ∈ <[i := Finished]> ts)) as [Hs|Hs].
    - apply list_elem_of_lookup in Hs as [j Hj]. eexists. by apply notified_one.
    - eexists. by apply notified_none. }
  eexists. split; [by eapply step_free|]. simpl in *.
  rewrite (Permutation_length (notified_holders _ _ Hn)). lia.
Qed.

(** C15: no wake-up is lost. As long as the pool was created with at least one
    connection, whenever a thread waits, some thread can obtain a connection
    or give one back: the system is never stuck with sleeping threads. *)
Theorem pool_no_deadlock cons n s :
  NoDup (omap id cons) → omap id cons ≠ [] → rtc pool_step (initial cons n) s →
  Asleep ∈ threads s →
  ∃ s', pool_step s s' ∧ length (holders (threads s')) ≠ length (holders (threads s)).
Proof.
  intros Hd Hne Hr Has. destruct (reachable_ok cons n s Hd Hr) as [Hok Hk].
  assert (connPool (pool s) ≠ []) as Hpne.
  { intros E. rewrite E in Hk. by apply Permutation_nil_l in Hk. }
  destruct s as [p ts]. destruct (sys_awake _ Hok Has Hpne) as (t & Ht & Haw). simpl in *.
  apply list_elem_of_lookup in Ht as [i Hi].
  destruct Haw as [->|[c ->]]; [|by eapply free_enabled].
  destruct (getConnection_spec p (sys_pool _ Hok)) as [[Hz E]|(c & p' & E & _)].
  - assert (with_state POOL_FREE (connPool p) = []) as Hnil.
    { apply nil_length_inv. pose proof (ok_count p (sys_pool _ Hok)). lia. }
    pose proof (sys_holders _ Hok) as Hh. simpl in Hh. rewrite (inuse_all _ Hnil) in Hh.
    destruct (connPool p) as [|[c s] m]; [done|]. csimpl in *.
    assert (Holding c ∈ ts) as Hin by (apply holders_elem; rewrite Hh; by left).
    apply list_elem_of_lookup in Hin as [j Hj]. by eapply free_enabled.
  - eexists. split; [by eapply step_get|]. simpl.
    pose proof (holders_insert i _ (Holding c) ts Hi) as P. apply Permutation_length in P.
    simpl in P. lia.
Qed.

(** When every [createConnection] failed, [getConnection] waits for ever:
    no reachable state has a thread that got a connection. *)
Theorem pool_empty_blocks cons n s :
  omap id cons = [] → rtc pool_step (initial cons n) s →
  ∀ t, t ∈ threads s → t = Ready ∨ t = Asleep.
Proof.
  intros Hnil. assert (connPool (Pool_new cons) = [] ∧ availableConnections (Pool_new cons) = 0%Z) as [E1 E2].
  { destruct (Pool_new_ok cons) as ([_ Hc] & _ & Hk); [rewrite Hnil; constructor|].
    rewrite Hnil in Hk. symmetry in Hk. apply Permutation_nil in Hk.
    apply fmap_nil_inv in Hk. by rewrite Hc, Hk. }
  intros Hr. refine (proj2 (rtc_invariant pool_step (λ s, pool s = Pool_new cons
    ∧ ∀ t, t ∈ threads s → t = Ready ∨ t = Asleep) _ _ _ _ Hr)).
  - split; [done|]. intros t Ht. apply elem_of_replicate in Ht as [-> _]. by left.
  - assert (getConnection error (Pool_new cons) = (Ok None, Pool_new cons)) as Eg.
    { unfold getConnection. rewrite eff_bind_gets, E2. done. }
    intros s1 s2 [Hp Ht] Hs.
    destruct Hs as [i p ts p' Hi Hg|i p ts c p' Hi Hg|i p ts c p' ts' Hi Hf Hn|i p ts Hi];
      simpl in *; subst p.
    + rewrite Eg in Hg. injection Hg as <-. split; [done|]. intros t Hin.
      destruct (decide (t = Asleep)) as [->|]; [by right|]. apply Ht. by eapply elem_insert_other.
    + congruence.
    + destruct (Ht (Holding c)); [apply list_elem_of_lookup; eauto|done|done].
    + split; [done|]. intros t Hin.
      destruct (decide (t = Ready)) as [->|]; [by left|]. apply Ht. by eapply elem_insert_other.
Qed.
End steps.

(** A proxy method gets the answer of its body and leaves the pool exactly
    as it found it, whether the body returns or throws, when a connection is
    free; with none free it waits. *)
Theorem pooled_restores {S A} error (m : eff S A) p s :
  pool_ok p →
  pooled error m (p, s) =
    (if decide (availableConnections p = 0%Z) then (OutOfFuel, (p, s))
     else let '(o, s') := m s in (o, (p, s'))).
Proof. intros Hp. case_decide; [by apply pooled_wait|by apply pooled_ok]. Qed.

(** ** A pool of one connection and two threads *)

Definition demo_waiting : system :=
  {| pool := {| connPool := [(5%positive, POOL_INUSE)]; availableConnections := 0 |};
     threads := [Holding 5; Asleep] |}.

Lemma demo_reachable : rtc (pool_step "") (initial [Some 5%positive] 2) demo_waiting.
Proof.
  eapply rtc_l; [by apply (step_get _ 0)|]. eapply rtc_l; [by apply (step_wait _ 1)|].
  apply rtc_refl.
Qed.

Lemma demo_nodup : NoDup (omap id [Some 5%positive]).
Proof. apply NoDup_singleton. Qed.

Example pool_safe_witness :
  NoDup (holders (threads demo_waiting))
  ∧ availableConnections (pool demo_waiting)
    = Z.of_nat (length (with_state POOL_FREE (connPool (pool demo_waiting))))
  ∧ (∃ r, (getConnection "" (pool demo_waiting)).1 = Ok r).
Proof. exact (pool_safe "" [Some 5%positive] 2 demo_waiting demo_nodup demo_reachable). Defined.

Example pool_no_deadlock_witness :
  ∃ s', pool_step "" demo_waiting s'
      ∧ length (holders (threads s')) ≠ length (holders (threads demo_waiting)).
Proof.
  apply (pool_no_deadlock "" [Some 5%positive] 2 demo_waiting demo_nodup);
    [discriminate|exact demo_reachable|right; left].
Defined.

Example pool_empty_blocks_witness :
  ∀ t, t ∈ threads (initial [None] 2) → t = Ready ∨ t = Asleep.
Proof. apply (pool_empty_blocks "" [None] 2); [reflexivity|apply rtc_refl]. Defined.

Example pooled_restores_witness :
  pooled "" (throw (RuntimeError "x") : eff nat unit) (Pool_new [Some 5%positive], 0)
  = (Throw (RuntimeError "x"), (Pool_new [Some 5%positive], 0)).
Proof.
  rewrite (pooled_restores "" (throw (RuntimeError "x") : eff nat unit) (Pool_new [Some 5%positive]) 0);
    [reflexivity|].
  apply (Pool_new_ok [Some 5%positive] demo_nodup).
Defined.
