(* ===== verification/MysqlProxy.v ===== *)
(** [cpp/mysql_proxy.cpp]: the session cache, the long term cache and the site
    locks kept in MySQL.  The database server is a parameter ([SqlEngine]); what
    the code relies on is [SqlLaws]: the statements it sends act as SQL says on
    the three tables of [db/schema.sql] (the functions [exec] and [query]). *)
From Stdlib Require Import ZArith.
From S2P Require Import Prelude Cpp Pool.

(** * The client library *)

Inductive sql_value := SStr (s : string) | SInt (z : Z) | SNull.
Definition sql_row : Type := list (string * sql_value).

Class SqlEngine (Db : Type) := {
  (** [con->prepareStatement(sql)]: may throw [SQLException]. *)
  prepareStatement : string → eff Db unit;
  (** [stmt->execute()] with its parameters bound in order. *)
  stmt_execute : string → list sql_value → eff Db unit;
  (** [stmt->executeQuery()]. *)
  stmt_executeQuery : string → list sql_value → eff Db (list sql_row);
}.

Fixpoint column (c : string) (r : sql_row) : sql_value :=
  match r with
  | [] => SNull
  | (c', v) :: r' => if decide (c' = c) then v else column c r'
  end.
(** [res->getString(c)] and [res->getInt(c)]. *)
Definition getString (c : string) (r : sql_row) : string :=
  match column c r with SStr s => s | SInt z => pretty z | SNull => "" end.
Definition getInt (c : string) (r : sql_row) : Z :=
  match column c r with SStr s => atoi s | SInt z => z | SNull => 0%Z end.

(** * The proxy *)

Definition NUM_CONNECTIONS : nat := 8.

Definition table (database name : string) : string :=
  "`" +:+ database +:+ "`.`" +:+ name +:+ "`".

(** The statements the proxy sends, and their text: the argument of each
    [prepareStatement]. *)
Inductive statement :=
| SessionSweep | SessionSelect | SessionDelete | SessionInsert
| KvSelect | KvRenew | KvReplace | KvInsert | KvEmpty | KvDelete | KvFilenames | KvSweep
| LockInsert | LockSweep | LockDelete.

Definition sql_text (database : string) (st : statement) : string :=
  let ses := table database "session_data" in
  let kv := table database "kvstore" in
  let lk := table database "locks" in
  match st with
  | SessionSweep => "DELETE FROM " +:+ ses +:+ " WHERE `expires`<UNIX_TIMESTAMP()"
  | SessionSelect => "SELECT `data` FROM " +:+ ses +:+ " WHERE `id`=? AND `subdomain`=?"
  | SessionDelete => "DELETE FROM " +:+ ses +:+ " WHERE `id`=? AND `subdomain`=?"
  | SessionInsert => "INSERT INTO " +:+ ses
      +:+ " (`id`,`subdomain`,`data`,`expires`) VALUES(?,?,?,UNIX_TIMESTAMP()+?)"
  | KvSelect => "SELECT `v`,DATEDIFF(`expire_at`,NOW()) AS remaining_days FROM " +:+ kv
      +:+ " WHERE `k`=? AND `subdomain`=?"
  | KvRenew => "UPDATE " +:+ kv
      +:+ " SET `expire_at`=DATE_ADD(NOW(),INTERVAL ? DAY) WHERE `k`=? AND `subdomain`=?"
  | KvReplace => "DELETE FROM " +:+ kv +:+ " WHERE `subdomain`=? AND `k`=?"
  | KvInsert => "INSERT INTO " +:+ kv
      +:+ " (`k`,`subdomain`,`v`,`expire_at`,`is_filename`) VALUES(?,?,?,DATE_ADD(NOW(), INTERVAL ? DAY),?)"
  | KvEmpty => "DELETE FROM " +:+ kv +:+ " WHERE `subdomain`=?"
  | KvDelete => "DELETE FROM " +:+ kv +:+ " WHERE `k`=? AND `subdomain`=?"
  | KvFilenames => "SELECT `k`,`v` FROM " +:+ kv +:+ " WHERE `is_filename`='1' AND `subdomain`=?"
  | KvSweep => "DELETE FROM " +:+ kv +:+ " WHERE `expire_at`<NOW() AND `subdomain`=?"
  | LockInsert => "INSERT INTO " +:+ lk +:+ " (subdomain,created_at) VALUES(?,NOW())"
  | LockSweep => "DELETE FROM " +:+ lk +:+ " WHERE created_at<DATE_SUB(NOW(), INTERVAL 1 MINUTE)"
  | LockDelete => "DELETE FROM " +:+ lk +:+ " WHERE `subdomain`=?"
  end.

Section proxy.
Context {Db : Type} `{SqlEngine Db}.
(** The member [database]. *)
Variable database : string.

Definition garbageCollect_sql : eff Db unit :=
  let stmt := sql_text database SessionSweep in
  catch_sql (prepareStatement stmt;; stmt_execute stmt []) (mret ()).

Definition longTermCacheGet_sql (subdomain key : string) (renewExpiry : Z) : eff Db string :=
  let stmt := sql_text database KvSelect in
  let stmt2 := sql_text database KvRenew in
  with_local "" (catch_sql (
    outer (prepareStatement stmt);;
    outer (prepareStatement stmt2);;
    res ← outer (stmt_executeQuery stmt [SStr key; SStr subdomain]);
    for_each (λ row,
      set_local (λ _, getString "v" row);;
      when ((0 <? renewExpiry)%Z && (getInt "remaining_days" row <? 10)%Z)
        (outer (stmt_execute stmt2 [SInt renewExpiry; SStr key; SStr subdomain])))
      res)
    (mret ())).

Definition longTermCacheSet_sql (subdomain key value : string) (expireInterval isFilename : Z)
    : eff Db unit :=
  let stmt := sql_text database KvReplace in
  let stmt2 := sql_text database KvInsert in
  catch_sql (
    prepareStatement stmt;;
    prepareStatement stmt2;;
    stmt_execute stmt [SStr subdomain; SStr key];;
    stmt_execute stmt2 [SStr key; SStr subdomain; SStr value; SInt expireInterval; SInt isFilename])
    (mret ()).

Definition longTermCacheEmpty_sql (subdomain : string) : eff Db unit :=
  let stmt := sql_text database KvEmpty in
  catch_sql (prepareStatement stmt;; stmt_execute stmt [SStr subdomain]) (mret ()).

Definition longTermCacheDelete_sql (subdomain key : string) : eff Db unit :=
  let stmt := sql_text database KvDelete in
  catch_sql (prepareStatement stmt;; stmt_execute stmt [SStr key; SStr subdomain]) (mret ()).

(** Fills [_return.data], which starts as given. *)
Definition longTermCacheSweeperInfo_sql (data : gmap string string) (subdomain : string)
    : eff Db (gmap string string) :=
  let stmt := sql_text database KvFilenames in
  let stmt2 := sql_text database KvSweep in
  with_local data (catch_sql (
    outer (prepareStatement stmt);;
    outer (prepareStatement stmt2);;
    outer (stmt_execute stmt2 [SStr subdomain]);;
    res ← outer (stmt_executeQuery stmt [SStr subdomain]);
    for_each (λ row, set_local (<[getString "k" row := getString "v" row]>)) res)
    (mret ())).

Definition sessionCacheGet_sql (subdomain key : string) : eff Db string :=
  let stmt := sql_text database SessionSelect in
  with_local "" (catch_sql (
    outer (prepareStatement stmt);;
    res ← outer (stmt_executeQuery stmt [SStr key; SStr subdomain]);
    for_each (λ row, set_local (λ _, getString "data" row)) res)
    (mret ())).

Definition sessionCacheSet_sql (subdomain key value : string) : eff Db unit :=
  let stmt := sql_text database SessionDelete in
  let stmt2 := sql_text database SessionInsert in
  catch_sql (
    prepareStatement stmt;;
    prepareStatement stmt2;;
    stmt_execute stmt [SStr key; SStr subdomain];;
    stmt_execute stmt2 [SStr key; SStr subdomain; SStr value; SInt (86400 * 2)])
    (mret ()).

Definition sessionCacheDelete_sql (subdomain key : string) : eff Db unit :=
  let stmt := sql_text database SessionDelete in
  catch_sql (prepareStatement stmt;; stmt_execute stmt [SStr key; SStr subdomain]) (mret ()).

Definition lock_sql (subdomain : string) : eff Db Z :=
  let stmt := sql_text database LockInsert in
  let stmt2 := sql_text database LockSweep in
  catch_sql (prepareStatement stmt;; stmt_execute stmt [SStr subdomain];; mret 1%Z)
    (catch_sql (prepareStatement stmt2;; stmt_execute stmt2 [];; mret 0%Z) (mret 0%Z)).

Definition unlock_sql (subdomain : string) : eff Db Z :=
  let stmt := sql_text database LockDelete in
  catch_sql (prepareStatement stmt;; stmt_execute stmt [SStr subdomain];; mret 1%Z) (mret 0%Z).
End proxy.

(** ** Borrowing a connection *)

(** A proxy: its pool and the server it talks to. *)
Record MysqlProxy (Db : Type) := { mysql_database : string; mysql_pool : Pool; mysql_db : Db }.
Arguments mysql_database {Db} _.
Arguments mysql_pool {Db} _.
Arguments mysql_db {Db} _.

Definition pool_error : string := "MySQL Thread Pool Error: Should never get here".

(** A method: [con = this->getConnection()] and a body. *)
Definition with_connection {Db A} (m : string → eff Db A) : eff (MysqlProxy Db) A := λ s,
  let '(o, (p, db)) := pooled pool_error (m (mysql_database s)) (mysql_pool s, mysql_db s) in
  (o, {| mysql_database := mysql_database s; mysql_pool := p; mysql_db := db |}).

Section methods.
Context {Db : Type} `{SqlEngine Db}.

Definition garbageCollect : eff (MysqlProxy Db) unit := with_connection garbageCollect_sql.
Definition longTermCacheGet (subdomain key : string) (renewExpiry : Z)
    : eff (MysqlProxy Db) string :=
  with_connection (λ database, longTermCacheGet_sql database subdomain key renewExpiry).
Definition longTermCacheSet (subdomain key value : string) (expireInterval isFilename : Z)
    : eff (MysqlProxy Db) unit :=
  with_connection (λ database,
    longTermCacheSet_sql database subdomain key value expireInterval isFilename).
Definition longTermCacheEmpty (subdomain : string) : eff (MysqlProxy Db) unit :=
  with_connection (λ database, longTermCacheEmpty_sql database subdomain).
Definition longTermCacheDelete (subdomain key : string) : eff (MysqlProxy Db) unit :=
  with_connection (λ database, longTermCacheDelete_sql database subdomain key).
Definition longTermCacheSweeperInfo (data : gmap string string) (subdomain : string)
    : eff (MysqlProxy Db) (gmap string string) :=
  with_connection (λ database, longTermCacheSweeperInfo_sql database data subdomain).
Definition sessionCacheGet (subdomain key : string) : eff (MysqlProxy Db) string :=
  with_connection (λ database, sessionCacheGet_sql database subdomain key).
Definition sessionCacheSet (subdomain key value : string) : eff (MysqlProxy Db) unit :=
  with_connection (λ database, sessionCacheSet_sql database subdomain key value).
Definition sessionCacheDelete (subdomain key : string) : eff (MysqlProxy Db) unit :=
  with_connection (λ database, sessionCacheDelete_sql database subdomain key).
Definition lock (subdomain : string) : eff (MysqlProxy Db) Z :=
  with_connection (λ database, lock_sql database subdomain).
Definition unlock (subdomain : string) : eff (MysqlProxy Db) Z :=
  with_connection (λ database, unlock_sql database subdomain).
End methods.

(** The constructor: [NUM_CONNECTIONS] attempts. *)
Definition MysqlProxy_new {Db} (database : string) (createConnection : nat → option con) (db : Db)
    : MysqlProxy Db :=
  {| mysql_database := database;
     mysql_pool := Pool_new (createConnection <$> seq 0 NUM_CONNECTIONS);
     mysql_db := db |}.

(** * The three tables *)

Record kv_row := {
  kv_subdomain : string; kv_k : string; kv_v : string;
  kv_expire_at : option Z; kv_is_filename : Z;
}.
Record session_row := {
  ses_id : string; ses_subdomain : string; ses_data : string; ses_expires : Z;
}.
Record lock_row := { lock_subdomain : string; lock_created_at : Z }.

(** The tables of [db/schema.sql] and the server's clock, in seconds. *)
Record Tables := {
  kvstore : list kv_row;
  session_data : list session_row;
  locks : list lock_row;
  clock : Z;
}.

Definition set_kv (l : list kv_row) (t : Tables) : Tables :=
  {| kvstore := l; session_data := session_data t; locks := locks t; clock := clock t |}.
Definition set_sessions (l : list session_row) (t : Tables) : Tables :=
  {| kvstore := kvstore t; session_data := l; locks := locks t; clock := clock t |}.
Definition set_locks (l : list lock_row) (t : Tables) : Tables :=
  {| kvstore := kvstore t; session_data := session_data t; locks := l; clock := clock t |}.

Section semantics.
(** Strings are compared through their collation keys. *)
Variable collate : string → string.

Definition same (a b : string) : Prop := collate a = collate b.
#[export] Instance same_dec a b : Decision (same a b).
Proof. unfold same. apply _. Defined.

Definition kv_at (sub k : string) (r : kv_row) : Prop :=
  same (kv_subdomain r) sub ∧ same (kv_k r) k.
Definition session_at (sub id : string) (r : session_row) : Prop :=
  same (ses_subdomain r) sub ∧ same (ses_id r) id.
#[export] Instance kv_at_dec s k r : Decision (kv_at s k r).
Proof. unfold kv_at. apply _. Defined.
#[export] Instance session_at_dec s k r : Decision (session_at s k r).
Proof. unfold session_at. apply _. Defined.

Definition day : Z := 86400.
Definition expired (now : Z) (r : kv_row) : bool :=
  match kv_expire_at r with Some e => (e <? now)%Z | None => false end.

(** [execute()]: [None] is an [SQLException] (a duplicate key), and then the
    tables are unchanged. *)
Definition exec (st : statement) (ps : list sql_value) (t : Tables) : option Tables :=
  match st, ps with
  | SessionSweep, [] =>
      Some (set_sessions (filter (λ r, ¬ (ses_expires r < clock t)%Z) (session_data t)) t)
  | SessionDelete, [SStr id; SStr sub] =>
      Some (set_sessions (filter (λ r, ¬ session_at sub id r) (session_data t)) t)
  | SessionInsert, [SStr id; SStr sub; SStr data; SInt n] =>
      if decide (Exists (λ r, same (ses_id r) id) (session_data t)) then None
      else Some (set_sessions (session_data t ++
        [{| ses_id := id; ses_subdomain := sub; ses_data := data;
            ses_expires := (clock t + n)%Z |}]) t)
  | KvRenew, [SInt days; SStr k; SStr sub] =>
      Some (set_kv ((λ r, if decide (kv_at sub k r)
        then {| kv_subdomain := kv_subdomain r; kv_k := kv_k r; kv_v := kv_v r;
                kv_expire_at := Some (clock t + days * day)%Z;
                kv_is_filename := kv_is_filename r |}
        else r) <$> kvstore t) t)
  | KvReplace, [SStr sub; SStr k] | KvDelete, [SStr k; SStr sub] =>
      Some (set_kv (filter (λ r, ¬ kv_at sub k r) (kvstore t)) t)
  | KvInsert, [SStr k; SStr sub; SStr v; SInt days; SInt is_filename] =>
      if decide (Exists (λ r, kv_at sub k r) (kvstore t)) then None
      else Some (set_kv (kvstore t ++
        [{| kv_subdomain := sub; kv_k := k; kv_v := v;
            kv_expire_at := Some (clock t + days * day)%Z; kv_is_filename := is_filename |}]) t)
  | KvEmpty, [SStr sub] =>
      Some (set_kv (filter (λ r, ¬ same (kv_subdomain r) sub) (kvstore t)) t)
  | KvSweep, [SStr sub] =>
      Some (set_kv (filter (λ r, ¬ (same (kv_subdomain r) sub ∧
        expired (clock t) r = true)) (kvstore t)) t)
  | LockInsert, [SStr sub] =>
      if decide (Exists (λ r, same (lock_subdomain r) sub) (locks t)) then None
      else Some (set_locks (locks t ++
        [{| lock_subdomain := sub; lock_created_at := clock t |}]) t)
  | LockSweep, [] =>
      Some (set_locks (filter (λ r, ¬ (lock_created_at r < clock t - 60)%Z) (locks t)) t)
  | LockDelete, [SStr sub] =>
      Some (set_locks (filter (λ r, ¬ same (lock_subdomain r) sub) (locks t)) t)
  | _, _ => None
  end.

(** [executeQuery()]. *)
Definition query (st : statement) (ps : list sql_value) (t : Tables) : option (list sql_row) :=
  match st, ps with
  | SessionSelect, [SStr id; SStr sub] =>
      Some ((λ r, [("data", SStr (ses_data r))]) <$> filter (session_at sub id) (session_data t))
  | KvSelect, [SStr k; SStr sub] =>
      Some ((λ r, [("v", SStr (kv_v r)); ("remaining_days",
          match kv_expire_at r with
          | Some e => SInt (e / day - clock t / day)%Z | None => SNull end)])
        <$> filter (kv_at sub k) (kvstore t))
  | KvFilenames, [SStr sub] =>
      Some ((λ r, [("k", SStr (kv_k r)); ("v", SStr (kv_v r))])
        <$> filter (λ r, kv_is_filename r = 1%Z ∧ same (kv_subdomain r) sub) (kvstore t))
  | _, _ => None
  end.
End semantics.

(** Same tables, and the server's clock may have advanced. *)
Record later (t t' : Tables) : Prop := {
  later_kvstore : kvstore t' = kvstore t;
  later_sessions : session_data t' = session_data t;
  later_locks : locks t' = locks t;
  later_clock : (clock t ≤ clock t')%Z;
}.

(** The behaviour the code relies on. [bindable] bounds the parameters to what
    the columns can hold. *)
Class SqlLaws (Db : Type) `{SqlEngine Db} (database : string) := {
  collation : string → string;
  view : Db → Tables;
  bindable : sql_value → Prop;
  prepare_law st db :
    ∃ db', prepareStatement (sql_text database st) db = (Ok tt, db') ∧ later (view db) (view db');
  execute_law st ps db :
    Forall bindable ps →
    ∃ o db' t, stmt_execute (sql_text database st) ps db = (o, db') ∧ later (view db) t ∧
      match exec collation st ps t with
      | Some t' => o = Ok tt ∧ view db' = t'
      | None => (∃ w, o = Throw (SQLException w)) ∧ view db' = t
      end;
  query_law st ps db :
    Forall bindable ps →
    ∃ o db', stmt_executeQuery (sql_text database st) ps db = (o, db') ∧ later (view db) (view db') ∧
      match query collation st ps (view db') with
      | Some rows => o = Ok rows
      | None => ∃ w, o = Throw (SQLException w)
      end;
}.

(** * What the methods do to the tables *)

Section laws.
Context {Db : Type} `{SqlEngine Db} {database : string} {L : SqlLaws Db database}.


Lemma later_refl t : later t t.
Proof. by split. Qed.
Lemma later_trans t1 t2 t3 : later t1 t2 → later t2 t3 → later t1 t3.
Proof. intros [] []. split; [congruence..|lia]. Qed.

Lemma run_execute st ps db :
  Forall bindable ps →
  ∃ o db' t, stmt_execute (sql_text database st) ps db = (o, db') ∧ later (view db) t
    ∧ view db' = default t (exec collation st ps t)
    ∧ (is_Some (exec collation st ps t) → o = Ok tt)
    ∧ (exec collation st ps t = None → ∃ w, o = Throw (SQLException w)).
Proof.
  intros Hb. destruct (execute_law st ps db Hb) as (o & db' & t & E & Hl & Hx).
  exists o, db', t. split; [done|]. split; [done|].
  destruct (exec collation st ps t); destruct Hx as [Ho Hv];
    (split; [done|split; [try done; by intros []|done]]).
Qed.

(** A method that prepares and executes one statement inside a [try]. *)
Lemma run_one st ps db :
  Forall bindable ps →
  ∃ db' t, catch_sql (prepareStatement (sql_text database st);;
                      stmt_execute (sql_text database st) ps) (mret ()) db = (Ok tt, db')
       ∧ later (view db) t ∧ view db' = default t (exec collation st ps t).
Proof.
  intros Hb. unfold catch_sql.
  destruct (prepare_law st db) as (db0 & E0 & H0). rewrite (eff_bind_ok _ _ _ _ _ E0).
  destruct (run_execute st ps db0 Hb) as (o & db' & t & -> & Hl & Hv & Hs & Hn).
  exists db', t. split; [|split; [by eapply later_trans|done]].
  destruct (exec collation st ps t).
  - by rewrite Hs.
  - by destruct (Hn eq_refl) as [w ->].
Qed.

(** A method that prepares two statements and executes them in order. *)
Lemma run_two st1 ps1 st2 ps2 db :
  Forall bindable ps1 → Forall bindable ps2 →
  ∃ db' t, catch_sql (prepareStatement (sql_text database st1);;
                      prepareStatement (sql_text database st2);;
                      stmt_execute (sql_text database st1) ps1;;
                      stmt_execute (sql_text database st2) ps2) (mret ()) db = (Ok tt, db')
       ∧ later (view db) t
       ∧ match exec collation st1 ps1 t with
         | Some t1 => ∃ t2, later t1 t2 ∧ view db' = default t2 (exec collation st2 ps2 t2)
         | None => view db' = t
         end.
Proof.
  intros Hb1 Hb2. unfold catch_sql.
  destruct (prepare_law st1 db) as (db0 & E0 & H0). rewrite (eff_bind_ok _ _ _ _ _ E0).
  destruct (prepare_law st2 db0) as (db1 & E1 & H1). rewrite (eff_bind_ok _ _ _ _ _ E1).
  destruct (run_execute st1 ps1 db1 Hb1) as (o & db2 & t & E & Hl & Hv & Hs & Hn).
  destruct (exec collation st1 ps1 t) as [t1|] eqn:Ex.
  - rewrite Hs in E by done. rewrite (eff_bind_ok _ _ _ _ _ E).
    destruct (run_execute st2 ps2 db2 Hb2) as (o2 & db3 & t2 & -> & Hl2 & Hv2 & Hs2 & Hn2).
    exists db3, t. rewrite Ex. split; [|split; [eauto using later_trans|]].
    + destruct (exec collation st2 ps2 t2); [by rewrite Hs2|by destruct (Hn2 eq_refl) as [w ->]].
    + exists t2. simpl in Hv. by rewrite <- Hv.
  - destruct (Hn eq_refl) as [w ->]. rewrite (eff_bind_throw _ _ _ _ _ E).
    exists db2, t. rewrite Ex. split; [done|]. split; [eauto using later_trans|done].
Qed.

(** ** Session cache *)

Lemma for_each_set {A B} (f : A → B) rows (db : Db) l :
  for_each (λ row, set_local (λ _, f row)) rows (db, l)
  = (Ok tt, (db, foldl (λ _ row, f row) l rows)).
Proof. revert l. induction rows as [|r rows IH]; intros l; [done|]. apply IH. Qed.

(** What [sessionCacheGet] answers. *)
Definition session_value (t : Tables) (sub id : string) : string :=
  foldl (λ _ r, ses_data r) "" (filter (session_at collation sub id) (session_data t)).

Lemma sessionCacheGet_spec sub key db :
  bindable (SStr key) → bindable (SStr sub) →
  ∃ db', sessionCacheGet_sql database sub key db
         = (Ok (session_value (view db) sub key), db') ∧ later (view db) (view db').
Proof.
  intros Hk Hs. unfold sessionCacheGet_sql, with_local, catch_sql.
  destruct (prepare_law SessionSelect db) as (db0 & E0 & H0).
  rewrite (eff_bind_ok _ _ _ _ _ (outer_eq _ _ "" _ _ E0)).
  destruct (query_law SessionSelect [SStr key; SStr sub] db0 ltac:(repeat constructor; done))
    as (o & db' & E & Hv & Ho). simpl in Ho. subst o.
  rewrite (eff_bind_ok _ _ _ _ _ (outer_eq _ _ "" _ _ E)).
  rewrite for_each_set, foldl_fmap. exists db'. split; [|by eapply later_trans].
  unfold session_value. destruct H0 as [_ <- _ _], Hv as [_ <- _ _]. done.
Qed.

Lemma sessionCacheSet_spec sub key value db :
  bindable (SStr key) → bindable (SStr sub) → bindable (SStr value) →
  bindable (SInt (86400 * 2)) →
  ∃ db' expires, sessionCacheSet_sql database sub key value db = (Ok tt, db') ∧
    let own := filter (λ r, ¬ session_at collation sub key r) (session_data (view db)) in
    session_data (view db') =
      if decide (Exists (λ r, same collation (ses_id r) key) own) then own
      else own ++ [{| ses_id := key; ses_subdomain := sub; ses_data := value;
                      ses_expires := expires |}].
Proof.
  intros Hk Hs Hv Hi.
  destruct (run_two SessionDelete [SStr key; SStr sub] SessionInsert
    [SStr key; SStr sub; SStr value; SInt (86400 * 2)] db) as (db' & t & E & Hl & Hx);
    [repeat constructor; done..|].
  cbn [exec] in Hx. destruct Hx as (t2 & Hl2 & Ev).
  exists db', (clock t2 + 86400 * 2)%Z. split; [exact E|]. rewrite Ev. simpl.
  destruct Hl as [_ El _ _], Hl2 as [_ El2 _ _]. simpl in El2. rewrite El in El2.
  rewrite El2. repeat case_decide; simpl; try done; by rewrite El2.
Qed.

(** What is stored in the session cache is read back, unless another site
    already owns a row with the same identifier (the primary key of the table
    is the identifier alone, while the code addresses rows by identifier and
    subdomain): then the value is silently lost and reads give "". *)
Theorem sessionCache_roundtrip sub key value db :
  bindable (SStr key) → bindable (SStr sub) → bindable (SStr value) →
  bindable (SInt (86400 * 2)) →
  ∃ db1 db2,
    sessionCacheSet_sql database sub key value db = (Ok tt, db1) ∧
    sessionCacheGet_sql database sub key db1 =
      (Ok (if decide (Exists (λ r, same collation (ses_id r) key
                                   ∧ ¬ same collation (ses_subdomain r) sub)
                       (session_data (view db))) then "" else value), db2).
Proof.
  intros Hk Hs Hv Hi. destruct (sessionCacheSet_spec sub key value db) as (db1 & expires & E1 & Hv1); [done..|].
  destruct (sessionCacheGet_spec sub key db1) as (db2 & E2 & _); [done..|].
  exists db1, db2. split; [done|]. rewrite E2. do 2 f_equal. unfold session_value.
  rewrite Hv1. set (own := filter _ (session_data (view db))).
  assert (filter (session_at collation sub key) own = []) as Hown.
  { unfold own. rewrite list_filter_filter. apply filter_none. tauto. }
  assert (Exists (λ r, same collation (ses_id r) key) own
    ↔ Exists (λ r, same collation (ses_id r) key ∧ ¬ same collation (ses_subdomain r) sub)
        (session_data (view db))) as Hiff.
  { rewrite !Exists_exists. unfold own. setoid_rewrite list_elem_of_filter.
    unfold session_at. split; intros (r & ? & ?); exists r; [|tauto].
    destruct (decide (same collation (ses_subdomain r) sub)); tauto. }
  destruct (decide (Exists _ own)) as [Hx|Hx]; case_decide; try tauto.
  - by rewrite Hown.
  - rewrite filter_app, Hown, filter_cons_True; [done|]. by split.
Qed.

(** ** Long term cache *)

(** What [longTermCacheGet] answers. *)
Definition kv_value (t : Tables) (sub k : string) : string :=
  foldl (λ _ r, kv_v r) "" (filter (kv_at collation sub k) (kvstore t)).

(** The loop of [longTermCacheGet] keeps the value of the last row and only
    runs renewals, which leave the values alone. *)
Definition kvs (t : Tables) : list (string * string * string) :=
  (λ r, (kv_subdomain r, kv_k r, kv_v r)) <$> kvstore t.

Lemma renew_kvs days k sub t t' :
  exec collation KvRenew [SInt days; SStr k; SStr sub] t = Some t' → kvs t' = kvs t.
Proof.
  intros [= <-]. unfold kvs. simpl. rewrite <- list_fmap_compose.
  apply list_fmap_ext. intros _ r _. simpl. by case_decide.
Qed.

Lemma later_kvs t t' : later t t' → kvs t' = kvs t.
Proof. intros [E _ _ _]. unfold kvs. by rewrite E. Qed.

Lemma kvs_kv_value t1 t2 sub k : kvs t1 = kvs t2 → kv_value t1 sub k = kv_value t2 sub k.
Proof.
  unfold kvs, kv_value. generalize (kvstore t2) ""%string.
  induction (kvstore t1) as [|r l IH]; intros [|r2 l2] d E; try done.
  rewrite !fmap_cons in E. injection E as E1 E2 E3 E. rewrite !filter_cons.
  assert (kv_at collation sub k r ↔ kv_at collation sub k r2) as Hiff
    by (unfold kv_at; by rewrite E1, E2).
  repeat case_decide; try tauto; simpl; [rewrite E3|]; by apply IH.
Qed.

Lemma longTermCacheGet_loop sub key days rows db out :
  bindable (SStr key) → bindable (SStr sub) → bindable (SInt days) →
  ∃ db',
    for_each (λ row,
      set_local (λ _, getString "v" row);;
      when ((0 <? days)%Z && (getInt "remaining_days" row <? 10)%Z)
        (outer (stmt_execute (sql_text database KvRenew) [SInt days; SStr key; SStr sub])))
      rows (db, out)
    = (Ok tt, (db', foldl (λ _ row, getString "v" row) out rows))
    ∧ kvs (view db') = kvs (view db).
Proof.
  intros Hk Hs Hd. revert db out. induction rows as [|row rows IH]; intros db out; [by exists db|].
  cbn [for_each foldl].
  assert (∃ db1, (set_local (λ _, getString "v" row);;
      when ((0 <? days)%Z && (getInt "remaining_days" row <? 10)%Z)
        (outer (stmt_execute (sql_text database KvRenew) [SInt days; SStr key; SStr sub])))
      (db, out) = (Ok tt, (db1, getString "v" row)) ∧ kvs (view db1) = kvs (view db))
    as (db1 & E1 & Hv1).
  { rewrite (eff_bind_ok _ _ _ () (db, getString "v" row)) by done.
    destruct (_ && _); cbn [when]; [|by exists db].
    destruct (execute_law KvRenew [SInt days; SStr key; SStr sub] db)
      as (o & db1 & t & E & Hl & Hx); [repeat constructor; done|].
    exists db1. rewrite (outer_eq _ _ _ _ _ E). cbn [exec] in Hx. destruct Hx as [-> Hx].
    split; [done|]. transitivity (kvs t); [|by apply later_kvs].
    rewrite Hx. by apply (renew_kvs days key sub). }
  rewrite (eff_bind_ok _ _ _ _ _ E1).
  destruct (IH db1 (getString "v" row)) as (db' & -> & Hv'). exists db'. split; [done|].
  congruence.
Qed.

Lemma longTermCacheGet_spec sub key days db :
  bindable (SStr key) → bindable (SStr sub) → bindable (SInt days) →
  ∃ db', longTermCacheGet_sql database sub key days db
         = (Ok (kv_value (view db) sub key), db') ∧ kvs (view db') = kvs (view db).
Proof.
  intros Hk Hs Hd. unfold longTermCacheGet_sql, with_local, catch_sql.
  destruct (prepare_law KvSelect db) as (db0 & E0 & H0).
  destruct (prepare_law KvRenew db0) as (db1 & E1 & H1).
  rewrite (eff_bind_ok _ _ _ _ _ (outer_eq _ _ "" _ _ E0)).
  rewrite (eff_bind_ok _ _ _ _ _ (outer_eq _ _ "" _ _ E1)).
  destruct (query_law KvSelect [SStr key; SStr sub] db1 ltac:(repeat constructor; done))
    as (o & db2 & E & Hv & Ho). simpl in Ho. subst o.
  rewrite (eff_bind_ok _ _ _ _ _ (outer_eq _ _ "" _ _ E)).
  set (rows := _ <$> filter _ _).
  destruct (longTermCacheGet_loop sub key days rows db2 "" Hk Hs Hd) as (db' & -> & Hs').
  exists db'. assert (later (view db) (view db2)) as Hl by eauto using later_trans.
  rewrite Hs'. split; [|by apply later_kvs]. unfold rows. rewrite foldl_fmap.
  unfold kv_value. by destruct Hl as [-> _ _ _].
Qed.

Lemma kv_value_delete (P : kv_row → Prop) `{!∀ r, Decision (P r)} t t0 sub k :
  (∀ r, kv_at collation sub k r → ¬ P r) →
  kv_value (set_kv (filter (λ r, ¬ P r) (kvstore t)) t0) sub k = kv_value t sub k.
Proof.
  intros HP. unfold kv_value. simpl. rewrite list_filter_filter. do 2 f_equal.
  apply list_filter_iff. intros r. specialize (HP r). tauto.
Qed.

Lemma kv_value_deleted (P : kv_row → Prop) `{!∀ r, Decision (P r)} t t0 sub k :
  (∀ r, kv_at collation sub k r → P r) →
  kv_value (set_kv (filter (λ r, ¬ P r) (kvstore t)) t0) sub k = "".
Proof.
  intros HP. unfold kv_value. simpl. rewrite list_filter_filter, filter_none; [done|].
  intros r _ [Hat Hn]. by apply Hn, HP.
Qed.

Lemma kv_at_same sub k sub' k' r :
  kv_at collation sub k r → kv_at collation sub' k' r ↔ same collation sub' sub ∧ same collation k' k.
Proof. unfold kv_at, same. intros [-> ->]. split; intros []; split; congruence. Qed.

Lemma kv_value_proper t sub k sub' k' :
  same collation sub' sub → same collation k' k → kv_value t sub' k' = kv_value t sub k.
Proof.
  intros Hs Hk. unfold kv_value. f_equal. apply list_filter_iff. intros r.
  unfold kv_at, same in *. by rewrite Hs, Hk.
Qed.

Lemma longTermCacheSet_spec sub key value days is_filename db :
  bindable (SStr key) → bindable (SStr sub) → bindable (SStr value) →
  bindable (SInt days) → bindable (SInt is_filename) →
  ∃ db', longTermCacheSet_sql database sub key value days is_filename db = (Ok tt, db') ∧
    ∀ sub' k', kv_value (view db') sub' k' =
      if decide (same collation sub' sub ∧ same collation k' key) then value
      else kv_value (view db) sub' k'.
Proof.
  intros Hk Hs Hv Hd Hf.
  destruct (run_two KvReplace [SStr sub; SStr key] KvInsert
    [SStr key; SStr sub; SStr value; SInt days; SInt is_filename] db)
    as (db1 & t & E1 & Hl & Ev); [repeat constructor; done..|].
  exists db1. split; [exact E1|]. intros sub' k'.
  cbn [exec] in Ev. destruct Ev as (t2 & [El2 _ _ _] & Ev). simpl in El2.
  destruct Hl as [El _ _ _]. rewrite El in El2. rewrite El2 in Ev.
  rewrite decide_False in Ev.
  2: { intros (r & Hin & Hat)%Exists_exists. by apply list_elem_of_filter in Hin as [? _]. }
  simpl in Ev. rewrite Ev. case_decide as Hd'.
  - destruct Hd' as [H1 H2]. rewrite (kv_value_proper _ _ _ _ _ H1 H2).
    unfold kv_value. simpl. rewrite filter_app, filter_none.
    + rewrite filter_cons_True by done. done.
    + intros r Hin Hat. by apply list_elem_of_filter in Hin as [? _].
  - transitivity (kv_value (set_kv (filter (λ r, ¬ kv_at collation sub key r)
      (kvstore (view db))) (view db)) sub' k').
    + unfold kv_value. simpl. rewrite filter_app, filter_cons_False; [by rewrite app_nil_r|].
      intros [? ?]; simpl in *. apply Hd'. by split; symmetry.
    + apply kv_value_delete. intros r Hat Hat'. apply Hd'.
      apply (kv_at_same sub' k' sub key) in Hat as [Hat _]. destruct (Hat Hat'). by split; symmetry.
Qed.

Lemma longTermCacheEmpty_spec sub db :
  bindable (SStr sub) →
  ∃ db', longTermCacheEmpty_sql database sub db = (Ok tt, db') ∧
    ∀ sub' k', kv_value (view db') sub' k' =
      if decide (same collation sub' sub) then "" else kv_value (view db) sub' k'.
Proof.
  intros Hs. destruct (run_one KvEmpty [SStr sub] db)
    as (db1 & t1 & E1 & [L1 _ _ _] & V1); [repeat constructor; done|].
  exists db1. split; [exact E1|]. intros sub' k'. simpl in V1. rewrite L1 in V1. rewrite V1.
  case_decide as Hd; [apply kv_value_deleted|apply kv_value_delete];
    intros r [E _]; unfold same in *; congruence.
Qed.

Lemma longTermCacheDelete_spec sub key db :
  bindable (SStr key) → bindable (SStr sub) →
  ∃ db', longTermCacheDelete_sql database sub key db = (Ok tt, db') ∧
    ∀ sub' k', kv_value (view db') sub' k' =
      if decide (same collation sub' sub ∧ same collation k' key) then ""
      else kv_value (view db) sub' k'.
Proof.
  intros Hk Hs. destruct (run_one KvDelete [SStr key; SStr sub] db)
    as (db2 & t2 & E2 & [L2 _ _ _] & V2); [repeat constructor; done|].
  exists db2. split; [exact E2|]. intros sub' k'. simpl in V2. rewrite L2 in V2. rewrite V2.
  case_decide as Hd; [apply kv_value_deleted|apply kv_value_delete];
    intros r Hat; rewrite (kv_at_same _ _ _ _ _ Hat); unfold same in *.
  - destruct Hd. by split.
  - intros []. by apply Hd.
Qed.

(** A value stored in the long term cache is read back (whether or not the
    read renews its expiry), and the values of all other keys stay as they were. *)
Theorem longTermCache_roundtrip sub key value days is_filename renew db :
  bindable (SStr key) → bindable (SStr sub) → bindable (SStr value) →
  bindable (SInt days) → bindable (SInt is_filename) → bindable (SInt renew) →
  ∃ db1 db2,
    longTermCacheSet_sql database sub key value days is_filename db = (Ok tt, db1) ∧
    longTermCacheGet_sql database sub key renew db1 = (Ok value, db2) ∧
    ∀ sub' k', ¬ (same collation sub' sub ∧ same collation k' key) →
      kv_value (view db2) sub' k' = kv_value (view db) sub' k'.
Proof.
  intros Hk Hs Hv Hd Hf Hr.
  destruct (longTermCacheSet_spec sub key value days is_filename db) as (db1 & E1 & V1); [done..|].
  destruct (longTermCacheGet_spec sub key renew db1) as (db2 & E2 & Hv2); [done..|].
  exists db1, db2. split; [exact E1|]. rewrite E2, V1, decide_True by done. split; [done|].
  intros sub' k' Hne. rewrite (kvs_kv_value _ _ _ _ Hv2), V1. by rewrite decide_False.
Qed.

(** [longTermCacheEmpty] empties the site's cache and no other;
    [longTermCacheDelete] removes one key. *)
Theorem longTermCache_deletion sub key db :
  bindable (SStr key) → bindable (SStr sub) →
  ∃ db1 db2,
    longTermCacheEmpty_sql database sub db = (Ok tt, db1) ∧
    longTermCacheDelete_sql database sub key db = (Ok tt, db2) ∧
    ∀ sub' k',
      kv_value (view db1) sub' k'
        = (if decide (same collation sub' sub) then "" else kv_value (view db) sub' k') ∧
      kv_value (view db2) sub' k'
        = (if decide (same collation sub' sub ∧ same collation k' key) then ""
           else kv_value (view db) sub' k').
Proof.
  intros Hk Hs. destruct (longTermCacheEmpty_spec sub db Hs) as (db1 & E1 & V1).
  destruct (longTermCacheDelete_spec sub key db Hk Hs) as (db2 & E2 & V2).
  exists db1, db2. by split_and!.
Qed.

(** The sweep for context generation: expired entries of the site are
    deleted first, whatever they are; the answer then has exactly the site's
    remaining file names, later rows winning; other sites keep their entries. *)
Theorem longTermCacheSweeperInfo_spec sub data db :
  bindable (SStr sub) →
  ∃ db' now, (clock (view db) ≤ now)%Z ∧
    let kept := filter (λ r, ¬ (same collation (kv_subdomain r) sub ∧ expired now r = true))
                       (kvstore (view db)) in
    longTermCacheSweeperInfo_sql database data sub db =
      (Ok (foldl (λ m r, <[kv_k r := kv_v r]> m) data
             (filter (λ r, kv_is_filename r = 1%Z ∧ same collation (kv_subdomain r) sub) kept)),
       db') ∧
    kvstore (view db') = kept.
Proof.
  intros Hs. unfold longTermCacheSweeperInfo_sql, with_local, catch_sql.
  destruct (prepare_law KvFilenames db) as (db0 & E0 & H0).
  destruct (prepare_law KvSweep db0) as (db1 & E1 & H1).
  rewrite (eff_bind_ok _ _ _ _ _ (outer_eq _ _ data _ _ E0)).
  rewrite (eff_bind_ok _ _ _ _ _ (outer_eq _ _ data _ _ E1)).
  destruct (execute_law KvSweep [SStr sub] db1) as (o & db2 & t & E2 & H2 & Hx);
    [repeat constructor; done|].
  cbn [exec] in Hx. destruct Hx as [-> Hv].
  rewrite (eff_bind_ok _ _ _ _ _ (outer_eq _ _ data _ _ E2)).
  destruct (query_law KvFilenames [SStr sub] db2 ltac:(repeat constructor; done))
    as (o & db3 & E3 & H3 & Ho). simpl in Ho. subst o.
  rewrite (eff_bind_ok _ _ _ _ _ (outer_eq _ _ data _ _ E3)).
  exists db3, (clock t). pose proof (later_trans _ _ _ H0 (later_trans _ _ _ H1 H2)) as [El _ _ Hc].
  split; [done|]. cbv zeta. destruct H3 as [E4 _ _ _]. rewrite E4, Hv. simpl. rewrite El.
  split; [|done].
  assert (∀ rows (d : gmap string string) (b : Db),
    for_each (λ row, set_local (<[getString "k" row := getString "v" row]>)) rows (b, d)
    = (Ok tt, (b, foldl (λ m row, <[getString "k" row := getString "v" row]> m) d rows))) as Hloop.
  { intros rows. induction rows as [|r rows IH]; intros d b; [done|]. apply IH. }
  by rewrite Hloop, foldl_fmap.
Qed.

(** ** Locks *)

Definition locked (t : Tables) (sub : string) : Prop :=
  Exists (λ r, same collation (lock_subdomain r) sub) (locks t).

Lemma lock_spec sub db :
  bindable (SStr sub) →
  ∃ r db' now, lock_sql database sub db = (Ok r, db') ∧ (clock (view db) ≤ now)%Z ∧
    if decide (locked (view db) sub)
    then r = 0%Z ∧ locks (view db') = filter (λ l, ¬ (lock_created_at l < now - 60)%Z) (locks (view db))
    else r = 1%Z ∧ locks (view db')
           = locks (view db) ++ [{| lock_subdomain := sub; lock_created_at := now |}].
Proof.
  intros Hs. unfold lock_sql. unfold catch_sql at 1.
  destruct (prepare_law LockInsert db) as (db0 & E0 & H0). rewrite (eff_bind_ok _ _ _ _ _ E0).
  destruct (execute_law LockInsert [SStr sub] db0) as (o & db1 & t & E1 & H1 & Hx);
    [repeat constructor; done|].
  pose proof (later_trans _ _ _ H0 H1) as [_ _ El Hc]. cbn [exec] in Hx. rewrite El in Hx.
  unfold locked. destruct (decide (Exists _ (locks (view db)))) as [Hl|Hl].
  - destruct Hx as [[w ->] Hv]. rewrite (eff_bind_throw _ _ _ _ _ E1). unfold catch_sql.
    destruct (prepare_law LockSweep db1) as (db2 & E2 & H2). rewrite (eff_bind_ok _ _ _ _ _ E2).
    destruct (execute_law LockSweep [] db2) as (o & db3 & t' & E3 & H3 & Hx); [constructor|].
    cbn [exec] in Hx. destruct Hx as [-> Hv']. rewrite (eff_bind_ok _ _ _ _ _ E3).
    exists 0%Z, db3, (clock t'). split; [done|]. rewrite Hv'. simpl.
    pose proof (later_trans _ _ _ H2 H3) as [_ _ El' Hc']. rewrite Hv in El', Hc'.
    split; [lia|]. by rewrite El', El.
  - destruct Hx as [-> Hv]. rewrite (eff_bind_ok _ _ _ _ _ E1).
    exists 1%Z, db1, (clock t). split; [done|]. split; [done|]. by rewrite Hv.
Qed.

Lemma unlock_spec sub db :
  bindable (SStr sub) →
  ∃ db', unlock_sql database sub db = (Ok 1%Z, db') ∧
    locks (view db') = filter (λ l, ¬ same collation (lock_subdomain l) sub) (locks (view db)).
Proof.
  intros Hs. unfold unlock_sql, catch_sql.
  destruct (prepare_law LockDelete db) as (db0 & E0 & H0). rewrite (eff_bind_ok _ _ _ _ _ E0).
  destruct (execute_law LockDelete [SStr sub] db0) as (o & db1 & t & E1 & H1 & Hx);
    [repeat constructor; done|].
  cbn [exec] in Hx. destruct Hx as [-> Hv]. rewrite (eff_bind_ok _ _ _ _ _ E1).
  exists db1. split; [done|]. rewrite Hv. simpl.
  by destruct (later_trans _ _ _ H0 H1) as [_ _ -> _].
Qed.

End laws.

Lemma with_connection_ok {Db A} (m : string → eff Db A) s :
  pool_ok (mysql_pool s) → availableConnections (mysql_pool s) ≠ 0%Z →
  with_connection m s =
    let '(o, db) := m (mysql_database s) (mysql_db s) in
    (o, {| mysql_database := mysql_database s; mysql_pool := mysql_pool s; mysql_db := db |}).
Proof.
  intros Hp Ha. unfold with_connection. rewrite (pooled_ok pool_error) by done.
  by destruct (m _ _).
Qed.

(** * A concrete server *)

(** An engine that runs [exec] and [query] on the tables, recognising a
    statement by its text; [CHAR] columns compare case-insensitively (MySQL's
    default collations). *)
Module SqlRef.
Definition statements : list statement :=
  [SessionSweep; SessionSelect; SessionDelete; SessionInsert; KvSelect; KvRenew; KvReplace;
   KvInsert; KvEmpty; KvDelete; KvFilenames; KvSweep; LockInsert; LockSweep; LockDelete].
Definition parse (sql : string) : option statement :=
  head (filter (λ st, sql_text "vaedb" st = sql) statements).
Definition collate (s : string) : string := of_chars (to_lower <$> chars s).

#[export] Instance engine : SqlEngine Tables := {
  prepareStatement sql t :=
    match parse sql with Some _ => (Ok tt, t) | None => (Throw (SQLException "syntax"), t) end;
  stmt_execute sql ps t :=
    match parse sql ≫= λ st, exec collate st ps t with
    | Some t' => (Ok tt, t')
    | None => (Throw (SQLException "execute"), t)
    end;
  stmt_executeQuery sql ps t :=
    match parse sql ≫= λ st, query collate st ps t with
    | Some rows => (Ok rows, t)
    | None => (Throw (SQLException "executeQuery"), t)
    end;
}.

Lemma parse_text st : parse (sql_text "vaedb" st) = Some st.
Proof. by destruct st. Qed.

#[export] Instance laws : SqlLaws Tables "vaedb".
Proof.
  refine {| collation := collate; view := id; bindable := λ _, True |}.
  - intros st t. exists t. unfold prepareStatement; simpl. rewrite parse_text.
    split; [done|apply later_refl].
  - intros st ps t _. unfold stmt_execute; simpl. rewrite parse_text. simpl.
    destruct (exec collate st ps t) as [t'|] eqn:E.
    + exists (Ok tt), t', t. split; [done|]. split; [apply later_refl|]. by rewrite E.
    + exists (Throw (SQLException "execute")), t, t. split; [done|].
      split; [apply later_refl|]. rewrite E. eauto.
  - intros st ps t _. unfold stmt_executeQuery; simpl. rewrite parse_text. simpl.
    destruct (query collate st ps t) as [rows|] eqn:E.
    + exists (Ok rows), t. split; [done|]. split; [apply later_refl|]. by rewrite E.
    + eexists (Throw (SQLException _)), t. split; [done|]. split; [apply later_refl|].
      rewrite E. eauto.
Defined.

(** A server where another site owns a session id and holds a lock. *)
Definition tables : Tables :=
  {| kvstore := [{| kv_subdomain := "a"; kv_k := "k"; kv_v := "old"; kv_expire_at := Some 5%Z;
                    kv_is_filename := 1 |};
                 {| kv_subdomain := "a"; kv_k := "img"; kv_v := "f.png"; kv_expire_at := None;
                    kv_is_filename := 1 |}];
     session_data := [{| ses_id := "s1"; ses_subdomain := "b"; ses_data := "other"; ses_expires := 900 |}];
     locks := [{| lock_subdomain := "b"; lock_created_at := 10 |}];
     clock := 100 |}.

Lemma bindable_all v : bindable (database := "vaedb") v.
Proof. exact I. Defined.
End SqlRef.
#[export] Existing Instances SqlRef.engine SqlRef.laws.

(** The identifier "s1" belongs to site "b": site "a" cannot store it. *)
Example sessionCache_roundtrip_witness :
  ∃ db1 db2,
    sessionCacheSet_sql "vaedb" "a" "s1" "mine" SqlRef.tables = (Ok tt, db1) ∧
    sessionCacheGet_sql "vaedb" "a" "s1" db1 = (Ok "", db2).
Proof.
  exact (sessionCache_roundtrip "a" "s1" "mine" SqlRef.tables
    (SqlRef.bindable_all _) (SqlRef.bindable_all _) (SqlRef.bindable_all _) (SqlRef.bindable_all _)).
Defined.

Example longTermCache_roundtrip_witness :
  ∃ db1 db2,
    longTermCacheSet_sql "vaedb" "a" "k" "new" 3 0 SqlRef.tables = (Ok tt, db1) ∧
    longTermCacheGet_sql "vaedb" "a" "k" 30 db1 = (Ok "new", db2).
Proof.
  destruct (longTermCache_roundtrip "a" "k" "new" 3 0 30 SqlRef.tables
    (SqlRef.bindable_all _) (SqlRef.bindable_all _) (SqlRef.bindable_all _)
    (SqlRef.bindable_all _) (SqlRef.bindable_all _) (SqlRef.bindable_all _))
    as (db1 & db2 & E1 & E2 & _).
  exists db1, db2. split; [exact E1|exact E2].
Defined.

Example longTermCache_deletion_witness :
  ∃ db1, longTermCacheEmpty_sql "vaedb" "a" SqlRef.tables = (Ok tt, db1)
       ∧ kv_value (view db1) "a" "img" = "".
Proof.
  destruct (longTermCache_deletion "a" "k" SqlRef.tables (SqlRef.bindable_all _) (SqlRef.bindable_all _))
    as (db1 & db2 & E1 & _ & Hv).
  exists db1. split; [exact E1|exact (proj1 (Hv "a" "img"))].
Defined.

Example longTermCacheSweeperInfo_spec_witness :
  ∃ db', (longTermCacheSweeperInfo_sql "vaedb" ∅ "a" SqlRef.tables).2 = db'
       ∧ ∃ now, (100 ≤ now)%Z ∧ kvstore (view db') =
           filter (λ r, ¬ (same collation (kv_subdomain r) "a" ∧ expired now r = true))
             (kvstore SqlRef.tables).
Proof.
  destruct (longTermCacheSweeperInfo_spec "a" ∅ SqlRef.tables (SqlRef.bindable_all _))
    as (db' & now & Hc & E & Hk).
  exists db'. rewrite E. split; [reflexivity|]. exists now. split; [exact Hc|exact Hk].
Defined.

