(* ===== verification/MemcacheProxy.v ===== *)
(** [cpp/memcache_proxy.cpp]: the short term cache.  The memcached client is a
    parameter ([MemcacheClient]); [MemcacheLaws] states what a best-effort cache
    promises: it may lose entries at any time, but never invents one. *)
From Stdlib Require Import ZArith.
From S2P Require Import Prelude Cpp Extern Regex Pool.

(** * The client *)

Class MemcacheClient (Mem : Type) := {
  (** [client->get(key, ret_value)]; the string is [ret_value]. *)
  client_get : string → eff (Mem * string) bool;
  (** [client->set(key, value, expiration, flags)]. *)
  client_set : string → string → Z → Z → eff Mem bool;
  client_remove : string → eff Mem bool;
}.

Class MemcacheLaws (Mem : Type) `{MemcacheClient Mem} := {
  (** What the servers may still answer. *)
  cached : Mem → gmap string string;
  client_get_law key m s :
    ∃ o m' s', client_get key (m, s) = (o, (m', s')) ∧ cached m' ⊆ cached m ∧
      (o = Ok true ∧ cached m !! key = Some s' ∨
       (o = Ok false ∨ ∃ w, o = Throw (RuntimeError w)) ∧ s' = s);
  client_set_law key value expiration flags m :
    ∃ o m', client_set key value expiration flags m = (o, m') ∧
      (o = Ok true ∧ cached m' ⊆ <[key := value]> (cached m) ∨
       (o = Ok false ∨ ∃ w, o = Throw (RuntimeError w)) ∧ cached m' ⊆ cached m);
  client_remove_law key m :
    ∃ o m', client_remove key m = (o, m') ∧
      (o = Ok true ∧ cached m' ⊆ delete key (cached m) ∨
       (o = Ok false ∨ ∃ w, o = Throw (RuntimeError w)) ∧ cached m' ⊆ cached m);
}.

(** * The proxy *)

Definition MEMCACHE_NUM_CONNECTIONS : nat := 16.

Record MemcacheProxy (Mem : Type) := {
  connectString : string; mem_pool : Pool; mem_store : Mem;
}.
Arguments connectString {Mem} _.
Arguments mem_pool {Mem} _.
Arguments mem_store {Mem} _.

Definition mem_pool_error : string := "Memcache Thread Pool Error: Should never get here".

(** [pcrecpp::RE(",").Replace(" --SERVER=", &c)] and the prefix. *)
Definition connect_string `{Pcre} (c : string) : string :=
  "--TCP-KEEPALIVE --BINARY-PROTOCOL --SERVER="
    +:+ default c (re_replace false "," " --SERVER=" c).

(** The constructor; [new] always gives a connection object, [addr i]. *)
Definition MemcacheProxy_new `{Pcre} {Mem} (c : string) (addr : nat → con) (m : Mem)
    : MemcacheProxy Mem :=
  {| connectString := connect_string c;
     mem_pool := Pool_new ((λ i, Some (addr i)) <$> seq 0 MEMCACHE_NUM_CONNECTIONS);
     mem_store := m |}.

Definition with_client {Mem A} (m : eff Mem A) : eff (MemcacheProxy Mem) A := λ s,
  let '(o, (p, st)) := pooled mem_pool_error m (mem_pool s, mem_store s) in
  (o, {| connectString := connectString s; mem_pool := p; mem_store := st |}).

Section methods.
Context {Mem : Type} `{MemcacheClient Mem}.

Definition get_body (key : string) : eff Mem string :=
  with_local "" (catch_runtime (_ ← client_get key; mret ()) (mret ())).
Definition set_body (key value : string) (flags expireInterval : Z) : eff Mem unit :=
  catch_runtime (_ ← client_set key value expireInterval flags; mret ()) (mret ()).
Definition remove_body (key : string) : eff Mem unit :=
  catch_runtime (_ ← client_remove key; mret ()) (mret ()).

Definition get (key : string) (flags : Z) : eff (MemcacheProxy Mem) string :=
  with_client (get_body key).
Definition set (key value : string) (flags expireInterval : Z) : eff (MemcacheProxy Mem) unit :=
  with_client (set_body key value flags expireInterval).
Definition remove (key : string) : eff (MemcacheProxy Mem) unit :=
  with_client (remove_body key).
End methods.

(** * Specifications *)

Section specs.
Context {Mem : Type} `{MemcacheLaws Mem}.

Lemma get_body_spec key m :
  ∃ v m', get_body key m = (Ok v, m') ∧ cached m' ⊆ cached m
        ∧ (v = "" ∨ cached m !! key = Some v).
Proof.
  unfold get_body, with_local, catch_runtime.
  destruct (client_get_law key m "") as (o & m' & s' & E & Hm & Ho).
  exists s', m'. unfold mbind, eff_mbind, eff_bind. rewrite E.
  destruct Ho as [[-> Hs]|[[->|[w ->]] ->]]; split; try done; by auto.
Qed.

Lemma set_body_spec key value flags expire m :
  ∃ m', set_body key value flags expire m = (Ok (), m')
      ∧ (cached m' ⊆ <[key := value]> (cached m) ∨ cached m' ⊆ cached m).
Proof.
  unfold set_body, catch_runtime.
  destruct (client_set_law key value expire flags m) as (o & m' & E & Ho).
  exists m'. unfold mbind, eff_mbind, eff_bind. rewrite E.
  destruct Ho as [[-> Hs]|[[->|[w ->]] Hs]]; auto.
Qed.

Lemma remove_body_spec key m :
  ∃ m', remove_body key m = (Ok (), m') ∧ cached m' ⊆ cached m.
Proof.
  unfold remove_body, catch_runtime.
  destruct (client_remove_law key m) as (o & m' & E & Ho).
  exists m'. unfold mbind, eff_mbind, eff_bind. rewrite E.
  destruct Ho as [[-> Hs]|[[->|[w ->]] Hs]]; split; try done.
  etrans; [done|apply delete_subseteq].
Qed.

Lemma with_client_ok {A} (b : eff Mem A) s o m' :
  pool_ok (mem_pool s) → availableConnections (mem_pool s) ≠ 0%Z →
  b (mem_store s) = (o, m') →
  with_client b s = (o, {| connectString := connectString s; mem_pool := mem_pool s; mem_store := m' |}).
Proof.
  intros Hp Ha E. unfold with_client. rewrite (pooled_ok mem_pool_error) by done. by rewrite E.
Qed.
End specs.

(** The proxy hides every failure of memcached: with a free connection, each
    method returns normally, gives its connection back, and [get] answers what
    is cached under the key, or "". *)
Theorem memcache_best_effort {Mem} `{MemcacheLaws Mem} key value flags expire (s : MemcacheProxy Mem) :
  pool_ok (mem_pool s) → availableConnections (mem_pool s) ≠ 0%Z →
  (∃ v s', get key flags s = (Ok v, s') ∧ mem_pool s' = mem_pool s
         ∧ cached (mem_store s') ⊆ cached (mem_store s)
         ∧ (v = "" ∨ cached (mem_store s) !! key = Some v)) ∧
  (∃ s', set key value flags expire s = (Ok (), s') ∧ mem_pool s' = mem_pool s
       ∧ (cached (mem_store s') ⊆ <[key := value]> (cached (mem_store s))
          ∨ cached (mem_store s') ⊆ cached (mem_store s))) ∧
  (∃ s', remove key s = (Ok (), s') ∧ mem_pool s' = mem_pool s
       ∧ cached (mem_store s') ⊆ cached (mem_store s)).
Proof.
  intros Hp Ha. split_and!.
  - destruct (get_body_spec key (mem_store s)) as (v & m' & E & Hm & Hv).
    eexists v, _. split; [by apply with_client_ok|]. by split.
  - destruct (set_body_spec key value flags expire (mem_store s)) as (m' & E & Hm).
    eexists. split; [by apply with_client_ok|]. by split.
  - destruct (remove_body_spec key (mem_store s)) as (m' & E & Hm).
    eexists. split; [by apply with_client_ok|]. by split.
Qed.

(** ** The servers of [--memcached_host] *)

Definition no_comma (s : string) : Prop := ","%char ∉ chars s.
Definition comma_list (h : string) (hosts : list string) : string :=
  h +:+ foldr (λ x r, "," +:+ x +:+ r) "" hosts.

(** What PCRE does with the pattern ["," ]: the first comma is replaced. *)
Class CommaLaw `{Pcre} : Prop := {
  comma_first a b : no_comma a →
    re_replace false "," " --SERVER=" (a +:+ "," +:+ b) = Some (a +:+ " --SERVER=" +:+ b);
  comma_none a : no_comma a → re_replace false "," " --SERVER=" a = None;
}.

(** The connection string names each server only for one or two servers: with
    more, the documented comma-separated syntax leaves the commas after the
    first one in the last [--SERVER] option. *)
Theorem connect_string_two `{CommaLaw} h hosts :
  no_comma h →
  connect_string (comma_list h hosts) =
    "--TCP-KEEPALIVE --BINARY-PROTOCOL --SERVER=" +:+ h +:+
    match hosts with
    | [] => ""
    | h2 :: rest => " --SERVER=" +:+ comma_list h2 rest
    end.
Proof.
  intros Hh. unfold connect_string, comma_list. destruct hosts as [|h2 rest]; simpl foldr.
  - assert (h +:+ "" = h) as -> by (apply chars_inj; by rewrite chars_app, app_nil_r).
    by rewrite comma_none.
  - by rewrite comma_first.
Qed.

(** * A concrete client *)

Module MemRef.
(** One server holding a map; an empty key is refused with an exception. *)
#[export] Instance client : MemcacheClient (gmap string string) := {
  client_get key := λ '(m, s),
    if decide (key = "") then (Throw (RuntimeError "bad key"), (m, s))
    else match m !! key with Some v => (Ok true, (m, v)) | None => (Ok false, (m, s)) end;
  client_set key value _ _ m :=
    if decide (key = "") then (Throw (RuntimeError "bad key"), m) else (Ok true, <[key := value]> m);
  client_remove key m := (Ok true, delete key m);
}.

#[export] Instance laws : MemcacheLaws (gmap string string).
Proof.
  refine {| cached := id |}; unfold client_get, client_set, client_remove; simpl.
  - intros key m s. case_decide; [naive_solver|]. destruct (m !! key) as [v|] eqn:E; naive_solver.
  - intros key v e f m. case_decide; naive_solver.
  - intros key m. naive_solver.
Defined.

Definition proxy : MemcacheProxy (gmap string string) :=
  {| connectString := ""; mem_pool := Pool_new [Some 1%positive]; mem_store := {["k" := "v"]} |}.

Lemma proxy_pool : pool_ok (mem_pool proxy).
Proof. apply (Pool_new_ok [Some 1%positive]). apply NoDup_singleton. Defined.
End MemRef.
#[export] Existing Instances MemRef.client MemRef.laws.

Example memcache_best_effort_witness :
  ∃ v s', get "k" 0 MemRef.proxy = (Ok v, s') ∧ mem_pool s' = mem_pool MemRef.proxy
        ∧ (v = "" ∨ cached (mem_store MemRef.proxy) !! "k" = Some v).
Proof.
  destruct (memcache_best_effort "k" "w" 0 60 MemRef.proxy MemRef.proxy_pool ltac:(discriminate))
    as ((v & s' & E & Hp & _ & Hv) & _).
  exists v, s'. split; [exact E|]. split; [exact Hp|exact Hv].
Defined.

(** The law holds of the matcher of [Regex]. *)
Lemma search_comma fuel total before a b :
  3 ≤ fuel → ","%char ∉ a →
  search (Seq Eps (Chr (fold_case false (in_range "," ",")))) fuel total before (a ++ ","%char :: b)
  = Some (before ++ a, ∅, b).
Proof.
  intros Hf. destruct fuel as [|[|[|fuel]]]; [lia..|]. revert before.
  induction a as [|c a IH]; intros before Hc.
  - simpl. by rewrite app_nil_r.
  - apply not_elem_of_cons in Hc as [Hne Hc]. simpl.
    destruct (in_range "," "," c) eqn:E.
    + exfalso. by apply Hne, in_range_refl.
    + simpl in IH. rewrite IH by done. by rewrite <- app_assoc.
Qed.

Lemma search_no_comma fuel total before a :
  3 ≤ fuel → ","%char ∉ a →
  search (Seq Eps (Chr (fold_case false (in_range "," ",")))) fuel total before a = None.
Proof.
  intros Hf. destruct fuel as [|[|[|fuel]]]; [lia..|]. revert before.
  induction a as [|c a IH]; intros before Hc; [done|].
  apply not_elem_of_cons in Hc as [Hne Hc]. simpl.
  destruct (in_range "," "," c) eqn:E; [|by apply IH].
  exfalso. by apply Hne, in_range_refl.
Qed.

#[export] Instance comma_ref : CommaLaw.
Proof.
  assert (compile false "," = Some (Seq Eps (Chr (fold_case false (in_range "," ","))), 0)) as Hc
    by reflexivity.
  split; unfold no_comma, re_replace; intros; cbn [pcre_ref]; unfold replace; rewrite Hc;
    cbn [mbind option_bind].
  - assert (chars (a +:+ "," +:+ b) = chars a ++ ","%char :: chars b) as E by apply chars_app.
    rewrite E, search_comma by (done || unfold steps; simpl; lia). cbn [mbind option_bind]. f_equal.
    by rewrite !of_chars_app, !of_chars_chars.
  - by rewrite search_no_comma by (done || unfold steps; simpl; lia).
Qed.

Example connect_string_two_witness :
  connect_string "a,b,c" = "--TCP-KEEPALIVE --BINARY-PROTOCOL --SERVER=a --SERVER=b,c".
Proof.
  exact (connect_string_two "a" ["b"; "c"] ltac:(apply (bool_decide_unpack _); vm_compute; exact I)).
Defined.
