(* ===== verification/Protocol.v ===== *)
(** Reading and writing Thrift structures, the way the generated code of
    [gen-cpp] does.  The protocol and its transport are a parameter
    ([TProtocol]); what the code relies on is that a protocol reads back what
    was written ([ProtocolLaws], on the tokens of [token]).  The byte counts that
    the generated methods return are left out. *)
From Stdlib Require Import ZArith.
From S2P Require Import Prelude Cpp.

(** * The protocol *)

Inductive TType :=
| T_STOP | T_BOOL | T_BYTE | T_I32 | T_STRING | T_STRUCT | T_MAP | T_LIST | T_OTHER (code : Z).
#[export] Instance TType_eq_dec : EqDecision TType.
Proof. solve_decision. Defined.

Inductive TMessageType := T_CALL | T_REPLY | T_EXCEPTION | T_ONEWAY.
#[export] Instance TMessageType_eq_dec : EqDecision TMessageType.
Proof. solve_decision. Defined.

Class TProtocol (P : Type) := {
  writeMessageBegin : string → TMessageType → Z → eff P unit;
  writeMessageEnd : eff P unit;
  incrementRecursionDepth : eff P unit;
  decrementRecursionDepth : eff P unit;
  writeStructBegin : string → eff P unit;
  writeStructEnd : eff P unit;
  writeFieldBegin : string → TType → Z → eff P unit;
  writeFieldEnd : eff P unit;
  writeFieldStop : eff P unit;
  writeMapBegin : TType → TType → Z → eff P unit;
  writeMapEnd : eff P unit;
  writeListBegin : TType → Z → eff P unit;
  writeListEnd : eff P unit;
  writeBool : bool → eff P unit;
  writeByte : Z → eff P unit;
  writeI32 : Z → eff P unit;
  writeString : string → eff P unit;
  readMessageBegin : eff P (string * TMessageType * Z);
  readMessageEnd : eff P unit;
  readStructBegin : eff P unit;
  readStructEnd : eff P unit;
  readFieldBegin : eff P (TType * Z);
  readFieldEnd : eff P unit;
  readMapBegin : eff P Z;
  readMapEnd : eff P unit;
  readListBegin : eff P Z;
  readListEnd : eff P unit;
  readBool : eff P bool;
  readByte : eff P Z;
  readI32 : eff P Z;
  readString : eff P string;
  skip : TType → eff P unit;
  (** [getTransport()->readEnd()], [writeEnd()] and [flush()]. *)
  readEnd : eff P unit;
  writeEnd : eff P unit;
  flush : eff P unit;
  (** [write] and [read] of [TApplicationException]. *)
  write_exception : string → eff P unit;
  read_exception : eff P string;
}.

(** * The generated code *)

Section codecs.
Context {P : Type} `{TProtocol P}.
(** Fuel of the [while (true)] loops over the fields of a structure. *)
Variable fuel : nat.

(** A type of the interface: its tag, its default value, and how the generated
    code reads a value over an old one and writes a value. *)
Record codec (A : Type) := Codec {
  c_type : TType; c_default : A; c_read : A → eff P A; c_write : A → eff P unit;
}.
Arguments Codec {A}.
Arguments c_type {A} _.
Arguments c_default {A} _.
Arguments c_read {A} _.
Arguments c_write {A} _.

Definition i32 : codec Z := Codec T_I32 0%Z (λ _, readI32) writeI32.
Definition byte : codec Z := Codec T_BYTE 0%Z (λ _, readByte) writeByte.
Definition boolean : codec bool := Codec T_BOOL false (λ _, readBool) writeBool.
Definition text : codec string := Codec T_STRING "" (λ _, readString) writeString.

(** [for (_i = 0; _i < _size; ++_i)] over a list or a map. *)
Fixpoint read_elements {A} (c : codec A) (n : nat) : eff P (list A) :=
  match n with
  | O => mret []
  | S n => x ← c_read c (c_default c); l ← read_elements c n; mret (x :: l)
  end.
Definition read_list {A} (c : codec A) : eff P (list A) :=
  size ← readListBegin;
  l ← read_elements c (Z.to_nat size);
  readListEnd;; mret l.
Definition write_list {A} (c : codec A) (l : list A) : eff P unit :=
  writeListBegin (c_type c) (uint32 (Z.of_nat (length l)));;
  for_each (c_write c) l;;
  writeListEnd.
Definition list_of {A} (c : codec A) : codec (list A) :=
  Codec T_LIST [] (λ _, read_list c) (write_list c).

Fixpoint read_entries (n : nat) (m : gmap string string) : eff P (gmap string string) :=
  match n with
  | O => mret m
  | S n => k ← readString; v ← readString; read_entries n (<[k := v]> m)
  end.
Definition read_map : eff P (gmap string string) :=
  size ← readMapBegin;
  m ← read_entries (Z.to_nat size) ∅;
  readMapEnd;; mret m.
Definition write_map (m : gmap string string) : eff P unit :=
  writeMapBegin T_STRING T_STRING (uint32 (Z.of_nat (size m)));;
  for_each (λ e, writeString e.1;; writeString e.2) (entries m);;
  writeMapEnd.
Definition string_map : codec (gmap string string) := Codec T_MAP ∅ (λ _, read_map) write_map.

(** A field of a structure. *)
Record field (S : Type) := Field {
  f_name : string; f_id : Z; f_value : Type; f_codec : codec f_value;
  f_get : S → f_value; f_set : f_value → S → S;
}.
Arguments Field {S} _ _ {f_value} _ _ _.
Arguments f_name {S} _.
Arguments f_id {S} _.
Arguments f_codec {S} _.
Arguments f_get {S} _.
Arguments f_set {S} _.

(** The [switch (fid)] of a generated [read]. *)
Fixpoint read_field {S} (fields : list (field S)) (ftype : TType) (fid : Z) (this : S) : eff P S :=
  match fields with
  | [] => skip ftype;; mret this
  | f :: fields' =>
      if decide (fid = f_id f) then
        if decide (ftype = c_type (f_codec f)) then
          v ← c_read (f_codec f) (f_get f this); mret (f_set f v this)
        else skip ftype;; mret this
      else read_field fields' ftype fid this
  end.

Fixpoint read_fields {S} (n : nat) (fields : list (field S)) (this : S) : eff P S :=
  match n with
  | O => no_fuel
  | Datatypes.S n =>
      '(ftype, fid) ← readFieldBegin;
      if decide (ftype = T_STOP) then mret this
      else
        this ← read_field fields ftype fid this;
        readFieldEnd;; read_fields n fields this
  end.

Definition read_struct {S} (fields : list (field S)) (this : S) : eff P S :=
  readStructBegin;;
  this ← read_fields fuel fields this;
  readStructEnd;; mret this.

Definition write_field {S} (this : S) (f : field S) : eff P unit :=
  writeFieldBegin (f_name f) (c_type (f_codec f)) (f_id f);;
  c_write (f_codec f) (f_get f this);;
  writeFieldEnd.

Definition write_struct {S} (name : string) (fields : list (field S)) (this : S) : eff P unit :=
  incrementRecursionDepth;;
  writeStructBegin name;;
  for_each (write_field this) fields;;
  writeFieldStop;; writeStructEnd;;
  decrementRecursionDepth.

Definition struct_of {S} (name : string) (fields : list (field S)) (d : S) : codec S :=
  Codec T_STRUCT d (read_struct fields) (write_struct name fields).
End codecs.

Arguments Codec {P A}.
Arguments c_type {P A} _.
Arguments c_default {P A} _.
Arguments c_read {P A} _.
Arguments c_write {P A} _.
Arguments Field {P S} _ _ {f_value} _ _ _.
Arguments f_name {P S} _.
Arguments f_id {P S} _.
Arguments f_value {P S} _.
Arguments f_codec {P S} _.
Arguments f_get {P S} _.
Arguments f_set {P S} _.

(** * What the code relies on *)

Inductive token :=
| KMessage (name : string) (type : TMessageType) (seqid : Z) | KMessageEnd
| KStruct | KStructEnd | KField (t : TType) (id : Z) | KFieldEnd | KStop
| KMap (n : Z) | KMapEnd | KList (n : Z) | KListEnd
| KBool (b : bool) | KByte (z : Z) | KI32 (z : Z) | KString (s : string)
| KException (message : string).
#[export] Instance token_eq_dec : EqDecision token.
Proof. solve_decision. Defined.

(** A value as [skip] sees it. *)
Inductive value : TType → list token → Prop :=
| value_bool b : value T_BOOL [KBool b]
| value_byte z : value T_BYTE [KByte z]
| value_i32 z : value T_I32 [KI32 z]
| value_string s : value T_STRING [KString s]
| value_struct ts : fields_value ts → value T_STRUCT (KStruct :: ts ++ [KStructEnd])
| value_list n t ts : values t ts → value T_LIST (KList n :: ts ++ [KListEnd])
| value_map n ts : values T_STRING ts → value T_MAP (KMap n :: ts ++ [KMapEnd])
with fields_value : list token → Prop :=
| fields_stop : fields_value [KStop]
| fields_cons t i ts rest :
    value t ts → fields_value rest → fields_value (KField t i :: ts ++ KFieldEnd :: rest)
with values : TType → list token → Prop :=
| values_nil t : values t []
| values_cons t ts rest : value t ts → values t rest → values t (ts ++ rest).

Class ProtocolState (P : Type) := {
  input : P → list token;
  output : P → list token;
  (** How many structures may still be opened. *)
  depth : P → nat;
}.

(** [m] reads the tokens [ts] and answers [a]; [m] writes the tokens [ts]. *)
Definition consumes `{ProtocolState P} {A} (m : eff P A) (ts : list token) (a : A) : Prop :=
  ∀ p r, input p = ts ++ r →
    ∃ p', m p = (Ok a, p') ∧ input p' = r ∧ output p' = output p ∧ depth p' = depth p.
Definition emits `{ProtocolState P} (h : nat) (m : eff P unit) (ts : list token) : Prop :=
  ∀ p, h ≤ depth p →
    ∃ p', m p = (Ok (), p') ∧ output p' = output p ++ ts ∧ input p' = input p ∧ depth p' = depth p.

Class ProtocolLaws (P : Type) `{TProtocol P} `{ProtocolState P} : Prop := {
  writeMessageBegin_law n t i : emits 0 (writeMessageBegin n t i) [KMessage n t i];
  writeMessageEnd_law : emits 0 writeMessageEnd [KMessageEnd];
  writeStructBegin_law n : emits 0 (writeStructBegin n) [KStruct];
  writeStructEnd_law : emits 0 writeStructEnd [KStructEnd];
  writeFieldBegin_law n t i : emits 0 (writeFieldBegin n t i) [KField t i];
  writeFieldEnd_law : emits 0 writeFieldEnd [KFieldEnd];
  writeFieldStop_law : emits 0 writeFieldStop [KStop];
  writeMapBegin_law k v n : (0 ≤ n < 2 ^ 31)%Z → emits 0 (writeMapBegin k v n) [KMap n];
  writeMapEnd_law : emits 0 writeMapEnd [KMapEnd];
  writeListBegin_law t n : (0 ≤ n < 2 ^ 31)%Z → emits 0 (writeListBegin t n) [KList n];
  writeListEnd_law : emits 0 writeListEnd [KListEnd];
  writeBool_law b : emits 0 (writeBool b) [KBool b];
  writeByte_law z : (- 2 ^ 7 ≤ z < 2 ^ 7)%Z → emits 0 (writeByte z) [KByte z];
  writeI32_law z : (- 2 ^ 31 ≤ z < 2 ^ 31)%Z → emits 0 (writeI32 z) [KI32 z];
  writeString_law s :
    (Z.of_nat (String.length s) < 2 ^ 31)%Z → emits 0 (writeString s) [KString s];
  write_exception_law m :
    (Z.of_nat (String.length m) < 2 ^ 31)%Z → emits 1 (write_exception m) [KException m];
  writeEnd_law : emits 0 writeEnd [];
  flush_law : emits 0 flush [];
  readMessageBegin_law n t i : consumes readMessageBegin [KMessage n t i] (n, t, i);
  readMessageEnd_law : consumes readMessageEnd [KMessageEnd] ();
  readStructBegin_law : consumes readStructBegin [KStruct] ();
  readStructEnd_law : consumes readStructEnd [KStructEnd] ();
  readFieldBegin_law t i : consumes readFieldBegin [KField t i] (t, i);
  readFieldStop_law : ∃ i, consumes readFieldBegin [KStop] (T_STOP, i);
  readFieldEnd_law : consumes readFieldEnd [KFieldEnd] ();
  readMapBegin_law n : consumes readMapBegin [KMap n] n;
  readMapEnd_law : consumes readMapEnd [KMapEnd] ();
  readListBegin_law n : consumes readListBegin [KList n] n;
  readListEnd_law : consumes readListEnd [KListEnd] ();
  readBool_law b : consumes readBool [KBool b] b;
  readByte_law z : consumes readByte [KByte z] z;
  readI32_law z : consumes readI32 [KI32 z] z;
  readString_law s : consumes readString [KString s] s;
  read_exception_law m : consumes read_exception [KException m] m;
  readEnd_law : consumes readEnd [] ();
  skip_law t ts : value t ts → consumes (skip t) ts ();
  (** The limit on the nesting of structures. *)
  increment_law p d : depth p = S d →
    ∃ p', incrementRecursionDepth p = (Ok (), p') ∧ input p' = input p ∧ output p' = output p
        ∧ depth p' = d;
  decrement_law p :
    ∃ p', decrementRecursionDepth p = (Ok (), p') ∧ input p' = input p ∧ output p' = output p
        ∧ depth p' = S (depth p);
}.
