(* ===== verification/ProtocolSpec.v ===== *)
(** Round trips: what the generated code writes, it reads back.  Proved for
    the codecs of [Protocol] and any structure made of them. *)
From Stdlib Require Import ZArith.
From S2P Require Import Prelude Cpp Protocol.

Section specs.
Context {P : Type} `{ProtocolLaws P}.

(** ** Composition *)

Lemma consumes_ret {A} (a : A) : consumes (mret a : eff P A) [] a.
Proof. intros p r Hp. by exists p. Qed.

Lemma consumes_bind {A B} (m : eff P A) (f : A → eff P B) t1 t2 a b :
  consumes m t1 a → consumes (f a) t2 b → consumes (m ≫= f) (t1 ++ t2) b.
Proof.
  intros Hm Hf p r Hp. rewrite <- app_assoc in Hp.
  destruct (Hm p (t2 ++ r) Hp) as (p1 & E1 & I1 & O1 & D1).
  destruct (Hf p1 r I1) as (p2 & E2 & I2 & O2 & D2).
  exists p2. rewrite (eff_bind_ok _ _ _ _ _ E1). split_and!; [done..|congruence|congruence].
Qed.

(** The last computation of a sequence. *)
Lemma consumes_last {A B} (m : eff P A) (f : A → eff P B) t a b :
  consumes m t a → consumes (f a) [] b → consumes (m ≫= f) t b.
Proof. intros Hm Hf. rewrite <- (app_nil_r t). by eapply consumes_bind. Qed.

Lemma consumes_cons {A B} (m : eff P A) (f : A → eff P B) k t a b :
  consumes m [k] a → consumes (f a) t b → consumes (m ≫= f) (k :: t) b.
Proof. intros Hm Hf. by apply (consumes_bind m f [k] t a). Qed.

Lemma emits_weaken h h' (m : eff P unit) ts : h ≤ h' → emits h m ts → emits h' m ts.
Proof. intros Hh Hm p Hd. apply Hm. lia. Qed.

Lemma emits_bind h h' (m m' : eff P unit) t1 t2 :
  h' ≤ h → emits h' m t1 → emits h m' t2 → emits h (m;; m') (t1 ++ t2).
Proof.
  intros Hh Hm Hm' p Hd. destruct (Hm p ltac:(lia)) as (p1 & E1 & O1 & I1 & D1).
  destruct (Hm' p1 ltac:(lia)) as (p2 & E2 & O2 & I2 & D2).
  exists p2. rewrite (eff_bind_ok _ _ _ _ _ E1), O2, O1, app_assoc. split_and!; congruence.
Qed.

Lemma emits_cons h (m m' : eff P unit) k t :
  emits 0 m [k] → emits h m' t → emits h (m;; m') (k :: t).
Proof. intros Hm Hm'. apply (emits_bind h 0 m m' [k] t); [lia|done..]. Qed.

Lemma emits_snoc h (m m' : eff P unit) k t :
  emits h m t → emits 0 m' [k] → emits h (m;; m') (t ++ [k]).
Proof. intros Hm Hm'. apply (emits_bind h h); [lia|done|]. eapply emits_weaken; [|done]. lia. Qed.

Lemma emits_for_each {A} h (body : A → eff P unit) (tok : A → list token) l :
  (∀ x, x ∈ l → emits h (body x) (tok x)) → emits h (for_each body l) (l ≫= tok).
Proof.
  induction l as [|x l IH]; intros Hb.
  { intros p _. exists p. by rewrite app_nil_r. }
  simpl. apply (emits_bind h h); [lia|apply Hb; by left|]. apply IH. intros y ?. apply Hb. by right.
Qed.

Lemma emits_increment h (m : eff P unit) ts :
  emits h m ts → emits (S h) (incrementRecursionDepth;; m;; decrementRecursionDepth) ts.
Proof.
  intros Hm p Hd. destruct (depth p) as [|d] eqn:Ed; [lia|].
  destruct (increment_law p d Ed) as (p1 & E1 & I1 & O1 & D1).
  destruct (Hm p1 ltac:(lia)) as (p2 & E2 & O2 & I2 & D2).
  destruct (decrement_law p2) as (p3 & E3 & I3 & O3 & D3).
  exists p3. rewrite (eff_bind_ok _ _ _ _ _ E1), (eff_bind_ok _ _ _ _ _ E2).
  split_and!; congruence.
Qed.

(** ** Codecs *)

(** [c] writes the values that satisfy [valid] as [tok], nesting at most [h]
    structures, and reads them back over any old value. *)
Record codec_ok {A} (c : codec (P := P) A) (h : nat) (valid : A → Prop) (tok : A → list token) : Prop := {
  ok_value v : valid v → value (c_type c) (tok v);
  ok_write v : valid v → emits h (c_write c v) (tok v);
  ok_read v old : valid v → consumes (c_read c old) (tok v) v;
}.

Definition i32_valid (z : Z) : Prop := (- 2 ^ 31 ≤ z < 2 ^ 31)%Z.
Definition byte_valid (z : Z) : Prop := (- 2 ^ 7 ≤ z < 2 ^ 7)%Z.
Definition text_valid (s : string) : Prop := (Z.of_nat (String.length s) < 2 ^ 31)%Z.
Definition list_valid {A} (valid : A → Prop) (l : list A) : Prop :=
  (Z.of_nat (length l) < 2 ^ 31)%Z ∧ Forall valid l.
Definition map_valid (m : gmap string string) : Prop :=
  (Z.of_nat (size m) < 2 ^ 31)%Z ∧ ∀ k v, m !! k = Some v → text_valid k ∧ text_valid v.

Definition i32_tok (z : Z) := [KI32 z].
Definition byte_tok (z : Z) := [KByte z].
Definition boolean_tok (b : bool) := [KBool b].
Definition text_tok (s : string) := [KString s].
Definition list_tok {A} (tok : A → list token) (l : list A) : list token :=
  KList (Z.of_nat (length l)) :: (l ≫= tok) ++ [KListEnd].
Definition entry_tok (e : string * string) : list token := [KString e.1; KString e.2].
Definition map_tok (m : gmap string string) : list token :=
  KMap (Z.of_nat (size m)) :: (entries m ≫= entry_tok) ++ [KMapEnd].

Lemma i32_ok : codec_ok i32 0 i32_valid i32_tok.
Proof.
  split; [constructor|intros; by apply writeI32_law|intros; apply readI32_law].
Qed.
Lemma byte_ok : codec_ok byte 0 byte_valid byte_tok.
Proof.
  split; [constructor|intros; by apply writeByte_law|intros; apply readByte_law].
Qed.
Lemma boolean_ok : codec_ok boolean 0 (λ _, True) boolean_tok.
Proof.
  split; [constructor|intros; by apply writeBool_law|intros; apply readBool_law].
Qed.
Lemma text_ok : codec_ok text 0 text_valid text_tok.
Proof.
  split; [constructor|intros; by apply writeString_law|intros; apply readString_law].
Qed.

(** ** Lists and maps *)

Lemma uint32_id z : (0 ≤ z < 2 ^ 31)%Z → uint32 z = z.
Proof. intros. unfold uint32. rewrite Z.mod_small; lia. Qed.

Section list.
Context {A : Type} {c : codec (P := P) A} {h : nat} {valid : A → Prop} {tok : A → list token}.
Hypothesis Hc : codec_ok c h valid tok.

Lemma values_list l : Forall valid l → values (c_type c) (l ≫= tok).
Proof.
  induction 1 as [|x l Hx _ IH]; [constructor|]. simpl. constructor; [by apply (ok_value _ _ _ _ Hc)|done].
Qed.

Lemma read_elements_ok l : Forall valid l → consumes (read_elements c (length l)) (l ≫= tok) l.
Proof.
  induction 1 as [|x l Hx _ IH]; [apply consumes_ret|]. simpl.
  eapply consumes_bind; [by apply (ok_read _ _ _ _ Hc)|].
  eapply consumes_last; [exact IH|apply consumes_ret].
Qed.

Lemma list_of_ok : codec_ok (list_of c) h (list_valid valid) (list_tok tok).
Proof.
  split.
  - intros l [_ Hl]. econstructor. by apply values_list.
  - intros l [Hn Hl]. simpl. unfold write_list, list_tok. rewrite uint32_id by lia.
    apply emits_cons; [apply writeListBegin_law; lia|]. apply emits_snoc; [|apply writeListEnd_law].
    apply emits_for_each. intros x Hx. apply (ok_write _ _ _ _ Hc). by eapply Forall_forall in Hl.
  - intros l old [Hn Hl]. simpl. unfold read_list, list_tok.
    eapply consumes_cons; [apply readListBegin_law|]. rewrite Nat2Z.id.
    eapply consumes_bind; [by apply read_elements_ok|].
    eapply consumes_last; [apply readListEnd_law|apply consumes_ret].
Qed.
End list.

Lemma read_entries_ok l m :
  consumes (read_entries (length l) m) (l ≫= entry_tok) (foldl (λ m e, <[e.1 := e.2]> m) m l).
Proof.
  revert m. induction l as [|[k v] l IH]; intros m; [apply consumes_ret|]. simpl.
  eapply consumes_cons; [apply readString_law|]. eapply consumes_cons; [apply readString_law|].
  apply IH.
Qed.

Lemma foldl_insert (l : list (string * string)) (m0 : gmap string string) :
  NoDup l.*1 → foldl (λ m e, <[e.1 := e.2]> m) m0 l = list_to_map l ∪ m0.
Proof.
  revert m0. induction l as [|[k v] l IH]; intros m0 Hn; simpl.
  - by rewrite (left_id ∅ (∪)).
  - apply NoDup_cons in Hn as [Hk Hn]. rewrite IH by done.
    rewrite <- insert_union_r, insert_union_l; [done|]. by apply not_elem_of_list_to_map.
Qed.

Lemma entries_map m : foldl (λ m e, <[e.1 := e.2]> m) ∅ (entries m) = m.
Proof.
  pose proof (entries_perm m) as Hp.
  assert (NoDup (entries m).*1) as Hn by (rewrite Hp; apply NoDup_fst_map_to_list).
  rewrite foldl_insert, (right_id ∅ (∪)) by done.
  rewrite <- (list_to_map_to_list m) at 2. by apply list_to_map_proper.
Qed.

Lemma string_map_ok : codec_ok string_map 0 map_valid map_tok.
Proof.
  assert (∀ m, length (entries m) = size m) as Hlen.
  { intros m. rewrite (entries_perm m). apply length_map_to_list. }
  split.
  - intros m _. constructor. generalize (entries m). induction l as [|[k v] l IH]; [constructor|]. simpl.
    apply (values_cons T_STRING [KString k] (KString v :: (l ≫= entry_tok))); [constructor|].
    apply (values_cons T_STRING [KString v]); [constructor|done].
  - intros m [Hn Hm]. simpl. unfold write_map, map_tok. rewrite uint32_id by lia.
    apply emits_cons; [apply writeMapBegin_law; lia|]. apply emits_snoc; [|apply writeMapEnd_law].
    apply emits_for_each. intros [k v] Hin. rewrite (entries_perm m) in Hin.
    apply elem_of_map_to_list in Hin as [Hk Hv]%Hm.
    apply emits_cons; by apply writeString_law.
  - intros m old [Hn Hm]. simpl. unfold read_map, map_tok.
    eapply consumes_cons; [apply readMapBegin_law|]. rewrite Nat2Z.id, <- Hlen.
    eapply consumes_bind; [apply read_entries_ok|]. rewrite entries_map.
    eapply consumes_last; [apply readMapEnd_law|apply consumes_ret].
Qed.

(** ** Structures *)

Lemma value_not_stop t ts : value t ts → t ≠ T_STOP.
Proof. by destruct 1. Qed.

Section struct.
Context (fuel : nat) {S : Type}.
Abbreviation fieldS := (field (P := P) S).

(** What one field on the wire does to the structure: it sets a field that
    has this number and type, or is skipped. *)
Inductive item (fields : list fieldS) : list token → (S → S) → Prop :=
| item_known f v ts :
    f ∈ fields → c_type (f_codec f) ≠ T_STOP →
    (∀ old, consumes (c_read (f_codec f) old) ts v) →
    item fields (KField (c_type (f_codec f)) (f_id f) :: ts ++ [KFieldEnd]) (f_set f v)
| item_skipped t i ts :
    value t ts → (∀ f, f ∈ fields → f_id f = i → c_type (f_codec f) ≠ t) →
    item fields (KField t i :: ts ++ [KFieldEnd]) id.

Lemma read_field_known (fields : list fieldS) f this :
  NoDup (f_id <$> fields) → f ∈ fields →
  read_field fields (c_type (f_codec f)) (f_id f) this
  = (v ← c_read (f_codec f) (f_get f this); mret (f_set f v this)).
Proof.
  induction fields as [|g fields IH]; intros Hn Hf; [by apply elem_of_nil in Hf|].
  cbn in Hn. apply NoDup_cons in Hn as [Hg Hn]. simpl. apply elem_of_cons in Hf as [->|Hf].
  - by rewrite !decide_True by done.
  - rewrite decide_False; [by apply IH|]. intros E. apply Hg. rewrite <- E.
    by apply list_elem_of_fmap_2.
Qed.

Lemma read_field_skipped (fields : list fieldS) t i this :
  (∀ f, f ∈ fields → f_id f = i → c_type (f_codec f) ≠ t) →
  read_field fields t i this = (skip t;; mret this).
Proof.
  induction fields as [|g fields IH]; intros Hf; [done|]. simpl. case_decide as E.
  - rewrite decide_False; [done|]. intros E'. by apply (Hf g); [left| |].
  - apply IH. intros f ?. apply Hf. by right.
Qed.

Lemma read_fields_items (fields : list fieldS) its us n this :
  NoDup (f_id <$> fields) → Forall2 (item fields) its us → length its < n →
  consumes (read_fields n fields this) (concat its ++ [KStop]) (foldl (λ s u, u s) this us).
Proof.
  intros Hn Hits. revert n this.
  induction Hits as [|ts u its us Hu _ IH]; intros n this Hf; (destruct n as [|n]; [simpl in Hf; lia|]).
  - destruct readFieldStop_law as (i & Hi). simpl.
    eapply consumes_last; [exact Hi|]. apply consumes_ret.
  - simpl. rewrite <- app_assoc. simpl in Hf.
    destruct Hu as [f v ts Hin Ht Hread|t i ts Hv Hskip]; simpl.
    + eapply consumes_cons; [apply readFieldBegin_law|]. cbv beta iota. rewrite decide_False by done.
      rewrite read_field_known by done. rewrite <- app_assoc.
      eapply consumes_bind; [eapply consumes_last; [apply Hread|apply consumes_ret]|].
      eapply consumes_cons; [apply readFieldEnd_law|]. apply IH. lia.
    + eapply consumes_cons; [apply readFieldBegin_law|]. cbv beta iota.
      rewrite decide_False by (by eapply value_not_stop).
      rewrite read_field_skipped by done. rewrite <- app_assoc.
      eapply consumes_bind; [eapply consumes_last; [by apply skip_law|apply consumes_ret]|].
      eapply consumes_cons; [apply readFieldEnd_law|]. apply IH. lia.
Qed.

Lemma read_struct_items (fields : list fieldS) its us this :
  NoDup (f_id <$> fields) → Forall2 (item fields) its us → length its < fuel →
  consumes (read_struct fuel fields this) (KStruct :: concat its ++ [KStop; KStructEnd])
    (foldl (λ s u, u s) this us).
Proof.
  intros Hn Hits Hf. unfold read_struct. eapply consumes_cons; [apply readStructBegin_law|].
  change [KStop; KStructEnd] with ([KStop] ++ [KStructEnd]). rewrite app_assoc.
  eapply consumes_bind; [by apply read_fields_items|].
  eapply consumes_last; [apply readStructEnd_law|apply consumes_ret].
Qed.

(** *** Writing *)

(** A field whose values satisfy their codec. *)
Record field_ok (h : nat) (valid : S → Prop) (f : fieldS) (tok : S → list token) : Prop := {
  field_value s : valid s → value (c_type (f_codec f)) (tok s);
  field_write s : valid s → emits h (c_write (f_codec f) (f_get f s)) (tok s);
  field_read s old : valid s → consumes (c_read (f_codec f) old) (tok s) (f_get f s);
}.

Lemma codec_field_ok h h' valid (f : fieldS) fvalid tok :
  codec_ok (f_codec f) h' fvalid tok → h' ≤ h → (∀ s, valid s → fvalid (f_get f s)) →
  field_ok h valid f (λ s, tok (f_get f s)).
Proof.
  intros Hc Hh Hv. split.
  - intros s Hs. by apply (ok_value _ _ _ _ Hc), Hv.
  - intros s Hs. eapply emits_weaken; [done|]. by apply (ok_write _ _ _ _ Hc), Hv.
  - intros s old Hs. by apply (ok_read _ _ _ _ Hc), Hv.
Qed.

Definition field_tok (s : S) (f : fieldS) (tok : S → list token) : list token :=
  KField (c_type (f_codec f)) (f_id f) :: tok s ++ [KFieldEnd].
Definition fields_tok (fields : list fieldS) (toks : list (S → list token)) (s : S)
    : list (list token) := zip_with (field_tok s) fields toks.
Definition struct_tok (fields : list fieldS) (toks : list (S → list token)) (s : S)
    : list token := KStruct :: concat (fields_tok fields toks s) ++ [KStop; KStructEnd].

Lemma struct_of_ok h valid name (fields : list fieldS) toks d :
  NoDup (f_id <$> fields) → Forall2 (field_ok h valid) fields toks → length fields < fuel →
  (∀ s this, foldl (λ this f, f_set f (f_get f s) this) this fields = s) →
  codec_ok (struct_of fuel name fields d) (Datatypes.S h) valid (struct_tok fields toks).
Proof.
  intros Hn Hok Hf Hset. split; simpl.
  - intros s Hs. unfold struct_tok. change [KStop; KStructEnd] with ([KStop] ++ [KStructEnd]).
    rewrite app_assoc. constructor. clear Hn Hf Hset. unfold fields_tok.
    induction Hok as [|f tok fields toks Hft _ IH]; [constructor|]. simpl.
    rewrite <- app_assoc, <- app_assoc. simpl. constructor; [by apply (field_value _ _ _ _ Hft)|done].
  - intros s Hs. unfold write_struct, struct_tok.
    assert (emits h (for_each (write_field s) fields) (concat (fields_tok fields toks s))) as Hw.
    { clear Hn Hf Hset. unfold fields_tok. induction Hok as [|f tok fields toks Hft _ IH]; simpl.
      - intros p _. exists p. by rewrite app_nil_r.
      - apply (emits_bind h h _ _ (field_tok s f tok)); [lia| |done]. unfold write_field, field_tok.
        apply emits_cons; [apply writeFieldBegin_law|]. apply emits_snoc; [|apply writeFieldEnd_law].
        by apply (field_write _ _ _ _ Hft). }
    intros p Hd.
    destruct (emits_increment h (writeStructBegin name;; for_each (write_field s) fields;;
      writeFieldStop;; writeStructEnd) (KStruct :: concat (fields_tok fields toks s) ++ [KStop; KStructEnd]))
      with (p := p) as (p' & E & Hp); [|done|].
    + apply emits_cons; [apply writeStructBegin_law|]. apply (emits_bind h h); [lia|done|].
      apply emits_cons; [apply writeFieldStop_law|]. eapply emits_weaken; [|apply writeStructEnd_law]. lia.
    + exists p'. split; [|done]. rewrite <- E.
      unfold mbind, eff_mbind, eff_bind. by repeat case_match.
  - intros s old Hs. unfold struct_tok.
    replace s with (foldl (λ t u, u t) old ((λ f, f_set f (f_get f s)) <$> fields)) at 2.
    + apply read_struct_items; [done| |].
      * clear Hn Hf Hset. unfold fields_tok.
        assert (∀ all, fields ⊆ all → Forall2 (item all) (zip_with (field_tok s) fields toks)
          ((λ f, f_set f (f_get f s)) <$> fields)) as Hall; [|by apply Hall].
        intros all. induction Hok as [|f tok fields toks Hft _ IH]; intros Hsub; [constructor|].
        simpl. constructor.
        -- constructor; [apply Hsub; by left| |intros; by apply (field_read _ _ _ _ Hft)].
           by eapply value_not_stop, (field_value _ _ _ _ Hft).
        -- apply IH. intros g ?. apply Hsub. by right.
      * unfold fields_tok. rewrite length_zip_with_l; [done|].
        by rewrite (Forall2_length _ _ _ Hok).
    + rewrite foldl_fmap. apply Hset.
Qed.
End struct.

(** There are tokens for which the codec is right. *)
Definition round_trips {A} (c : codec (P := P) A) (h : nat) (valid : A → Prop) : Prop :=
  ∃ tok, codec_ok c h valid tok.

Lemma list_round_trips {A} (c : codec (P := P) A) h valid :
  round_trips c h valid → round_trips (list_of c) h (list_valid valid).
Proof. intros [tok Hc]. exists (list_tok tok). by apply list_of_ok. Qed.

End specs.

(** Proves that a structure is read back as it was written, from what the
    context says of the codecs of its fields. *)
Ltac destruct_pairs := repeat match goal with
  | x : ?T |- _ => match eval hnf in T with (_ * _)%type => destruct x end
  end.
Ltac struct_codec :=
  eexists; eapply struct_of_ok;
  [ apply (bool_decide_unpack _); vm_compute; exact I
  | repeat (apply Forall2_cons; split;
      [eapply codec_field_ok;
        [eassumption|by auto|intros ? Hs; destruct_pairs; solve [exact Hs|by destruct Hs|simpl in Hs; by destruct_and? Hs]]|]);
    by apply Forall2_nil
  | simpl; lia
  | solve [by intros [] []|by intros|by intros; destruct_pairs] ].
