(* ===== verification/ProtocolRef.v ===== *)
(** A concrete protocol: two queues of tokens.  It satisfies [ProtocolLaws], and
    the witnesses of the protocol's theorems run on it. *)
From Stdlib Require Import ZArith.
From S2P Require Import Prelude Cpp Protocol ProtocolSpec.

Record queues := { inp : list token; outp : list token; dep : nat }.

Definition take_token {A} (f : token → option A) : eff queues A := λ p,
  match inp p with
  | k :: r =>
      match f k with
      | Some a => (Ok a, {| inp := r; outp := outp p; dep := dep p |})
      | None => (Throw (ThriftError "unexpected token"), p)
      end
  | [] => (Throw (ThriftError "no more data to read"), p)
  end.
Definition put (k : token) : eff queues unit := λ p,
  (Ok (), {| inp := inp p; outp := outp p ++ [k]; dep := dep p |}).
Definition exactly (k : token) : eff queues unit :=
  take_token (λ k', if decide (k = k') then Some () else None).

(** The tokens after the end of a container. *)
Inductive shape := Open | Close | Flat.
Definition shape_of (k : token) : shape :=
  match k with
  | KStruct | KMap _ | KList _ => Open
  | KStructEnd | KMapEnd | KListEnd => Close
  | _ => Flat
  end.
Fixpoint close (d : nat) (l : list token) : option (list token) :=
  match l with
  | [] => None
  | k :: l' =>
      match shape_of k, d with
      | Open, _ => close (S d) l'
      | Close, O => Some l'
      | Close, S d' => close d' l'
      | Flat, _ => close d l'
      end
  end.
Definition skip_token : eff queues unit := λ p,
  match inp p with
  | [] => (Throw (ThriftError "no more data to read"), p)
  | k :: r =>
      match (match shape_of k with Open => close 0 r | _ => Some r end) with
      | Some r' => (Ok (), {| inp := r'; outp := outp p; dep := dep p |})
      | None => (Throw (ThriftError "no more data to read"), p)
      end
  end.

#[export] Instance queue_protocol : TProtocol queues := {
  writeMessageBegin n t i := put (KMessage n t i);
  writeMessageEnd := put KMessageEnd;
  incrementRecursionDepth p :=
    match dep p with
    | O => (Throw (ThriftError "DEPTH_LIMIT"), p)
    | S d => (Ok (), {| inp := inp p; outp := outp p; dep := d |})
    end;
  decrementRecursionDepth := modify (λ p, {| inp := inp p; outp := outp p; dep := S (dep p) |});
  writeStructBegin _ := put KStruct;
  writeStructEnd := put KStructEnd;
  writeFieldBegin _ t i := put (KField t i);
  writeFieldEnd := put KFieldEnd;
  writeFieldStop := put KStop;
  writeMapBegin _ _ n := put (KMap n);
  writeMapEnd := put KMapEnd;
  writeListBegin _ n := put (KList n);
  writeListEnd := put KListEnd;
  writeBool b := put (KBool b);
  writeByte z := put (KByte z);
  writeI32 z := put (KI32 z);
  writeString s := put (KString s);
  readMessageBegin := take_token (λ k, match k with KMessage n t i => Some (n, t, i) | _ => None end);
  readMessageEnd := exactly KMessageEnd;
  readStructBegin := exactly KStruct;
  readStructEnd := exactly KStructEnd;
  readFieldBegin :=
    take_token (λ k, match k with KField t i => Some (t, i) | KStop => Some (T_STOP, 0%Z) | _ => None end);
  readFieldEnd := exactly KFieldEnd;
  readMapBegin := take_token (λ k, match k with KMap n => Some n | _ => None end);
  readMapEnd := exactly KMapEnd;
  readListBegin := take_token (λ k, match k with KList n => Some n | _ => None end);
  readListEnd := exactly KListEnd;
  readBool := take_token (λ k, match k with KBool b => Some b | _ => None end);
  readByte := take_token (λ k, match k with KByte z => Some z | _ => None end);
  readI32 := take_token (λ k, match k with KI32 z => Some z | _ => None end);
  readString := take_token (λ k, match k with KString s => Some s | _ => None end);
  skip _ := skip_token;
  readEnd := mret ();
  writeEnd := mret ();
  flush := mret ();
  write_exception m := put (KException m);
  read_exception := take_token (λ k, match k with KException m => Some m | _ => None end);
}.

#[export] Instance queue_state : ProtocolState queues := { input := inp; output := outp; depth := dep }.

Scheme value_ind' := Minimality for value Sort Prop
  with fields_ind' := Minimality for fields_value Sort Prop
  with values_ind' := Minimality for values Sort Prop.
Combined Scheme values_mutind from value_ind', fields_ind', values_ind'.

Lemma close_balanced :
  (∀ t ts, value t ts → ∀ d r, close d (ts ++ r) = close d r) ∧
  (∀ ts, fields_value ts → ∀ d r, close d (ts ++ r) = close d r) ∧
  (∀ t ts, values t ts → ∀ d r, close d (ts ++ r) = close d r).
Proof.
  apply values_mutind; intros; simpl; try done;
    rewrite <- ?app_assoc; simpl;
    repeat match goal with IH : ∀ d r, close d (_ ++ r) = _ |- _ => rewrite IH; simpl; clear IH end; done.
Qed.

Lemma skip_value t ts : value t ts → consumes skip_token ts ().
Proof.
  intros Hv p r Hp. simpl in Hp. unfold skip_token.
  assert (∃ k ts', ts = k :: ts' ∧
    (match shape_of k with Open => close 0 (ts' ++ r) | _ => Some (ts' ++ r) end) = Some r)
    as (k & ts' & -> & E).
  { destruct close_balanced as (_ & Hf & Hs).
    destruct Hv as [| | | |ts Hts|n t ts Hts|n ts Hts]; eexists _, _; (split; [done|]); simpl; try done;
      rewrite <- app_assoc; [rewrite (Hf _ Hts)|rewrite (Hs _ _ Hts)|rewrite (Hs _ _ Hts)]; done. }
  rewrite Hp. simpl. rewrite E. by eexists.
Qed.

Lemma take_consumes {A} (f : token → option A) k a : f k = Some a → consumes (take_token f) [k] a.
Proof. intros E p r Hp. simpl in Hp. unfold take_token. rewrite Hp, E. by eexists. Qed.
Lemma exactly_consumes k : consumes (exactly k) [k] ().
Proof. apply take_consumes. by rewrite decide_True. Qed.
Lemma put_emits k : emits 0 (put k) [k].
Proof. intros p _. by eexists. Qed.
Lemma nothing_emits : emits 0 (mret () : eff queues unit) [].
Proof. intros p _. exists p. by rewrite app_nil_r. Qed.

#[export] Instance queue_laws : ProtocolLaws queues.
Proof.
  split; intros;
    try apply put_emits; try apply nothing_emits; try apply exactly_consumes;
    try (by apply take_consumes); try by apply consumes_ret.
  - eapply emits_weaken; [|apply put_emits]. lia.
  - exists 0%Z. by apply take_consumes.
  - by eapply skip_value.
  - simpl in *. rewrite H. by eexists.
  - by eexists.
Qed.

Definition empty : queues := {| inp := []; outp := []; dep := 64 |}.
(** What the other end has written. *)
Definition receive (ts : list token) : queues := {| inp := ts; outp := []; dep := 64 |}.
