(* ===== verification/VaeTypes.v ===== *)
(** [gen-cpp/vae_types.h]: the structures exchanged with the PHP client, with
    the values their default constructors give them. *)
From Stdlib Require Import ZArith.
From S2P Require Import Prelude Cpp.

Record VaeDbContext := {
  context_id : Z; context_structure_id : Z; context_type : string;
  context_permalink : string; context_data : string; context_dataMap : gmap string string;
}.
Definition VaeDbContext_default : VaeDbContext :=
  {| context_id := 0; context_structure_id := 0; context_type := ""; context_permalink := "";
     context_data := ""; context_dataMap := ∅ |}.

Record VaeDbCreateInfo := { create_structure_id : Z; create_row_id : Z }.
Definition VaeDbCreateInfo_default : VaeDbCreateInfo :=
  {| create_structure_id := 0; create_row_id := 0 |}.

Record VaeDbStructure := {
  structure_id : Z; structure_name : string; structure_type : string; structure_permalink : string;
}.
Definition VaeDbStructure_default : VaeDbStructure :=
  {| structure_id := 0; structure_name := ""; structure_type := ""; structure_permalink := "" |}.

Record VaeDbResponseForContext := {
  rfc_contexts : list VaeDbContext; rfc_totalItems : Z;
}.
Record VaeDbResponse := { response_id : Z; response_contexts : list VaeDbResponseForContext }.
Definition VaeDbResponse_default : VaeDbResponse := {| response_id := 0; response_contexts := [] |}.

Record VaeDbCreateInfoResponse := { create_contexts : list VaeDbCreateInfo }.
Record VaeDbDataForContext := { dfc_data : gmap string string }.
Record VaeDbDataResponse := { data_contexts : list VaeDbDataForContext }.
Record VaeDbStructureResponse := { structure_contexts : list VaeDbStructure }.
Record VaeDbOpenSessionResponse := { open_session_id : Z; open_generation : Z }.
Definition VaeDbOpenSessionResponse_default : VaeDbOpenSessionResponse :=
  {| open_session_id := 0; open_generation := 0 |}.

#[export] Instance VaeDbContext_eq_dec : EqDecision VaeDbContext.
Proof. solve_decision. Defined.
#[export] Instance VaeDbCreateInfo_eq_dec : EqDecision VaeDbCreateInfo.
Proof. solve_decision. Defined.
#[export] Instance VaeDbStructure_eq_dec : EqDecision VaeDbStructure.
Proof. solve_decision. Defined.
