(* ===== verification/ThriftTypes.v ===== *)
(** [gen-cpp/vae_types.cpp]: [read] and [write] of the structures of the
    interface, each as a table of its fields. *)
From Stdlib Require Import ZArith.
From S2P Require Import Prelude Cpp Protocol ProtocolSpec VaeTypes.

Section types.
Context {P : Type} `{TProtocol P}.
Variable fuel : nat.

(** ** Exceptions *)

(** The three exceptions have one field, here as the message itself. *)
Definition message_fields : list (field (P := P) string) :=
  [Field "message" 1 text (λ m, m) (λ v _, v)].

Definition VaeDbInternalError_read : string → eff P string := read_struct fuel message_fields.
Definition VaeDbInternalError_write : string → eff P unit := write_struct "VaeDbInternalError" message_fields.
Definition VaeDbInternalError_codec : codec string := Codec T_STRUCT "" VaeDbInternalError_read VaeDbInternalError_write.

Definition VaeDbQueryError_read : string → eff P string := read_struct fuel message_fields.
Definition VaeDbQueryError_write : string → eff P unit := write_struct "VaeDbQueryError" message_fields.
Definition VaeDbQueryError_codec : codec string := Codec T_STRUCT "" VaeDbQueryError_read VaeDbQueryError_write.

Definition VaeSyntaxError_read : string → eff P string := read_struct fuel message_fields.
Definition VaeSyntaxError_write : string → eff P unit := write_struct "VaeSyntaxError" message_fields.
Definition VaeSyntaxError_codec : codec string := Codec T_STRUCT "" VaeSyntaxError_read VaeSyntaxError_write.

(** ** Structures *)

Definition VaeDbContext_fields : list (field (P := P) VaeDbContext) :=
  [Field "id" 1 i32 context_id
     (λ v s, {| context_id := v; context_structure_id := context_structure_id s; context_type := context_type s;
         context_permalink := context_permalink s; context_data := context_data s; context_dataMap := context_dataMap s |});
   Field "structure_id" 2 i32 context_structure_id
     (λ v s, {| context_id := context_id s; context_structure_id := v; context_type := context_type s;
         context_permalink := context_permalink s; context_data := context_data s; context_dataMap := context_dataMap s |});
   Field "type" 3 text context_type
     (λ v s, {| context_id := context_id s; context_structure_id := context_structure_id s; context_type := v;
         context_permalink := context_permalink s; context_data := context_data s; context_dataMap := context_dataMap s |});
   Field "permalink" 4 text context_permalink
     (λ v s, {| context_id := context_id s; context_structure_id := context_structure_id s; context_type := context_type s;
         context_permalink := v; context_data := context_data s; context_dataMap := context_dataMap s |});
   Field "data" 5 text context_data
     (λ v s, {| context_id := context_id s; context_structure_id := context_structure_id s; context_type := context_type s;
         context_permalink := context_permalink s; context_data := v; context_dataMap := context_dataMap s |});
   Field "dataMap" 6 string_map context_dataMap
     (λ v s, {| context_id := context_id s; context_structure_id := context_structure_id s; context_type := context_type s;
         context_permalink := context_permalink s; context_data := context_data s; context_dataMap := v |})].
Definition VaeDbContext_read : VaeDbContext → eff P VaeDbContext := read_struct fuel VaeDbContext_fields.
Definition VaeDbContext_write : VaeDbContext → eff P unit := write_struct "VaeDbContext" VaeDbContext_fields.
Definition VaeDbContext_codec : codec VaeDbContext :=
  Codec T_STRUCT VaeDbContext_default VaeDbContext_read VaeDbContext_write.

Definition VaeDbCreateInfo_fields : list (field (P := P) VaeDbCreateInfo) :=
  [Field "structure_id" 1 i32 create_structure_id
     (λ v s, {| create_structure_id := v; create_row_id := create_row_id s |});
   Field "row_id" 2 i32 create_row_id
     (λ v s, {| create_structure_id := create_structure_id s; create_row_id := v |})].
Definition VaeDbCreateInfo_read : VaeDbCreateInfo → eff P VaeDbCreateInfo := read_struct fuel VaeDbCreateInfo_fields.
Definition VaeDbCreateInfo_write : VaeDbCreateInfo → eff P unit := write_struct "VaeDbCreateInfo" VaeDbCreateInfo_fields.
Definition VaeDbCreateInfo_codec : codec VaeDbCreateInfo :=
  Codec T_STRUCT VaeDbCreateInfo_default VaeDbCreateInfo_read VaeDbCreateInfo_write.

Definition VaeDbStructure_fields : list (field (P := P) VaeDbStructure) :=
  [Field "id" 1 i32 structure_id
     (λ v s, {| structure_id := v; structure_name := structure_name s; structure_type := structure_type s; structure_permalink := structure_permalink s |});
   Field "name" 2 text structure_name
     (λ v s, {| structure_id := structure_id s; structure_name := v; structure_type := structure_type s; structure_permalink := structure_permalink s |});
   Field "type" 3 text structure_type
     (λ v s, {| structure_id := structure_id s; structure_name := structure_name s; structure_type := v; structure_permalink := structure_permalink s |});
   Field "permalink" 4 text structure_permalink
     (λ v s, {| structure_id := structure_id s; structure_name := structure_name s; structure_type := structure_type s; structure_permalink := v |})].
Definition VaeDbStructure_read : VaeDbStructure → eff P VaeDbStructure := read_struct fuel VaeDbStructure_fields.
Definition VaeDbStructure_write : VaeDbStructure → eff P unit := write_struct "VaeDbStructure" VaeDbStructure_fields.
Definition VaeDbStructure_codec : codec VaeDbStructure :=
  Codec T_STRUCT VaeDbStructure_default VaeDbStructure_read VaeDbStructure_write.

Definition VaeDbResponseForContext_fields : list (field (P := P) VaeDbResponseForContext) :=
  [Field "contexts" 1 (list_of VaeDbContext_codec) rfc_contexts
     (λ v s, {| rfc_contexts := v; rfc_totalItems := rfc_totalItems s |});
   Field "totalItems" 2 i32 rfc_totalItems
     (λ v s, {| rfc_contexts := rfc_contexts s; rfc_totalItems := v |})].
Definition VaeDbResponseForContext_read : VaeDbResponseForContext → eff P VaeDbResponseForContext := read_struct fuel VaeDbResponseForContext_fields.
Definition VaeDbResponseForContext_write : VaeDbResponseForContext → eff P unit := write_struct "VaeDbResponseForContext" VaeDbResponseForContext_fields.
Definition VaeDbResponseForContext_codec : codec VaeDbResponseForContext :=
  Codec T_STRUCT {| rfc_contexts := []; rfc_totalItems := 0 |} VaeDbResponseForContext_read VaeDbResponseForContext_write.

Definition VaeDbResponse_fields : list (field (P := P) VaeDbResponse) :=
  [Field "id" 1 i32 response_id
     (λ v s, {| response_id := v; response_contexts := response_contexts s |});
   Field "contexts" 2 (list_of VaeDbResponseForContext_codec) response_contexts
     (λ v s, {| response_id := response_id s; response_contexts := v |})].
Definition VaeDbResponse_read : VaeDbResponse → eff P VaeDbResponse := read_struct fuel VaeDbResponse_fields.
Definition VaeDbResponse_write : VaeDbResponse → eff P unit := write_struct "VaeDbResponse" VaeDbResponse_fields.
Definition VaeDbResponse_codec : codec VaeDbResponse :=
  Codec T_STRUCT VaeDbResponse_default VaeDbResponse_read VaeDbResponse_write.

Definition VaeDbCreateInfoResponse_fields : list (field (P := P) VaeDbCreateInfoResponse) :=
  [Field "contexts" 1 (list_of VaeDbCreateInfo_codec) create_contexts
     (λ v _, {| create_contexts := v |})].
Definition VaeDbCreateInfoResponse_read : VaeDbCreateInfoResponse → eff P VaeDbCreateInfoResponse := read_struct fuel VaeDbCreateInfoResponse_fields.
Definition VaeDbCreateInfoResponse_write : VaeDbCreateInfoResponse → eff P unit := write_struct "VaeDbCreateInfoResponse" VaeDbCreateInfoResponse_fields.
Definition VaeDbCreateInfoResponse_codec : codec VaeDbCreateInfoResponse :=
  Codec T_STRUCT {| create_contexts := [] |} VaeDbCreateInfoResponse_read VaeDbCreateInfoResponse_write.

Definition VaeDbDataForContext_fields : list (field (P := P) VaeDbDataForContext) :=
  [Field "data" 1 string_map dfc_data
     (λ v _, {| dfc_data := v |})].
Definition VaeDbDataForContext_read : VaeDbDataForContext → eff P VaeDbDataForContext := read_struct fuel VaeDbDataForContext_fields.
Definition VaeDbDataForContext_write : VaeDbDataForContext → eff P unit := write_struct "VaeDbDataForContext" VaeDbDataForContext_fields.
Definition VaeDbDataForContext_codec : codec VaeDbDataForContext :=
  Codec T_STRUCT {| dfc_data := ∅ |} VaeDbDataForContext_read VaeDbDataForContext_write.

Definition VaeDbDataResponse_fields : list (field (P := P) VaeDbDataResponse) :=
  [Field "contexts" 1 (list_of VaeDbDataForContext_codec) data_contexts
     (λ v _, {| data_contexts := v |})].
Definition VaeDbDataResponse_read : VaeDbDataResponse → eff P VaeDbDataResponse := read_struct fuel VaeDbDataResponse_fields.
Definition VaeDbDataResponse_write : VaeDbDataResponse → eff P unit := write_struct "VaeDbDataResponse" VaeDbDataResponse_fields.
Definition VaeDbDataResponse_codec : codec VaeDbDataResponse :=
  Codec T_STRUCT {| data_contexts := [] |} VaeDbDataResponse_read VaeDbDataResponse_write.

Definition VaeDbStructureResponse_fields : list (field (P := P) VaeDbStructureResponse) :=
  [Field "contexts" 1 (list_of VaeDbStructure_codec) structure_contexts
     (λ v _, {| structure_contexts := v |})].
Definition VaeDbStructureResponse_read : VaeDbStructureResponse → eff P VaeDbStructureResponse := read_struct fuel VaeDbStructureResponse_fields.
Definition VaeDbStructureResponse_write : VaeDbStructureResponse → eff P unit := write_struct "VaeDbStructureResponse" VaeDbStructureResponse_fields.
Definition VaeDbStructureResponse_codec : codec VaeDbStructureResponse :=
  Codec T_STRUCT {| structure_contexts := [] |} VaeDbStructureResponse_read VaeDbStructureResponse_write.

Definition VaeDbOpenSessionResponse_fields : list (field (P := P) VaeDbOpenSessionResponse) :=
  [Field "session_id" 1 i32 open_session_id
     (λ v s, {| open_session_id := v; open_generation := open_generation s |});
   Field "generation" 2 i32 open_generation
     (λ v s, {| open_session_id := open_session_id s; open_generation := v |})].
Definition VaeDbOpenSessionResponse_read : VaeDbOpenSessionResponse → eff P VaeDbOpenSessionResponse := read_struct fuel VaeDbOpenSessionResponse_fields.
Definition VaeDbOpenSessionResponse_write : VaeDbOpenSessionResponse → eff P unit := write_struct "VaeDbOpenSessionResponse" VaeDbOpenSessionResponse_fields.
Definition VaeDbOpenSessionResponse_codec : codec VaeDbOpenSessionResponse :=
  Codec T_STRUCT VaeDbOpenSessionResponse_default VaeDbOpenSessionResponse_read VaeDbOpenSessionResponse_write.
End types.
