(* ===== verification/ThriftSpec.v ===== *)
(** The structures of the interface survive the wire, and fields that the
    reader does not know do no harm. *)
From Stdlib Require Import ZArith.
From S2P Require Import Prelude Cpp Protocol ProtocolSpec ProtocolRef VaeTypes ThriftTypes.

(** * Values that fit their C++ types *)

Record context_valid (c : VaeDbContext) : Prop := {
  cv_id : i32_valid (context_id c); cv_structure : i32_valid (context_structure_id c);
  cv_type : text_valid (context_type c); cv_permalink : text_valid (context_permalink c);
  cv_data : text_valid (context_data c); cv_map : map_valid (context_dataMap c);
}.
Record create_valid (c : VaeDbCreateInfo) : Prop := {
  crv_structure : i32_valid (create_structure_id c); crv_row : i32_valid (create_row_id c);
}.
Record structure_valid (s : VaeDbStructure) : Prop := {
  sv_id : i32_valid (structure_id s); sv_name : text_valid (structure_name s);
  sv_type : text_valid (structure_type s); sv_permalink : text_valid (structure_permalink s);
}.
Record rfc_valid (r : VaeDbResponseForContext) : Prop := {
  rfv_contexts : list_valid context_valid (rfc_contexts r); rfv_total : i32_valid (rfc_totalItems r);
}.
Record response_valid (r : VaeDbResponse) : Prop := {
  rv_id : i32_valid (response_id r); rv_contexts : list_valid rfc_valid (response_contexts r);
}.
Definition create_response_valid (r : VaeDbCreateInfoResponse) : Prop :=
  list_valid create_valid (create_contexts r).
Definition dfc_valid (r : VaeDbDataForContext) : Prop := map_valid (dfc_data r).
Definition data_response_valid (r : VaeDbDataResponse) : Prop := list_valid dfc_valid (data_contexts r).
Definition structure_response_valid (r : VaeDbStructureResponse) : Prop :=
  list_valid structure_valid (structure_contexts r).
Record open_valid (r : VaeDbOpenSessionResponse) : Prop := {
  ov_session : i32_valid (open_session_id r); ov_generation : i32_valid (open_generation r);
}.

(** * Codecs *)

Section specs.
Context {P : Type} `{ProtocolLaws P}.
Variable fuel : nat.
Hypothesis enough : 6 < fuel.

Lemma internal_error_ok : round_trips (VaeDbInternalError_codec fuel) 1 text_valid.
Proof. pose proof text_ok. struct_codec. Qed.
Lemma query_error_ok : round_trips (VaeDbQueryError_codec fuel) 1 text_valid.
Proof. pose proof text_ok. struct_codec. Qed.
Lemma syntax_error_ok : round_trips (VaeSyntaxError_codec fuel) 1 text_valid.
Proof. pose proof text_ok. struct_codec. Qed.

Lemma context_ok : round_trips (VaeDbContext_codec fuel) 1 context_valid.
Proof. pose proof i32_ok. pose proof text_ok. pose proof string_map_ok. struct_codec. Qed.
Lemma create_ok : round_trips (VaeDbCreateInfo_codec fuel) 1 create_valid.
Proof. pose proof i32_ok. struct_codec. Qed.
Lemma structure_ok : round_trips (VaeDbStructure_codec fuel) 1 structure_valid.
Proof. pose proof i32_ok. pose proof text_ok. struct_codec. Qed.
Lemma dfc_ok : round_trips (VaeDbDataForContext_codec fuel) 1 dfc_valid.
Proof. pose proof string_map_ok. struct_codec. Qed.
Lemma rfc_ok : round_trips (VaeDbResponseForContext_codec fuel) 2 rfc_valid.
Proof. pose proof i32_ok. destruct (list_round_trips _ _ _ context_ok). struct_codec. Qed.

Lemma response_ok : round_trips (VaeDbResponse_codec fuel) 3 response_valid.
Proof. pose proof i32_ok. destruct (list_round_trips _ _ _ rfc_ok). struct_codec. Qed.
Lemma create_response_ok : round_trips (VaeDbCreateInfoResponse_codec fuel) 2 create_response_valid.
Proof. destruct (list_round_trips _ _ _ create_ok). struct_codec. Qed.
Lemma data_response_ok : round_trips (VaeDbDataResponse_codec fuel) 2 data_response_valid.
Proof. destruct (list_round_trips _ _ _ dfc_ok). struct_codec. Qed.
Lemma structure_response_ok :
  round_trips (VaeDbStructureResponse_codec fuel) 2 structure_response_valid.
Proof. destruct (list_round_trips _ _ _ structure_ok). struct_codec. Qed.
Lemma open_ok : round_trips (VaeDbOpenSessionResponse_codec fuel) 1 open_valid.
Proof. pose proof i32_ok. struct_codec. Qed.

(** What a round trip means for a reader at the other end. *)
Definition read_back {A} (c : codec (P := P) A) (h : nat) (v : A) : Prop :=
  ∀ p, h ≤ depth p → ∃ ts p', c_write c v p = (Ok (), p') ∧ output p' = output p ++ ts ∧
    ∀ q r old, input q = ts ++ r → ∃ q', c_read c old q = (Ok v, q') ∧ input q' = r.

Lemma round_trips_read_back {A} (c : codec (P := P) A) h valid v :
  round_trips c h valid → valid v → read_back c h v.
Proof.
  intros [tok Hc] Hv p Hd. destruct (ok_write _ _ _ _ Hc v Hv p Hd) as (p' & E & O & _).
  exists (tok v), p'. split; [done|]. split; [done|]. intros q r old Hq.
  destruct (ok_read _ _ _ _ Hc v old Hv q r Hq) as (q' & Eq & Iq & _). by exists q'.
Qed.

(** Every structure the server sends is read back exactly as it was
    written, whatever follows it on the wire and whatever the object it is
    read into held before. *)
Theorem structures_read_back :
  (∀ r, response_valid r → read_back (VaeDbResponse_codec fuel) 3 r) ∧
  (∀ r, create_response_valid r → read_back (VaeDbCreateInfoResponse_codec fuel) 2 r) ∧
  (∀ r, data_response_valid r → read_back (VaeDbDataResponse_codec fuel) 2 r) ∧
  (∀ r, structure_response_valid r → read_back (VaeDbStructureResponse_codec fuel) 2 r) ∧
  (∀ r, open_valid r → read_back (VaeDbOpenSessionResponse_codec fuel) 1 r) ∧
  (∀ r, dfc_valid r → read_back (VaeDbDataForContext_codec fuel) 1 r) ∧
  (∀ m, text_valid m → read_back (VaeDbInternalError_codec fuel) 1 m
                     ∧ read_back (VaeDbQueryError_codec fuel) 1 m
                     ∧ read_back (VaeSyntaxError_codec fuel) 1 m).
Proof.
  split_and!; intros; [..|split_and!]; eapply round_trips_read_back; try eassumption.
  - apply response_ok.
  - apply create_response_ok.
  - apply data_response_ok.
  - apply structure_response_ok.
  - apply open_ok.
  - apply dfc_ok.
  - apply internal_error_ok.
  - apply query_error_ok.
  - apply syntax_error_ok.
Qed.

(** A structure on the wire. *)
Definition struct_wire (its : list (list token)) : list token :=
  KStruct :: concat its ++ [KStop; KStructEnd].

(** A reader takes the fields of a context in any order and any number: the
    last occurrence of a field wins, and fields with an unknown number or an
    unexpected type are skipped as a whole. *)
Theorem context_fields_any_order its us this :
  Forall2 (item VaeDbContext_fields) its us → length its < fuel →
  consumes (VaeDbContext_read fuel this) (struct_wire its)
    (foldl (λ s u, u s) this us).
Proof.
  intros Hits Hf. apply read_struct_items; [|done|done].
  apply (bool_decide_unpack _). vm_compute. exact I.
Qed.
End specs.

(** * On the queues *)

Definition some_response : VaeDbResponse :=
  {| response_id := 3;
     response_contexts := [{| rfc_contexts := [VaeDbContext_default]; rfc_totalItems := 17 |}] |}.

Lemma text_valid_small s : (Z.of_nat (String.length s) <? 2 ^ 31)%Z = true → text_valid s.
Proof. unfold text_valid. apply Z.ltb_lt. Qed.

Lemma some_response_valid : response_valid some_response.
Proof.
  assert (map_valid ∅) as Hm.
  { split; [vm_compute; reflexivity|]. intros k v Hk. by rewrite lookup_empty in Hk. }
  split; [split; [discriminate|reflexivity]|]. split; [reflexivity|].
  constructor; [|constructor]. split; [|split; [discriminate|reflexivity]].
  split; [reflexivity|]. constructor; [|constructor].
  split; try exact Hm; try (split; [discriminate|reflexivity]); by apply text_valid_small.
Defined.

Example structures_read_back_witness :
  ∃ ts p', c_write (VaeDbResponse_codec 7) some_response empty = (Ok (), p') ∧
    outp p' = ts ∧
    ∃ q', c_read (VaeDbResponse_codec 7) VaeDbResponse_default (receive ts) = (Ok some_response, q').
Proof.
  destruct (structures_read_back (P := queues) 7 ltac:(lia)) as (Hr & _).
  destruct (Hr some_response some_response_valid empty) as (ts & p' & E & O & Hread).
  { simpl. lia. }
  exists ts, p'. split; [exact E|]. split; [exact O|].
  destruct (Hread (receive ts) [] VaeDbResponse_default) as (q' & Eq & _).
  { by rewrite app_nil_r. }
  by exists q'.
Defined.

(** An unknown field 9, then the identifier twice. *)
Example context_fields_any_order_witness :
  ∃ q', VaeDbContext_read 9 VaeDbContext_default
    (receive [KStruct; KField T_LIST 9; KList 2; KI32 1; KI32 2; KListEnd; KFieldEnd;
              KField T_I32 1; KI32 5; KFieldEnd; KField T_I32 1; KI32 6; KFieldEnd; KStop; KStructEnd])
    = (Ok {| context_id := 6; context_structure_id := 0; context_type := ""; context_permalink := "";
             context_data := ""; context_dataMap := ∅ |}, q').
Proof.
  set (f := Field "id" 1 i32 context_id
    (λ v s, {| context_id := v; context_structure_id := context_structure_id s;
               context_type := context_type s; context_permalink := context_permalink s;
               context_data := context_data s; context_dataMap := context_dataMap s |})
    : field (P := queues) VaeDbContext).
  assert (f ∈ VaeDbContext_fields) as Hin by left.
  destruct (context_fields_any_order (P := queues) 9
    [KField T_LIST 9 :: [KList 2; KI32 1; KI32 2; KListEnd] ++ [KFieldEnd];
     KField T_I32 1 :: [KI32 5] ++ [KFieldEnd]; KField T_I32 1 :: [KI32 6] ++ [KFieldEnd]]
    [id; f_set f 5%Z; f_set f 6%Z] VaeDbContext_default)
    with (p := receive [KStruct; KField T_LIST 9; KList 2; KI32 1; KI32 2; KListEnd; KFieldEnd;
      KField T_I32 1; KI32 5; KFieldEnd; KField T_I32 1; KI32 6; KFieldEnd; KStop; KStructEnd])
      (r := @nil token) as (q' & E & _).
  - constructor; [|constructor; [|constructor; [|constructor]]].
    + constructor.
      * apply (value_list 2 T_I32 [KI32 1; KI32 2]).
        apply (values_cons T_I32 [KI32 1] [KI32 2]); [constructor|].
        apply (values_cons T_I32 [KI32 2] []); constructor.
      * intros g Hg. rewrite list_elem_of_In in Hg. simpl in Hg.
        destruct Hg as [<-|[<-|[<-|[<-|[<-|[<-|[]]]]]]]; discriminate.
    + apply (item_known _ f 5%Z [KI32 5]); [exact Hin|discriminate|intros; apply readI32_law].
    + apply (item_known _ f 6%Z [KI32 6]); [exact Hin|discriminate|intros; apply readI32_law].
  - simpl. lia.
  - reflexivity.
  - exists q'. exact E.
Defined.
