(* ===== verification/Rpc.v ===== *)
(** What the code that the Thrift compiler generates has in common for the two
    services ([gen-cpp/VaeDb.cpp], [gen-cpp/VaeRubyd.cpp]): a method is a table of
    its arguments and of what it returns and throws; [process] and [client] are
    the bodies that the generated functions share.  The transport is part of the
    protocol; no event handler is installed. *)
From Stdlib Require Import ZArith.
From S2P Require Import Prelude Cpp Protocol ProtocolSpec VaeTypes ThriftTypes.

(** What a method returns. *)
Inductive returns (P : Type) : Type → Type :=
| Void : returns P unit
| Returns {R} (c : codec (P := P) R) : returns P R.
Arguments Void {P}.
Arguments Returns {P R} c.

(** The exceptions a method declares. *)
Inductive declared := DInternal | DQuery | DSyntax.
#[export] Instance declared_eq_dec : EqDecision declared.
Proof. solve_decision. Defined.

Definition exn_of (d : declared) (message : string) : exn :=
  match d with
  | DInternal => InternalError message
  | DQuery => QueryError message
  | DSyntax => SyntaxError message
  end.
Definition declared_of (e : exn) : option (declared * string) :=
  match e with
  | InternalError message => Some (DInternal, message)
  | QueryError message => Some (DQuery, message)
  | SyntaxError message => Some (DSyntax, message)
  | _ => None
  end.

(** The result structure of a method: the members whose [__isset] bit is set. *)
Record result (R : Type) := {
  r_success : option R;
  r_internal : option string; r_query : option string; r_syntax : option string;
}.
Arguments r_success {R} _.
Arguments r_internal {R} _.
Arguments r_query {R} _.
Arguments r_syntax {R} _.

Definition no_result {R} : result R :=
  {| r_success := None; r_internal := None; r_query := None; r_syntax := None |}.
Definition set_success {R} (v : option R) (s : result R) : result R :=
  {| r_success := v; r_internal := r_internal s; r_query := r_query s; r_syntax := r_syntax s |}.
Definition member {R} (d : declared) (s : result R) : option string :=
  match d with DInternal => r_internal s | DQuery => r_query s | DSyntax => r_syntax s end.
Definition set_member {R} (d : declared) (v : option string) (s : result R) : result R :=
  match d with
  | DInternal => {| r_success := r_success s; r_internal := v; r_query := r_query s; r_syntax := r_syntax s |}
  | DQuery => {| r_success := r_success s; r_internal := r_internal s; r_query := v; r_syntax := r_syntax s |}
  | DSyntax => {| r_success := r_success s; r_internal := r_internal s; r_query := r_query s; r_syntax := v |}
  end.

(** [catch (... &)] clauses catch what derives from [std::exception]; a string
    literal does not. *)
Definition is_std_exception (e : exn) : bool := match e with CStringError _ => false | _ => true end.
Definition try_catch {S A} (m : eff S A) : eff S (A + exn) := λ s,
  match m s with
  | (Ok a, s') => (Ok (inl a), s')
  | (Throw e, s') => if is_std_exception e then (Ok (inr e), s') else (Throw e, s')
  | (UB why, s') => (UB why, s')
  | (OutOfFuel, s') => (OutOfFuel, s')
  end.

Section service.
Context {P W : Type} `{TProtocol P}.
(** Fuel of the readers, and [e.what()]. *)
Variable (fuel : nat) (what : exn → string).

Definition on_protocol {A} (m : eff P A) : eff (P * W) A := zoom fst (λ p s, (p, s.2)) m.
Definition on_iface {A} (m : eff W A) : eff (P * W) A := zoom snd (λ w s, (s.1, w)) m.

(** The service and the name, the arguments, what is returned and thrown, and the
    call of the implementation. *)
Record method := Method {
  m_service : string; m_name : string;
  m_args : Type; m_fields : list (field (P := P) m_args); m_default : m_args;
  m_ret : Type; m_returns : returns P m_ret; m_throws : list (string * declared);
  m_call : m_args → eff W m_ret;
}.
#[global] Arguments Method _ _ {_} _ _ {_} _ _ _.

(** ** Results *)

(** A member guarded by its [__isset] bit. *)
Definition guarded {A} (c : codec (P := P) A) : codec (P := P) (option A) :=
  Codec (c_type c) None (λ old, v ← c_read c (default (c_default c) old); mret (Some v))
    (λ o, match o with Some v => c_write c v | None => mret () end).

Definition codec_of (d : declared) : codec (P := P) string :=
  match d with
  | DInternal => VaeDbInternalError_codec fuel
  | DQuery => VaeDbQueryError_codec fuel
  | DSyntax => VaeSyntaxError_codec fuel
  end.
Definition thrown_field {R} (id : Z) (t : string * declared) : field (P := P) (result R) :=
  Field t.1 id (guarded (codec_of t.2)) (member t.2) (set_member t.2).

Definition success_field {R} (c : codec (P := P) R) : field (P := P) (result R) :=
  Field "success" 0 (guarded c) r_success set_success.

Definition result_fields (m : method) : list (field (P := P) (result (m_ret m))) :=
  match m_returns m with Void => [] | Returns c => [success_field c] end
  ++ imap (λ i, thrown_field (Z.of_nat i + 1)) (m_throws m).

Definition is_set {R} (s : result R) (t : string * declared) : bool :=
  bool_decide (is_Some (member t.2 s)).

(** [if (success) ... else if (e) ...]: the first member that is set. *)
Fixpoint write_thrown {R} (s : result R) (id : Z) (throws : list (string * declared)) : eff P unit :=
  match throws with
  | [] => mret ()
  | t :: throws' =>
      if is_set s t then write_field s (thrown_field id t) else write_thrown s (id + 1) throws'
  end.
Definition write_result (m : method) (s : result (m_ret m)) : eff P unit :=
  writeStructBegin (m_service m +:+ "_" +:+ m_name m +:+ "_result");;
  match m_returns m in returns _ R return result R → eff P unit with
  | Void => λ s, write_thrown s 1 (m_throws m)
  | Returns c => λ s,
      if bool_decide (is_Some (r_success s)) then write_field s (success_field c)
      else write_thrown s 1 (m_throws m)
  end s;;
  writeFieldStop;; writeStructEnd.

(** ** The server *)

(** What the [catch] clauses make of an exception. *)
Definition result_of (m : method) (r : m_ret m + exn) : result (m_ret m) + string :=
  match r with
  | inl a => inl (set_success (Some a) no_result)
  | inr e =>
      match declared_of e with
      | Some (d, message) =>
          if existsb (λ t, bool_decide (t.2 = d)) (m_throws m)
          then inl (set_member d (Some message) no_result)
          else inr (what e)
      | None => inr (what e)
      end
  end.

Definition reply (name : string) (type : TMessageType) (seqid : Z) (body : eff P unit) : eff P unit :=
  writeMessageBegin name type seqid;;
  body;;
  writeMessageEnd;; writeEnd;; flush.

Definition process (m : method) (seqid : Z) : eff (P * W) unit :=
  args ← on_protocol (read_struct fuel (m_fields m) (m_default m));
  on_protocol readMessageEnd;; on_protocol readEnd;;
  r ← try_catch (on_iface (m_call m args));
  match result_of m r with
  | inl s => on_protocol (reply (m_name m) T_REPLY seqid (write_result m s))
  | inr text => on_protocol (reply (m_name m) T_EXCEPTION seqid (write_exception text))
  end.

(** ** The client *)

Definition send (m : method) (args : m_args m) : eff P unit :=
  writeMessageBegin (m_name m) T_CALL 0;;
  write_struct (m_service m +:+ "_" +:+ m_name m +:+ "_pargs") (m_fields m) args;;
  writeMessageEnd;; writeEnd;; flush.

(** A message that is not the reply is dropped; the code then goes on as if a
    result followed. *)
Definition drop_message : eff P unit := skip T_STRUCT;; readMessageEnd;; readEnd.

Definition missing_result (m : method) : exn := ThriftError (m_name m +:+ " failed: unknown result").

(** [if (result.__isset.e) throw result.e], in the order of the declaration. *)
Fixpoint thrown {R} (s : result R) (throws : list (string * declared)) : option exn :=
  match throws with
  | [] => None
  | (_, d) :: throws' =>
      match member d s with Some message => Some (exn_of d message) | None => thrown s throws' end
  end.

Definition recv (m : method) : eff P (m_ret m) :=
  '(fname, mtype, rseqid) ← readMessageBegin;
  if decide (mtype = T_EXCEPTION) then
    x ← read_exception; readMessageEnd;; readEnd;; throw (ThriftError x)
  else
    when (negb (bool_decide (mtype = T_REPLY))) drop_message;;
    when (negb (bool_decide (fname = m_name m))) drop_message;;
    s ← read_struct fuel (result_fields m) no_result;
    readMessageEnd;; readEnd;;
    match m_returns m in returns _ R return result R → eff P R with
    | Void => λ s, match thrown s (m_throws m) with Some e => throw e | None => mret () end
    | Returns _ => λ s,
        match r_success s with
        | Some a => mret a
        | None => throw (default (missing_result m) (thrown s (m_throws m)))
        end
    end s.

Definition client (m : method) (args : m_args m) : eff P unit * eff P (m_ret m) :=
  (send m args, recv m).

(** ** The processor *)

(** The methods of a service, by name. *)
Variable processMap : list method.

(** A name that is not in the map is answered with an exception. *)
Definition dispatchCall (fname : string) (seqid : Z) : eff (P * W) unit :=
  match List.find (λ m, bool_decide (m_name m = fname)) processMap with
  | Some m => process m seqid
  | None =>
      on_protocol (skip T_STRUCT);; on_protocol readMessageEnd;; on_protocol readEnd;;
      on_protocol (reply fname T_EXCEPTION seqid
        (write_exception ("Invalid method name: '" +:+ fname +:+ "'")))
  end.

(** The library reads the header of a message and hands it to [dispatchCall]. *)
Definition serve : eff (P * W) unit :=
  '(fname, _, seqid) ← on_protocol readMessageBegin; dispatchCall fname seqid.
End service.
