(* ===== verification/Processor.v ===== *)
(** [gen-cpp/VaeDb.h] and [gen-cpp/VaeDb.cpp]: the methods of the service
    [VaeDb], as tables for the bodies of [Rpc]. *)
From Stdlib Require Import ZArith.
From S2P Require Import Prelude Cpp Protocol ProtocolSpec VaeTypes ThriftTypes Rpc.

(** What the service asks of its implementation ([VaeDbHandler] in this program). *)
Class VaeDbIf (W : Type) := {
  if_ping : eff W Z;
  if_closeSession : Z → string → eff W unit;
  if_createInfo : Z → Z → string → eff W VaeDbCreateInfoResponse;
  if_data : Z → Z → eff W VaeDbDataResponse;
  if_get : Z → Z → string → gmap string string → eff W VaeDbResponse;
  if_openSession : string → string → bool → Z → eff W VaeDbOpenSessionResponse;
  if_resetSite : string → string → eff W unit;
  if_structure : Z → Z → eff W VaeDbStructureResponse;
  if_sessionCacheGet : Z → string → eff W string;
  if_sessionCacheSet : Z → string → string → eff W unit;
  if_sessionCacheDelete : Z → string → eff W unit;
  if_shortTermCacheGet : Z → string → Z → eff W string;
  if_shortTermCacheSet : Z → string → string → Z → Z → eff W unit;
  if_shortTermCacheDelete : Z → string → eff W unit;
  if_longTermCacheGet : Z → string → Z → Z → eff W string;
  if_longTermCacheSet : Z → string → string → Z → Z → eff W unit;
  if_longTermCacheDelete : Z → string → eff W unit;
  if_longTermCacheEmpty : Z → eff W unit;
  if_longTermCacheSweeperInfo : Z → eff W VaeDbDataForContext;
  if_sitewideLock : Z → eff W Z;
  if_sitewideUnlock : Z → eff W Z;
}.

(** An implementation that does nothing: what is returned by reference stays as it
    was constructed. *)
Definition VaeDbNull {W} : VaeDbIf W := {|
  if_ping := mret 0%Z;
  if_closeSession _ _ := mret ();
  if_createInfo _ _ _ := mret {| create_contexts := [] |};
  if_data _ _ := mret {| data_contexts := [] |};
  if_get _ _ _ _ := mret VaeDbResponse_default;
  if_openSession _ _ _ _ := mret VaeDbOpenSessionResponse_default;
  if_resetSite _ _ := mret ();
  if_structure _ _ := mret {| structure_contexts := [] |};
  if_sessionCacheGet _ _ := mret "";
  if_sessionCacheSet _ _ _ := mret ();
  if_sessionCacheDelete _ _ := mret ();
  if_shortTermCacheGet _ _ _ := mret "";
  if_shortTermCacheSet _ _ _ _ _ := mret ();
  if_shortTermCacheDelete _ _ := mret ();
  if_longTermCacheGet _ _ _ _ := mret "";
  if_longTermCacheSet _ _ _ _ _ := mret ();
  if_longTermCacheDelete _ _ := mret ();
  if_longTermCacheEmpty _ := mret ();
  if_longTermCacheSweeperInfo _ := mret {| dfc_data := ∅ |};
  if_sitewideLock _ := mret 0%Z;
  if_sitewideUnlock _ := mret 0%Z;
|}.

Section service.
Context {P W : Type} `{TProtocol P} `{VaeDbIf W}.
(** Fuel of the readers, and [e.what()]. *)
Variable (fuel : nat) (what : exn → string).
Abbreviation method := (method (P := P) (W := W)).
Abbreviation process := (process fuel what).
Abbreviation client := (client fuel).

(** ** The methods *)

Definition ping_args : list (field (P := P) (unit)) :=
  [].
Definition ping_method : method :=
  Method "VaeDb" "ping" ping_args () (Returns byte) []
    (λ _, if_ping).
Definition process_ping : Z → eff (P * W) unit := process ping_method.

Definition closeSession_args : list (field (P := P) (Z * string)) :=
  [Field "session_id" 1 i32 (λ '(v, _), v) (λ v '(_, x1), (v, x1));
   Field "secret_key" 2 text (λ '(_, v), v) (λ v '(x0, _), (x0, v))].
Definition closeSession_method : method :=
  Method "VaeDb" "closeSession" closeSession_args (0%Z, "") Void [("e", DInternal)]
    (λ '(x0, x1), if_closeSession x0 x1).
Definition process_closeSession : Z → eff (P * W) unit := process closeSession_method.

Definition createInfo_args : list (field (P := P) (Z * Z * string)) :=
  [Field "session_id" 1 i32 (λ '(v, _, _), v) (λ v '(_, x1, x2), (v, x1, x2));
   Field "response_id" 2 i32 (λ '(_, v, _), v) (λ v '(x0, _, x2), (x0, v, x2));
   Field "query" 3 text (λ '(_, _, v), v) (λ v '(x0, x1, _), (x0, x1, v))].
Definition createInfo_method : method :=
  Method "VaeDb" "createInfo" createInfo_args (0%Z, 0%Z, "") (Returns (VaeDbCreateInfoResponse_codec fuel)) [("ie", DInternal); ("qe", DQuery)]
    (λ '(x0, x1, x2), if_createInfo x0 x1 x2).
Definition process_createInfo : Z → eff (P * W) unit := process createInfo_method.

Definition data_args : list (field (P := P) (Z * Z)) :=
  [Field "session_id" 1 i32 (λ '(v, _), v) (λ v '(_, x1), (v, x1));
   Field "response_id" 2 i32 (λ '(_, v), v) (λ v '(x0, _), (x0, v))].
Definition data_method : method :=
  Method "VaeDb" "data" data_args (0%Z, 0%Z) (Returns (VaeDbDataResponse_codec fuel)) [("ie", DInternal)]
    (λ '(x0, x1), if_data x0 x1).
Definition process_data : Z → eff (P * W) unit := process data_method.

Definition get_args : list (field (P := P) (Z * Z * string * gmap string string)) :=
  [Field "session_id" 1 i32 (λ '(v, _, _, _), v) (λ v '(_, x1, x2, x3), (v, x1, x2, x3));
   Field "response_id" 2 i32 (λ '(_, v, _, _), v) (λ v '(x0, _, x2, x3), (x0, v, x2, x3));
   Field "query" 3 text (λ '(_, _, v, _), v) (λ v '(x0, x1, _, x3), (x0, x1, v, x3));
   Field "options" 4 string_map (λ '(_, _, _, v), v) (λ v '(x0, x1, x2, _), (x0, x1, x2, v))].
Definition get_method : method :=
  Method "VaeDb" "get" get_args (0%Z, 0%Z, "", ∅) (Returns (VaeDbResponse_codec fuel)) [("ie", DInternal); ("qe", DQuery)]
    (λ '(x0, x1, x2, x3), if_get x0 x1 x2 x3).
Definition process_get : Z → eff (P * W) unit := process get_method.

Definition openSession_args : list (field (P := P) (string * string * bool * Z)) :=
  [Field "site" 1 text (λ '(v, _, _, _), v) (λ v '(_, x1, x2, x3), (v, x1, x2, x3));
   Field "secret_key" 2 text (λ '(_, v, _, _), v) (λ v '(x0, _, x2, x3), (x0, v, x2, x3));
   Field "staging_mode" 3 boolean (λ '(_, _, v, _), v) (λ v '(x0, x1, _, x3), (x0, x1, v, x3));
   Field "suggested_session_id" 4 i32 (λ '(_, _, _, v), v) (λ v '(x0, x1, x2, _), (x0, x1, x2, v))].
Definition openSession_method : method :=
  Method "VaeDb" "openSession" openSession_args ("", "", false, 0%Z) (Returns (VaeDbOpenSessionResponse_codec fuel)) [("e", DInternal)]
    (λ '(x0, x1, x2, x3), if_openSession x0 x1 x2 x3).
Definition process_openSession : Z → eff (P * W) unit := process openSession_method.

Definition resetSite_args : list (field (P := P) (string * string)) :=
  [Field "site" 1 text (λ '(v, _), v) (λ v '(_, x1), (v, x1));
   Field "secret_key" 2 text (λ '(_, v), v) (λ v '(x0, _), (x0, v))].
Definition resetSite_method : method :=
  Method "VaeDb" "resetSite" resetSite_args ("", "") Void [("e", DInternal)]
    (λ '(x0, x1), if_resetSite x0 x1).
Definition process_resetSite : Z → eff (P * W) unit := process resetSite_method.

Definition structure_args : list (field (P := P) (Z * Z)) :=
  [Field "session_id" 1 i32 (λ '(v, _), v) (λ v '(_, x1), (v, x1));
   Field "response_id" 2 i32 (λ '(_, v), v) (λ v '(x0, _), (x0, v))].
Definition structure_method : method :=
  Method "VaeDb" "structure" structure_args (0%Z, 0%Z) (Returns (VaeDbStructureResponse_codec fuel)) [("ie", DInternal)]
    (λ '(x0, x1), if_structure x0 x1).
Definition process_structure : Z → eff (P * W) unit := process structure_method.

Definition sessionCacheGet_args : list (field (P := P) (Z * string)) :=
  [Field "session_id" 1 i32 (λ '(v, _), v) (λ v '(_, x1), (v, x1));
   Field "key" 2 text (λ '(_, v), v) (λ v '(x0, _), (x0, v))].
Definition sessionCacheGet_method : method :=
  Method "VaeDb" "sessionCacheGet" sessionCacheGet_args (0%Z, "") (Returns text) []
    (λ '(x0, x1), if_sessionCacheGet x0 x1).
Definition process_sessionCacheGet : Z → eff (P * W) unit := process sessionCacheGet_method.

Definition sessionCacheSet_args : list (field (P := P) (Z * string * string)) :=
  [Field "session_id" 1 i32 (λ '(v, _, _), v) (λ v '(_, x1, x2), (v, x1, x2));
   Field "key" 2 text (λ '(_, v, _), v) (λ v '(x0, _, x2), (x0, v, x2));
   Field "value" 3 text (λ '(_, _, v), v) (λ v '(x0, x1, _), (x0, x1, v))].
Definition sessionCacheSet_method : method :=
  Method "VaeDb" "sessionCacheSet" sessionCacheSet_args (0%Z, "", "") Void []
    (λ '(x0, x1, x2), if_sessionCacheSet x0 x1 x2).
Definition process_sessionCacheSet : Z → eff (P * W) unit := process sessionCacheSet_method.

Definition sessionCacheDelete_args : list (field (P := P) (Z * string)) :=
  [Field "session_id" 1 i32 (λ '(v, _), v) (λ v '(_, x1), (v, x1));
   Field "key" 2 text (λ '(_, v), v) (λ v '(x0, _), (x0, v))].
Definition sessionCacheDelete_method : method :=
  Method "VaeDb" "sessionCacheDelete" sessionCacheDelete_args (0%Z, "") Void []
    (λ '(x0, x1), if_sessionCacheDelete x0 x1).
Definition process_sessionCacheDelete : Z → eff (P * W) unit := process sessionCacheDelete_method.

Definition shortTermCacheGet_args : list (field (P := P) (Z * string * Z)) :=
  [Field "session_id" 1 i32 (λ '(v, _, _), v) (λ v '(_, x1, x2), (v, x1, x2));
   Field "key" 2 text (λ '(_, v, _), v) (λ v '(x0, _, x2), (x0, v, x2));
   Field "flags" 3 i32 (λ '(_, _, v), v) (λ v '(x0, x1, _), (x0, x1, v))].
Definition shortTermCacheGet_method : method :=
  Method "VaeDb" "shortTermCacheGet" shortTermCacheGet_args (0%Z, "", 0%Z) (Returns text) []
    (λ '(x0, x1, x2), if_shortTermCacheGet x0 x1 x2).
Definition process_shortTermCacheGet : Z → eff (P * W) unit := process shortTermCacheGet_method.

Definition shortTermCacheSet_args : list (field (P := P) (Z * string * string * Z * Z)) :=
  [Field "session_id" 1 i32 (λ '(v, _, _, _, _), v) (λ v '(_, x1, x2, x3, x4), (v, x1, x2, x3, x4));
   Field "key" 2 text (λ '(_, v, _, _, _), v) (λ v '(x0, _, x2, x3, x4), (x0, v, x2, x3, x4));
   Field "value" 3 text (λ '(_, _, v, _, _), v) (λ v '(x0, x1, _, x3, x4), (x0, x1, v, x3, x4));
   Field "flags" 4 i32 (λ '(_, _, _, v, _), v) (λ v '(x0, x1, x2, _, x4), (x0, x1, x2, v, x4));
   Field "expireInterval" 5 i32 (λ '(_, _, _, _, v), v) (λ v '(x0, x1, x2, x3, _), (x0, x1, x2, x3, v))].
Definition shortTermCacheSet_method : method :=
  Method "VaeDb" "shortTermCacheSet" shortTermCacheSet_args (0%Z, "", "", 0%Z, 0%Z) Void []
    (λ '(x0, x1, x2, x3, x4), if_shortTermCacheSet x0 x1 x2 x3 x4).
Definition process_shortTermCacheSet : Z → eff (P * W) unit := process shortTermCacheSet_method.

Definition shortTermCacheDelete_args : list (field (P := P) (Z * string)) :=
  [Field "session_id" 1 i32 (λ '(v, _), v) (λ v '(_, x1), (v, x1));
   Field "key" 2 text (λ '(_, v), v) (λ v '(x0, _), (x0, v))].
Definition shortTermCacheDelete_method : method :=
  Method "VaeDb" "shortTermCacheDelete" shortTermCacheDelete_args (0%Z, "") Void []
    (λ '(x0, x1), if_shortTermCacheDelete x0 x1).
Definition process_shortTermCacheDelete : Z → eff (P * W) unit := process shortTermCacheDelete_method.

Definition longTermCacheGet_args : list (field (P := P) (Z * string * Z * Z)) :=
  [Field "session_id" 1 i32 (λ '(v, _, _, _), v) (λ v '(_, x1, x2, x3), (v, x1, x2, x3));
   Field "key" 2 text (λ '(_, v, _, _), v) (λ v '(x0, _, x2, x3), (x0, v, x2, x3));
   Field "renewExpiry" 3 i32 (λ '(_, _, v, _), v) (λ v '(x0, x1, _, x3), (x0, x1, v, x3));
   Field "useShortTermCache" 4 i32 (λ '(_, _, _, v), v) (λ v '(x0, x1, x2, _), (x0, x1, x2, v))].
Definition longTermCacheGet_method : method :=
  Method "VaeDb" "longTermCacheGet" longTermCacheGet_args (0%Z, "", 0%Z, 0%Z) (Returns text) []
    (λ '(x0, x1, x2, x3), if_longTermCacheGet x0 x1 x2 x3).
Definition process_longTermCacheGet : Z → eff (P * W) unit := process longTermCacheGet_method.

Definition longTermCacheSet_args : list (field (P := P) (Z * string * string * Z * Z)) :=
  [Field "session_id" 1 i32 (λ '(v, _, _, _, _), v) (λ v '(_, x1, x2, x3, x4), (v, x1, x2, x3, x4));
   Field "key" 2 text (λ '(_, v, _, _, _), v) (λ v '(x0, _, x2, x3, x4), (x0, v, x2, x3, x4));
   Field "value" 3 text (λ '(_, _, v, _, _), v) (λ v '(x0, x1, _, x3, x4), (x0, x1, v, x3, x4));
   Field "expireInterval" 4 i32 (λ '(_, _, _, v, _), v) (λ v '(x0, x1, x2, _, x4), (x0, x1, x2, v, x4));
   Field "isFilename" 5 i32 (λ '(_, _, _, _, v), v) (λ v '(x0, x1, x2, x3, _), (x0, x1, x2, x3, v))].
Definition longTermCacheSet_method : method :=
  Method "VaeDb" "longTermCacheSet" longTermCacheSet_args (0%Z, "", "", 0%Z, 0%Z) Void []
    (λ '(x0, x1, x2, x3, x4), if_longTermCacheSet x0 x1 x2 x3 x4).
Definition process_longTermCacheSet : Z → eff (P * W) unit := process longTermCacheSet_method.

Definition longTermCacheDelete_args : list (field (P := P) (Z * string)) :=
  [Field "session_id" 1 i32 (λ '(v, _), v) (λ v '(_, x1), (v, x1));
   Field "key" 2 text (λ '(_, v), v) (λ v '(x0, _), (x0, v))].
Definition longTermCacheDelete_method : method :=
  Method "VaeDb" "longTermCacheDelete" longTermCacheDelete_args (0%Z, "") Void []
    (λ '(x0, x1), if_longTermCacheDelete x0 x1).
Definition process_longTermCacheDelete : Z → eff (P * W) unit := process longTermCacheDelete_method.

Definition longTermCacheEmpty_args : list (field (P := P) (Z)) :=
  [Field "session_id" 1 i32 (λ v, v) (λ v _, v)].
Definition longTermCacheEmpty_method : method :=
  Method "VaeDb" "longTermCacheEmpty" longTermCacheEmpty_args 0%Z Void []
    if_longTermCacheEmpty.
Definition process_longTermCacheEmpty : Z → eff (P * W) unit := process longTermCacheEmpty_method.

Definition longTermCacheSweeperInfo_args : list (field (P := P) (Z)) :=
  [Field "session_id" 1 i32 (λ v, v) (λ v _, v)].
Definition longTermCacheSweeperInfo_method : method :=
  Method "VaeDb" "longTermCacheSweeperInfo" longTermCacheSweeperInfo_args 0%Z (Returns (VaeDbDataForContext_codec fuel)) []
    if_longTermCacheSweeperInfo.
Definition process_longTermCacheSweeperInfo : Z → eff (P * W) unit := process longTermCacheSweeperInfo_method.

Definition sitewideLock_args : list (field (P := P) (Z)) :=
  [Field "session_id" 1 i32 (λ v, v) (λ v _, v)].
Definition sitewideLock_method : method :=
  Method "VaeDb" "sitewideLock" sitewideLock_args 0%Z (Returns i32) []
    if_sitewideLock.
Definition process_sitewideLock : Z → eff (P * W) unit := process sitewideLock_method.

Definition sitewideUnlock_args : list (field (P := P) (Z)) :=
  [Field "session_id" 1 i32 (λ v, v) (λ v _, v)].
Definition sitewideUnlock_method : method :=
  Method "VaeDb" "sitewideUnlock" sitewideUnlock_args 0%Z (Returns i32) []
    if_sitewideUnlock.
Definition process_sitewideUnlock : Z → eff (P * W) unit := process sitewideUnlock_method.

Definition processMap : list method :=
  [ping_method; closeSession_method; createInfo_method;
   data_method; get_method; openSession_method; resetSite_method; structure_method;
   sessionCacheGet_method; sessionCacheSet_method; sessionCacheDelete_method;
   shortTermCacheGet_method; shortTermCacheSet_method; shortTermCacheDelete_method;
   longTermCacheGet_method; longTermCacheSet_method; longTermCacheDelete_method;
   longTermCacheEmpty_method; longTermCacheSweeperInfo_method; sitewideLock_method;
   sitewideUnlock_method].

Definition dispatchCall : string → Z → eff (P * W) unit := Rpc.dispatchCall fuel what processMap.

(** [VaeDbClient]: each method sends its arguments and waits for the reply. *)
Definition client_ping : unit → eff P unit * eff P Z :=
  client ping_method.
Definition client_closeSession : (Z * string) → eff P unit * eff P unit :=
  client closeSession_method.
Definition client_createInfo : (Z * Z * string) → eff P unit * eff P VaeDbCreateInfoResponse :=
  client createInfo_method.
Definition client_data : (Z * Z) → eff P unit * eff P VaeDbDataResponse :=
  client data_method.
Definition client_get : (Z * Z * string * gmap string string) → eff P unit * eff P VaeDbResponse :=
  client get_method.
Definition client_openSession : (string * string * bool * Z) → eff P unit * eff P VaeDbOpenSessionResponse :=
  client openSession_method.
Definition client_resetSite : (string * string) → eff P unit * eff P unit :=
  client resetSite_method.
Definition client_structure : (Z * Z) → eff P unit * eff P VaeDbStructureResponse :=
  client structure_method.
Definition client_sessionCacheGet : (Z * string) → eff P unit * eff P string :=
  client sessionCacheGet_method.
Definition client_sessionCacheSet : (Z * string * string) → eff P unit * eff P unit :=
  client sessionCacheSet_method.
Definition client_sessionCacheDelete : (Z * string) → eff P unit * eff P unit :=
  client sessionCacheDelete_method.
Definition client_shortTermCacheGet : (Z * string * Z) → eff P unit * eff P string :=
  client shortTermCacheGet_method.
Definition client_shortTermCacheSet : (Z * string * string * Z * Z) → eff P unit * eff P unit :=
  client shortTermCacheSet_method.
Definition client_shortTermCacheDelete : (Z * string) → eff P unit * eff P unit :=
  client shortTermCacheDelete_method.
Definition client_longTermCacheGet : (Z * string * Z * Z) → eff P unit * eff P string :=
  client longTermCacheGet_method.
Definition client_longTermCacheSet : (Z * string * string * Z * Z) → eff P unit * eff P unit :=
  client longTermCacheSet_method.
Definition client_longTermCacheDelete : (Z * string) → eff P unit * eff P unit :=
  client longTermCacheDelete_method.
Definition client_longTermCacheEmpty : Z → eff P unit * eff P unit :=
  client longTermCacheEmpty_method.
Definition client_longTermCacheSweeperInfo : Z → eff P unit * eff P VaeDbDataForContext :=
  client longTermCacheSweeperInfo_method.
Definition client_sitewideLock : Z → eff P unit * eff P Z :=
  client sitewideLock_method.
Definition client_sitewideUnlock : Z → eff P unit * eff P Z :=
  client sitewideUnlock_method.
End service.
