(* ===== verification/RpcSpec.v ===== *)
(** Calling the service over a protocol is the same as calling its
    implementation: the arguments, the reply and the declared exceptions arrive
    as they were sent. *)
From Stdlib Require Import ZArith.
From S2P Require Import Prelude Cpp Protocol ProtocolSpec VaeTypes ThriftTypes ThriftSpec Rpc Processor.

Section rpc.
Context {P W : Type} `{ProtocolLaws P}.
Variable (fuel : nat) (what : exn → string).
Abbreviation method := (method (P := P) (W := W)).

(** [m] reads the tokens [ts] and ends with the outcome [o]. *)
Definition answers {A} (m : eff P A) (ts : list token) (o : outcome A) : Prop :=
  ∀ p r, input p = ts ++ r →
    ∃ p', m p = (o, p') ∧ input p' = r ∧ output p' = output p ∧ depth p' = depth p.

Lemma answers_ret {A} (a : A) : answers (mret a) [] (Ok a).
Proof. intros p r Hp. by exists p. Qed.
Lemma answers_throw {A} e : answers (throw e : eff P A) [] (Throw e).
Proof. intros p r Hp. by exists p. Qed.
Lemma answers_bind {A B} (m : eff P A) (f : A → eff P B) t1 t2 a o :
  consumes m t1 a → answers (f a) t2 o → answers (m ≫= f) (t1 ++ t2) o.
Proof.
  intros Hm Hf p r Hp. rewrite <- app_assoc in Hp.
  destruct (Hm p (t2 ++ r) Hp) as (p1 & E1 & I1 & O1 & D1).
  destruct (Hf p1 r I1) as (p2 & E2 & I2 & O2 & D2).
  exists p2. rewrite (eff_bind_ok _ _ _ _ _ E1). split_and!; [done..|congruence|congruence].
Qed.
Lemma answers_cons {A B} (m : eff P A) (f : A → eff P B) k t a o :
  consumes m [k] a → answers (f a) t o → answers (m ≫= f) (k :: t) o.
Proof. intros Hm Hf. by apply (answers_bind m f [k] t a). Qed.
Lemma answers_nil {A B} (m : eff P A) (f : A → eff P B) t a o :
  consumes m [] a → answers (f a) t o → answers (m ≫= f) t o.
Proof. intros Hm Hf. by apply (answers_bind m f [] t a). Qed.

(** ** Messages *)

Lemma emits_last h (m m' : eff P unit) ts : emits h m ts → emits 0 m' [] → emits h (m;; m') ts.
Proof.
  intros Hm Hm'. rewrite <- (app_nil_r ts). apply (emits_bind h h); [lia|done|].
  eapply emits_weaken; [|done]. lia.
Qed.

Lemma message_emits h name type seqid body ts :
  emits h body ts →
  emits h (reply name type seqid body) (KMessage name type seqid :: ts ++ [KMessageEnd]).
Proof.
  intros Hb. unfold reply. apply emits_cons; [apply writeMessageBegin_law|].
  apply (emits_bind h h); [lia|done|]. eapply emits_weaken; [|apply emits_last]; [apply Nat.le_0_l| |].
  - apply writeMessageEnd_law.
  - apply emits_last; [apply writeEnd_law|apply flush_law].
Qed.

(** ** Results *)

Lemma guarded_read {A} (c : codec (P := P) A) old ts v :
  (∀ o, consumes (c_read c o) ts v) → consumes (c_read (guarded c) old) ts (Some v).
Proof. intros Hc. simpl. eapply consumes_last; [apply Hc|apply consumes_ret]. Qed.

Lemma guarded_field_emits {R A} n id (c : codec (P := P) A) get set (s : result R) v h valid tok :
  get s = Some v → codec_ok c h valid tok → valid v →
  emits h (write_field s (Field n id (guarded c) get set)) (KField (c_type c) id :: tok v ++ [KFieldEnd]).
Proof.
  intros Hs Hc Hv. unfold write_field. simpl. rewrite Hs.
  apply emits_cons; [apply writeFieldBegin_law|]. apply emits_snoc; [|apply writeFieldEnd_law].
  by apply (ok_write _ _ _ _ Hc).
Qed.

Lemma guarded_field_item {R A} fields n id (c : codec (P := P) A) get set v h valid tok :
  Field n id (guarded c) get set ∈ fields → codec_ok c h valid tok → valid v →
  item (S := result R) fields (KField (c_type c) id :: tok v ++ [KFieldEnd]) (set (Some v)).
Proof.
  intros Hin Hc Hv. apply (item_known fields (Field n id (guarded c) get set) (Some v) (tok v)); [done| |].
  - by eapply value_not_stop, (ok_value _ _ _ _ Hc).
  - intros old. apply guarded_read. intros o. by apply (ok_read _ _ _ _ Hc).
Qed.

(** The exceptions that the methods of the service declare. *)
Definition throws_ok (l : list (string * declared)) : Prop :=
  l = [] ∨ (∃ n d, l = [(n, d)]) ∨ ∃ n n', l = [(n, DInternal); (n', DQuery)].

Definition ret_ok {R} (ret : returns P R) (vr : R → Prop) : Prop :=
  match ret in returns _ R return (R → Prop) → Prop with
  | Void => λ _, True
  | Returns c => λ vr, ∃ h, h ≤ 3 ∧ round_trips c h vr
  end vr.

Hypothesis enough : 6 < fuel.

Lemma result_ids (m : method) : throws_ok (m_throws m) → NoDup (f_id <$> result_fields fuel m).
Proof.
  destruct m as [srv name A fl d R ret throws call]. unfold result_fields. simpl.
  intros [->|[(n & d' & ->)|(n & n' & ->)]]; destruct ret; apply (bool_decide_unpack _); exact I.
Qed.

Lemma read_result (m : method) its us :
  throws_ok (m_throws m) → Forall2 (item (result_fields fuel m)) its us → length its ≤ 1 →
  consumes (read_struct fuel (result_fields fuel m) no_result) (KStruct :: concat its ++ [KStop; KStructEnd])
    (foldl (λ s u, u s) no_result us).
Proof.
  intros Ht Hits Hl. apply read_struct_items; [by apply result_ids|done|]. lia.
Qed.

(** The method declares this exception. *)
Definition declares (m : method) (e : exn) : bool :=
  match declared_of e with
  | Some (d, _) => bool_decide (d ∈ (m_throws m).*2)
  | None => false
  end.

(** What a client gets: the value, the exception if it is declared, and
    otherwise the text of an application exception. *)
Definition delivered (m : method) (r : m_ret m + exn) : outcome (m_ret m) :=
  match r with
  | inl a => Ok a
  | inr e => if declares m e then Throw e else Throw (ThriftError (what e))
  end.

Lemma existsb_declares d (l : list (string * declared)) :
  existsb (λ t, bool_decide (t.2 = d)) l = bool_decide (d ∈ l.*2).
Proof.
  apply eq_bool_prop_intro. rewrite bool_decide_spec, Is_true_true, existsb_exists, list_elem_of_fmap.
  setoid_rewrite bool_decide_eq_true. split; intros (t & H1' & H2'); exists t.
  - split; [done|]. by apply list_elem_of_In.
  - split; [by apply list_elem_of_In|done].
Qed.

Lemma delivered_result_of (m : method) r :
  delivered m r = match result_of what m r with
                  | inl _ => match r with inl a => Ok a | inr e => Throw e end
                  | inr x => Throw (ThriftError x)
                  end.
Proof.
  unfold delivered, result_of, declares. destruct r as [a|e]; [done|].
  destruct (declared_of e) as [[d message]|]; [|done]. rewrite existsb_declares. by case_bool_decide.
Qed.

Definition fits {R} (vr : R → Prop) (r : R + exn) : Prop :=
  match r with
  | inl a => vr a
  | inr e => text_valid (what e) ∧
      match declared_of e with Some (_, message) => text_valid message | None => True end
  end.

(** The result structure of a reply, as the client receives it. *)
Definition received (m : method) (s : result (m_ret m)) : outcome (m_ret m) :=
  match m_returns m in returns _ R return result R → outcome R with
  | Void => λ s, match thrown s (m_throws m) with Some e => Throw e | None => Ok () end
  | Returns _ => λ s,
      match r_success s with
      | Some a => Ok a
      | None => Throw (default (missing_result m) (thrown s (m_throws m)))
      end
  end s.

(** The structure around the member of a result. *)
Lemma result_struct_emits name body ts :
  emits 3 body ts →
  emits 3 (writeStructBegin name;; body;; writeFieldStop;; writeStructEnd)
    (KStruct :: ts ++ [KStop; KStructEnd]).
Proof.
  intros Hb. apply emits_cons; [apply writeStructBegin_law|].
  apply (emits_bind 3 3); [lia|done|]. apply emits_cons; [apply writeFieldStop_law|].
  eapply emits_weaken; [|apply writeStructEnd_law]. lia.
Qed.

(** A result with one member set: what is written, and what it does to the
    result that the client reads into. *)
Lemma one_member name {R A} fields (f : field (P := P) (result R)) n id (c : codec (P := P) A) get set
    s v h valid tok (Q : list (result R → result R) → Prop) :
  f = Field n id (guarded c) get set → f ∈ fields → get s = Some v → codec_ok c h valid tok →
  h ≤ 3 → valid v → Q [set (Some v)] →
  ∃ its us,
    emits 3 (writeStructBegin name;; write_field s f;; writeFieldStop;; writeStructEnd)
      (KStruct :: concat its ++ [KStop; KStructEnd]) ∧
    Forall2 (item fields) its us ∧ length its ≤ 1 ∧ Q us.
Proof.
  intros -> Hin Hg Hc Hh Hv HQ. exists [KField (c_type c) id :: tok v ++ [KFieldEnd]], [set (Some v)].
  split; [|split; [|split; [simpl; lia|done]]].
  - simpl concat. rewrite app_nil_r. apply result_struct_emits. eapply emits_weaken; [exact Hh|].
    by eapply guarded_field_emits.
  - constructor; [|done]. by eapply guarded_field_item.
Qed.

Lemma codec_of_ok d : ∃ tok, codec_ok (codec_of (P := P) fuel d) 1 text_valid tok.
Proof.
  destruct d; [apply internal_error_ok|apply query_error_ok|apply syntax_error_ok]; done.
Qed.

Lemma exn_of_declared e d message : declared_of e = Some (d, message) → exn_of d message = e.
Proof. by destruct e; intros [= <- <-]. Qed.

Lemma result_round_trip (m : method) vr r s :
  throws_ok (m_throws m) → ret_ok (m_returns m) vr → fits vr r → result_of what m r = inl s →
  ∃ its us, emits 3 (write_result fuel m s) (KStruct :: concat its ++ [KStop; KStructEnd]) ∧
    Forall2 (item (result_fields fuel m)) its us ∧ length its ≤ 1 ∧
    received m (foldl (λ s u, u s) no_result us) = delivered m r.
Proof.
  destruct m as [srv name A fl d R ret throws call].
  rewrite delivered_result_of. unfold write_result, received, result_fields. simpl.
  intros Ht Hret Hfit Hs. rewrite Hs. unfold result_of in Hs. simpl in Hs. destruct r as [a|e].
  - injection Hs as <-. destruct ret as [|R c].
    + exists [], []. destruct a. split; [|split; [done|split; [simpl; lia|]]].
      * apply result_struct_emits. destruct Ht as [->|[(n & [] & ->)|(n & n' & ->)]]; simpl; intros p _;
          exists p; by rewrite app_nil_r.
      * by destruct Ht as [->|[(n & [] & ->)|(n & n' & ->)]].
    + destruct Hret as (h & Hh & tok & Hc).
      by eapply one_member; [reflexivity|left|reflexivity|exact Hc|exact Hh|exact Hfit|].
  - destruct Hfit as [_ Hfit]. destruct (declared_of e) as [[x msg]|] eqn:Ee; [|done].
    destruct (existsb _ throws) eqn:Ex; [|done]. injection Hs as <-.
    rewrite <- (exn_of_declared _ _ _ Ee). destruct (codec_of_ok x) as [tok Hx].
    assert (throws = [] ∨ (∃ n, throws = [(n, x)]) ∨ ∃ n n', throws = [(n, DInternal); (n', DQuery)])
      as Ht'.
    { destruct Ht as [->|[(n & y & ->)|(n & n' & ->)]]; [by left| |by eauto].
      simpl in Ex. rewrite orb_false_r in Ex. apply bool_decide_eq_true in Ex as <-. eauto. }
    clear Ht. destruct Ht' as [->|[[n ->]|(n & n' & ->)]]; [discriminate Ex| |].
    all: destruct x; try discriminate Ex.
    all: by destruct ret; (eapply one_member;
        [reflexivity|simpl; repeat first [left; reflexivity|right]|reflexivity|exact Hx|lia|exact Hfit|]).
Qed.

(** A reply, and what the client makes of it. *)
Lemma reply_answers (m : method) vr r seqid :
  throws_ok (m_throws m) → ret_ok (m_returns m) vr → fits vr r →
  ∃ ts,
    emits 3 (match result_of what m r with
             | inl s => reply (m_name m) T_REPLY seqid (write_result fuel m s)
             | inr x => reply (m_name m) T_EXCEPTION seqid (write_exception x)
             end) ts ∧
    answers (recv fuel m) ts (delivered m r).
Proof.
  intros Ht Hret Hfit. destruct (result_of what m r) as [s|x] eqn:Hs.
  - destruct (result_round_trip m vr r s Ht Hret Hfit Hs) as (its & us & Hw & Hits & Hl & Hr).
    eexists. split; [by apply message_emits|]. rewrite <- Hr. unfold recv.
    eapply answers_cons; [apply readMessageBegin_law|]. cbv beta iota.
    rewrite decide_False, !bool_decide_true by done.
    eapply answers_nil; [apply consumes_ret|]. eapply answers_nil; [apply consumes_ret|].
    eapply answers_bind; [by apply read_result|].
    eapply answers_cons; [apply readMessageEnd_law|]. eapply answers_nil; [apply readEnd_law|].
    unfold received. generalize (foldl (λ s u, u s) no_result us).
    destruct m as [srv name A fl d R [|R' c] throws call]; simpl; intros s';
      [destruct (thrown s' throws)|destruct (r_success s')]; auto using answers_ret, answers_throw.
  - assert (x = what match r with inr e => e | inl _ => InternalError "" end) as Hx.
    { unfold result_of in Hs. destruct r as [a|e]; [done|]. by destruct e; repeat case_match; simplify_eq. }
    exists (KMessage (m_name m) T_EXCEPTION seqid :: [KException x] ++ [KMessageEnd]). split.
    + apply message_emits. eapply emits_weaken; [|apply write_exception_law]; [lia|].
      rewrite Hx. destruct r as [a|e]; [done|]. apply Hfit.
    + rewrite delivered_result_of, Hs. unfold recv.
      eapply answers_cons; [apply readMessageBegin_law|]. cbv beta iota. rewrite decide_True by done.
      eapply answers_cons; [apply read_exception_law|].
      eapply answers_cons; [apply readMessageEnd_law|]. eapply answers_nil; [apply readEnd_law|].
      apply answers_throw.
Qed.

(** ** A service *)

Variable processMap : list method.

(** A method of the service; [va] and [vr] say that the arguments and the value
    returned fit their types on the wire. *)
Record servable (m : method) (va : m_args m → Prop) (vr : m_ret m → Prop) : Prop := {
  srv_found : List.find (λ m', bool_decide (m_name m' = m_name m)) processMap = Some m;
  srv_args : round_trips (struct_of fuel (m_service m +:+ "_" +:+ m_name m +:+ "_pargs")
               (m_fields m) (m_default m)) 1 va;
  srv_ret : ret_ok (m_returns m) vr;
  srv_throws : throws_ok (m_throws m);
}.

(** ** A call over the wire *)

Lemma on_protocol_run {A} (m : eff P A) (p p' : P) (w : W) a :
  m p = (Ok a, p') → on_protocol m (p, w) = (Ok a, (p', w)).
Proof. intros E. unfold on_protocol, zoom. simpl. by rewrite E. Qed.
Lemma on_iface_run {A} (m : eff W A) (p : P) (w w' : W) o :
  m w = (o, w') → on_iface m (p, w) = (o, (p, w')).
Proof. intros E. unfold on_iface, zoom. simpl. by rewrite E. Qed.

(** The method [m] runs on [w] and ends as [r], with an exception that derives
    from [std::exception] if any. *)
Definition runs {A} (m : eff W A) (w : W) (r : A + exn) (w' : W) : Prop :=
  try_catch m w = (Ok r, w').

(** A call over the wire is a call: the client's message makes the server run the
    method on the same arguments, exactly once, and from the server's answer the
    client gets what [delivered] says; nothing of either message is left unread. *)
Definition transparent (m : method) (args : m_args m) (w : W) (r : m_ret m + exn) (w' : W) (p : P) : Prop :=
  ∃ call p', send m args p = (Ok (), p') ∧ output p' = output p ++ call ∧
    ∀ (q : P) rest, input q = call ++ rest → 3 ≤ depth q →
    ∃ answer q', serve fuel what processMap (q, w) = (Ok (), (q', w')) ∧ input q' = rest ∧
      output q' = output q ++ answer ∧
      ∀ (c : P) rest', input c = answer ++ rest' →
      ∃ c', recv fuel m c = (delivered m r, c') ∧ input c' = rest'.

Lemma servable_transparent m va vr args w r w' (p : P) :
  servable m va vr → va args → runs (m_call m args) w r w' → fits vr r → 1 ≤ depth p →
  transparent m args w r w' p.
Proof.
  intros [Hfind [tok Hc] Hret Hth] Hargs Hrun Hfit Hd.
  destruct (reply_answers m vr r 0) as (answer & Hrep & Hans);
    [done|done|done|].
  assert (emits 1 (send m args) (KMessage (m_name m) T_CALL 0 :: tok args ++ [KMessageEnd])) as Hsend.
  { apply message_emits. by apply (ok_write _ _ _ _ Hc). }
  destruct (Hsend p Hd) as (p' & Es & Os & _). eexists _, p'. split; [done|]. split; [done|].
  intros q rest Hq Hdq. simpl in Hq.
  destruct (readMessageBegin_law (m_name m) T_CALL 0 q _ Hq) as (q1 & E1 & I1 & O1 & D1).
  rewrite <- app_assoc in I1.
  destruct (ok_read _ _ _ _ Hc args (m_default m) Hargs q1 _ I1) as (q2 & E2 & I2 & O2 & D2).
  destruct (readMessageEnd_law q2 rest I2) as (q3 & E3 & I3 & O3 & D3).
  destruct (readEnd_law q3 rest I3) as (q4 & E4 & I4 & O4 & D4).
  destruct (Hrep q4 ltac:(congruence)) as (q5 & E5 & O5 & I5 & D5).
  exists answer, q5. split; [|split; [congruence|split; [congruence|]]].
  - unfold serve. rewrite (eff_bind_ok _ _ _ _ _ (on_protocol_run _ _ _ w _ E1)).
    unfold Rpc.dispatchCall. rewrite Hfind. unfold Rpc.process.
    rewrite (eff_bind_ok _ _ _ _ _ (on_protocol_run _ _ _ w _ E2)).
    rewrite (eff_bind_ok _ _ _ _ _ (on_protocol_run _ _ _ w _ E3)).
    rewrite (eff_bind_ok _ _ _ _ _ (on_protocol_run _ _ _ w _ E4)).
    assert (try_catch (on_iface (m_call m args)) (q4, w) = (Ok r, (q4, w'))) as Er.
    { unfold runs, try_catch in *. unfold on_iface, zoom. simpl.
      destruct (m_call m args w) as [[a|e|u|] w1]; simplify_eq; try done.
      by destruct (is_std_exception e); simplify_eq. }
    rewrite (eff_bind_ok _ _ _ _ _ Er).
    destruct (result_of what m r); by apply on_protocol_run.
  - intros c rest' Hcn. destruct (Hans c rest' Hcn) as (c' & Ec & Ic & _). by exists c'.
Qed.

Definition invalid_method_name (fname : string) : string :=
  "Invalid method name: '" +:+ fname +:+ "'".

(** A call of a method that the service does not have is answered with an
    exception that names it, its arguments are skipped whatever they are, and
    the implementation is not called. *)
Theorem unknown_method fname seqid args w (q : P) rest :
  List.find (λ m, bool_decide (m_name m = fname)) processMap = None →
  value T_STRUCT args → text_valid (invalid_method_name fname) →
  input q = KMessage fname T_CALL seqid :: args ++ KMessageEnd :: rest → 1 ≤ depth q →
  ∃ q', serve fuel what processMap (q, w) = (Ok (), (q', w)) ∧ input q' = rest ∧
    output q' = output q ++
      [KMessage fname T_EXCEPTION seqid; KException (invalid_method_name fname); KMessageEnd].
Proof.
  intros Hf Hv Ht Hq Hd.
  destruct (readMessageBegin_law fname T_CALL seqid q _ Hq) as (q1 & E1 & I1 & O1 & D1).
  destruct (skip_law _ _ Hv q1 _ I1) as (q2 & E2 & I2 & O2 & D2).
  destruct (readMessageEnd_law q2 rest I2) as (q3 & E3 & I3 & O3 & D3).
  destruct (readEnd_law q3 rest I3) as (q4 & E4 & I4 & O4 & D4).
  destruct (message_emits 1 fname T_EXCEPTION seqid _ _ (write_exception_law _ Ht) q4 ltac:(by rewrite D4, D3, D2, D1))
    as (q5 & E5 & O5 & I5 & D5).
  exists q5. split; [|split; [congruence|]].
  - unfold serve. rewrite (eff_bind_ok _ _ _ _ _ (on_protocol_run _ _ _ w _ E1)).
    unfold Rpc.dispatchCall. rewrite Hf.
    rewrite (eff_bind_ok _ _ _ _ _ (on_protocol_run _ _ _ w _ E2)).
    rewrite (eff_bind_ok _ _ _ _ _ (on_protocol_run _ _ _ w _ E3)).
    rewrite (eff_bind_ok _ _ _ _ _ (on_protocol_run _ _ _ w _ E4)).
    by apply on_protocol_run.
  - rewrite O5. simpl. congruence.
Qed.
End rpc.

(** * The service VaeDb *)

Section vaedb.
Context {P W : Type} `{ProtocolLaws P} `{VaeDbIf W}.
Variable (fuel : nat) (what : exn → string).
Abbreviation method := (method (P := P) (W := W)).
Hypothesis enough : 6 < fuel.

(** Method [m] is one of the interface; [va] and [vr] say that the arguments
    and the value returned fit their types on the wire. *)
Inductive served : ∀ m : method, (m_args m → Prop) → (m_ret m → Prop) → Prop :=
| served_ping : served (ping_method) (λ _, True) byte_valid
| served_closeSession : served (closeSession_method)
    (λ '(i, k), i32_valid i ∧ text_valid k) (λ _, True)
| served_createInfo : served (createInfo_method fuel)
    (λ '(i, j, q), i32_valid i ∧ i32_valid j ∧ text_valid q) create_response_valid
| served_data : served (data_method fuel) (λ '(i, j), i32_valid i ∧ i32_valid j) data_response_valid
| served_get : served (get_method fuel)
    (λ '(i, j, q, o), i32_valid i ∧ i32_valid j ∧ text_valid q ∧ map_valid o) response_valid
| served_openSession : served (openSession_method fuel)
    (λ '(s, k, _, i), text_valid s ∧ text_valid k ∧ i32_valid i) open_valid
| served_resetSite : served (resetSite_method) (λ '(s, k), text_valid s ∧ text_valid k) (λ _, True)
| served_structure : served (structure_method fuel)
    (λ '(i, j), i32_valid i ∧ i32_valid j) structure_response_valid
| served_sessionCacheGet : served (sessionCacheGet_method)
    (λ '(i, k), i32_valid i ∧ text_valid k) text_valid
| served_sessionCacheSet : served (sessionCacheSet_method)
    (λ '(i, k, v), i32_valid i ∧ text_valid k ∧ text_valid v) (λ _, True)
| served_sessionCacheDelete : served (sessionCacheDelete_method)
    (λ '(i, k), i32_valid i ∧ text_valid k) (λ _, True)
| served_shortTermCacheGet : served (shortTermCacheGet_method)
    (λ '(i, k, f), i32_valid i ∧ text_valid k ∧ i32_valid f) text_valid
| served_shortTermCacheSet : served (shortTermCacheSet_method)
    (λ '(i, k, v, f, x), i32_valid i ∧ text_valid k ∧ text_valid v ∧ i32_valid f ∧ i32_valid x)
    (λ _, True)
| served_shortTermCacheDelete : served (shortTermCacheDelete_method)
    (λ '(i, k), i32_valid i ∧ text_valid k) (λ _, True)
| served_longTermCacheGet : served (longTermCacheGet_method)
    (λ '(i, k, n, u), i32_valid i ∧ text_valid k ∧ i32_valid n ∧ i32_valid u) text_valid
| served_longTermCacheSet : served (longTermCacheSet_method)
    (λ '(i, k, v, x, f), i32_valid i ∧ text_valid k ∧ text_valid v ∧ i32_valid x ∧ i32_valid f)
    (λ _, True)
| served_longTermCacheDelete : served (longTermCacheDelete_method)
    (λ '(i, k), i32_valid i ∧ text_valid k) (λ _, True)
| served_longTermCacheEmpty : served (longTermCacheEmpty_method) i32_valid (λ _, True)
| served_longTermCacheSweeperInfo : served (longTermCacheSweeperInfo_method fuel) i32_valid dfc_valid
| served_sitewideLock : served (sitewideLock_method) i32_valid i32_valid
| served_sitewideUnlock : served (sitewideUnlock_method) i32_valid i32_valid.

Lemma served_servable m va vr : served m va vr → servable fuel (processMap fuel) m va vr.
Proof.
  pose proof i32_ok. pose proof text_ok. pose proof boolean_ok. pose proof string_map_ok.
  intros Hm. split.
  - by destruct Hm.
  - destruct Hm; struct_codec.
  - destruct Hm; simpl; try exact I; eexists; (split; [|first
      [ apply create_response_ok; done | apply data_response_ok; done | apply response_ok; done
      | apply open_ok; done | apply structure_response_ok; done | apply dfc_ok; done
      | eexists; apply text_ok | eexists; apply i32_ok | eexists; apply byte_ok ]]); lia.
  - destruct Hm; unfold throws_ok; simpl; eauto.
Qed.

(** C2: calling a method of VaeDb over the wire is calling it locally.  The
    client's message makes the server run the method on the same arguments,
    exactly once, and from the server's answer the client gets the value
    returned, the exception if the method declares it, and the text of any other
    exception; nothing of either message is left unread. *)
Theorem rpc_transparent m va vr args w r w' (p : P) :
  served m va vr → va args → runs (m_call m args) w r w' → fits what vr r → 1 ≤ depth p →
  transparent fuel what (processMap fuel) m args w r w' p.
Proof. intros Hm. by apply servable_transparent, served_servable. Qed.
End vaedb.
