(* ===== verification/Rubyd.v ===== *)
(** [gen-cpp/VaeRubyd.h] and [gen-cpp/VaeRubyd.cpp]: the service of the daemon
    that compiles Haml, Sass and SCSS, as tables for the bodies of [Rpc], and what
    its clients get. *)
From Stdlib Require Import ZArith.
From S2P Require Import Prelude Cpp Protocol ProtocolSpec ProtocolRef VaeTypes ThriftTypes ThriftSpec Rpc RpcSpec.

(** What the service asks of its implementation. *)
Class VaeRubydIf (W : Type) := {
  if_ping : eff W Z;
  if_fixDocRoot : string → eff W Z;
  if_haml : string → eff W string;
  if_sass : string → string → string → eff W string;
  if_scss : string → string → string → eff W string;
}.

(** An implementation that does nothing. *)
Definition VaeRubydNull {W} : VaeRubydIf W := {|
  if_ping := mret 0%Z;
  if_fixDocRoot _ := mret 0%Z;
  if_haml _ := mret "";
  if_sass _ _ _ := mret "";
  if_scss _ _ _ := mret "";
|}.

Section service.
Context {P W : Type} `{TProtocol P} `{VaeRubydIf W}.
Variable (fuel : nat) (what : exn → string).
Abbreviation method := (method (P := P) (W := W)).
Abbreviation process := (process fuel what).
Abbreviation client := (client fuel).

Definition ping_args : list (field (P := P) (unit)) :=
  [].
Definition ping_method : method :=
  Method "VaeRubyd" "ping" ping_args () (Returns byte) []
    (λ _, if_ping).
Definition process_ping : Z → eff (P * W) unit := process ping_method.

Definition fixDocRoot_args : list (field (P := P) string) :=
  [Field "path" 1 text (λ v, v) (λ v _, v)].
Definition fixDocRoot_method : method :=
  Method "VaeRubyd" "fixDocRoot" fixDocRoot_args "" (Returns byte) []
    if_fixDocRoot.
Definition process_fixDocRoot : Z → eff (P * W) unit := process fixDocRoot_method.

Definition haml_args : list (field (P := P) string) :=
  [Field "text" 1 text (λ v, v) (λ v _, v)].
Definition haml_method : method :=
  Method "VaeRubyd" "haml" haml_args "" (Returns text) [("se", DSyntax)]
    if_haml.
Definition process_haml : Z → eff (P * W) unit := process haml_method.

Definition sass_args : list (field (P := P) (string * string * string)) :=
  [Field "text" 1 text (λ '(v, _, _), v) (λ v '(_, x1, x2), (v, x1, x2));
   Field "load_path" 2 text (λ '(_, v, _), v) (λ v '(x0, _, x2), (x0, v, x2));
   Field "style" 3 text (λ '(_, _, v), v) (λ v '(x0, x1, _), (x0, x1, v))].
Definition sass_method : method :=
  Method "VaeRubyd" "sass" sass_args ("", "", "") (Returns text) [("se", DSyntax)]
    (λ '(x0, x1, x2), if_sass x0 x1 x2).
Definition process_sass : Z → eff (P * W) unit := process sass_method.

Definition scss_args : list (field (P := P) (string * string * string)) :=
  [Field "text" 1 text (λ '(v, _, _), v) (λ v '(_, x1, x2), (v, x1, x2));
   Field "load_path" 2 text (λ '(_, v, _), v) (λ v '(x0, _, x2), (x0, v, x2));
   Field "style" 3 text (λ '(_, _, v), v) (λ v '(x0, x1, _), (x0, x1, v))].
Definition scss_method : method :=
  Method "VaeRubyd" "scss" scss_args ("", "", "") (Returns text) [("se", DSyntax)]
    (λ '(x0, x1, x2), if_scss x0 x1 x2).
Definition process_scss : Z → eff (P * W) unit := process scss_method.

Definition processMap : list method :=
  [ping_method; fixDocRoot_method; haml_method; sass_method; scss_method].

Definition dispatchCall : string → Z → eff (P * W) unit := Rpc.dispatchCall fuel what processMap.

(** [VaeRubydClient]. *)
Definition client_ping : unit → eff P unit * eff P Z := client ping_method.
Definition client_fixDocRoot : string → eff P unit * eff P Z := client fixDocRoot_method.
Definition client_haml : string → eff P unit * eff P string := client haml_method.
Definition client_sass : (string * string * string) → eff P unit * eff P string := client sass_method.
Definition client_scss : (string * string * string) → eff P unit * eff P string := client scss_method.
End service.

Section calls.
Context {P W : Type} `{ProtocolLaws P} `{VaeRubydIf W}.
Variable (fuel : nat) (what : exn → string).
Abbreviation method := (method (P := P) (W := W)).
Hypothesis enough : 6 < fuel.

(** The methods, with what fits their types on the wire. *)
Inductive compiles : ∀ m : method, (m_args m → Prop) → (m_ret m → Prop) → Prop :=
| compiles_ping : compiles ping_method (λ _, True) byte_valid
| compiles_fixDocRoot : compiles fixDocRoot_method text_valid byte_valid
| compiles_haml : compiles haml_method text_valid text_valid
| compiles_sass : compiles sass_method
    (λ '(t, l, s), text_valid t ∧ text_valid l ∧ text_valid s) text_valid
| compiles_scss : compiles scss_method
    (λ '(t, l, s), text_valid t ∧ text_valid l ∧ text_valid s) text_valid.

Lemma compiles_servable m va vr : compiles m va vr → servable fuel processMap m va vr.
Proof.
  pose proof text_ok. intros Hm. split.
  - by destruct Hm.
  - destruct Hm; struct_codec.
  - destruct Hm; simpl; eexists; (split; [|first [eexists; apply text_ok | eexists; apply byte_ok]]); lia.
  - destruct Hm; unfold throws_ok; simpl; eauto.
Qed.

(** Calling a method of VaeRubyd over the wire is calling it locally: the
    value returned, a syntax error where the method declares it, and the text of
    any other exception arrive as the implementation gave them. *)
Theorem rubyd_transparent m va vr args w r w' (p : P) :
  compiles m va vr → va args → runs (m_call m args) w r w' → fits what vr r → 1 ≤ depth p →
  transparent fuel what processMap m args w r w' p.
Proof. intros Hm. by apply servable_transparent, compiles_servable. Qed.
End calls.

(** * A compiler that knows one mistake *)

#[local] Instance toy_compiler : VaeRubydIf nat := {
  if_ping := mret 0%Z;
  if_fixDocRoot _ := mret 1%Z;
  if_haml t := modify S;; (if decide (t = "%") then throw (SyntaxError "line 1") else mret t);
  if_sass t _ _ := modify S;; mret t;
  if_scss t _ _ := modify S;; mret t;
}.

Definition error_text (e : exn) : string := match e with ThriftError m => m | _ => "error" end.

Example rubyd_transparent_witness :
  ∃ call p' answer q' c', send haml_method "%" empty = (Ok (), p') ∧ outp p' = call ∧
    serve 9 error_text processMap (receive call, 0) = (Ok (), (q', 1)) ∧ outp q' = answer ∧
    recv 9 (haml_method (P := queues) (W := nat)) (receive answer) = (Throw (SyntaxError "line 1"), c').
Proof.
  destruct (rubyd_transparent 9 error_text ltac:(lia) (haml_method (P := queues) (W := nat)) _ _ "%" 0
    (inr (SyntaxError "line 1")) 1 empty compiles_haml) as (call & p' & E & O & Hserver).
  - vm_compute. reflexivity.
  - vm_compute. reflexivity.
  - split; vm_compute; reflexivity.
  - simpl. lia.
  - destruct (Hserver (receive call) []) as (answer & q' & Es & _ & Os & Hclient).
    { by rewrite app_nil_r. }
    { simpl. lia. }
    destruct (Hclient (receive answer) []) as (c' & Ec & _).
    { by rewrite app_nil_r. }
    exists call, p', answer, q', c'. split; [exact E|]. split; [exact O|]. split; [exact Es|].
    split; [exact Os|]. exact Ec.
Defined.
