(* ===== verification/Multiface.v ===== *)
(** [gen-cpp/VaeDb.h] and [gen-cpp/VaeRubyd.h]: implementations of a service as
    objects, and the classes that put them together: [Multiface], which forwards
    each call to several implementations, the factories, which give each
    connection its implementation, and the handlers of the server skeletons
    ([gen-cpp/VaeDb_server.skeleton.cpp], [gen-cpp/VaeRubyd_server.skeleton.cpp]).
    Here answers are returned by reference, as in the source: the
    implementations behind a [Multiface] work on one answer, one after the other. *)
From Stdlib Require Import ZArith.
From S2P Require Import Prelude Cpp VaeTypes ThriftTypes.
From S2P Require Processor Rubyd.

(** [*_return = m()]. *)
Definition assigning {W R} (m : eff W R) : eff (W * R) unit :=
  r ← outer m; set_local (λ _, r).

Definition discard {S A} (m : eff S A) : eff S unit := m;; mret ().

(** A line of output, with its newline. *)
Definition line (text : string) : string := text +:+ String "010" "".

(** * The body of the methods of a [Multiface] *)

Section forward.
Context {World A : Type}.
(** The call of each implementation. *)
Variable calls : list (eff World A).

(** [for (; i < (sz - 1); ++i) ifaces_[i]->m(...)]; with no implementation,
    [sz - 1] wraps around. *)
Fixpoint call_loop (fuel i : nat) : eff World nat :=
  match fuel with
  | O => no_fuel
  | S fuel =>
      if (Z.of_nat i <? size_t (Z.of_nat (length calls) - 1))%Z then
        c ← deref "ifaces_[i] beyond the end" (calls !! i); c;; call_loop fuel (i + 1)
      else mret i
  end.
Definition multi : eff World A :=
  i ← call_loop (length calls + 1) 0;
  c ← deref "ifaces_[i] beyond the end" (calls !! i); c.
End forward.

Section forward_spec.
Context {World A : Type}.

Lemma call_loop_spec (l : list (eff World A)) m (fuel i : nat) s :
  i ≤ length l → length l < fuel + i → (Z.of_nat (length l) < 2 ^ 64)%Z →
  call_loop (l ++ [m]) fuel i s = (for_each discard (drop i l);; mret (length l)) s.
Proof.
  intros Hi Hf Hl. revert i s Hi Hf. induction fuel as [|fuel IH]; intros i s Hi Hf; [lia|].
  cbn [call_loop]. rewrite length_app, size_t_id by (simpl; lia). case_match eqn:E.
  - apply Z.ltb_lt in E. simpl in E.
    destruct (lookup_lt_is_Some_2 l i) as [c Hc]; [lia|].
    rewrite (lookup_app_l_Some _ _ _ _ Hc). cbn [deref]. rewrite eff_bind_ret, (drop_S _ _ _ Hc).
    cbn [for_each]. change (discard c) with (c;; mret ()). rewrite !eff_bind_assoc. apply eff_bind_proper.
    intros a s1. rewrite eff_bind_ret, <- (Nat.add_1_r i). apply IH; lia.
  - apply Z.ltb_ge in E. simpl in E. rewrite drop_ge by lia. simpl.
    by replace i with (length l) by lia.
Qed.

(** All are called in order, and the answer is that of the last. *)
Lemma multi_spec (l : list (eff World A)) m s :
  (Z.of_nat (length l) < 2 ^ 64)%Z → multi (l ++ [m]) s = (for_each discard l;; m) s.
Proof.
  intros Hl. unfold multi, mbind at 1, eff_mbind, eff_bind at 1.
  rewrite call_loop_spec by (rewrite ?length_app; simpl; lia). rewrite drop_0.
  unfold mbind, eff_mbind, eff_bind. destruct (for_each discard l s) as [[] s']; [|done..].
  unfold mret, eff_mret, eff_ret. by rewrite lookup_app_r, Nat.sub_diag by done.
Qed.

(** With no implementation the call reads beyond the vector. *)
Lemma multi_empty s : multi (World := World) (A := A) [] s = (UB "ifaces_[i] beyond the end", s).
Proof. done. Qed.
End forward_spec.

(** ** Answers by reference and by value *)

Section references.
Context {W R : Type}.
Implicit Types (m : eff W R) (l : list (eff W R)).

Lemma assigning_run m w r0 :
  assigning m (w, r0) =
    let '(o, w') := m w in
    match o with
    | Ok r => (Ok (), (w', r)) | Throw e => (Throw e, (w', r0))
    | UB why => (UB why, (w', r0)) | OutOfFuel => (OutOfFuel, (w', r0))
    end.
Proof. unfold assigning, outer, mbind, eff_mbind, eff_bind. by destruct (m w) as [[] w']. Qed.

(** A caller that gives a new object gets what the call returns. *)
Lemma with_local_assigning m r0 w : with_local r0 (assigning m) w = m w.
Proof. unfold with_local. rewrite assigning_run. by destruct (m w) as [[] w']. Qed.

(** The answers of the others are dropped. *)
Lemma assigning_multi l m w r0 :
  (Z.of_nat (length l) < 2 ^ 64)%Z →
  assigning (multi (l ++ [m])) (w, r0) =
    (for_each (λ m, outer (discard m)) l;; assigning m) (w, r0).
Proof.
  intros Hl. rewrite assigning_run, multi_spec by done. clear Hl. revert w.
  induction l as [|m' l IH]; intros w; cbn [for_each].
  - by rewrite !eff_bind_ret, assigning_run.
  - unfold assigning, outer, discard, mbind, eff_mbind, eff_bind in *.
    destruct (m' w) as [[] w']; [apply IH|done..].
Qed.

(** Implementations that assign the answer: the last one's stays. *)
Lemma with_local_each l m r0 w :
  with_local r0 (for_each assigning l;; assigning m) w = (for_each discard l;; m) w.
Proof.
  revert r0 w. induction l as [|m' l IH]; intros r0 w; cbn [for_each].
  - rewrite eff_bind_ret. rewrite <- (with_local_assigning m r0 w). done.
  - unfold with_local, assigning, outer, set_local, discard, mbind, eff_mbind, eff_bind in *.
    destruct (m' w) as [[r| | |] w']; [apply IH|done..].
Qed.
End references.

Lemma discard_unit {S} (m : eff S unit) s : discard m s = m s.
Proof. unfold discard, mbind, eff_mbind, eff_bind. by destruct (m s) as [[[]| | |] ?]. Qed.

Lemma for_each_map {S A B} (f : A → eff S unit) (g : B → A) l s :
  for_each f (g <$> l) s = for_each (λ x, f (g x)) l s.
Proof. revert s. induction l as [|x l IH]; intros s; csimpl; [done|]. by apply eff_bind_proper. Qed.
Lemma for_each_proper {S A} (f g : A → eff S unit) l s :
  (∀ x s, f x s = g x s) → for_each f l s = for_each g l s.
Proof.
  intros Hfg. revert s. induction l as [|x l IH]; intros s; cbn [for_each]; [done|].
  unfold mbind, eff_mbind, eff_bind. rewrite Hfg. by destruct (g x s) as [[] ?].
Qed.

(** The same with the implementations in place of the calls. *)
Lemma multi_refs {W R H} (f : H → eff (W * R) unit) hs h s :
  (Z.of_nat (length hs) < 2 ^ 64)%Z →
  multi (f <$> hs ++ [h]) s = (for_each f hs;; f h) s.
Proof.
  intros Hl. rewrite fmap_app. change (f <$> [h]) with [f h]. rewrite multi_spec by (by rewrite length_fmap).
  unfold mbind at 1 2, eff_mbind, eff_bind. rewrite for_each_map.
  by rewrite (for_each_proper _ f _ _ (λ h s, discard_unit (f h) s)).
Qed.
Lemma multi_values {W R H} (f : H → eff W R) hs h w r0 :
  (Z.of_nat (length hs) < 2 ^ 64)%Z →
  assigning (multi (f <$> hs ++ [h])) (w, r0) =
    (for_each (λ h, outer (discard (f h))) hs;; assigning (f h)) (w, r0).
Proof.
  intros Hl. rewrite fmap_app. change (f <$> [h]) with [f h]. rewrite assigning_multi by (by rewrite length_fmap).
  unfold mbind at 1 2, eff_mbind, eff_bind. by rewrite for_each_map.
Qed.

(** * VaeDb *)

(** An implementation: what the source returns by reference is part of the state
    of a call, and an exception leaves it as it is by then. *)
Record VaeDbIf (W : Type) := {
  db_ping : eff W Z;
  db_closeSession : Z → string → eff W unit;
  db_createInfo : Z → Z → string → eff (W * VaeDbCreateInfoResponse) unit;
  db_data : Z → Z → eff (W * VaeDbDataResponse) unit;
  db_get : Z → Z → string → gmap string string → eff (W * VaeDbResponse) unit;
  db_openSession : string → string → bool → Z → eff (W * VaeDbOpenSessionResponse) unit;
  db_resetSite : string → string → eff W unit;
  db_structure : Z → Z → eff (W * VaeDbStructureResponse) unit;
  db_sessionCacheGet : Z → string → eff (W * string) unit;
  db_sessionCacheSet : Z → string → string → eff W unit;
  db_sessionCacheDelete : Z → string → eff W unit;
  db_shortTermCacheGet : Z → string → Z → eff (W * string) unit;
  db_shortTermCacheSet : Z → string → string → Z → Z → eff W unit;
  db_shortTermCacheDelete : Z → string → eff W unit;
  db_longTermCacheGet : Z → string → Z → Z → eff (W * string) unit;
  db_longTermCacheSet : Z → string → string → Z → Z → eff W unit;
  db_longTermCacheDelete : Z → string → eff W unit;
  db_longTermCacheEmpty : Z → eff W unit;
  db_longTermCacheSweeperInfo : Z → eff (W * VaeDbDataForContext) unit;
  db_sitewideLock : Z → eff W Z;
  db_sitewideUnlock : Z → eff W Z;
}.
Arguments db_ping {W} _.
Arguments db_closeSession {W} _ _ _.
Arguments db_createInfo {W} _ _ _ _.
Arguments db_data {W} _ _ _.
Arguments db_get {W} _ _ _ _ _.
Arguments db_openSession {W} _ _ _ _ _.
Arguments db_resetSite {W} _ _ _.
Arguments db_structure {W} _ _ _.
Arguments db_sessionCacheGet {W} _ _ _.
Arguments db_sessionCacheSet {W} _ _ _ _.
Arguments db_sessionCacheDelete {W} _ _ _.
Arguments db_shortTermCacheGet {W} _ _ _ _.
Arguments db_shortTermCacheSet {W} _ _ _ _ _ _.
Arguments db_shortTermCacheDelete {W} _ _ _.
Arguments db_longTermCacheGet {W} _ _ _ _ _.
Arguments db_longTermCacheSet {W} _ _ _ _ _ _.
Arguments db_longTermCacheDelete {W} _ _ _.
Arguments db_longTermCacheEmpty {W} _ _.
Arguments db_longTermCacheSweeperInfo {W} _ _.
Arguments db_sitewideLock {W} _ _.
Arguments db_sitewideUnlock {W} _ _.

(** The calls of the interface and what they return. *)
Inductive db_call : Type → Type :=
| db_ping_call : db_call Z
| db_closeSession_call (x0 : Z) (x1 : string) : db_call unit
| db_createInfo_call (x0 : Z) (x1 : Z) (x2 : string) : db_call VaeDbCreateInfoResponse
| db_data_call (x0 x1 : Z) : db_call VaeDbDataResponse
| db_get_call (x0 : Z) (x1 : Z) (x2 : string) (x3 : gmap string string) : db_call VaeDbResponse
| db_openSession_call (x0 : string) (x1 : string) (x2 : bool) (x3 : Z) : db_call VaeDbOpenSessionResponse
| db_resetSite_call (x0 x1 : string) : db_call unit
| db_structure_call (x0 x1 : Z) : db_call VaeDbStructureResponse
| db_sessionCacheGet_call (x0 : Z) (x1 : string) : db_call string
| db_sessionCacheSet_call (x0 : Z) (x1 : string) (x2 : string) : db_call unit
| db_sessionCacheDelete_call (x0 : Z) (x1 : string) : db_call unit
| db_shortTermCacheGet_call (x0 : Z) (x1 : string) (x2 : Z) : db_call string
| db_shortTermCacheSet_call (x0 : Z) (x1 : string) (x2 : string) (x3 : Z) (x4 : Z) : db_call unit
| db_shortTermCacheDelete_call (x0 : Z) (x1 : string) : db_call unit
| db_longTermCacheGet_call (x0 : Z) (x1 : string) (x2 : Z) (x3 : Z) : db_call string
| db_longTermCacheSet_call (x0 : Z) (x1 : string) (x2 : string) (x3 : Z) (x4 : Z) : db_call unit
| db_longTermCacheDelete_call (x0 : Z) (x1 : string) : db_call unit
| db_longTermCacheEmpty_call (x0 : Z) : db_call unit
| db_longTermCacheSweeperInfo_call (x0 : Z) : db_call VaeDbDataForContext
| db_sitewideLock_call (x0 : Z) : db_call Z
| db_sitewideUnlock_call (x0 : Z) : db_call Z.

(** The object that a caller constructs for the answer. *)
Definition db_new {R} (c : db_call R) : R :=
  match c with
  | db_ping_call => 0%Z
  | db_closeSession_call _ _ => ()
  | db_createInfo_call _ _ _ => {| create_contexts := [] |}
  | db_data_call _ _ => {| data_contexts := [] |}
  | db_get_call _ _ _ _ => VaeDbResponse_default
  | db_openSession_call _ _ _ _ => VaeDbOpenSessionResponse_default
  | db_resetSite_call _ _ => ()
  | db_structure_call _ _ => {| structure_contexts := [] |}
  | db_sessionCacheGet_call _ _ => ""
  | db_sessionCacheSet_call _ _ _ => ()
  | db_sessionCacheDelete_call _ _ => ()
  | db_shortTermCacheGet_call _ _ _ => ""
  | db_shortTermCacheSet_call _ _ _ _ _ => ()
  | db_shortTermCacheDelete_call _ _ => ()
  | db_longTermCacheGet_call _ _ _ _ => ""
  | db_longTermCacheSet_call _ _ _ _ _ => ()
  | db_longTermCacheDelete_call _ _ => ()
  | db_longTermCacheEmpty_call _ => ()
  | db_longTermCacheSweeperInfo_call _ => {| dfc_data := ∅ |}
  | db_sitewideLock_call _ => 0%Z
  | db_sitewideUnlock_call _ => 0%Z
  end.

Section db.
Context {W : Type}.

(** A call with [_return] as the second part of the state; what is returned by
    value is assigned to it by the caller. *)
Definition db_invoke (h : VaeDbIf W) {R} (c : db_call R) : eff (W * R) unit :=
  match c with
  | db_ping_call => assigning (db_ping h)
  | db_closeSession_call x0 x1 => assigning (db_closeSession h x0 x1)
  | db_createInfo_call x0 x1 x2 => db_createInfo h x0 x1 x2
  | db_data_call x0 x1 => db_data h x0 x1
  | db_get_call x0 x1 x2 x3 => db_get h x0 x1 x2 x3
  | db_openSession_call x0 x1 x2 x3 => db_openSession h x0 x1 x2 x3
  | db_resetSite_call x0 x1 => assigning (db_resetSite h x0 x1)
  | db_structure_call x0 x1 => db_structure h x0 x1
  | db_sessionCacheGet_call x0 x1 => db_sessionCacheGet h x0 x1
  | db_sessionCacheSet_call x0 x1 x2 => assigning (db_sessionCacheSet h x0 x1 x2)
  | db_sessionCacheDelete_call x0 x1 => assigning (db_sessionCacheDelete h x0 x1)
  | db_shortTermCacheGet_call x0 x1 x2 => db_shortTermCacheGet h x0 x1 x2
  | db_shortTermCacheSet_call x0 x1 x2 x3 x4 => assigning (db_shortTermCacheSet h x0 x1 x2 x3 x4)
  | db_shortTermCacheDelete_call x0 x1 => assigning (db_shortTermCacheDelete h x0 x1)
  | db_longTermCacheGet_call x0 x1 x2 x3 => db_longTermCacheGet h x0 x1 x2 x3
  | db_longTermCacheSet_call x0 x1 x2 x3 x4 => assigning (db_longTermCacheSet h x0 x1 x2 x3 x4)
  | db_longTermCacheDelete_call x0 x1 => assigning (db_longTermCacheDelete h x0 x1)
  | db_longTermCacheEmpty_call x0 => assigning (db_longTermCacheEmpty h x0)
  | db_longTermCacheSweeperInfo_call x0 => db_longTermCacheSweeperInfo h x0
  | db_sitewideLock_call x0 => assigning (db_sitewideLock h x0)
  | db_sitewideUnlock_call x0 => assigning (db_sitewideUnlock h x0)
  end.

(** ** [VaeDbMultiface] *)

Definition VaeDbMultiface_of (ifaces : list (VaeDbIf W)) : VaeDbIf W := {|
  db_ping := multi ((λ h, db_ping h) <$> ifaces);
  db_closeSession x0 x1 := multi ((λ h, db_closeSession h x0 x1) <$> ifaces);
  db_createInfo x0 x1 x2 := multi ((λ h, db_createInfo h x0 x1 x2) <$> ifaces);
  db_data x0 x1 := multi ((λ h, db_data h x0 x1) <$> ifaces);
  db_get x0 x1 x2 x3 := multi ((λ h, db_get h x0 x1 x2 x3) <$> ifaces);
  db_openSession x0 x1 x2 x3 := multi ((λ h, db_openSession h x0 x1 x2 x3) <$> ifaces);
  db_resetSite x0 x1 := multi ((λ h, db_resetSite h x0 x1) <$> ifaces);
  db_structure x0 x1 := multi ((λ h, db_structure h x0 x1) <$> ifaces);
  db_sessionCacheGet x0 x1 := multi ((λ h, db_sessionCacheGet h x0 x1) <$> ifaces);
  db_sessionCacheSet x0 x1 x2 := multi ((λ h, db_sessionCacheSet h x0 x1 x2) <$> ifaces);
  db_sessionCacheDelete x0 x1 := multi ((λ h, db_sessionCacheDelete h x0 x1) <$> ifaces);
  db_shortTermCacheGet x0 x1 x2 := multi ((λ h, db_shortTermCacheGet h x0 x1 x2) <$> ifaces);
  db_shortTermCacheSet x0 x1 x2 x3 x4 := multi ((λ h, db_shortTermCacheSet h x0 x1 x2 x3 x4) <$> ifaces);
  db_shortTermCacheDelete x0 x1 := multi ((λ h, db_shortTermCacheDelete h x0 x1) <$> ifaces);
  db_longTermCacheGet x0 x1 x2 x3 := multi ((λ h, db_longTermCacheGet h x0 x1 x2 x3) <$> ifaces);
  db_longTermCacheSet x0 x1 x2 x3 x4 := multi ((λ h, db_longTermCacheSet h x0 x1 x2 x3 x4) <$> ifaces);
  db_longTermCacheDelete x0 x1 := multi ((λ h, db_longTermCacheDelete h x0 x1) <$> ifaces);
  db_longTermCacheEmpty x0 := multi ((λ h, db_longTermCacheEmpty h x0) <$> ifaces);
  db_longTermCacheSweeperInfo x0 := multi ((λ h, db_longTermCacheSweeperInfo h x0) <$> ifaces);
  db_sitewideLock x0 := multi ((λ h, db_sitewideLock h x0) <$> ifaces);
  db_sitewideUnlock x0 := multi ((λ h, db_sitewideUnlock h x0) <$> ifaces);
|}.

(** ** Implementations that return a new answer *)

Definition VaeDbIf_of_class (h : Processor.VaeDbIf W) : VaeDbIf W := {|
  db_ping := Processor.if_ping;
  db_closeSession x0 x1 := Processor.if_closeSession x0 x1;
  db_createInfo x0 x1 x2 := assigning (Processor.if_createInfo x0 x1 x2);
  db_data x0 x1 := assigning (Processor.if_data x0 x1);
  db_get x0 x1 x2 x3 := assigning (Processor.if_get x0 x1 x2 x3);
  db_openSession x0 x1 x2 x3 := assigning (Processor.if_openSession x0 x1 x2 x3);
  db_resetSite x0 x1 := Processor.if_resetSite x0 x1;
  db_structure x0 x1 := assigning (Processor.if_structure x0 x1);
  db_sessionCacheGet x0 x1 := assigning (Processor.if_sessionCacheGet x0 x1);
  db_sessionCacheSet x0 x1 x2 := Processor.if_sessionCacheSet x0 x1 x2;
  db_sessionCacheDelete x0 x1 := Processor.if_sessionCacheDelete x0 x1;
  db_shortTermCacheGet x0 x1 x2 := assigning (Processor.if_shortTermCacheGet x0 x1 x2);
  db_shortTermCacheSet x0 x1 x2 x3 x4 := Processor.if_shortTermCacheSet x0 x1 x2 x3 x4;
  db_shortTermCacheDelete x0 x1 := Processor.if_shortTermCacheDelete x0 x1;
  db_longTermCacheGet x0 x1 x2 x3 := assigning (Processor.if_longTermCacheGet x0 x1 x2 x3);
  db_longTermCacheSet x0 x1 x2 x3 x4 := Processor.if_longTermCacheSet x0 x1 x2 x3 x4;
  db_longTermCacheDelete x0 x1 := Processor.if_longTermCacheDelete x0 x1;
  db_longTermCacheEmpty x0 := Processor.if_longTermCacheEmpty x0;
  db_longTermCacheSweeperInfo x0 := assigning (Processor.if_longTermCacheSweeperInfo x0);
  db_sitewideLock x0 := Processor.if_sitewideLock x0;
  db_sitewideUnlock x0 := Processor.if_sitewideUnlock x0;
|}.

(** The answer, for a caller that gives a new object: [process_<method>]. *)
Definition VaeDbIf_to_class (h : VaeDbIf W) : Processor.VaeDbIf W := {|
  Processor.if_ping := db_ping h;
  Processor.if_closeSession x0 x1 := db_closeSession h x0 x1;
  Processor.if_createInfo x0 x1 x2 := with_local {| create_contexts := [] |} (db_createInfo h x0 x1 x2);
  Processor.if_data x0 x1 := with_local {| data_contexts := [] |} (db_data h x0 x1);
  Processor.if_get x0 x1 x2 x3 := with_local VaeDbResponse_default (db_get h x0 x1 x2 x3);
  Processor.if_openSession x0 x1 x2 x3 := with_local VaeDbOpenSessionResponse_default (db_openSession h x0 x1 x2 x3);
  Processor.if_resetSite x0 x1 := db_resetSite h x0 x1;
  Processor.if_structure x0 x1 := with_local {| structure_contexts := [] |} (db_structure h x0 x1);
  Processor.if_sessionCacheGet x0 x1 := with_local "" (db_sessionCacheGet h x0 x1);
  Processor.if_sessionCacheSet x0 x1 x2 := db_sessionCacheSet h x0 x1 x2;
  Processor.if_sessionCacheDelete x0 x1 := db_sessionCacheDelete h x0 x1;
  Processor.if_shortTermCacheGet x0 x1 x2 := with_local "" (db_shortTermCacheGet h x0 x1 x2);
  Processor.if_shortTermCacheSet x0 x1 x2 x3 x4 := db_shortTermCacheSet h x0 x1 x2 x3 x4;
  Processor.if_shortTermCacheDelete x0 x1 := db_shortTermCacheDelete h x0 x1;
  Processor.if_longTermCacheGet x0 x1 x2 x3 := with_local "" (db_longTermCacheGet h x0 x1 x2 x3);
  Processor.if_longTermCacheSet x0 x1 x2 x3 x4 := db_longTermCacheSet h x0 x1 x2 x3 x4;
  Processor.if_longTermCacheDelete x0 x1 := db_longTermCacheDelete h x0 x1;
  Processor.if_longTermCacheEmpty x0 := db_longTermCacheEmpty h x0;
  Processor.if_longTermCacheSweeperInfo x0 := with_local {| dfc_data := ∅ |} (db_longTermCacheSweeperInfo h x0);
  Processor.if_sitewideLock x0 := db_sitewideLock h x0;
  Processor.if_sitewideUnlock x0 := db_sitewideUnlock h x0;
|}.
Definition db_by_class (h : Processor.VaeDbIf W) {R} (c : db_call R) : eff W R :=
  match c with
  | db_ping_call => Processor.if_ping
  | db_closeSession_call x0 x1 => Processor.if_closeSession x0 x1
  | db_createInfo_call x0 x1 x2 => Processor.if_createInfo x0 x1 x2
  | db_data_call x0 x1 => Processor.if_data x0 x1
  | db_get_call x0 x1 x2 x3 => Processor.if_get x0 x1 x2 x3
  | db_openSession_call x0 x1 x2 x3 => Processor.if_openSession x0 x1 x2 x3
  | db_resetSite_call x0 x1 => Processor.if_resetSite x0 x1
  | db_structure_call x0 x1 => Processor.if_structure x0 x1
  | db_sessionCacheGet_call x0 x1 => Processor.if_sessionCacheGet x0 x1
  | db_sessionCacheSet_call x0 x1 x2 => Processor.if_sessionCacheSet x0 x1 x2
  | db_sessionCacheDelete_call x0 x1 => Processor.if_sessionCacheDelete x0 x1
  | db_shortTermCacheGet_call x0 x1 x2 => Processor.if_shortTermCacheGet x0 x1 x2
  | db_shortTermCacheSet_call x0 x1 x2 x3 x4 => Processor.if_shortTermCacheSet x0 x1 x2 x3 x4
  | db_shortTermCacheDelete_call x0 x1 => Processor.if_shortTermCacheDelete x0 x1
  | db_longTermCacheGet_call x0 x1 x2 x3 => Processor.if_longTermCacheGet x0 x1 x2 x3
  | db_longTermCacheSet_call x0 x1 x2 x3 x4 => Processor.if_longTermCacheSet x0 x1 x2 x3 x4
  | db_longTermCacheDelete_call x0 x1 => Processor.if_longTermCacheDelete x0 x1
  | db_longTermCacheEmpty_call x0 => Processor.if_longTermCacheEmpty x0
  | db_longTermCacheSweeperInfo_call x0 => Processor.if_longTermCacheSweeperInfo x0
  | db_sitewideLock_call x0 => Processor.if_sitewideLock x0
  | db_sitewideUnlock_call x0 => Processor.if_sitewideUnlock x0
  end.

(** [VaeDbNull] leaves what it is given. *)
Definition VaeDbNull_by_ref : VaeDbIf W := {|
  db_ping := mret 0%Z;
  db_closeSession _ _ := mret ();
  db_createInfo _ _ _ := mret ();
  db_data _ _ := mret ();
  db_get _ _ _ _ := mret ();
  db_openSession _ _ _ _ := mret ();
  db_resetSite _ _ := mret ();
  db_structure _ _ := mret ();
  db_sessionCacheGet _ _ := mret ();
  db_sessionCacheSet _ _ _ := mret ();
  db_sessionCacheDelete _ _ := mret ();
  db_shortTermCacheGet _ _ _ := mret ();
  db_shortTermCacheSet _ _ _ _ _ := mret ();
  db_shortTermCacheDelete _ _ := mret ();
  db_longTermCacheGet _ _ _ _ := mret ();
  db_longTermCacheSet _ _ _ _ _ := mret ();
  db_longTermCacheDelete _ _ := mret ();
  db_longTermCacheEmpty _ := mret ();
  db_longTermCacheSweeperInfo _ := mret ();
  db_sitewideLock _ := mret 0%Z;
  db_sitewideUnlock _ := mret 0%Z;
|}.

(** ** The handler of the server skeleton *)

(** It prints the name of the method; the functions that should return a number
    end without a [return]. *)
Definition VaeDbHandler_skeleton (printf : string → eff W unit) : VaeDbIf W := {|
  db_ping := printf (line "ping");; ub "no return";
  db_closeSession _ _ := printf (line "closeSession");
  db_createInfo _ _ _ := outer (printf (line "createInfo"));
  db_data _ _ := outer (printf (line "data"));
  db_get _ _ _ _ := outer (printf (line "get"));
  db_openSession _ _ _ _ := outer (printf (line "openSession"));
  db_resetSite _ _ := printf (line "resetSite");
  db_structure _ _ := outer (printf (line "structure"));
  db_sessionCacheGet _ _ := outer (printf (line "sessionCacheGet"));
  db_sessionCacheSet _ _ _ := printf (line "sessionCacheSet");
  db_sessionCacheDelete _ _ := printf (line "sessionCacheDelete");
  db_shortTermCacheGet _ _ _ := outer (printf (line "shortTermCacheGet"));
  db_shortTermCacheSet _ _ _ _ _ := printf (line "shortTermCacheSet");
  db_shortTermCacheDelete _ _ := printf (line "shortTermCacheDelete");
  db_longTermCacheGet _ _ _ _ := outer (printf (line "longTermCacheGet"));
  db_longTermCacheSet _ _ _ _ _ := printf (line "longTermCacheSet");
  db_longTermCacheDelete _ _ := printf (line "longTermCacheDelete");
  db_longTermCacheEmpty _ := printf (line "longTermCacheEmpty");
  db_longTermCacheSweeperInfo _ := outer (printf (line "longTermCacheSweeperInfo"));
  db_sitewideLock _ := printf (line "sitewideLock");; ub "no return";
  db_sitewideUnlock _ := printf (line "sitewideUnlock");; ub "no return";
|}.

(** The call of an implementation that is not the last: what it returns by value
    is dropped. *)
Definition db_forward (h : VaeDbIf W) {R} (c : db_call R) : eff (W * R) unit :=
  match c with
  | db_ping_call => outer (discard (db_ping h))
  | db_closeSession_call x0 x1 => outer (discard (db_closeSession h x0 x1))
  | db_createInfo_call x0 x1 x2 => db_createInfo h x0 x1 x2
  | db_data_call x0 x1 => db_data h x0 x1
  | db_get_call x0 x1 x2 x3 => db_get h x0 x1 x2 x3
  | db_openSession_call x0 x1 x2 x3 => db_openSession h x0 x1 x2 x3
  | db_resetSite_call x0 x1 => outer (discard (db_resetSite h x0 x1))
  | db_structure_call x0 x1 => db_structure h x0 x1
  | db_sessionCacheGet_call x0 x1 => db_sessionCacheGet h x0 x1
  | db_sessionCacheSet_call x0 x1 x2 => outer (discard (db_sessionCacheSet h x0 x1 x2))
  | db_sessionCacheDelete_call x0 x1 => outer (discard (db_sessionCacheDelete h x0 x1))
  | db_shortTermCacheGet_call x0 x1 x2 => db_shortTermCacheGet h x0 x1 x2
  | db_shortTermCacheSet_call x0 x1 x2 x3 x4 => outer (discard (db_shortTermCacheSet h x0 x1 x2 x3 x4))
  | db_shortTermCacheDelete_call x0 x1 => outer (discard (db_shortTermCacheDelete h x0 x1))
  | db_longTermCacheGet_call x0 x1 x2 x3 => db_longTermCacheGet h x0 x1 x2 x3
  | db_longTermCacheSet_call x0 x1 x2 x3 x4 => outer (discard (db_longTermCacheSet h x0 x1 x2 x3 x4))
  | db_longTermCacheDelete_call x0 x1 => outer (discard (db_longTermCacheDelete h x0 x1))
  | db_longTermCacheEmpty_call x0 => outer (discard (db_longTermCacheEmpty h x0))
  | db_longTermCacheSweeperInfo_call x0 => db_longTermCacheSweeperInfo h x0
  | db_sitewideLock_call x0 => outer (discard (db_sitewideLock h x0))
  | db_sitewideUnlock_call x0 => outer (discard (db_sitewideUnlock h x0))
  end.

Lemma db_of_class_invoke h {R} (c : db_call R) s :
  db_invoke (VaeDbIf_of_class h) c s = assigning (db_by_class h c) s.
Proof. by destruct c. Qed.

Lemma db_to_class_new h {R} (c : db_call R) w :
  db_by_class (VaeDbIf_to_class h) c w = with_local (db_new c) (db_invoke h c) w.
Proof. destruct c; simpl; try done; by rewrite with_local_assigning. Qed.

Lemma db_multiface hs h {R} (c : db_call R) w _return :
  (Z.of_nat (length hs) < 2 ^ 64)%Z →
  db_invoke (VaeDbMultiface_of (hs ++ [h])) c (w, _return) =
    (for_each (λ h, db_forward h c) hs;; db_invoke h c) (w, _return).
Proof.
  intros Hl. destruct c; cbn -[multi for_each fmap app mbind assigning outer discard];
    first [exact (multi_refs _ hs h (w, _return) Hl)|exact (multi_values _ hs h w _return Hl)].
Qed.

End db.

(** * VaeRubyd *)

(** An implementation: what the source returns by reference is part of the state
    of a call, and an exception leaves it as it is by then. *)
Record VaeRubydIf (W : Type) := {
  rb_ping : eff W Z;
  rb_fixDocRoot : string → eff W Z;
  rb_haml : string → eff (W * string) unit;
  rb_sass : string → string → string → eff (W * string) unit;
  rb_scss : string → string → string → eff (W * string) unit;
}.
Arguments rb_ping {W} _.
Arguments rb_fixDocRoot {W} _ _.
Arguments rb_haml {W} _ _.
Arguments rb_sass {W} _ _ _ _.
Arguments rb_scss {W} _ _ _ _.

(** The calls of the interface and what they return. *)
Inductive rb_call : Type → Type :=
| rb_ping_call : rb_call Z
| rb_fixDocRoot_call (x0 : string) : rb_call Z
| rb_haml_call (x0 : string) : rb_call string
| rb_sass_call (x0 x1 x2 : string) : rb_call string
| rb_scss_call (x0 x1 x2 : string) : rb_call string.

(** The object that a caller constructs for the answer. *)
Definition rb_new {R} (c : rb_call R) : R :=
  match c with
  | rb_ping_call => 0%Z
  | rb_fixDocRoot_call _ => 0%Z
  | rb_haml_call _ => ""
  | rb_sass_call _ _ _ => ""
  | rb_scss_call _ _ _ => ""
  end.

Section rb.
Context {W : Type}.

(** A call with [_return] as the second part of the state; what is returned by
    value is assigned to it by the caller. *)
Definition rb_invoke (h : VaeRubydIf W) {R} (c : rb_call R) : eff (W * R) unit :=
  match c with
  | rb_ping_call => assigning (rb_ping h)
  | rb_fixDocRoot_call x0 => assigning (rb_fixDocRoot h x0)
  | rb_haml_call x0 => rb_haml h x0
  | rb_sass_call x0 x1 x2 => rb_sass h x0 x1 x2
  | rb_scss_call x0 x1 x2 => rb_scss h x0 x1 x2
  end.

(** ** [VaeRubydMultiface] *)

Definition VaeRubydMultiface_of (ifaces : list (VaeRubydIf W)) : VaeRubydIf W := {|
  rb_ping := multi ((λ h, rb_ping h) <$> ifaces);
  rb_fixDocRoot x0 := multi ((λ h, rb_fixDocRoot h x0) <$> ifaces);
  rb_haml x0 := multi ((λ h, rb_haml h x0) <$> ifaces);
  rb_sass x0 x1 x2 := multi ((λ h, rb_sass h x0 x1 x2) <$> ifaces);
  rb_scss x0 x1 x2 := multi ((λ h, rb_scss h x0 x1 x2) <$> ifaces);
|}.

(** ** Implementations that return a new answer *)

Definition VaeRubydIf_of_class (h : Rubyd.VaeRubydIf W) : VaeRubydIf W := {|
  rb_ping := Rubyd.if_ping;
  rb_fixDocRoot x0 := Rubyd.if_fixDocRoot x0;
  rb_haml x0 := assigning (Rubyd.if_haml x0);
  rb_sass x0 x1 x2 := assigning (Rubyd.if_sass x0 x1 x2);
  rb_scss x0 x1 x2 := assigning (Rubyd.if_scss x0 x1 x2);
|}.

(** The answer, for a caller that gives a new object: [process_<method>]. *)
Definition VaeRubydIf_to_class (h : VaeRubydIf W) : Rubyd.VaeRubydIf W := {|
  Rubyd.if_ping := rb_ping h;
  Rubyd.if_fixDocRoot x0 := rb_fixDocRoot h x0;
  Rubyd.if_haml x0 := with_local "" (rb_haml h x0);
  Rubyd.if_sass x0 x1 x2 := with_local "" (rb_sass h x0 x1 x2);
  Rubyd.if_scss x0 x1 x2 := with_local "" (rb_scss h x0 x1 x2);
|}.
Definition rb_by_class (h : Rubyd.VaeRubydIf W) {R} (c : rb_call R) : eff W R :=
  match c with
  | rb_ping_call => Rubyd.if_ping
  | rb_fixDocRoot_call x0 => Rubyd.if_fixDocRoot x0
  | rb_haml_call x0 => Rubyd.if_haml x0
  | rb_sass_call x0 x1 x2 => Rubyd.if_sass x0 x1 x2
  | rb_scss_call x0 x1 x2 => Rubyd.if_scss x0 x1 x2
  end.

(** [VaeRubydNull] leaves what it is given. *)
Definition VaeRubydNull_by_ref : VaeRubydIf W := {|
  rb_ping := mret 0%Z;
  rb_fixDocRoot _ := mret 0%Z;
  rb_haml _ := mret ();
  rb_sass _ _ _ := mret ();
  rb_scss _ _ _ := mret ();
|}.

(** ** The handler of the server skeleton *)

(** It prints the name of the method; the functions that should return a number
    end without a [return]. *)
Definition VaeRubydHandler_skeleton (printf : string → eff W unit) : VaeRubydIf W := {|
  rb_ping := printf (line "ping");; ub "no return";
  rb_fixDocRoot _ := printf (line "fixDocRoot");; ub "no return";
  rb_haml _ := outer (printf (line "haml"));
  rb_sass _ _ _ := outer (printf (line "sass"));
  rb_scss _ _ _ := outer (printf (line "scss"));
|}.

(** The call of an implementation that is not the last: what it returns by value
    is dropped. *)
Definition rb_forward (h : VaeRubydIf W) {R} (c : rb_call R) : eff (W * R) unit :=
  match c with
  | rb_ping_call => outer (discard (rb_ping h))
  | rb_fixDocRoot_call x0 => outer (discard (rb_fixDocRoot h x0))
  | rb_haml_call x0 => rb_haml h x0
  | rb_sass_call x0 x1 x2 => rb_sass h x0 x1 x2
  | rb_scss_call x0 x1 x2 => rb_scss h x0 x1 x2
  end.

Lemma rb_of_class_invoke h {R} (c : rb_call R) s :
  rb_invoke (VaeRubydIf_of_class h) c s = assigning (rb_by_class h c) s.
Proof. by destruct c. Qed.

Lemma rb_to_class_new h {R} (c : rb_call R) w :
  rb_by_class (VaeRubydIf_to_class h) c w = with_local (rb_new c) (rb_invoke h c) w.
Proof. destruct c; simpl; try done; by rewrite with_local_assigning. Qed.

Lemma rb_multiface hs h {R} (c : rb_call R) w _return :
  (Z.of_nat (length hs) < 2 ^ 64)%Z →
  rb_invoke (VaeRubydMultiface_of (hs ++ [h])) c (w, _return) =
    (for_each (λ h, rb_forward h c) hs;; rb_invoke h c) (w, _return).
Proof.
  intros Hl. destruct c; cbn -[multi for_each fmap app mbind assigning outer discard];
    first [exact (multi_refs _ hs h (w, _return) Hl)|exact (multi_values _ hs h w _return Hl)].
Qed.

End rb.

(** * What a [Multiface] does *)

Section promises.
Context {W : Type}.

Lemma values_by_ref {R H} (f : H → eff W R) hs h r0 w :
  (Z.of_nat (length hs) < 2 ^ 64)%Z →
  with_local r0 (multi ((λ h, assigning (f h)) <$> hs ++ [h])) w
  = (for_each (λ h, discard (f h)) hs;; f h) w.
Proof.
  intros Hl. unfold with_local. rewrite multi_refs by done.
  pose proof (with_local_each (f <$> hs) (f h) r0 w) as E. unfold with_local in E.
  unfold mbind at 2, eff_mbind, eff_bind in E. rewrite (for_each_map discard f) in E.
  unfold mbind at 2, eff_mbind, eff_bind. rewrite <- E.
  unfold mbind, eff_mbind, eff_bind. by rewrite (for_each_map assigning f).
Qed.
Lemma values_by_value {R H} (f : H → eff W R) hs h w :
  (Z.of_nat (length hs) < 2 ^ 64)%Z →
  multi (f <$> hs ++ [h]) w = (for_each (λ h, discard (f h)) hs;; f h) w.
Proof.
  intros Hl. rewrite fmap_app. change (f <$> [h]) with [f h]. rewrite multi_spec by (by rewrite length_fmap).
  unfold mbind, eff_mbind, eff_bind. by rewrite (for_each_map discard f).
Qed.

(** C39: a [VaeDbMultiface] of implementations that each return a new answer
    runs every one of them on the same arguments, in their order, until one
    throws; the answer is that of the last one. *)
Theorem vaedb_multiface (hs : list (Processor.VaeDbIf W)) h {R} (c : db_call R) w :
  (Z.of_nat (length hs) < 2 ^ 64)%Z →
  db_by_class (VaeDbIf_to_class (VaeDbMultiface_of (VaeDbIf_of_class <$> hs ++ [h]))) c w
  = (for_each (λ h, discard (db_by_class h c)) hs;; db_by_class h c) w.
Proof.
  intros Hl. destruct c;
    cbn -[multi for_each fmap app mbind assigning with_local discard];
    rewrite <- list_fmap_compose;
    first [exact (values_by_ref _ hs h _ w Hl)|exact (values_by_value _ hs h w Hl)].
Qed.

(** The same for the compiling daemon. *)
Theorem vaerubyd_multiface (hs : list (Rubyd.VaeRubydIf W)) h {R} (c : rb_call R) w :
  (Z.of_nat (length hs) < 2 ^ 64)%Z →
  rb_by_class (VaeRubydIf_to_class (VaeRubydMultiface_of (VaeRubydIf_of_class <$> hs ++ [h]))) c w
  = (for_each (λ h, discard (rb_by_class h c)) hs;; rb_by_class h c) w.
Proof.
  intros Hl. destruct c;
    cbn -[multi for_each fmap app mbind assigning with_local discard];
    rewrite <- list_fmap_compose;
    first [exact (values_by_ref _ hs h _ w Hl)|exact (values_by_value _ hs h w Hl)].
Qed.

(** Without an implementation every call is undefined. *)
Lemma vaedb_multiface_empty {R} (c : db_call R) (w : W) r0 :
  db_invoke (VaeDbMultiface_of []) c (w, r0) = (UB "ifaces_[i] beyond the end", (w, r0)).
Proof. by destruct c. Qed.
Lemma vaerubyd_multiface_empty {R} (c : rb_call R) (w : W) r0 :
  rb_invoke (VaeRubydMultiface_of []) c (w, r0) = (UB "ifaces_[i] beyond the end", (w, r0)).
Proof. by destruct c. Qed.

(** Giving a new object to [VaeDbNull] is [VaeDbNull] of [Processor]. *)
Lemma vaedb_null {R} (c : db_call R) (w : W) :
  db_by_class (VaeDbIf_to_class VaeDbNull_by_ref) c w = db_by_class Processor.VaeDbNull c w.
Proof. by destruct c. Qed.
Lemma vaerubyd_null {R} (c : rb_call R) (w : W) :
  rb_by_class (VaeRubydIf_to_class VaeRubydNull_by_ref) c w = rb_by_class Rubyd.VaeRubydNull c w.
Proof. by destruct c. Qed.
End promises.

(** * Factories *)

(** [Conn] is what the server knows of a connection, [F] the state of the
    factory and [Iface] a pointer to an implementation. *)
Section factories.
Context {Conn F Iface : Type}.

(** [VaeDbIfFactory], [VaeRubydIfFactory]. *)
Record IfFactory := {
  getHandler : Conn → eff F Iface;
  releaseHandler : Iface → eff F unit;
}.

(** [VaeDbIfSingletonFactory], [VaeRubydIfSingletonFactory]. *)
Definition IfSingletonFactory (iface_ : Iface) : IfFactory := {|
  getHandler _ := mret iface_;
  releaseHandler _ := mret ();
|}.

(** The processor of a connection holds its implementation; [cleanup] gives the
    implementation back when the processor is destroyed. *)
Record connection := { handler : Iface; cleanup : eff F unit }.

(** [VaeDbProcessorFactory::getProcessor], [VaeRubydProcessorFactory::getProcessor]. *)
Definition getProcessor (handlerFactory_ : IfFactory) (connInfo : Conn) : eff F connection :=
  h ← getHandler handlerFactory_ connInfo;
  mret {| handler := h; cleanup := releaseHandler handlerFactory_ h |}.

(** One implementation for every connection, which no connection ends. *)
Lemma singleton_getProcessor iface_ connInfo s :
  ∃ c, getProcessor (IfSingletonFactory iface_) connInfo s = (Ok c, s) ∧
    handler c = iface_ ∧ cleanup c s = (Ok (), s).
Proof. by eexists. Qed.
End factories.

(** * Two skeleton servers behind one [Multiface] *)

Module Demo.
Definition printf (text : string) : eff (list string) unit := modify (λ out, out ++ [text]).
Definition handler : Processor.VaeDbIf (list string) :=
  VaeDbIf_to_class (VaeDbHandler_skeleton printf).
End Demo.

Example vaedb_multiface_witness :
  db_by_class (VaeDbIf_to_class (VaeDbMultiface_of (VaeDbIf_of_class <$> [Demo.handler; Demo.handler])))
    (db_get_call 1 2 "/artist" ∅) [] = (Ok VaeDbResponse_default, [line "get"; line "get"]).
Proof. exact (vaedb_multiface [Demo.handler] Demo.handler (db_get_call 1 2 "/artist" ∅) [] eq_refl). Defined.

(** [printf("ping\n")] is all that the skeleton does before [ping] ends without a
    value. *)
Example skeleton_ping : Processor.if_ping (VaeDbIf := Demo.handler) [] = (UB "no return", [line "ping"]).
Proof. reflexivity. Qed.
