(* ===== verification/Objects.v ===== *)
(** The objects of the classes that the Thrift compiler generates
    ([gen-cpp/vae_types.h], [gen-cpp/VaeDb.h], [gen-cpp/VaeRubyd.h]): a value and
    the bits of [__isset].  [ThriftTypes] and [Rpc] work on values; here are the
    operations of the objects around them, and what the bits say.  The bits inside
    members that are objects themselves are left out. *)
From Stdlib Require Import ZArith.
From S2P Require Import Prelude Cpp Protocol ProtocolSpec VaeTypes ThriftTypes Rpc RpcSpec.

(** The members, and the numbers of those whose bit is set. *)
Record object (S : Type) := Object { members : S; isset : gset Z }.
Arguments Object {S} _ _.
Arguments members {S} _.
Arguments isset {S} _.

(** [a.m == b.m]. *)
Definition same {S A} `{EqDecision A} (get : S → A) (a b : S) : bool := bool_decide (get a = get b).

Section classes.
Context {P : Type} `{TProtocol P}.
Variable fuel : nat.
Abbreviation field := (field (P := P)).

(** A class: its members with what [read] and [write] do with them, the values
    that the constructor gives them, and the comparisons of [operator==]. *)
Record class (S : Type) := Class {
  cls_name : string; cls_members : list (field S); cls_default : S; cls_compare : list (S → S → bool);
}.
Arguments Class {S} _ _ _ _.
Arguments cls_name {S} _.
Arguments cls_members {S} _.
Arguments cls_default {S} _.
Arguments cls_compare {S} _.

Definition construct {S} (c : class S) : object S := Object (cls_default c) ∅.

(** [__set_m]: the bit does not change. *)
Definition __set {S} (m : field S) (val : f_value m) (this : object S) : object S :=
  Object (f_set m val (members this)) (isset this).

(** [operator==] and [operator!=]. *)
Definition equal {S} (c : class S) (this rhs : object S) : bool :=
  forallb (λ e, e (members this) (members rhs)) (cls_compare c).
Definition not_equal {S} (c : class S) (this rhs : object S) : bool := negb (equal c this rhs).

(** [operator=], one member after the other, then [__isset]; the copying
    constructor does the same to a new object. *)
Definition assign {S} (c : class S) (other this : object S) : object S :=
  let copied := foldl (λ this m, __set m (f_get m (members other)) this) this (cls_members c) in
  Object (members copied) (isset other).
Definition copy {S} (c : class S) (other : object S) : object S := assign c other (construct c).

(** [swap(a.m, b.m)] and [swap(a.__isset, b.__isset)]; [a] and [b] are references
    into [st], perhaps to the same object. *)
Definition swap_member {S} (a b : positive) (m : field S) (st : gmap positive (object S))
    : gmap positive (object S) :=
  match st !! a, st !! b with
  | Some x, Some y =>
      alter (__set m (f_get m (members x))) b (alter (__set m (f_get m (members y))) a st)
  | _, _ => st
  end.
Definition swap_isset {S} (a b : positive) (st : gmap positive (object S)) : gmap positive (object S) :=
  match st !! a, st !! b with
  | Some x, Some y =>
      alter (λ o, Object (members o) (isset x)) b (alter (λ o, Object (members o) (isset y)) a st)
  | _, _ => st
  end.
Definition swap {S} (c : class S) (a b : positive) (st : gmap positive (object S))
    : gmap positive (object S) :=
  swap_isset a b (foldl (λ st m, swap_member a b m st) st (cls_members c)).

(** [this->m = ...; this->__isset.m = true] and reading the member. *)
Definition with_isset {S} (m : field S) : field (object S) :=
  Field (f_name m) (f_id m) (f_codec m) (λ o, f_get m (members o))
    (λ v o, Object (f_set m v (members o)) ({[f_id m]} ∪ isset o)).

Definition read {S} (c : class S) : object S → eff P (object S) :=
  read_struct fuel (with_isset <$> cls_members c).
Definition write {S} (c : class S) : object S → eff P unit :=
  write_struct (cls_name c) (with_isset <$> cls_members c).

(** * Values *)

(** The same members. *)
Definition agree {S} (c : class S) (a b : S) : Prop := ∀ m, m ∈ cls_members c → f_get m a = f_get m b.

(** The members are independent of each other, and are what is compared. *)
Record lawful {S} (c : class S) : Prop := {
  law_ids : NoDup (f_id <$> cls_members c);
  law_get_set m v s : m ∈ cls_members c → f_get m (f_set m v s) = v;
  law_get_other m n v s : m ∈ cls_members c → n ∈ cls_members c → f_id m ≠ f_id n →
    f_get m (f_set n v s) = f_get m s;
  law_set_get m s : m ∈ cls_members c → f_set m (f_get m s) s = s;
  law_compare a b : forallb (λ e, e a b) (cls_compare c) = true ↔ agree c a b;
}.
(** There is nothing else in a value. *)
Definition whole {S} (c : class S) : Prop :=
  ∀ s this, foldl (λ this m, f_set m (f_get m s) this) this (cls_members c) = s.

Lemma equal_spec {S} (c : class S) a b : lawful c → equal c a b = true ↔ agree c (members a) (members b).
Proof. intros Hc. apply (law_compare c Hc). Qed.

Lemma set_members {S} (l : list (field S)) (v : S) (this : object S) :
  members (foldl (λ this m, __set m (f_get m v) this) this l)
  = foldl (λ this m, f_set m (f_get m v) this) (members this) l.
Proof. revert this. induction l as [|m l IH]; intros this; [done|]. apply IH. Qed.

Lemma set_members_get {S} (c : class S) (l : list (field S)) (v this : S) m :
  lawful c → (∀ n, n ∈ l → n ∈ cls_members c) → NoDup (f_id <$> l) →
  (m ∈ l → f_get m (foldl (λ this m, f_set m (f_get m v) this) this l) = f_get m v) ∧
  (m ∈ cls_members c → f_id m ∉ f_id <$> l →
   f_get m (foldl (λ this m, f_set m (f_get m v) this) this l) = f_get m this).
Proof.
  intros Hc. revert this. induction l as [|n l IH]; intros this Hsub Hnd; [by split; [intros ?%elem_of_nil|]|].
  csimpl in *. apply NoDup_cons in Hnd as [Hn Hnd].
  destruct (IH (f_set n (f_get n v) this)) as [Hin Hout]; [intros; apply Hsub; by right|done|].
  assert (n ∈ cls_members c) as Hnc by (apply Hsub; by left). split.
  - intros [->|Hm]%elem_of_cons; [|by apply Hin]. rewrite Hout by done. by apply (law_get_set c Hc).
  - intros Hm [Hne Hnot]%not_elem_of_cons. rewrite Hout by done. by apply (law_get_other c Hc).
Qed.

Lemma assign_agree {S} (c : class S) other this :
  lawful c → agree c (members (assign c other this)) (members other) ∧ isset (assign c other this) = isset other.
Proof.
  intros Hc. split; [|done]. intros m Hm. unfold assign. simpl. rewrite set_members.
  by apply (set_members_get c (cls_members c)); [..|apply (law_ids c Hc)|].
Qed.
Lemma assign_eq {S} (c : class S) other this : whole c → assign c other this = other.
Proof.
  intros Hc. unfold assign. rewrite set_members, Hc. by destruct other.
Qed.

Lemma sets_proper {S} (l : list (field S)) (v v' : S) (this : object S) :
  (∀ m, m ∈ l → f_get m v = f_get m v') →
  foldl (λ this m, __set m (f_get m v) this) this l = foldl (λ this m, __set m (f_get m v') this) this l.
Proof.
  revert this. induction l as [|m l IH]; intros this Hv; [done|]. simpl.
  rewrite <- (Hv m (list_elem_of_here m l)). apply IH. intros n ?. apply Hv. by right.
Qed.

(** What [swap] has done after some of the members, on different objects. *)
Lemma swap_members_distinct {S} (l : list (field S)) i j st x y :
  i ≠ j → st !! i = Some x → st !! j = Some y →
  (∀ m v s, m ∈ l → f_get m (f_set m v s) = v) →
  (∀ m n v s, m ∈ l → n ∈ l → f_id m ≠ f_id n → f_get m (f_set n v s) = f_get m s) →
  NoDup (f_id <$> l) →
  foldl (λ st m, swap_member i j m st) st l
  = <[i := foldl (λ o m, __set m (f_get m (members y)) o) x l]>
      (<[j := foldl (λ o m, __set m (f_get m (members x)) o) y l]> st).
Proof.
  intros Hij. revert st x y. induction l as [|m l IH]; intros st x y Hx Hy Hget Hother Hnd; simpl.
  { rewrite (insert_id st) by done. by rewrite insert_id by done. }
  cbn in Hnd. apply NoDup_cons in Hnd as [Hm Hnd].
  assert (swap_member i j m st
    = <[i := __set m (f_get m (members y)) x]> (<[j := __set m (f_get m (members x)) y]> st)) as ->.
  { unfold swap_member. rewrite Hx, Hy. apply map_eq. intros k.
    destruct (decide (k = i)) as [->|]; [|destruct (decide (k = j)) as [->|]].
    - by rewrite lookup_alter_ne, lookup_alter_eq, lookup_insert_eq, Hx by done.
    - by rewrite lookup_alter_eq, lookup_alter_ne, lookup_insert_ne, lookup_insert_eq, Hy by done.
    - by rewrite !lookup_alter_ne, !lookup_insert_ne by done. }
  erewrite (IH _ (__set m (f_get m (members y)) x) (__set m (f_get m (members x)) y));
    [|by rewrite lookup_insert_eq|by rewrite lookup_insert_ne, lookup_insert_eq by done| | |done].
  - assert (∀ (z w : object S) v, foldl (λ o n, __set n (f_get n (members (__set m v z))) o) w l
      = foldl (λ o n, __set n (f_get n (members z)) o) w l) as Hfold.
    { intros z w v. apply sets_proper. intros n Hn. simpl. apply Hother; [by right|by left|].
      intros E. apply Hm. rewrite <- E. by apply list_elem_of_fmap_2. }
    rewrite !Hfold. apply map_eq. intros k.
    destruct (decide (k = i)) as [->|]; [by rewrite !lookup_insert_eq|].
    rewrite !(lookup_insert_ne _ i) by done.
    destruct (decide (k = j)) as [->|]; [by rewrite !lookup_insert_eq|].
    by rewrite !lookup_insert_ne by done.
  - intros n v s Hn. apply Hget. by right.
  - intros n n' v s Hn Hn'. apply Hother; by right.
Qed.

Lemma swap_same {S} (c : class S) i st : lawful c → swap c i i st = st.
Proof.
  intros Hc. assert (∀ m, m ∈ cls_members c → swap_member i i m st = st) as Hm.
  { intros m Hm. unfold swap_member. destruct (st !! i) as [[v b]|] eqn:Hi; [|done].
    apply map_eq. intros k. destruct (decide (k = i)) as [->|]; [|by rewrite !lookup_alter_ne].
    rewrite !lookup_alter_eq, Hi. unfold __set. simpl. by rewrite !(law_set_get c Hc). }
  unfold swap. replace (foldl (λ st m, swap_member i i m st) st (cls_members c)) with st.
  - unfold swap_isset. destruct (st !! i) as [[v b]|] eqn:Hi; [|done].
    apply map_eq. intros k. destruct (decide (k = i)) as [->|]; [|by rewrite !lookup_alter_ne].
    by rewrite !lookup_alter_eq, Hi.
  - induction (cls_members c) as [|m l IH]; [done|]. simpl. rewrite Hm by by left.
    apply IH. intros n ?. apply Hm. by right.
Qed.

(** Two references, perhaps to one object: their objects change places. *)
Lemma swap_eq {S} (c : class S) i j st x y :
  lawful c → whole c → st !! i = Some x → st !! j = Some y → swap c i j st = <[i := y]> (<[j := x]> st).
Proof.
  intros Hc Hw Hx Hy. destruct (decide (i = j)) as [->|Hij].
  { rewrite swap_same by done. assert (x = y) as -> by congruence. rewrite (insert_id st) by done. by rewrite insert_id. }
  unfold swap. rewrite (swap_members_distinct _ i j st x y); [|done..| | |apply Hc].
  - assert (∀ v w : object S, members (foldl (λ o m, __set m (f_get m (members v)) o) w (cls_members c))
      = members v) as Hv by (intros; by rewrite set_members, Hw).
    set (x' := foldl _ x _). set (y' := foldl _ y _). apply map_eq. intros k. unfold swap_isset.
    rewrite lookup_insert_eq, lookup_insert_ne, lookup_insert_eq by done.
    assert (isset x' = isset x ∧ isset y' = isset y) as [Hix Hiy].
    { assert (∀ l (v : S) w, isset (foldl (λ o m, __set m (f_get m v) o) w l) = isset w) as Hi; [|by split; apply Hi].
      induction l as [|m l IH]; intros v w; [done|]. simpl. by rewrite IH. }
    destruct (decide (k = i)) as [->|]; [|destruct (decide (k = j)) as [->|]].
    + rewrite lookup_alter_ne, lookup_alter_eq, !lookup_insert_eq by done. simpl. rewrite Hiy. unfold x'.
      rewrite Hv. by destruct y.
    + rewrite lookup_alter_eq, lookup_alter_ne, !lookup_insert_ne, !lookup_insert_eq by done. simpl. rewrite Hix.
      unfold y'. rewrite Hv, lookup_insert_ne, lookup_insert_eq by done. by destruct x.
    + rewrite (lookup_alter_ne _ _ j k), (lookup_alter_ne _ _ i k) by done. by rewrite !(lookup_insert_ne _ i), !(lookup_insert_ne _ j).
  - intros m v s. apply (law_get_set c Hc).
  - intros m n v s. apply (law_get_other c Hc).
Qed.

(** * What the bits say *)

Abbreviation plain c := (cls_members c).

(** The number of the field that an item of the wire holds. *)
Definition item_id (ts : list token) : option (TType * Z) :=
  match ts with KField t i :: _ => Some (t, i) | _ => None end.

(** The items that the class has a member for. *)
Definition recognised {S} (c : class S) (its : list (list token)) : gset Z :=
  list_to_set (f_id <$> base.filter (λ m, Some (c_type (f_codec m), f_id m) ∈ item_id <$> its) (plain c)).

Lemma elem_of_recognised {S} (c : class S) its i :
  i ∈ recognised c its ↔
  ∃ m, m ∈ plain c ∧ f_id m = i ∧ Some (c_type (f_codec m), i) ∈ item_id <$> its.
Proof.
  unfold recognised. rewrite elem_of_list_to_set, list_elem_of_fmap. split.
  - intros (m & -> & [Hin Hm]%list_elem_of_filter). by exists m.
  - intros (m & Hm & <- & Hin). exists m. split; [done|]. by apply list_elem_of_filter.
Qed.
Lemma recognised_cons {S} (c : class S) ts its :
  recognised c (ts :: its) = recognised c [ts] ∪ recognised c its.
Proof.
  apply set_eq. intros i. rewrite elem_of_union, !elem_of_recognised. csimpl. split.
  - intros (m & Hm & Hi & [E|Hin]%elem_of_cons); [left|right]; exists m; [|done].
    split; [done|]. split; [done|]. by apply list_elem_of_singleton.
  - intros [(m & Hm & Hi & E)|(m & Hm & Hi & Hin)]; exists m; (split; [done|]; split; [done|]);
      apply elem_of_cons; [left; by apply list_elem_of_singleton|by right].
Qed.
End classes.
Arguments Class {P S} _ _ _ _.
Arguments cls_name {P S} _.
Arguments cls_members {P S} _.
Arguments cls_default {P S} _.
Arguments cls_compare {P S} _.

Section reading.
Context {P : Type} `{ProtocolLaws P}.
Variable fuel : nat.
Abbreviation class := (class (P := P)).
Abbreviation plain c := (cls_members c).

(** An item on the wire does to the members of an object what it does to a value,
    and sets the bit of a member that it has. *)
Lemma item_object {S} (c : class S) ts u :
  lawful c → item (plain c) ts u →
  ∃ u', item (with_isset <$> plain c) ts u' ∧
    ∀ o, members (u' o) = u (members o) ∧ isset (u' o) = isset o ∪ recognised c [ts] ∧
      ∀ m, m ∈ plain c → f_id m ∉ recognised c [ts] → f_get m (members (u' o)) = f_get m (members o).
Proof.
  intros Hc Hu. destruct Hu as [f v ts Hf Ht Hr|t i ts Hv Hs].
  - exists (f_set (with_isset f) v). split.
    { apply (item_known _ (with_isset f) v ts); [by apply list_elem_of_fmap_2|done|done]. }
    assert (recognised c [KField (c_type (f_codec f)) (f_id f) :: ts ++ [KFieldEnd]] = {[f_id f]}) as Hrec.
    { apply set_eq. intros i. rewrite elem_of_recognised, elem_of_singleton. csimpl.
      setoid_rewrite list_elem_of_singleton. split; [by intros (m & _ & _ & [= _ ->])|]. intros ->. by exists f. }
    intros o. rewrite Hrec. split; [done|]. split; [unfold with_isset; simpl; by rewrite (comm_L (∪))|].
    intros m Hm Hi. apply (law_get_other c Hc); [done..|]. intros E. by apply Hi, elem_of_singleton.
  - exists id. split.
    { apply item_skipped; [done|]. intros f Hf. apply list_elem_of_fmap in Hf as (m & -> & Hm). by apply Hs. }
    assert (recognised c [KField t i :: ts ++ [KFieldEnd]] = ∅) as ->.
    { apply set_eq. intros j. rewrite elem_of_recognised. csimpl. setoid_rewrite list_elem_of_singleton.
      split; [|set_solver]. intros (m & Hm & <- & [= Et Ei]). by destruct (Hs m Hm Ei). }
    intros o. split; [done|]. split; [|done]. by rewrite (right_id_L ∅ (∪)).
Qed.

Lemma items_object {S} (c : class S) its us :
  lawful c → Forall2 (item (plain c)) its us →
  ∃ us', Forall2 (item (with_isset <$> plain c)) its us' ∧
    ∀ o, let o' := foldl (λ o u, u o) o us' in
      members o' = foldl (λ s u, u s) (members o) us ∧ isset o' = isset o ∪ recognised c its ∧
      ∀ m, m ∈ plain c → f_id m ∉ recognised c its → f_get m (members o') = f_get m (members o).
Proof.
  intros Hc. induction 1 as [|ts u its us Hu _ (us' & Hus & Hall)].
  - exists []. split; [constructor|]. intros o. split; [done|]. split; [|done].
    assert (recognised c [] = ∅) as ->; [|by rewrite (right_id_L ∅ (∪))].
    apply set_eq. intros i. rewrite elem_of_recognised. split; [|done]. by intros (m & _ & _ & Hin%elem_of_nil).
  - destruct (item_object c ts u Hc Hu) as (u' & Hu' & Hone). exists (u' :: us'). split; [by constructor|].
    intros o. simpl. destruct (Hone o) as (Hm & Hi & Hg). destruct (Hall (u' o)) as (Hm' & Hi' & Hg').
    split; [by rewrite Hm', Hm|]. split; [by rewrite Hi', Hi, (recognised_cons c ts its), (assoc_L (∪))|].
    intros m Hin. rewrite (recognised_cons c ts its), not_elem_of_union. intros [H1' H2']. etrans; [by apply Hg'|by apply Hg].
Qed.

Lemma with_isset_ids {S} (c : class S) : lawful c → NoDup (f_id <$> (with_isset <$> plain c)).
Proof. intros Hc. rewrite <- list_fmap_compose. apply (law_ids c Hc). Qed.

Lemma read_items {S} (c : class S) its us this :
  lawful c → Forall2 (item (plain c)) its us → length its < fuel →
  ∃ o, consumes (read fuel c this) (KStruct :: concat its ++ [KStop; KStructEnd]) o ∧
    members o = foldl (λ s u, u s) (members this) us ∧ isset o = isset this ∪ recognised c its ∧
    ∀ m, m ∈ plain c → f_id m ∉ recognised c its → f_get m (members o) = f_get m (members this).
Proof.
  intros Hc Hits Hf. destruct (items_object c its us Hc Hits) as (us' & Hus & Ho).
  exists (foldl (λ o u, u o) this us'). split; [|apply Ho].
  apply read_struct_items; [by apply with_isset_ids|done|done].
Qed.
End reading.
