(* ===== verification/Results.v ===== *)
(** The argument and result objects in the generated functions of a service: the
    bits of [__isset] decide what a reply holds and what a client returns or
    throws.  [Rpc] has values without bits; it is shown that the functions with
    objects do the same. *)
From Stdlib Require Import ZArith.
From S2P Require Import Prelude Cpp Protocol ProtocolSpec VaeTypes ThriftTypes Rpc RpcSpec Objects.

(** The members of a result; those that the class does not have stay as they are. *)
Record result_value (R : Type) := {
  v_success : R; v_internal : string; v_query : string; v_syntax : string;
}.
Arguments v_success {R} _.
Arguments v_internal {R} _.
Arguments v_query {R} _.
Arguments v_syntax {R} _.
#[export] Instance result_value_eq_dec {R} `{EqDecision R} : EqDecision (result_value R).
Proof. solve_decision. Defined.

Definition put_success {R} (v : R) (s : result_value R) : result_value R :=
  {| v_success := v; v_internal := v_internal s; v_query := v_query s; v_syntax := v_syntax s |}.
Definition v_thrown {R} (d : declared) (s : result_value R) : string :=
  match d with DInternal => v_internal s | DQuery => v_query s | DSyntax => v_syntax s end.
Definition put_thrown {R} (d : declared) (v : string) (s : result_value R) : result_value R :=
  match d with
  | DInternal => {| v_success := v_success s; v_internal := v; v_query := v_query s; v_syntax := v_syntax s |}
  | DQuery => {| v_success := v_success s; v_internal := v_internal s; v_query := v; v_syntax := v_syntax s |}
  | DSyntax => {| v_success := v_success s; v_internal := v_internal s; v_query := v_query s; v_syntax := v |}
  end.

Section objects.
Context {P W : Type} `{TProtocol P}.
Variable (fuel : nat) (what : exn → string).
Abbreviation method := (method (P := P) (W := W)).
Abbreviation field := (field (P := P)).

(** ** The classes of a method *)

(** [VaeDb_<name>_args]; its comparisons are in the tables of the services. *)
Definition args_class (m : method) (compare : list (m_args m → m_args m → bool)) : class (m_args m) :=
  Class (m_service m +:+ "_" +:+ m_name m +:+ "_args") (m_fields m) (m_default m) compare.

Definition success_member {R} (c : codec (P := P) R) : field (result_value R) :=
  Field "success" 0 c v_success put_success.
Definition thrown_member {R} (id : Z) (t : string * declared) : field (result_value R) :=
  Field t.1 id (codec_of fuel t.2) (v_thrown t.2) (put_thrown t.2).
Definition result_members (m : method) : list (field (result_value (m_ret m))) :=
  match m_returns m with Void => [] | Returns c => [success_member c] end
  ++ imap (λ i, thrown_member (Z.of_nat i + 1)) (m_throws m).

(** What the members of a new result hold: [_return] is the object that the
    caller of a client gives, or a new one. *)
Definition new_result {R} (_return : R) : object (result_value R) :=
  Object {| v_success := _return; v_internal := ""; v_query := ""; v_syntax := "" |} ∅.
Definition new_return (m : method) : m_ret m :=
  match m_returns m in returns _ R return R with Void => () | Returns c => c_default c end.

(** [VaeDb_<name>_result]. *)
Definition result_class (m : method) (compare : list (result_value (m_ret m) → result_value (m_ret m) → bool))
    : class (result_value (m_ret m)) :=
  Class (m_service m +:+ "_" +:+ m_name m +:+ "_result") (result_members m)
    (members (new_result (new_return m))) compare.

Definition has {R} (i : Z) (o : object (result_value R)) : bool := bool_decide (i ∈ isset o).

(** ** The server *)

(** The [else if] chain of [write]. *)
Fixpoint write_thrown {R} (o : object (result_value R)) (id : Z) (throws : list (string * declared)) : eff P unit :=
  match throws with
  | [] => mret ()
  | t :: throws' =>
      if has id o then write_field o (with_isset (thrown_member id t)) else write_thrown o (id + 1) throws'
  end.
Definition write_result (m : method) (o : object (result_value (m_ret m))) : eff P unit :=
  writeStructBegin (m_service m +:+ "_" +:+ m_name m +:+ "_result");;
  match m_returns m in returns _ R return object (result_value R) → eff P unit with
  | Void => λ o, write_thrown o 1 (m_throws m)
  | Returns c => λ o,
      if has 0 o then write_field o (with_isset (success_member c)) else write_thrown o 1 (m_throws m)
  end o;;
  writeFieldStop;; writeStructEnd.

(** The number of the member for this exception. *)
Fixpoint thrown_id (d : declared) (id : Z) (throws : list (string * declared)) : option Z :=
  match throws with
  | [] => None
  | t :: throws' => if decide (t.2 = d) then Some id else thrown_id d (id + 1) throws'
  end.

(** The [try] block: [result.success = iface_->m(...); result.__isset.success =
    true], without the bit for a method that returns nothing, or
    [result.e = e; result.__isset.e = true]; no object when the text of an
    application exception is written. *)
Definition filled (m : method) (r : m_ret m + exn) (result : object (result_value (m_ret m)))
    : object (result_value (m_ret m)) + string :=
  match r with
  | inl a =>
      inl (Object (put_success a (members result))
             (match m_returns m with Void => isset result | Returns _ => {[0%Z]} ∪ isset result end))
  | inr e =>
      match declared_of e with
      | Some (d, message) =>
          match thrown_id d 1 (m_throws m) with
          | Some id => inl (Object (put_thrown d message (members result)) ({[id]} ∪ isset result))
          | None => inr (what e)
          end
      | None => inr (what e)
      end
  end.

Definition process_call (m : method) (seqid : Z) : eff (P * W) unit :=
  let args := construct (args_class m []) in
  args ← on_protocol (read fuel (args_class m []) args);
  on_protocol readMessageEnd;; on_protocol readEnd;;
  r ← try_catch (on_iface (m_call m (members args)));
  match filled m r (new_result (new_return m)) with
  | inl result => on_protocol (reply (m_name m) T_REPLY seqid (write_result m result))
  | inr text => on_protocol (reply (m_name m) T_EXCEPTION seqid (write_exception text))
  end.

(** ** The client *)

(** [if (result.__isset.e) throw result.e]. *)
Fixpoint thrown_by {R} (result : object (result_value R)) (id : Z) (throws : list (string * declared)) : option exn :=
  match throws with
  | [] => None
  | (_, d) :: throws' =>
      if has id result then Some (exn_of d (v_thrown d (members result)))
      else thrown_by result (id + 1) throws'
  end.

(** [recv_<name>]; [_return] is what [result.success] points to. *)
Definition recv_reply (m : method) (_return : m_ret m) : eff P (m_ret m) :=
  '(fname, mtype, rseqid) ← readMessageBegin;
  if decide (mtype = T_EXCEPTION) then
    x ← read_exception; readMessageEnd;; readEnd;; throw (ThriftError x)
  else
    when (negb (bool_decide (mtype = T_REPLY))) drop_message;;
    when (negb (bool_decide (fname = m_name m))) drop_message;;
    result ← read fuel (result_class m []) (new_result _return);
    readMessageEnd;; readEnd;;
    match m_returns m in returns _ R return object (result_value R) → eff P R with
    | Void => λ result, match thrown_by result 1 (m_throws m) with Some e => throw e | None => mret () end
    | Returns _ => λ result,
        if has 0 result then mret (v_success (members result))
        else throw (default (missing_result m) (thrown_by result 1 (m_throws m)))
    end result.

(** * With and without bits *)

(** [m] and [m'] do the same to the protocol; the result of [m] satisfies [I] and
    [α] of it is the result of [m']. *)
Definition reflects {S A B} (α : A → B) (I : A → Prop) (m : eff S A) (m' : eff S B) : Prop := ∀ s,
  m' s = (α <$> (m s).1, (m s).2) ∧ ∀ a, (m s).1 = Ok a → I a.

Lemma reflects_ret {S A B} (α : A → B) (I : A → Prop) a b :
  I a → b = α a → reflects (S := S) α I (mret a) (mret b).
Proof. intros Ha -> s. split; [done|]. by intros ? [= <-]. Qed.
Lemma reflects_same {S A B C} (α : B → C) (I : B → Prop) (m : eff S A) k k' :
  (∀ a, reflects α I (k a) (k' a)) → reflects α I (m ≫= k) (m ≫= k').
Proof.
  intros Hk s. unfold mbind, eff_mbind, eff_bind. destruct (m s) as [[a| | |] s']; [apply Hk|by split..].
Qed.
Lemma reflects_bind {S A B C D} (α : A → B) (I : A → Prop) (β : C → D) (J : C → Prop)
    (m : eff S A) (m' : eff S B) k k' :
  reflects α I m m' → (∀ a, I a → reflects β J (k a) (k' (α a))) → reflects β J (m ≫= k) (m' ≫= k').
Proof.
  intros Hm Hk s. destruct (Hm s) as [E Ha]. unfold mbind, eff_mbind, eff_bind. rewrite E.
  destruct (m s) as [[a| | |] s']; simpl; [by apply Hk, Ha|by split..].
Qed.

(** A member [f] of an object does what [g] does to its view by [α]. *)
Record member_reflects {A B} (α : A → B) (I : A → Prop) (f : field A) (g : field B) : Prop := {
  same_id : f_id f = f_id g;
  same_type : c_type (f_codec f) = c_type (f_codec g);
  same_read a : I a → reflects α I (v ← c_read (f_codec f) (f_get f a); mret (f_set f v a))
                                    (v ← c_read (f_codec g) (f_get g (α a)); mret (f_set g v (α a)));
}.

Section reflected.
Context {A B : Type} (α : A → B) (I : A → Prop) (fs : list (field A)) (gs : list (field B)).
Hypothesis Hfs : Forall2 (member_reflects α I) fs gs.

Lemma read_field_reflects ftype fid a :
  I a → reflects α I (read_field fs ftype fid a) (read_field gs ftype fid (α a)).
Proof.
  intros Ha. induction Hfs as [|f g fs' gs' Hf Hfs' IH]; simpl.
  { apply reflects_same. intros _. by apply reflects_ret. }
  rewrite <- (same_id _ _ _ _ Hf), <- (same_type _ _ _ _ Hf).
  case_decide; [|by apply (IH Hfs')]. case_decide; [by apply Hf|].
  apply reflects_same. intros _. by apply reflects_ret.
Qed.
Lemma read_fields_reflects n a : I a → reflects α I (read_fields n fs a) (read_fields n gs (α a)).
Proof.
  revert a. induction n as [|n IH]; intros a Ha; [by intros s|]. simpl.
  apply reflects_same. intros [ftype fid]. case_decide; [by apply reflects_ret|].
  eapply reflects_bind; [by apply read_field_reflects|]. intros a' Ha'.
  apply reflects_same. intros _. by apply IH.
Qed.
Lemma read_struct_reflects a :
  I a → reflects α I (read_struct fuel fs a) (read_struct fuel gs (α a)).
Proof.
  intros Ha. apply reflects_same. intros _. eapply reflects_bind; [by apply read_fields_reflects|].
  intros a' Ha'. apply reflects_same. intros _. by apply reflects_ret.
Qed.
End reflected.

(** A member behind its bit. *)
Lemma with_isset_reflects {S B A} (α : object S → B) (I : object S → Prop) n id (c : codec (P := P) A)
    (get : S → A) (set : A → S → S) (gget : B → option A) (gset : option A → B → B) :
  (∀ o, I o → gget (α o) = if decide (id ∈ isset o) then Some (get (members o)) else None) →
  (∀ o, I o → id ∉ isset o → get (members o) = c_default c) →
  (∀ o v, I o → I (Object (set v (members o)) ({[id]} ∪ isset o)) ∧
    α (Object (set v (members o)) ({[id]} ∪ isset o)) = gset (Some v) (α o)) →
  member_reflects α I (with_isset (Field n id c get set)) (Field n id (guarded c) gget gset).
Proof.
  intros Hget Hdef Hset. split; [done..|]. intros o Ho. simpl.
  replace (default (c_default c) (gget (α o))) with (get (members o)).
  - intros s. rewrite eff_bind_assoc. revert s. apply reflects_same. intros v.
    destruct (Hset o v Ho) as [Hi E]. intros s. rewrite eff_bind_ret. by apply reflects_ret.
  - rewrite Hget by done. case_decide; [done|]. simpl. by rewrite Hdef.
Qed.

(** ** Results *)

(** The members of the result object of a call, as [Rpc] has them. *)
Definition member_of {R} (throws : list (string * declared)) (o : object (result_value R)) (d : declared)
    : option string :=
  id ← thrown_id d 1 throws; if decide (id ∈ isset o) then Some (v_thrown d (members o)) else None.
Definition visible {R} (throws : list (string * declared)) (o : object (result_value R)) : result R :=
  {| r_success := if decide (0%Z ∈ isset o) then Some (v_success (members o)) else None;
     r_internal := member_of throws o DInternal;
     r_query := member_of throws o DQuery;
     r_syntax := member_of throws o DSyntax |}.

(** A member whose bit is not set holds what the constructor gave it. *)
Record untouched {R} (d : R) (throws : list (string * declared)) (o : object (result_value R)) : Prop := {
  new_success : 0%Z ∉ isset o → v_success (members o) = d;
  new_thrown e id : thrown_id e 1 throws = Some id → id ∉ isset o → v_thrown e (members o) = "";
}.

Lemma thrown_id_from d k throws id : thrown_id d k throws = Some id → (k ≤ id)%Z.
Proof.
  revert k. induction throws as [|t l IH]; intros k; [done|]. simpl. case_decide; [intros [= ->]; lia|].
  intros ?%IH. lia.
Qed.
Lemma thrown_id_inj d d' k throws id :
  thrown_id d k throws = Some id → thrown_id d' k throws = Some id → d = d'.
Proof.
  revert k. induction throws as [|t l IH]; intros k; [done|]. simpl.
  repeat case_decide; subst; [done| | |apply IH].
  - intros [= ->] ?%thrown_id_from. lia.
  - intros ?%thrown_id_from [= ->]. lia.
Qed.
Lemma thrown_id_lookup k (throws : list (string * declared)) i t :
  NoDup throws.*2 → throws !! i = Some t → thrown_id t.2 k throws = Some (Z.of_nat i + k)%Z.
Proof.
  revert k i. induction throws as [|u l IH]; intros k i Hnd Hi; [done|].
  csimpl in *. apply NoDup_cons in Hnd as [Hu Hnd]. simpl. destruct i as [|i]; simpl in Hi.
  - injection Hi as ->. rewrite decide_True by done. done.
  - rewrite decide_False.
    + rewrite (IH _ i Hnd Hi). f_equal. lia.
    + intros E. apply Hu. rewrite E. apply list_elem_of_fmap_2. by eapply list_elem_of_lookup_2.
Qed.

Lemma thrown_id_declared d k throws : is_Some (thrown_id d k throws) ↔ d ∈ throws.*2.
Proof.
  revert k. induction throws as [|t l IH]; intros k; csimpl.
  - split; [by intros []|by intros ?%elem_of_nil].
  - rewrite elem_of_cons. case_decide as E; [split; [by left|by eexists]|]. rewrite IH.
    split; [by right|]. by intros [->|].
Qed.

Section views.
Context {R : Type} (d0 : R) (throws : list (string * declared)).
Hypothesis distinct : NoDup throws.*2.
Abbreviation obj := (object (result_value R)).

Lemma member_visible d (o : obj) : member d (visible throws o) = member_of throws o d.
Proof. by destruct d. Qed.

(** A number that another member has. *)
Lemma member_of_other (o : obj) d id (x : result_value R) :
  thrown_id d 1 throws ≠ Some id → v_thrown d x = v_thrown d (members o) →
  member_of throws (Object x ({[id]} ∪ isset o)) d = member_of throws o d.
Proof.
  intros Hid Hx. unfold member_of. simpl. destruct (thrown_id d 1 throws) as [j|]; [|done]. simpl.
  rewrite Hx. assert (j ∈ {[id]} ∪ isset o ↔ j ∈ isset o) as Hj; [|by rewrite (decide_ext _ _ _ _ Hj)].
  rewrite elem_of_union, elem_of_singleton. split; [intros [->|]; done|by right].
Qed.

Lemma put_other d d' v (x : result_value R) : d ≠ d' → v_thrown d (put_thrown d' v x) = v_thrown d x.
Proof. by destruct d, d'. Qed.
Lemma put_same d v (x : result_value R) : v_thrown d (put_thrown d v x) = v.
Proof. by destruct d. Qed.
Lemma put_thrown_success d v (x : result_value R) : v_success (put_thrown d v x) = v_success x.
Proof. by destruct d. Qed.

(** Setting a member of an object is setting it in the view. *)
Lemma visible_thrown d id (o : obj) v :
  thrown_id d 1 throws = Some id →
  visible throws (Object (put_thrown d v (members o)) ({[id]} ∪ isset o)) = set_member d (Some v) (visible throws o).
Proof.
  intros Hid. pose proof (thrown_id_from _ _ _ _ Hid) as Hpos.
  assert (∀ e, member_of throws (Object (put_thrown d v (members o)) ({[id]} ∪ isset o)) e
    = if decide (e = d) then Some v else member_of throws o e) as Hm.
  { intros e. case_decide as E.
    - subst e. unfold member_of. rewrite Hid. simpl. rewrite decide_True by set_solver. by rewrite put_same.
    - apply member_of_other; [|by apply put_other]. intros Hid'. by destruct E; eapply thrown_id_inj. }
  unfold visible. rewrite !Hm. simpl. rewrite put_thrown_success.
  assert (0%Z ∈ {[id]} ∪ isset o ↔ 0%Z ∈ isset o) as Hz.
  { rewrite elem_of_union, elem_of_singleton. split; [intros [<-|]; [lia|done]|by right]. }
  rewrite (decide_ext _ _ _ _ Hz). by destruct d.
Qed.
Lemma visible_success (o : obj) v :
  visible throws (Object (put_success v (members o)) ({[0%Z]} ∪ isset o)) = set_success (Some v) (visible throws o).
Proof.
  assert (∀ d, member_of throws (Object (put_success v (members o)) ({[0%Z]} ∪ isset o)) d
    = member_of throws o d) as Hm.
  { intros d. apply member_of_other; [|by destruct d]. intros Hid%thrown_id_from. lia. }
  unfold visible. rewrite !Hm. simpl. rewrite decide_True by set_solver. done.
Qed.

Lemma untouched_thrown d id (o : obj) v :
  thrown_id d 1 throws = Some id → untouched d0 throws o →
  untouched d0 throws (Object (put_thrown d v (members o)) ({[id]} ∪ isset o)).
Proof.
  intros Hid [Hs Ht]. split; simpl.
  - rewrite put_thrown_success, not_elem_of_union. intros [_ Hn]. by apply Hs.
  - intros e j Hj. rewrite not_elem_of_union, not_elem_of_singleton. intros [Hne Hn].
    rewrite put_other; [by eapply Ht|]. intros ->. congruence.
Qed.
Lemma untouched_success (o : obj) v :
  untouched d0 throws o → untouched d0 throws (Object (put_success v (members o)) ({[0%Z]} ∪ isset o)).
Proof.
  intros [Hs Ht]. split; simpl.
  - rewrite not_elem_of_union, not_elem_of_singleton. by intros [? _].
  - intros e j Hj. rewrite not_elem_of_union. intros [_ Hn]. destruct e; exact (Ht _ j Hj Hn).
Qed.

Lemma thrown_reflect :
  Forall2 (member_reflects (visible throws) (untouched d0 throws))
    (with_isset <$> imap (λ i, thrown_member (R := R) (Z.of_nat i + 1)) throws)
    (imap (λ i, thrown_field fuel (Z.of_nat i + 1)) throws).
Proof.
  apply Forall2_lookup. intros i. rewrite list_lookup_fmap, !list_lookup_imap.
  destruct (throws !! i) as [t|] eqn:Hi; [|constructor]. simpl. constructor.
  pose proof (thrown_id_lookup 1 _ _ _ distinct Hi) as Hid. apply with_isset_reflects.
  - intros o _. rewrite member_visible. unfold member_of. by rewrite Hid.
  - intros o [_ Ht] Hn. rewrite (Ht _ _ Hid Hn). by destruct t as [? []].
  - intros o v Ho. split; [by apply untouched_thrown|by apply visible_thrown].
Qed.
End views.

Lemma success_reflect {R} (c : codec R) throws :
  NoDup throws.*2 →
  member_reflects (visible throws) (untouched (c_default c) throws)
    (with_isset (success_member c)) (success_field c).
Proof.
  intros Hd. apply with_isset_reflects; [done|by intros o []|].
  intros o v Ho. split; [by apply untouched_success|by apply visible_success].
Qed.

Lemma members_reflect (m : method) :
  NoDup (m_throws m).*2 →
  Forall2 (member_reflects (visible (m_throws m)) (untouched (new_return m) (m_throws m)))
    (with_isset <$> result_members m) (result_fields fuel m).
Proof.
  destruct m as [srv name A fl d R ret throws call]. simpl. intros Hd.
  unfold result_members, result_fields, new_return. simpl. rewrite fmap_app. apply Forall2_app.
  - destruct ret; [constructor|]. constructor; [by apply success_reflect|constructor].
  - by apply thrown_reflect.
Qed.

(** ** The functions *)

(** The objects made by the functions. *)
Lemma visible_new {R} (v : R) throws : visible throws (new_result v) = no_result.
Proof.
  assert (∀ d, member_of throws (new_result v) d = None) as Hm.
  { intros d. unfold member_of. destruct (thrown_id d 1 throws); [|done]. simpl. by rewrite decide_False. }
  unfold visible. by rewrite !Hm.
Qed.
Lemma untouched_new {R} (v : R) throws : untouched v throws (new_result v).
Proof. split; [done|]. by intros []. Qed.

Lemma read_result_reflects (m : method) :
  NoDup (m_throws m).*2 →
  reflects (visible (m_throws m)) (untouched (new_return m) (m_throws m))
    (read fuel (result_class m []) (new_result (new_return m)))
    (read_struct fuel (result_fields fuel m) no_result).
Proof.
  intros Hd. rewrite <- (visible_new (new_return m) (m_throws m)).
  apply read_struct_reflects; [by apply members_reflect|apply untouched_new].
Qed.

(** The arguments have no member that depends on its bit. *)
Lemma read_args_reflects (m : method) :
  reflects members (λ _, True) (read fuel (args_class m []) (construct (args_class m [])))
    (read_struct fuel (m_fields m) (m_default m)).
Proof.
  apply (read_struct_reflects members (λ _, True)); [|done].
  apply Forall2_lookup. intros i. rewrite list_lookup_fmap. simpl.
  destruct (m_fields m !! i) as [f|]; constructor. split; [done..|]. intros o _.
  apply reflects_same. intros v. by apply reflects_ret.
Qed.

(** The chains, from the [k]-th exception on. *)
Lemma thrown_by_visible {R} (o : object (result_value R)) k throws (s : result R) :
  (∀ i t, throws !! i = Some t →
     member t.2 s = if decide ((Z.of_nat i + k)%Z ∈ isset o) then Some (v_thrown t.2 (members o)) else None) →
  thrown_by o k throws = thrown s throws ∧ write_thrown o k throws = Rpc.write_thrown fuel s k throws.
Proof.
  revert k. induction throws as [|[n d] l IH]; intros k Hs; [done|].
  pose proof (Hs 0 (n, d) eq_refl) as Hm. simpl in Hm. cbn [thrown_by write_thrown thrown Rpc.write_thrown].
  destruct (IH (k + 1)%Z) as [-> ->].
  { intros i t Hi. rewrite (Hs (Datatypes.S i) t Hi). by replace (Z.of_nat (Datatypes.S i) + k)%Z
      with (Z.of_nat i + (k + 1))%Z by lia. }
  unfold has, is_set. simpl. rewrite Hm. case_decide as Hk.
  - rewrite bool_decide_true by done. simpl. split; [done|].
    unfold write_field. simpl. by rewrite Hm.
  - by rewrite bool_decide_false.
Qed.
Lemma visible_chain {R} (o : object (result_value R)) throws :
  NoDup throws.*2 →
  thrown_by o 1 throws = thrown (visible throws o) throws ∧
  write_thrown o 1 throws = Rpc.write_thrown fuel (visible throws o) 1 throws.
Proof.
  intros Hd. apply thrown_by_visible. intros i t Hi. rewrite member_visible. unfold member_of.
  by rewrite (thrown_id_lookup 1 _ _ _ Hd Hi).
Qed.

(** Two continuations that do the same. *)
Lemma reflects_run {S A B C} (α : A → B) (I : A → Prop) (m : eff S A) (m' : eff S B) (k : A → eff S C) k' s :
  reflects α I m m' → (∀ a s, I a → k a s = k' (α a) s) → (m ≫= k) s = (m' ≫= k') s.
Proof.
  intros Hm Hk. destruct (Hm s) as [E Ha]. unfold mbind, eff_mbind, eff_bind. rewrite E.
  destruct (m s) as [[a| | |] s']; simpl; [|done..]. by apply Hk, Ha.
Qed.

Lemma recv_objects (m : method) p :
  NoDup (m_throws m).*2 → recv_reply m (new_return m) p = Rpc.recv fuel m p.
Proof.
  intros Hd. unfold recv_reply, Rpc.recv. apply eff_bind_proper. intros [[fname mtype] rseqid] p1.
  case_decide; [done|]. do 2 (apply eff_bind_proper; intros _ ?).
  eapply reflects_run; [by apply read_result_reflects|]. intros o p2 _.
  do 2 (apply eff_bind_proper; intros _ ?). revert o s'2.
  destruct m as [srv name A fl d R ret throws call]. simpl in *. intros o p3.
  destruct (visible_chain o throws Hd) as [Ht _].
  destruct ret; rewrite Ht; [done|]. simpl. unfold has.
  destruct (decide (0%Z ∈ isset o)); [by rewrite bool_decide_true|by rewrite bool_decide_false].
Qed.

(** The values that a method returns agree. *)
Definition same_success {R} (ret : returns P R) (throws : list (string * declared)) :
    result R → object (result_value R) → Prop :=
  match ret in returns _ R return result R → object (result_value R) → Prop with
  | Void => λ _ _, True
  | Returns _ => λ s o, r_success s = r_success (visible throws o)
  end.
Lemma same_success_visible {R} (ret : returns P R) throws o : same_success ret throws (visible throws o) o.
Proof. by destruct ret. Qed.

(** What [write] does only depends on the bits that the method has. *)
Lemma write_result_visible (m : method) o s :
  NoDup (m_throws m).*2 →
  (∀ d, member d s = member_of (m_throws m) o d) →
  same_success (m_returns m) (m_throws m) s o →
  write_result m o = Rpc.write_result fuel m s.
Proof.
  destruct m as [srv name A fl d R ret throws call]. simpl in *. intros Hd Hm Hs.
  assert (write_thrown o 1 throws = Rpc.write_thrown fuel s 1 throws) as Hw.
  { apply thrown_by_visible. intros i t Hi. rewrite Hm. unfold member_of.
    by rewrite (thrown_id_lookup 1 _ _ _ Hd Hi). }
  unfold write_result, Rpc.write_result. simpl. destruct ret as [|R c]; simpl in *; rewrite Hw; [done|].
  unfold has, write_field. simpl. rewrite Hs. destruct (decide (0%Z ∈ isset o)) as [Hb|Hb].
  - by rewrite bool_decide_true.
  - by rewrite bool_decide_false.
Qed.

Lemma process_objects (m : method) seqid s :
  NoDup (m_throws m).*2 → process_call m seqid s = Rpc.process fuel what m seqid s.
Proof.
  intros Hd. unfold process_call, Rpc.process.
  assert (reflects members (λ _, True)
    (on_protocol (W := W) (read fuel (args_class m []) (construct (args_class m []))))
    (on_protocol (read_struct fuel (m_fields m) (m_default m)))) as Hargs.
  { intros [p w]. unfold on_protocol, zoom. simpl. destruct (read_args_reflects m p) as [-> _].
    destruct (read fuel _ _ p) as [[a| | |] p']; by split. }
  eapply reflects_run; [exact Hargs|]. intros args s1 _.
  do 2 (apply eff_bind_proper; intros _ ?). apply eff_bind_proper. intros [a|e] s2; unfold filled, result_of.
  - f_equal. f_equal. f_equal. apply write_result_visible; [done| |].
    + intros d. unfold member_of. destruct (thrown_id d 1 (m_throws m)) as [id|] eqn:Hid; [|by destruct d].
      simpl. rewrite decide_False; [by destruct d|]. apply thrown_id_from in Hid.
      destruct (m_returns m); simpl; [set_solver|]. rewrite elem_of_union, elem_of_singleton.
      intros [->|Hn]; [lia|set_solver].
    + revert a. destruct m as [srv name A fl d R ret throws call]. simpl. intros a. destruct ret; [done|].
      simpl. by rewrite decide_True by set_solver.
  - destruct (declared_of e) as [[d message]|]; [|done].
    rewrite existsb_declares. destruct (thrown_id d 1 (m_throws m)) as [id|] eqn:Hid.
    + rewrite bool_decide_true by (apply (thrown_id_declared d 1); by eexists).
      f_equal. f_equal. f_equal. rewrite <- (visible_new (new_return m) (m_throws m)).
      rewrite <- (visible_thrown (m_throws m) Hd d id) by done.
      apply write_result_visible; [done|by intros []|apply same_success_visible].
    + rewrite bool_decide_false; [done|]. rewrite <- (thrown_id_declared d 1), Hid. by intros [].
Qed.
End objects.
