(* ===== verification/Classes.v ===== *)
(** The classes of [gen-cpp/vae_types.h], [gen-cpp/VaeDb.h] and
    [gen-cpp/VaeRubyd.h], as tables for [Objects] and [Results]: members, what the
    constructors give them, and [operator==]; and [swap], copies and printing of
    the structures.  How [thrift/TToString.h] prints a value is a parameter. *)
From Stdlib Require Import ZArith.
From S2P Require Import Prelude Cpp Protocol ProtocolSpec ProtocolRef VaeTypes ThriftTypes Rpc RpcSpec Objects Results.
From S2P Require Processor Rubyd.

(** [to_string]. *)
Class ToString := {
  show_i32 : Z → string; show_text : string → string;
  show_list : list string → string; show_map : gmap string string → string;
}.

(** [out << "T(" << "m=" << to_string(m) << ", " << ... << ")"]. *)
Definition printed (name : string) (l : list (string * string)) : string :=
  name +:+ "(" +:+ String.concat ", " ((λ e, e.1 +:+ "=" +:+ e.2) <$> l) +:+ ")".

#[export] Instance VaeDbResponseForContext_eq_dec : EqDecision VaeDbResponseForContext.
Proof. solve_decision. Defined.
#[export] Instance VaeDbResponse_eq_dec : EqDecision VaeDbResponse.
Proof. solve_decision. Defined.
#[export] Instance VaeDbCreateInfoResponse_eq_dec : EqDecision VaeDbCreateInfoResponse.
Proof. solve_decision. Defined.
#[export] Instance VaeDbDataForContext_eq_dec : EqDecision VaeDbDataForContext.
Proof. solve_decision. Defined.
#[export] Instance VaeDbDataResponse_eq_dec : EqDecision VaeDbDataResponse.
Proof. solve_decision. Defined.
#[export] Instance VaeDbStructureResponse_eq_dec : EqDecision VaeDbStructureResponse.
Proof. solve_decision. Defined.
#[export] Instance VaeDbOpenSessionResponse_eq_dec : EqDecision VaeDbOpenSessionResponse.
Proof. solve_decision. Defined.

(** ** Structures and exceptions *)

(** Two references, and the objects before and after. *)
Abbreviation swapping S := (positive → positive → gmap positive (object S) → gmap positive (object S)).

Abbreviation some_class := {S : Type & class S}.

Section structures.
Context {P : Type} `{TProtocol P} `{ToString}.
Variable fuel : nat.

Definition VaeDbInternalError_class : class (P := P) string :=
  Class "VaeDbInternalError" message_fields ""
    [same (λ m, m)].
Definition VaeDbInternalError_swap : swapping string := swap VaeDbInternalError_class.
Definition VaeDbInternalError_copy : object string → object string := copy VaeDbInternalError_class.
Definition VaeDbInternalError_assign : object string → object string → object string := assign VaeDbInternalError_class.
Definition VaeDbInternalError_print (m : string) : string :=
  printed "VaeDbInternalError"
    [("message", show_text m)].

Definition VaeDbQueryError_class : class (P := P) string :=
  Class "VaeDbQueryError" message_fields ""
    [same (λ m, m)].
Definition VaeDbQueryError_swap : swapping string := swap VaeDbQueryError_class.
Definition VaeDbQueryError_copy : object string → object string := copy VaeDbQueryError_class.
Definition VaeDbQueryError_assign : object string → object string → object string := assign VaeDbQueryError_class.
Definition VaeDbQueryError_print (m : string) : string :=
  printed "VaeDbQueryError"
    [("message", show_text m)].

Definition VaeSyntaxError_class : class (P := P) string :=
  Class "VaeSyntaxError" message_fields ""
    [same (λ m, m)].
Definition VaeSyntaxError_swap : swapping string := swap VaeSyntaxError_class.
Definition VaeSyntaxError_copy : object string → object string := copy VaeSyntaxError_class.
Definition VaeSyntaxError_assign : object string → object string → object string := assign VaeSyntaxError_class.
Definition VaeSyntaxError_print (m : string) : string :=
  printed "VaeSyntaxError"
    [("message", show_text m)].

Definition VaeDbContext_class : class (P := P) VaeDbContext :=
  Class "VaeDbContext" VaeDbContext_fields VaeDbContext_default
    [same context_id; same context_structure_id; same context_type; same context_permalink;
     same context_data; same context_dataMap].
Definition VaeDbContext_swap : swapping VaeDbContext := swap VaeDbContext_class.
Definition VaeDbContext_copy : object VaeDbContext → object VaeDbContext := copy VaeDbContext_class.
Definition VaeDbContext_assign : object VaeDbContext → object VaeDbContext → object VaeDbContext := assign VaeDbContext_class.
Definition VaeDbContext_print (s : VaeDbContext) : string :=
  printed "VaeDbContext"
    [("id", show_i32 (context_id s));
     ("structure_id", show_i32 (context_structure_id s));
     ("type", show_text (context_type s));
     ("permalink", show_text (context_permalink s));
     ("data", show_text (context_data s));
     ("dataMap", show_map (context_dataMap s))].

Definition VaeDbCreateInfo_class : class (P := P) VaeDbCreateInfo :=
  Class "VaeDbCreateInfo" VaeDbCreateInfo_fields VaeDbCreateInfo_default
    [same create_structure_id; same create_row_id].
Definition VaeDbCreateInfo_swap : swapping VaeDbCreateInfo := swap VaeDbCreateInfo_class.
Definition VaeDbCreateInfo_copy : object VaeDbCreateInfo → object VaeDbCreateInfo := copy VaeDbCreateInfo_class.
Definition VaeDbCreateInfo_assign : object VaeDbCreateInfo → object VaeDbCreateInfo → object VaeDbCreateInfo := assign VaeDbCreateInfo_class.
Definition VaeDbCreateInfo_print (s : VaeDbCreateInfo) : string :=
  printed "VaeDbCreateInfo"
    [("structure_id", show_i32 (create_structure_id s));
     ("row_id", show_i32 (create_row_id s))].

Definition VaeDbStructure_class : class (P := P) VaeDbStructure :=
  Class "VaeDbStructure" VaeDbStructure_fields VaeDbStructure_default
    [same structure_id; same structure_name; same structure_type; same structure_permalink].
Definition VaeDbStructure_swap : swapping VaeDbStructure := swap VaeDbStructure_class.
Definition VaeDbStructure_copy : object VaeDbStructure → object VaeDbStructure := copy VaeDbStructure_class.
Definition VaeDbStructure_assign : object VaeDbStructure → object VaeDbStructure → object VaeDbStructure := assign VaeDbStructure_class.
Definition VaeDbStructure_print (s : VaeDbStructure) : string :=
  printed "VaeDbStructure"
    [("id", show_i32 (structure_id s));
     ("name", show_text (structure_name s));
     ("type", show_text (structure_type s));
     ("permalink", show_text (structure_permalink s))].

Definition VaeDbResponseForContext_class : class (P := P) VaeDbResponseForContext :=
  Class "VaeDbResponseForContext" (VaeDbResponseForContext_fields fuel) {| rfc_contexts := []; rfc_totalItems := 0 |}
    [same rfc_contexts; same rfc_totalItems].
Definition VaeDbResponseForContext_swap : swapping VaeDbResponseForContext := swap VaeDbResponseForContext_class.
Definition VaeDbResponseForContext_copy : object VaeDbResponseForContext → object VaeDbResponseForContext := copy VaeDbResponseForContext_class.
Definition VaeDbResponseForContext_assign : object VaeDbResponseForContext → object VaeDbResponseForContext → object VaeDbResponseForContext := assign VaeDbResponseForContext_class.
Definition VaeDbResponseForContext_print (s : VaeDbResponseForContext) : string :=
  printed "VaeDbResponseForContext"
    [("contexts", show_list (VaeDbContext_print <$> rfc_contexts s));
     ("totalItems", show_i32 (rfc_totalItems s))].

Definition VaeDbResponse_class : class (P := P) VaeDbResponse :=
  Class "VaeDbResponse" (VaeDbResponse_fields fuel) VaeDbResponse_default
    [same response_id; same response_contexts].
Definition VaeDbResponse_swap : swapping VaeDbResponse := swap VaeDbResponse_class.
Definition VaeDbResponse_copy : object VaeDbResponse → object VaeDbResponse := copy VaeDbResponse_class.
Definition VaeDbResponse_assign : object VaeDbResponse → object VaeDbResponse → object VaeDbResponse := assign VaeDbResponse_class.
Definition VaeDbResponse_print (s : VaeDbResponse) : string :=
  printed "VaeDbResponse"
    [("id", show_i32 (response_id s));
     ("contexts", show_list (VaeDbResponseForContext_print <$> response_contexts s))].

Definition VaeDbCreateInfoResponse_class : class (P := P) VaeDbCreateInfoResponse :=
  Class "VaeDbCreateInfoResponse" (VaeDbCreateInfoResponse_fields fuel) {| create_contexts := [] |}
    [same create_contexts].
Definition VaeDbCreateInfoResponse_swap : swapping VaeDbCreateInfoResponse := swap VaeDbCreateInfoResponse_class.
Definition VaeDbCreateInfoResponse_copy : object VaeDbCreateInfoResponse → object VaeDbCreateInfoResponse := copy VaeDbCreateInfoResponse_class.
Definition VaeDbCreateInfoResponse_assign : object VaeDbCreateInfoResponse → object VaeDbCreateInfoResponse → object VaeDbCreateInfoResponse := assign VaeDbCreateInfoResponse_class.
Definition VaeDbCreateInfoResponse_print (s : VaeDbCreateInfoResponse) : string :=
  printed "VaeDbCreateInfoResponse"
    [("contexts", show_list (VaeDbCreateInfo_print <$> create_contexts s))].

Definition VaeDbDataForContext_class : class (P := P) VaeDbDataForContext :=
  Class "VaeDbDataForContext" VaeDbDataForContext_fields {| dfc_data := ∅ |}
    [same dfc_data].
Definition VaeDbDataForContext_swap : swapping VaeDbDataForContext := swap VaeDbDataForContext_class.
Definition VaeDbDataForContext_copy : object VaeDbDataForContext → object VaeDbDataForContext := copy VaeDbDataForContext_class.
Definition VaeDbDataForContext_assign : object VaeDbDataForContext → object VaeDbDataForContext → object VaeDbDataForContext := assign VaeDbDataForContext_class.
Definition VaeDbDataForContext_print (s : VaeDbDataForContext) : string :=
  printed "VaeDbDataForContext"
    [("data", show_map (dfc_data s))].

Definition VaeDbDataResponse_class : class (P := P) VaeDbDataResponse :=
  Class "VaeDbDataResponse" (VaeDbDataResponse_fields fuel) {| data_contexts := [] |}
    [same data_contexts].
Definition VaeDbDataResponse_swap : swapping VaeDbDataResponse := swap VaeDbDataResponse_class.
Definition VaeDbDataResponse_copy : object VaeDbDataResponse → object VaeDbDataResponse := copy VaeDbDataResponse_class.
Definition VaeDbDataResponse_assign : object VaeDbDataResponse → object VaeDbDataResponse → object VaeDbDataResponse := assign VaeDbDataResponse_class.
Definition VaeDbDataResponse_print (s : VaeDbDataResponse) : string :=
  printed "VaeDbDataResponse"
    [("contexts", show_list (VaeDbDataForContext_print <$> data_contexts s))].

Definition VaeDbStructureResponse_class : class (P := P) VaeDbStructureResponse :=
  Class "VaeDbStructureResponse" (VaeDbStructureResponse_fields fuel) {| structure_contexts := [] |}
    [same structure_contexts].
Definition VaeDbStructureResponse_swap : swapping VaeDbStructureResponse := swap VaeDbStructureResponse_class.
Definition VaeDbStructureResponse_copy : object VaeDbStructureResponse → object VaeDbStructureResponse := copy VaeDbStructureResponse_class.
Definition VaeDbStructureResponse_assign : object VaeDbStructureResponse → object VaeDbStructureResponse → object VaeDbStructureResponse := assign VaeDbStructureResponse_class.
Definition VaeDbStructureResponse_print (s : VaeDbStructureResponse) : string :=
  printed "VaeDbStructureResponse"
    [("contexts", show_list (VaeDbStructure_print <$> structure_contexts s))].

Definition VaeDbOpenSessionResponse_class : class (P := P) VaeDbOpenSessionResponse :=
  Class "VaeDbOpenSessionResponse" VaeDbOpenSessionResponse_fields VaeDbOpenSessionResponse_default
    [same open_session_id; same open_generation].
Definition VaeDbOpenSessionResponse_swap : swapping VaeDbOpenSessionResponse := swap VaeDbOpenSessionResponse_class.
Definition VaeDbOpenSessionResponse_copy : object VaeDbOpenSessionResponse → object VaeDbOpenSessionResponse := copy VaeDbOpenSessionResponse_class.
Definition VaeDbOpenSessionResponse_assign : object VaeDbOpenSessionResponse → object VaeDbOpenSessionResponse → object VaeDbOpenSessionResponse := assign VaeDbOpenSessionResponse_class.
Definition VaeDbOpenSessionResponse_print (s : VaeDbOpenSessionResponse) : string :=
  printed "VaeDbOpenSessionResponse"
    [("session_id", show_i32 (open_session_id s));
     ("generation", show_i32 (open_generation s))].

Definition structure_classes : list some_class :=
  [existT _ VaeDbInternalError_class; existT _ VaeDbQueryError_class;
   existT _ VaeSyntaxError_class; existT _ VaeDbContext_class; existT _ VaeDbCreateInfo_class;
   existT _ VaeDbStructure_class; existT _ VaeDbResponseForContext_class;
   existT _ VaeDbResponse_class; existT _ VaeDbCreateInfoResponse_class;
   existT _ VaeDbDataForContext_class; existT _ VaeDbDataResponse_class;
   existT _ VaeDbStructureResponse_class; existT _ VaeDbOpenSessionResponse_class].
End structures.

(** ** Arguments and results *)

Section VaeDb.
Context {P W : Type} `{TProtocol P} `{Processor.VaeDbIf W}.
Variable fuel : nat.

Definition VaeDb_ping_args : class (P := P) (unit) :=
  args_class Processor.ping_method [].
Definition VaeDb_ping_result : class (P := P) (result_value Z) :=
  result_class fuel Processor.ping_method [same v_success].

Definition VaeDb_closeSession_args : class (P := P) (Z * string) :=
  args_class Processor.closeSession_method [same (λ '(v, _), v); same (λ '(_, v), v)].
Definition VaeDb_closeSession_result : class (P := P) (result_value unit) :=
  result_class fuel Processor.closeSession_method [same v_internal].

Definition VaeDb_createInfo_args : class (P := P) (Z * Z * string) :=
  args_class (Processor.createInfo_method fuel) [same (λ '(v, _, _), v); same (λ '(_, v, _), v); same (λ '(_, _, v), v)].
Definition VaeDb_createInfo_result : class (P := P) (result_value VaeDbCreateInfoResponse) :=
  result_class fuel (Processor.createInfo_method fuel) [same v_success; same v_internal; same v_query].

Definition VaeDb_data_args : class (P := P) (Z * Z) :=
  args_class (Processor.data_method fuel) [same (λ '(v, _), v); same (λ '(_, v), v)].
Definition VaeDb_data_result : class (P := P) (result_value VaeDbDataResponse) :=
  result_class fuel (Processor.data_method fuel) [same v_success; same v_internal].

Definition VaeDb_get_args : class (P := P) (Z * Z * string * gmap string string) :=
  args_class (Processor.get_method fuel) [same (λ '(v, _, _, _), v); same (λ '(_, v, _, _), v); same (λ '(_, _, v, _), v); same (λ '(_, _, _, v), v)].
Definition VaeDb_get_result : class (P := P) (result_value VaeDbResponse) :=
  result_class fuel (Processor.get_method fuel) [same v_success; same v_internal; same v_query].

Definition VaeDb_openSession_args : class (P := P) (string * string * bool * Z) :=
  args_class (Processor.openSession_method fuel) [same (λ '(v, _, _, _), v); same (λ '(_, v, _, _), v); same (λ '(_, _, v, _), v); same (λ '(_, _, _, v), v)].
Definition VaeDb_openSession_result : class (P := P) (result_value VaeDbOpenSessionResponse) :=
  result_class fuel (Processor.openSession_method fuel) [same v_success; same v_internal].

Definition VaeDb_resetSite_args : class (P := P) (string * string) :=
  args_class Processor.resetSite_method [same (λ '(v, _), v); same (λ '(_, v), v)].
Definition VaeDb_resetSite_result : class (P := P) (result_value unit) :=
  result_class fuel Processor.resetSite_method [same v_internal].

Definition VaeDb_structure_args : class (P := P) (Z * Z) :=
  args_class (Processor.structure_method fuel) [same (λ '(v, _), v); same (λ '(_, v), v)].
Definition VaeDb_structure_result : class (P := P) (result_value VaeDbStructureResponse) :=
  result_class fuel (Processor.structure_method fuel) [same v_success; same v_internal].

Definition VaeDb_sessionCacheGet_args : class (P := P) (Z * string) :=
  args_class Processor.sessionCacheGet_method [same (λ '(v, _), v); same (λ '(_, v), v)].
Definition VaeDb_sessionCacheGet_result : class (P := P) (result_value string) :=
  result_class fuel Processor.sessionCacheGet_method [same v_success].

Definition VaeDb_sessionCacheSet_args : class (P := P) (Z * string * string) :=
  args_class Processor.sessionCacheSet_method [same (λ '(v, _, _), v); same (λ '(_, v, _), v); same (λ '(_, _, v), v)].
Definition VaeDb_sessionCacheSet_result : class (P := P) (result_value unit) :=
  result_class fuel Processor.sessionCacheSet_method [].

Definition VaeDb_sessionCacheDelete_args : class (P := P) (Z * string) :=
  args_class Processor.sessionCacheDelete_method [same (λ '(v, _), v); same (λ '(_, v), v)].
Definition VaeDb_sessionCacheDelete_result : class (P := P) (result_value unit) :=
  result_class fuel Processor.sessionCacheDelete_method [].

Definition VaeDb_shortTermCacheGet_args : class (P := P) (Z * string * Z) :=
  args_class Processor.shortTermCacheGet_method [same (λ '(v, _, _), v); same (λ '(_, v, _), v); same (λ '(_, _, v), v)].
Definition VaeDb_shortTermCacheGet_result : class (P := P) (result_value string) :=
  result_class fuel Processor.shortTermCacheGet_method [same v_success].

Definition VaeDb_shortTermCacheSet_args : class (P := P) (Z * string * string * Z * Z) :=
  args_class Processor.shortTermCacheSet_method [same (λ '(v, _, _, _, _), v); same (λ '(_, v, _, _, _), v); same (λ '(_, _, v, _, _), v); same (λ '(_, _, _, v, _), v); same (λ '(_, _, _, _, v), v)].
Definition VaeDb_shortTermCacheSet_result : class (P := P) (result_value unit) :=
  result_class fuel Processor.shortTermCacheSet_method [].

Definition VaeDb_shortTermCacheDelete_args : class (P := P) (Z * string) :=
  args_class Processor.shortTermCacheDelete_method [same (λ '(v, _), v); same (λ '(_, v), v)].
Definition VaeDb_shortTermCacheDelete_result : class (P := P) (result_value unit) :=
  result_class fuel Processor.shortTermCacheDelete_method [].

Definition VaeDb_longTermCacheGet_args : class (P := P) (Z * string * Z * Z) :=
  args_class Processor.longTermCacheGet_method [same (λ '(v, _, _, _), v); same (λ '(_, v, _, _), v); same (λ '(_, _, v, _), v); same (λ '(_, _, _, v), v)].
Definition VaeDb_longTermCacheGet_result : class (P := P) (result_value string) :=
  result_class fuel Processor.longTermCacheGet_method [same v_success].

Definition VaeDb_longTermCacheSet_args : class (P := P) (Z * string * string * Z * Z) :=
  args_class Processor.longTermCacheSet_method [same (λ '(v, _, _, _, _), v); same (λ '(_, v, _, _, _), v); same (λ '(_, _, v, _, _), v); same (λ '(_, _, _, v, _), v); same (λ '(_, _, _, _, v), v)].
Definition VaeDb_longTermCacheSet_result : class (P := P) (result_value unit) :=
  result_class fuel Processor.longTermCacheSet_method [].

Definition VaeDb_longTermCacheDelete_args : class (P := P) (Z * string) :=
  args_class Processor.longTermCacheDelete_method [same (λ '(v, _), v); same (λ '(_, v), v)].
Definition VaeDb_longTermCacheDelete_result : class (P := P) (result_value unit) :=
  result_class fuel Processor.longTermCacheDelete_method [].

Definition VaeDb_longTermCacheEmpty_args : class (P := P) (Z) :=
  args_class Processor.longTermCacheEmpty_method [same (λ v, v)].
Definition VaeDb_longTermCacheEmpty_result : class (P := P) (result_value unit) :=
  result_class fuel Processor.longTermCacheEmpty_method [].

Definition VaeDb_longTermCacheSweeperInfo_args : class (P := P) (Z) :=
  args_class (Processor.longTermCacheSweeperInfo_method fuel) [same (λ v, v)].
Definition VaeDb_longTermCacheSweeperInfo_result : class (P := P) (result_value VaeDbDataForContext) :=
  result_class fuel (Processor.longTermCacheSweeperInfo_method fuel) [same v_success].

Definition VaeDb_sitewideLock_args : class (P := P) (Z) :=
  args_class Processor.sitewideLock_method [same (λ v, v)].
Definition VaeDb_sitewideLock_result : class (P := P) (result_value Z) :=
  result_class fuel Processor.sitewideLock_method [same v_success].

Definition VaeDb_sitewideUnlock_args : class (P := P) (Z) :=
  args_class Processor.sitewideUnlock_method [same (λ v, v)].
Definition VaeDb_sitewideUnlock_result : class (P := P) (result_value Z) :=
  result_class fuel Processor.sitewideUnlock_method [same v_success].

Definition VaeDb_classes : list some_class :=
  [existT _ VaeDb_ping_args; existT _ VaeDb_ping_result; existT _ VaeDb_closeSession_args;
   existT _ VaeDb_closeSession_result; existT _ VaeDb_createInfo_args;
   existT _ VaeDb_createInfo_result; existT _ VaeDb_data_args; existT _ VaeDb_data_result;
   existT _ VaeDb_get_args; existT _ VaeDb_get_result; existT _ VaeDb_openSession_args;
   existT _ VaeDb_openSession_result; existT _ VaeDb_resetSite_args;
   existT _ VaeDb_resetSite_result; existT _ VaeDb_structure_args; existT _ VaeDb_structure_result;
   existT _ VaeDb_sessionCacheGet_args; existT _ VaeDb_sessionCacheGet_result;
   existT _ VaeDb_sessionCacheSet_args; existT _ VaeDb_sessionCacheSet_result;
   existT _ VaeDb_sessionCacheDelete_args; existT _ VaeDb_sessionCacheDelete_result;
   existT _ VaeDb_shortTermCacheGet_args; existT _ VaeDb_shortTermCacheGet_result;
   existT _ VaeDb_shortTermCacheSet_args; existT _ VaeDb_shortTermCacheSet_result;
   existT _ VaeDb_shortTermCacheDelete_args; existT _ VaeDb_shortTermCacheDelete_result;
   existT _ VaeDb_longTermCacheGet_args; existT _ VaeDb_longTermCacheGet_result;
   existT _ VaeDb_longTermCacheSet_args; existT _ VaeDb_longTermCacheSet_result;
   existT _ VaeDb_longTermCacheDelete_args; existT _ VaeDb_longTermCacheDelete_result;
   existT _ VaeDb_longTermCacheEmpty_args; existT _ VaeDb_longTermCacheEmpty_result;
   existT _ VaeDb_longTermCacheSweeperInfo_args; existT _ VaeDb_longTermCacheSweeperInfo_result;
   existT _ VaeDb_sitewideLock_args; existT _ VaeDb_sitewideLock_result;
   existT _ VaeDb_sitewideUnlock_args; existT _ VaeDb_sitewideUnlock_result].
End VaeDb.

Section VaeRubyd.
Context {P W : Type} `{TProtocol P} `{Rubyd.VaeRubydIf W}.
Variable fuel : nat.

Definition VaeRubyd_ping_args : class (P := P) (unit) :=
  args_class Rubyd.ping_method [].
Definition VaeRubyd_ping_result : class (P := P) (result_value Z) :=
  result_class fuel Rubyd.ping_method [same v_success].

Definition VaeRubyd_fixDocRoot_args : class (P := P) (string) :=
  args_class Rubyd.fixDocRoot_method [same (λ v, v)].
Definition VaeRubyd_fixDocRoot_result : class (P := P) (result_value Z) :=
  result_class fuel Rubyd.fixDocRoot_method [same v_success].

Definition VaeRubyd_haml_args : class (P := P) (string) :=
  args_class Rubyd.haml_method [same (λ v, v)].
Definition VaeRubyd_haml_result : class (P := P) (result_value string) :=
  result_class fuel Rubyd.haml_method [same v_success; same v_syntax].

Definition VaeRubyd_sass_args : class (P := P) (string * string * string) :=
  args_class Rubyd.sass_method [same (λ '(v, _, _), v); same (λ '(_, v, _), v); same (λ '(_, _, v), v)].
Definition VaeRubyd_sass_result : class (P := P) (result_value string) :=
  result_class fuel Rubyd.sass_method [same v_success; same v_syntax].

Definition VaeRubyd_scss_args : class (P := P) (string * string * string) :=
  args_class Rubyd.scss_method [same (λ '(v, _, _), v); same (λ '(_, v, _), v); same (λ '(_, _, v), v)].
Definition VaeRubyd_scss_result : class (P := P) (result_value string) :=
  result_class fuel Rubyd.scss_method [same v_success; same v_syntax].

Definition VaeRubyd_classes : list some_class :=
  [existT _ VaeRubyd_ping_args; existT _ VaeRubyd_ping_result; existT _ VaeRubyd_fixDocRoot_args;
   existT _ VaeRubyd_fixDocRoot_result; existT _ VaeRubyd_haml_args; existT _ VaeRubyd_haml_result;
   existT _ VaeRubyd_sass_args; existT _ VaeRubyd_sass_result; existT _ VaeRubyd_scss_args;
   existT _ VaeRubyd_scss_result].
End VaeRubyd.

(** * Laws *)

Section laws.
Context {P : Type}.
Abbreviation class := (class (P := P)).

(** What has to be shown of a table. *)
Lemma lawful_table {S} (c : class S) :
  NoDup (f_id <$> cls_members c) →
  Forall (λ m, (∀ v s, f_get m (f_set m v s) = v) ∧ ∀ s, f_set m (f_get m s) s = s) (cls_members c) →
  Forall (λ m, Forall (λ n, f_id m = f_id n ∨ ∀ v s, f_get m (f_set n v s) = f_get m s)
    (cls_members c)) (cls_members c) →
  Forall2 (λ m e, ∀ a b, e a b = true ↔ f_get m a = f_get m b) (cls_members c) (cls_compare c) →
  lawful c.
Proof.
  intros Hn Hset Hother Hcmp. rewrite !Forall_forall in Hset. rewrite Forall_forall in Hother. split; [done|..].
  - intros m v s Hm. by apply Hset.
  - intros m n v s Hm Hk Hne. pose proof (Hother m Hm) as Hall. rewrite Forall_forall in Hall.
    by destruct (Hall n Hk) as [|Hv].
  - intros m s Hm. by apply Hset.
  - intros a b. unfold agree. clear Hn Hset Hother. induction Hcmp as [|m e l cmp He _ IH]; simpl.
    { split; [by intros _ m ?%elem_of_nil|done]. }
    rewrite andb_true_iff, He, IH. split.
    + intros [Hm Hl] n [->|Hn]%elem_of_cons; [done|by apply Hl].
    + intros Hall. split; [apply Hall; by left|]. intros n Hn. apply Hall. by right.
Qed.
End laws.

Lemma same_true {S A} `{EqDecision A} (get : S → A) a b : same get a b = true ↔ get a = get b.
Proof. apply bool_decide_eq_true. Qed.

Ltac lawful_class :=
  apply lawful_table; simpl;
  [ apply (bool_decide_unpack _); vm_compute; exact Logic.I
  | repeat constructor; intros; destruct_pairs; solve [done|match goal with x : _ |- _ => by destruct x end]
  | repeat first [apply Forall_nil; exact Logic.I|apply Forall_cons; split];
    first [by left|right; intros; by destruct_pairs]
  | repeat first [apply Forall2_nil; exact Logic.I|apply Forall2_cons; split];
    intros; apply same_true ].

Section lawful.
Context {P W : Type} `{TProtocol P} `{Processor.VaeDbIf W} `{Rubyd.VaeRubydIf W}.
Variable fuel : nat.
Abbreviation every Q := (Forall (λ c, Q (projT1 c) (projT2 c))).

Lemma structures_lawful : Forall (λ c, lawful (projT2 c) ∧ whole (projT2 c)) (structure_classes (P := P) fuel).
Proof.
  unfold structure_classes. repeat (apply Forall_cons; split); [simpl; split..|by apply Forall_nil].
  all: first [lawful_class|by intros [] []|by intros].
Qed.
Lemma VaeDb_lawful : Forall (λ c, lawful (projT2 c)) (VaeDb_classes (P := P) (W := W) fuel).
Proof. repeat (apply Forall_cons; split); [simpl; lawful_class..|by apply Forall_nil]. Qed.
Lemma VaeRubyd_lawful : Forall (λ c, lawful (projT2 c)) (VaeRubyd_classes (P := P) (W := W) fuel).
Proof. repeat (apply Forall_cons; split); [simpl; lawful_class..|by apply Forall_nil]. Qed.

Lemma all_lawful : Forall (λ c, lawful (projT2 c))
  (structure_classes (P := P) fuel ++ VaeDb_classes (W := W) fuel ++ VaeRubyd_classes (W := W) fuel).
Proof.
  apply Forall_app. split; [|apply Forall_app; split; [exact VaeDb_lawful|exact VaeRubyd_lawful]].
  eapply Forall_impl; [exact structures_lawful|]. by intros c [].
Qed.

(** The objects of the structures are values: [==] compares the members and
    not the bits; a copy and the target of an assignment, whatever it held, are
    the original with its bits; [swap] exchanges two objects, also when both
    references are to one. *)
Theorem structures_are_values :
  Forall (λ c, let cls := projT2 c in
    (∀ a b, equal cls a b = true ↔ members a = members b) ∧
    (∀ other this, copy cls other = other ∧ assign cls other this = other) ∧
    (∀ i j st x y, st !! i = Some x → st !! j = Some y → swap cls i j st = <[i := y]> (<[j := x]> st)))
    (structure_classes (P := P) fuel).
Proof.
  eapply Forall_impl; [exact structures_lawful|]. intros [S cls] [Hl Hw]. simpl in *. split_and!.
  - intros a b. rewrite (equal_spec cls a b Hl). split; [|by intros ->].
    intros Hab. rewrite <- (Hw (members a) (members b)).
    assert (∀ l, (∀ m, m ∈ l → m ∈ cls_members cls) →
      foldl (λ this m, f_set m (f_get m (members a)) this) (members b) l = members b) as Hsame.
    { induction l as [|m l IH]; intros Hsub; [done|]. simpl.
      rewrite (Hab m) by (apply Hsub; by left). rewrite (law_set_get cls Hl) by (apply Hsub; by left).
      apply IH. intros n ?. apply Hsub. by right. }
    by apply Hsame.
  - intros other this. split; by apply assign_eq.
  - intros i j st x y. by apply swap_eq.
Qed.
End lawful.

Section reading.
Context {P W : Type} `{ProtocolLaws P} `{Processor.VaeDbIf W} `{Rubyd.VaeRubydIf W}.
Variable fuel : nat.

(** C33: reading into an object of any generated class, structure, arguments or
    result, whatever the fields on the wire and their order: the bits that are set
    afterwards are those that were set and those of the members found with the
    right type; a member that was not found keeps what the object held, which in
    a new object is what its constructor gave it. *)
Theorem bits_after_reading :
  Forall (λ c, let cls := projT2 c in ∀ its us this,
    Forall2 (item (cls_members cls)) its us → length its < fuel →
    ∃ o, consumes (read fuel cls this) (KStruct :: concat its ++ [KStop; KStructEnd]) o ∧
      members o = foldl (λ s u, u s) (members this) us ∧
      isset o = isset this ∪ recognised cls its ∧
      ∀ m, m ∈ cls_members cls → f_id m ∉ isset o → f_get m (members o) = f_get m (members this))
    (structure_classes (P := P) fuel ++ VaeDb_classes (W := W) fuel ++ VaeRubyd_classes (W := W) fuel).
Proof.
  eapply Forall_impl; [exact (all_lawful fuel)|]. intros [S c] Hl cls its us this Hits Hf. simpl in *.
  destruct (read_items fuel cls its us this Hl Hits Hf) as (o & Ho & Hm & Hi & Hk).
  exists o. split; [done|]. split; [done|]. split; [done|]. intros m Hin Hn. apply Hk; [done|].
  rewrite Hi in Hn. by apply not_elem_of_union in Hn as [_ ?].
Qed.
End reading.

Section methods.
Context {P W : Type} `{TProtocol P} `{Processor.VaeDbIf W} `{Rubyd.VaeRubydIf W}.
Variable (fuel : nat) (what : exn → string).

(** The methods of both services. *)
Definition methods : list (method (P := P) (W := W)) := Processor.processMap fuel ++ Rubyd.processMap.

Lemma throws_distinct : Forall (λ m, NoDup (m_throws m).*2) methods.
Proof. repeat (apply Forall_cons; split); [apply (bool_decide_unpack _); vm_compute; exact Logic.I..|by apply Forall_nil]. Qed.

End methods.

(** * On the queues *)

(** An argument that the client leaves out, and one with another type: the handler
    gets the values of the constructor. *)
Definition wire : list token :=
  [KStruct; KField T_STRING 1; KString "x"; KFieldEnd; KField T_I32 2; KI32 5; KFieldEnd; KStop; KStructEnd].
#[local] Instance null_db : Processor.VaeDbIf nat := Processor.VaeDbNull.
#[local] Instance null_rubyd : Rubyd.VaeRubydIf nat := Rubyd.VaeRubydNull.
Definition data_args : class (P := queues) (Z * Z) := VaeDb_data_args (W := nat) 9.

Example bits_after_reading_witness :
  ∃ o q, read 9 data_args (construct data_args) (receive wire) = (Ok o, q) ∧
    isset o = {[2%Z]} ∧ (members o).1 = 0%Z.
Proof.
  set (f := Field "response_id" 2 i32 (λ '(_, v), v) (λ v '(x0, _), (x0, v)) : field (P := queues) (Z * Z)).
  pose proof (bits_after_reading (P := queues) (W := nat) 9) as Hall. rewrite Forall_forall in Hall.
  destruct (Hall (existT _ data_args)) with
    (its := [KField T_STRING 1 :: [KString "x"] ++ [KFieldEnd]; KField T_I32 2 :: [KI32 5] ++ [KFieldEnd]])
    (us := [id : Z * Z → Z * Z; f_set f 5%Z]) (this := construct data_args) as (o & Ho & _ & Hi & Hk).
  - do 19 right. left.
  - constructor; [|constructor; [|constructor]].
    + constructor; [constructor|]. intros g Hg. rewrite list_elem_of_In in Hg. simpl in Hg.
      destruct Hg as [<-|[<-|[]]]; discriminate.
    + apply (item_known _ f 5%Z [KI32 5]); [|discriminate|intros; apply readI32_law].
      right. left.
  - simpl. lia.
  - destruct (Ho (receive wire) []) as (q & E & _); [reflexivity|]. exists o, q. split; [exact E|].
    assert (isset (S := Z * Z) o = {[2%Z]}) as E2 by (etrans; [exact Hi|vm_compute; reflexivity]).
    split; [exact E2|].
    refine (Hk (Field "session_id" 1 i32 (λ '(v, _), v) (λ v '(_, x1), (v, x1))) _ _); [left|].
    intros Hn. change (1%Z ∈ isset (S := Z * Z) o) in Hn. rewrite E2 in Hn. by apply elem_of_singleton in Hn.
Defined.
