(* ===== verification/Xml.v ===== *)
(** The document a site keeps: libxml2's tree of nodes as a store of records,
    with the pointers between them, and the part of libxml2 that the program
    calls ([LibXml]).  [XmlRef] is a concrete instance for witnesses. *)
From Stdlib Require Import ZArith.
From S2P Require Import Prelude Cpp.

(** Addresses of [xmlNode]s and of [Context]s. *)
Abbreviation ptr := positive.
Abbreviation cptr := positive.

Inductive xmlElementType := XML_ELEMENT_NODE | XML_TEXT_NODE | XML_OTHER_NODE.
#[export] Instance xmlElementType_eq_dec : EqDecision xmlElementType.
Proof. solve_decision. Defined.

(** An attribute; [attr_value] is the content of its first child, if it has one. *)
Record xmlAttr := { attr_name : string; attr_value : option string }.

Record xmlNode := {
  type : xmlElementType;
  name : option string;
  content : option string;
  children : option ptr;
  last : option ptr;
  next : option ptr;
  parent : option ptr;
  properties : list xmlAttr;
  _private : option cptr;
}.

#[export] Instance xmlAttr_eq_dec : EqDecision xmlAttr.
Proof. solve_decision. Defined.

Abbreviation heap := (gmap ptr xmlNode).

(** What [xmlXPathEvalExpression] returns: [NULL], a node set in document order,
    or an object of another type. *)
Inductive xmlXPathObject :=
| XPATH_NULL
| XPATH_NODESET (nodeTab : list ptr)
| XPATH_OTHER.

Class LibXml := {
  (** [xmlReadMemory] and [xmlParseFile]. *)
  xmlReadMemory : string → option heap;
  xmlParseFile : string → option heap;
  (** Whether [xmlXPathNewContext] finds the memory for a context. *)
  xmlXPathNewContext : heap → bool;
  (** The value of an expression, below the given node if there is one. *)
  xmlXPathEvalExpression : string → option ptr → heap → xmlXPathObject;
  xmlUnlinkNode : ptr → heap → heap;
  xmlFreeNode : ptr → heap → heap;
  xmlFreeNodeList : option ptr → heap → heap;
  (** [xmlCopyNode(node, 0)]. *)
  xmlCopyNode : ptr → heap → option ptr * heap;
  xmlAddChild : ptr → ptr → heap → heap;
}.

(** [*p], undefined when [p] is null or dangling. *)
Definition node_of (h : heap) (p : option ptr) : outcome xmlNode :=
  match p with
  | None => UB "null node"
  | Some p => match h !! p with Some n => Ok n | None => UB "dangling node" end
  end.

(** [for (child = p; child; child = child->next)]: the nodes visited. *)
Fixpoint siblings (fuel : nat) (h : heap) (p : option ptr) : outcome (list (ptr * xmlNode)) :=
  match p with
  | None => Ok []
  | Some q =>
      match fuel with
      | O => OutOfFuel
      | S fuel =>
          n ← node_of h p;
          l ← siblings fuel h (next n);
          mret ((q, n) :: l)
      end
  end.
Definition child_list (h : heap) (n : xmlNode) : outcome (list (ptr * xmlNode)) :=
  siblings (size h) h (children n).

(** The fuel is enough for every list that ends: more fuel gives the same nodes. *)
Lemma siblings_inv fuel h p l :
  siblings fuel h p = Ok l →
  length l ≤ fuel ∧ (∀ q n, (q, n) ∈ l → h !! q = Some n).
Proof.
  revert p l. induction fuel as [|fuel IH]; intros [q|] l; simpl; try done.
  - intros [= <-]. split; [done|]. by intros ? ? ?%not_elem_of_nil.
  - destruct (h !! q) as [n|] eqn:E; simpl; [|done].
    destruct (siblings fuel h (next n)) as [l'| | |] eqn:El; try done. intros [= <-].
    destruct (IH _ _ El) as [Hl Hin]. split; [simpl; lia|].
    intros q' n' [[= -> ->]|Hx]%elem_of_cons; [done|by apply Hin].
  - intros [= <-]. split; [simpl; lia|]. by intros ? ? ?%not_elem_of_nil.
Qed.

Lemma siblings_more fuel fuel' h p l :
  siblings fuel h p = Ok l → fuel ≤ fuel' → siblings fuel' h p = Ok l.
Proof.
  revert fuel' p l. induction fuel as [|fuel IH]; intros [|fuel'] [q|] l; simpl; try done; try lia.
  destruct (h !! q) as [n|]; simpl; [|done].
  destruct (siblings fuel h (next n)) as [l'| | |] eqn:El; try done.
  intros [= <-] Hle. by rewrite (IH fuel' _ _ El) by lia.
Qed.

Lemma siblings_functional fuel fuel' h p l l' :
  siblings fuel h p = Ok l → siblings fuel' h p = Ok l' → l = l'.
Proof.
  intros H1 H2. destruct (decide (fuel ≤ fuel')).
  - rewrite (siblings_more _ fuel' _ _ _ H1) in H2 by done. congruence.
  - rewrite (siblings_more _ fuel _ _ _ H2) in H1 by lia. congruence.
Qed.

Lemma siblings_suffix fuel h p l q :
  siblings fuel h p = Ok l → q ∈ l.*1 →
  ∃ fuel' l', siblings fuel' h (Some q) = Ok l' ∧ length l' ≤ length l.
Proof.
  revert p l. induction fuel as [|fuel IH]; intros [p|] l; simpl; try done.
  - intros [= <-] []%not_elem_of_nil.
  - destruct (h !! p) as [n|] eqn:Ep; simpl; [|done].
    destruct (siblings fuel h (next n)) as [l'| | |] eqn:El; try done. intros [= <-].
    rewrite fmap_cons. intros [->|Hin]%elem_of_cons.
    + exists (S fuel), ((p, n) :: l'). simpl. rewrite Ep. simpl. by rewrite El.
    + destruct (IH _ _ El Hin) as (f & l2 & E2 & Hle). exists f, l2. split; [done|]. simpl. lia.
  - intros [= <-] []%not_elem_of_nil.
Qed.

Lemma siblings_nodup fuel h p l : siblings fuel h p = Ok l → NoDup l.*1.
Proof.
  revert p l. induction fuel as [|fuel IH]; intros [p|] l; simpl; try done.
  1,3: intros [= <-]; constructor.
  destruct (h !! p) as [n|] eqn:Ep; simpl; [|done].
  destruct (siblings fuel h (next n)) as [l'| | |] eqn:El; try done. intros [= <-].
  rewrite fmap_cons. apply NoDup_cons. split; [|by eapply IH]. intros Hin.
  destruct (siblings_suffix _ _ _ _ _ El Hin) as (f & l2 & E2 & Hle).
  assert (siblings (S fuel) h (Some p) = Ok ((p, n) :: l')) as E1.
  { simpl. rewrite Ep. simpl. by rewrite El. }
  pose proof (siblings_functional _ _ _ _ _ _ E1 E2) as <-. simpl in Hle. lia.
Qed.

(** The number of nodes is enough fuel for any list of siblings that ends. *)
Lemma siblings_fuel fuel h p l : siblings fuel h p = Ok l → siblings (size h) h p = Ok l.
Proof.
  intros E. destruct (siblings_inv _ _ _ _ E) as [_ Hin].
  assert (length l ≤ size h) as Hlen.
  { rewrite <- (length_fmap fst), <- (size_list_to_set (C := gset ptr)) by by eapply siblings_nodup.
    rewrite <- size_dom. apply subseteq_size. intros q Hq%elem_of_list_to_set.
    apply list_elem_of_fmap in Hq as ([q' n] & -> & Hx). apply elem_of_dom. eexists. by apply Hin. }
  clear Hin. revert p l E Hlen. generalize (size h) as sz. induction fuel as [|fuel IH];
    intros sz [p|] l; simpl; try done.
  1,3: by destruct sz.
  destruct (h !! p) as [n|] eqn:Ep; simpl; [|done].
  destruct (siblings fuel h (next n)) as [l'| | |] eqn:El; try done. intros [= <-] Hlen.
  destruct sz as [|sz]; simpl in *; [lia|]. rewrite Ep. simpl.
  by rewrite (IH sz _ _ El) by lia.
Qed.
