(* ===== verification/XmlRef.v ===== *)
(** A concrete [LibXml] for witnesses and examples: documents are looked up in
    a table of texts, and XPath is cut down to the expressions that the program
    builds for the demonstration document: absolute and relative child steps,
    [//], and the predicates on [@id]. *)
From Stdlib Require Import ZArith.
From S2P Require Import Prelude Cpp Extern Xml.

(** ** Building documents *)

Inductive tree :=
| Elem (nm : string) (attrs : list (string * string)) (kids : list tree)
| Text (s : string).

Definition attrs_of (l : list (string * string)) : list xmlAttr :=
  (λ a, {| attr_name := a.1; attr_value := Some a.2 |}) <$> l.

Definition set_next (n : option ptr) (x : xmlNode) : xmlNode :=
  {| type := type x; name := name x; content := content x; children := children x;
     last := last x; next := n; parent := parent x; properties := properties x;
     _private := _private x |}.

(** Lays a node out from the address [p] on, and gives the first free address. *)
Fixpoint build (par : option ptr) (t : tree) (p : ptr) (h : heap) : heap * ptr :=
  match t with
  | Text s =>
      (<[p := {| type := XML_TEXT_NODE; name := Some "text"; content := Some s; children := None;
                 last := None; next := None; parent := par; properties := []; _private := None |}]> h,
       Pos.succ p)
  | Elem nm attrs kids =>
      let '(h, free, first, prev) :=
        foldl (λ acc k,
          let '(h, q, first, prev) := acc in
          let '(h, q') := build (Some p) k q h in
          let h := match prev with
                   | Some r => match h !! r with Some x => <[r := set_next (Some q) x]> h | None => h end
                   | None => h end in
          (h, q', match first with None => Some q | _ => first end, Some q))
          (h, Pos.succ p, None, None) kids in
      (<[p := {| type := XML_ELEMENT_NODE; name := Some nm; content := None; children := first;
                 last := prev; next := None; parent := par; properties := attrs_of attrs;
                 _private := None |}]> h,
       free)
  end.
(** The root element is at address 1. *)
Definition document (t : tree) : heap := (build None t 1 ∅).1.

(** ** XPath *)

Definition kids (h : heap) (p : ptr) : list ptr :=
  match h !! p with
  | Some n => match child_list h n with Ok l => l.*1 | _ => [] end
  | None => []
  end.
Definition is_element (h : heap) (p : ptr) : bool :=
  match h !! p with Some n => bool_decide (type n = XML_ELEMENT_NODE) | None => false end.
Fixpoint descendants (fuel : nat) (h : heap) (p : ptr) : list ptr :=
  match fuel with
  | O => []
  | S fuel => p :: (kids h p ≫= descendants fuel h)
  end.

Definition attribute (h : heap) (p : ptr) (a : string) : option string :=
  match h !! p with
  | Some n => head (omap (λ x, if decide (attr_name x = a) then attr_value x else None) (properties n))
  | None => None
  end.

Definition name_test (h : heap) (test : string) (p : ptr) : bool :=
  is_element h p &&
  (bool_decide (test = "*") ||
   match h !! p with Some n => bool_decide (name n = Some test) | None => false end).

Definition predicate (h : heap) (pred : string) (p : ptr) : bool :=
  if decide (pred = "") then true
  else if decide (pred = "[@id!='']") then bool_decide (default "" (attribute h p "id") ≠ "")
  else match attribute h p "id" with
       | Some v => bool_decide (pred = "[@id=" +:+ v +:+ "]" ∨ pred = "[@id='" +:+ v +:+ "']")
       | None => false
       end.

Fixpoint split_step (acc l : list ascii) : string * string :=
  match l with
  | [] => (of_chars acc, "")
  | "["%char :: _ => (of_chars acc, of_chars l)
  | c :: l' => split_step (acc ++ [c]) l'
  end.

Fixpoint eval_steps (h : heap) (here : list ptr) (steps : list string) : list ptr :=
  match steps with
  | [] => here
  | s :: steps' =>
      if decide (s = "") then
        eval_steps h (here ≫= λ p, descendants (size h) h p) steps'
      else
        let '(test, pred) := split_step [] (chars s) in
        eval_steps h (filter (λ p, name_test h test p && predicate h pred p) (here ≫= kids h)) steps'
  end.

(** A document node above the root element. *)
Definition with_document (h : heap) : heap :=
  <[1000%positive := {| type := XML_OTHER_NODE; name := None; content := None;
     children := Some 1%positive; last := Some 1%positive; next := None; parent := None;
     properties := []; _private := None |}]> h.

Definition eval (q : string) (n : option ptr) (h : heap) : xmlXPathObject :=
  let steps := BoostRef.split "/" q in
  match steps with
  | "" :: rest => XPATH_NODESET (eval_steps (with_document h) [1000%positive] rest)
  | _ =>
      if strstr q "(" then XPATH_NULL
      else match n with
           | Some p => XPATH_NODESET (eval_steps h [p] steps)
           | None => XPATH_NODESET []
           end
  end.

(** ** Editing *)

Definition update (p : ptr) (f : xmlNode → xmlNode) (h : heap) : heap := alter f p h.
Definition set_children (c l : option ptr) (x : xmlNode) : xmlNode :=
  {| type := type x; name := name x; content := content x; children := c; last := l;
     next := next x; parent := parent x; properties := properties x; _private := _private x |}.
Definition set_parent (p : option ptr) (x : xmlNode) : xmlNode :=
  {| type := type x; name := name x; content := content x; children := children x; last := last x;
     next := next x; parent := p; properties := properties x; _private := _private x |}.

Definition unlink (p : ptr) (h : heap) : heap :=
  match h !! p with
  | None => h
  | Some n =>
      let skip q := if decide (q = Some p) then next n else q in
      let before := head (omap (λ e, if decide (next e.2 = Some p) then Some e.1 else None)
                               (map_to_list h)) in
      update p (λ x, set_parent None (set_next None x))
        ((λ x, set_next (skip (next x)) (set_children (skip (children x))
            (if decide (last x = Some p) then before else last x) x)) <$> h)
  end.
Definition free (p : ptr) (h : heap) : heap :=
  foldr delete h (descendants (size h) h p).
Definition free_list (p : option ptr) (h : heap) : heap :=
  match siblings (size h) h p with
  | Ok l => foldr free h l.*1
  | _ => h
  end.
Definition fresh_ptr (h : heap) : ptr := fresh (dom h).
Definition copy (p : ptr) (h : heap) : option ptr * heap :=
  match h !! p with
  | Some n =>
      let q := fresh_ptr h in
      (Some q, <[q := set_parent None (set_next None (set_children None None
        {| type := type n; name := name n; content := content n; children := None; last := None;
           next := None; parent := None; properties := []; _private := None |}))]> h)
  | None => (None, h)
  end.
Definition add_child (p c : ptr) (h : heap) : heap :=
  let h := update c (set_parent (Some p)) h in
  match list.last (kids h p) with
  | Some l => update p (λ x, set_children (children x) (Some c) x) (update l (set_next (Some c)) h)
  | None => update p (set_children (Some c) (Some c)) h
  end.

(** The instance, for a table of documents. *)
Definition libxml_ref (docs : list (string * tree)) : LibXml := {|
  xmlReadMemory s := document <$> head (omap (λ d, if decide (d.1 = s) then Some d.2 else None) docs);
  xmlParseFile s := document <$> head (omap (λ d, if decide (d.1 = s) then Some d.2 else None) docs);
  xmlXPathNewContext _ := true;
  xmlXPathEvalExpression := eval;
  xmlUnlinkNode := unlink;
  xmlFreeNode := free;
  xmlFreeNodeList := free_list;
  xmlCopyNode := copy;
  xmlAddChild := add_child;
|}.

(** ** The demonstration document *)

Definition demo_tree : tree :=
  Elem "website" [] [
    Elem "content" [] [
      Elem "artist" [("id", "1"); ("type", "10"); ("permalink", "artists/miles")] [
        Elem "name" [] [Text "Miles Davis"];
        Elem "year" [] [Text "1926"];
        Elem "album" [("id", "3"); ("type", "11")] [Elem "title" [] [Text "Kind of Blue"]];
        Elem "influence" [("type", "12")] [Text "2"]];
      Elem "artist" [("id", "2"); ("type", "10"); ("permalink", "artists")] [
        Elem "name" [] [Text "Art Blakey"];
        Elem "year" [] [Text "1919"]];
      Elem "artist" [("id", "4"); ("type", "10"); ("staging", "1")] [
        Elem "name" [] [Text "Draft"]]];
    Elem "design" [] [
      Elem "artist" [("id", "10"); ("name", "Artist"); ("type", "Collection"); ("permalink", "artist")] [
        Elem "album" [("id", "11"); ("type", "Collection")] []];
      Elem "influence" [("id", "12"); ("type", "AssociationItem")] []];
    Elem "generation" [] [Text "7"]].

Definition demo_libxml : LibXml := libxml_ref [("demo.xml", demo_tree)].

Example demo_content : eval "/website/content" None (document demo_tree) = XPATH_NODESET [2%positive].
Proof. vm_compute. reflexivity. Qed.
Example demo_structure :
  match eval "/website/design//*[@id=11]" None (document demo_tree) with
  | XPATH_NODESET [p] => attribute (document demo_tree) p "type" = Some "Collection"
  | _ => False
  end.
Proof. vm_compute. reflexivity. Qed.
