(* ===== verification/Query.v ===== *)
(** [cpp/query.cpp]: the queries.  A query is resolved against a [Tree], the
    part of a site that no longer changes once the document is loaded:
    permalinks, identifiers, [prev()] and [next()], and the rewriting of a path
    into XPath. *)
From Stdlib Require Import ZArith.
From S2P Require Import Prelude Cpp Extern Regex VaeTypes Xml.

(** * Data *)

(** A [Context], without the tables it fills on demand (see [Site]). *)
Record Context := {
  node : ptr;
  id : Z;
  permalink : option string;
  structure : option VaeDbStructure;
  ctype : string;
  vaeDbContext : VaeDbContext;
  pointerNodes : list ptr;
  killMe : bool;
}.

(** The members of [Site] that queries read. *)
Record Tree := {
  doc : heap;
  rootNode : option ptr;
  rootDesignNode : option ptr;
  nodes : gmap Z ptr;
  permalinks : gmap string ptr;
  contexts : gmap cptr Context;
}.

(** [Query]: [size] and the node table of [xpathObj]. *)
Record Query := { qsize : Z; nodeTab : list ptr }.

(** The members of a [Context] reached through a pointer. *)
Definition context_of (t : Tree) (c : cptr) : outcome Context :=
  match contexts t !! c with Some x => Ok x | None => UB "dangling context" end.
Definition getNodeName (t : Tree) (c : cptr) : outcome (option string) :=
  x ← context_of t c; n ← node_of (doc t) (Some (node x)); mret (name n).
Definition getStructureId (t : Tree) (c : cptr) : outcome Z :=
  x ← context_of t c;
  match structure x with Some s => Ok (structure_id s) | None => UB "null structure" end.
Definition private_of (t : Tree) (p : ptr) : outcome (option cptr) :=
  n ← node_of (doc t) (Some p); mret (_private n).

(** * Rewriting *)

(** The five rewriting rules, in the order of the code. *)
Definition id_rule : string * string := ("/([0-9]+)", "[@id='\1']").
Definition text_rules : list (string * string) :=
  [("\[([_a-z])([a-z0-9_/]+)([^(a-z0-9_/])", "[\1\2/text()\3");
   (" (or|and) ([_a-z])([a-z0-9_/]+)([^(a-z0-9_/])", " \1 \2\3/text()\4");
   ("([^@])([_a-z])([0-9a-z_/]+) (or|and) ", "\1\2\3/text() \4 ");
   ("([^@])([_a-z])([0-9a-z_/]+)\]", "\1\2\3/text()]")].
Definition rules : list (string * string) := id_rule :: text_rules.

Section query.
Context `{Boost} `{Pcre} `{LibXml}.

(** [while (RE(pattern).Replace(rewrite, &s)) { }]. *)
Fixpoint replace_while (fuel : nat) (rule : string * string) (s : string) : outcome string :=
  match fuel with
  | O => OutOfFuel
  | S fuel =>
      match re_replace false rule.1 rule.2 s with
      | Some s' => replace_while fuel rule s'
      | None => Ok s
      end
  end.
(** One replacement per character is enough. *)
Definition replace_all (rule : string * string) (s : string) : outcome string :=
  replace_while (S (length (chars s))) rule s.

Fixpoint apply_rules (rs : list (string * string)) (s : string) : outcome string :=
  match rs with
  | [] => Ok s
  | r :: rs' => s ← replace_all r s; apply_rules rs' s
  end.

Definition double_slash : string := "Double-slashes are not supported in Vae queries.".

Definition rewrite_part (s : string) : outcome string :=
  s ← apply_rules rules s;
  if strstr s "//" then Throw (QueryError double_slash) else Ok s.

(** The loop over the parts between quotes, two at a time. *)
Fixpoint rewrite_parts (parts : list string) : outcome (list string) :=
  match parts with
  | [] => Ok []
  | p :: parts' =>
      p ← rewrite_part p;
      match parts' with
      | [] => Ok [p]
      | quoted :: parts'' => rest ← rewrite_parts parts''; Ok (p :: quoted :: rest)
      end
  end.

(** The "hack of the century". *)
Definition century (query : string) : string :=
  if strstr query "/" && negb (strstr query "[") then
    match split_any_of "/" query with
    | [] => query
    | p :: ps => if strstr p "." then query else join ((p +:+ "[@id!='']") :: ps) "/"
    end
  else query.

Definition to_xpath (query : string) : outcome string :=
  parts ← rewrite_parts (split_any_of "'" query);
  mret (century (join parts "'")).

(** * Running *)

Definition result (n : option ptr) : Query :=
  match n with
  | Some n => {| qsize := 1; nodeTab := [n] |}
  | None => {| qsize := 0; nodeTab := [] |}
  end.

Definition find (t : Tree) (id : Z) : Query := result (nodes t !! id).

Definition getNode (q : Query) (i : nat) : outcome ptr :=
  match nodeTab q !! i with Some p => Ok p | None => UB "nodeTab out of bounds" end.

Definition getSize (q : Query) : Z := qsize q.

(** The text of the first node's first child. *)
Definition text_of (t : Tree) (n : xmlNode) : outcome string :=
  match children n with
  | None => Ok ""
  | Some c =>
      child ← node_of (doc t) (Some c);
      if decide (type child = XML_TEXT_NODE)
      then match content child with Some s => Ok s | None => UB "null content" end
      else Ok ""
  end.
Definition getSingleData (t : Tree) (q : Query) : outcome string :=
  if (0 <? getSize q)%Z then
    p ← getNode q 0; n ← node_of (doc t) (Some p); text_of t n
  else Ok "".

Definition singleData (t : Tree) (q : Query) : outcome bool :=
  if (qsize q =? 1)%Z then
    p ← getNode q 0; n ← node_of (doc t) (Some p);
    mret (forallb (λ a, negb (bool_decide (attr_name a = "id"))) (properties n))
  else Ok false.

Definition runRawQuery (t : Tree) (n : option ptr) (q displayQuery : string) : outcome Query :=
  if xmlXPathNewContext (doc t) then
    match xmlXPathEvalExpression (of_chars (c_str q)) n (doc t) with
    | XPATH_NULL =>
        Throw (QueryError ("could not evaluate XPath expression: '" +:+ displayQuery +:+ "'"))
    | XPATH_OTHER => Throw (InternalError "libxml2 returned something other than a nodeset?!")
    | XPATH_NODESET l =>
        match l with
        | p :: _ => if decide (rootNode t = Some p) then Ok (result None)
                    else Ok {| qsize := Z.of_nat (length l); nodeTab := l |}
        | [] => Ok {| qsize := 0; nodeTab := [] |}
        end
    end
  else Throw (InternalError "could not create libxml2 XPath Context").

Definition runQuery (t : Tree) (context : option cptr) (q displayQuery : string)
    : outcome Query :=
  n ← match context with
      | Some c => x ← context_of t c; mret (Some (node x))
      | None => Ok (rootNode t)
      end;
  runRawQuery t n q displayQuery.

Definition design_query (structureId : Z) : string :=
  "/website/design//*[@id=" +:+ pretty structureId +:+ "]".

Definition runDesignQuery (t : Tree) (context : option cptr) (query : string) : outcome Query :=
  n ← match context with
      | Some c =>
          s ← getStructureId t c;
          q ← runRawQuery t None (design_query s) (design_query s);
          p ← getNode q 0; mret (Some p)
      | None => Ok (rootDesignNode t)
      end;
  runRawQuery t n query query.

(** * The constructor *)

Definition prev_error : string := "You cannot use PREV() outside of a context.".
Definition next_error : string := "You cannot use NEXT() outside of a context.".

Definition sibling_axis (t : Tree) (call axis error : string) (context : option cptr)
    (query : string) : outcome string :=
  if strcasecmp_eq call query then
    match context with
    | None => Throw (QueryError error)
    | Some c =>
        n ← getNodeName t c;
        match n with
        | None => Throw (QueryError error)
        | Some n => Ok (axis +:+ n +:+ "[1]")
        end
    end
  else Ok query.

(** From [prev()] on: a path below [context]; [q] is the query to display. *)
Definition Query_path (t : Tree) (context : option cptr) (query q : string) : outcome Query :=
  query ← sibling_axis t "prev()" "preceding-sibling::" prev_error context query;
  query ← sibling_axis t "next()" "following-sibling::" next_error context query;
  query ← to_xpath query;
  runQuery t context query q.

(** An identifier, possibly followed by a path. *)
Definition Query_id (t : Tree) (context : option cptr) (query q : string) : outcome Query :=
  match re_full_match false "([0-9]+)(/.*|)" query with
  | Some [ident; rest] =>
      let found := find t (atoi ident) in
      if negb (qsize found =? 0)%Z && bool_decide (rest ≠ "") then
        p ← getNode found 0; context ← private_of t p;
        Query_path t context (of_chars (drop 1 (chars rest))) q
      else Ok found
  | _ => Query_path t context query q
  end.

(** The loop over the prefixes of a permalink, longest first: the query is
    answered, or continues below a context. *)
Fixpoint permalink_loop (t : Tree) (pathParts : list string) (i : nat)
    : outcome (Query + option cptr * string) :=
  match i with
  | O => Ok (inl (result None))
  | S i' =>
      match permalinks t !! join (take i pathParts) "/" with
      | Some p =>
          if decide (i = length pathParts) then Ok (inl (result (Some p)))
          else context ← private_of t p;
               Ok (inr (context, join (drop i pathParts) "/"))
      | None => permalink_loop t pathParts i'
      end
  end.

Definition Query_new (t : Tree) (context : option cptr) (q : string) : outcome Query :=
  let '(context, query) :=
    match re_replace false "^/" "" q with
    | Some query => (None, query)
    | None => (context, q)
    end in
  match re_full_match false "permalink/(.*)" query with
  | Some [permalink] =>
      let pathParts := split_any_of "/" permalink in
      r ← permalink_loop t pathParts (length pathParts);
      match r with
      | inl answer => Ok answer
      | inr (context, query) => Query_id t context query q
      end
  | _ => Query_id t context query q
  end.
End query.

(** * Termination of the rewriting *)

(** The characters of a step: [[a-z0-9_/]]. *)
Definition word (c : ascii) : bool :=
  in_range "a" "z" c || in_range "0" "9" c || in_range "_" "_" c || in_range "/" "/" c.
Definition text_call : list ascii := chars "/text()".

(** What the rules do to their subject. The first one turns a slash and a
    number into a predicate; the others insert [/text()] between a word and a
    character that neither continues it nor opens a call. *)
Definition id_step (s s' : list ascii) : Prop :=
  ∃ a d b, s = a ++ "/"%char :: d ++ b ∧ s' = a ++ chars "[@id='" ++ d ++ chars "']" ++ b
         ∧ Forall (λ c, is_digit c = true) d.
Definition text_step (s s' : list ascii) : Prop :=
  ∃ a c t b, s = a ++ c :: t :: b ∧ s' = a ++ c :: text_call ++ t :: b
           ∧ word c = true ∧ word t = false ∧ t ≠ "("%char.

Class RewriteLaws `{Pcre} : Prop := {
  id_rule_law s s' :
    re_replace false id_rule.1 id_rule.2 s = Some s' → id_step (chars s) (chars s');
  text_rule_law r s s' :
    r ∈ text_rules → re_replace false r.1 r.2 s = Some s' → text_step (chars s) (chars s');
}.

(** ** The matcher of [Regex] follows them *)

Lemma text_step_intro A W t B s s' :
  s = A ++ W ++ t :: B → s' = A ++ W ++ text_call ++ t :: B →
  W ≠ [] → Forall (λ c, word c = true) W → word t = false → t ≠ "("%char → text_step s s'.
Proof.
  intros -> -> Hne HW Ht1 Ht2. destruct (exists_last Hne) as (W' & c & ->).
  apply Forall_app in HW as [_ HW]. apply Forall_cons in HW as [Hc _].
  exists (A ++ W'), c, t, B. by rewrite <- !app_assoc.
Qed.


Lemma id_rule_ref s s' : replace false id_rule.1 id_rule.2 s = Some s' → id_step (chars s) (chars s').
Proof.
  intros E. inv_replace E.
  match goal with Hs : in_range "/" "/" _ = true |- _ => apply in_range_refl in Hs as <- end.
  eexists a, (_ :: _), b. split; [done|]. split; [by rewrite <- !app_assoc|].
  constructor; [done|]. by eapply Forall_impl.
Qed.

(** Leaves [word] of the characters of the classes, and names the fixed ones. *)
Ltac word_classes :=
  repeat match goal with
  | Hs : in_range ?a ?a _ = true |- _ => apply in_range_refl in Hs as <-
  end;
  match goal with
  | Ht : Forall _ ?x, Hw : _ || in_range "/" "/" ?c = true |- _ =>
      assert (word c = true) by (unfold word; rewrite !orb_true_iff in *; tauto);
      assert (Forall (λ c, word c = true) x)
        by (eapply Forall_impl; [exact Ht|]; intros ?; unfold word; simpl;
            rewrite !orb_true_iff; tauto)
  end.

Lemma word_end c :
  negb (in_range "(" "(" c || in_range "a" "z" c || in_range "0" "9" c
        || in_range "_" "_" c || in_range "/" "/" c) = true →
  word c = false ∧ c ≠ "("%char.
Proof.
  rewrite negb_true_iff, !orb_false_iff. intros [[[[E ?] ?] ?] ?]. split.
  - unfold word. by rewrite !orb_false_iff.
  - by intros ->.
Qed.

Lemma text_rule_ref r s s' :
  r ∈ text_rules → replace false r.1 r.2 s = Some s' → text_step (chars s) (chars s').
Proof.
  unfold text_rules. rewrite !elem_of_cons, elem_of_nil. intros Hr E.
  destruct Hr as [->|[->|[->|[->|[]]]]]; simpl in E; inv_replace E; word_classes.
  - apply (text_step_intro (a ++ ["["%char; c1]) (c0 :: x) c b);
      [by rewrite <- !app_assoc..|done|by constructor|by apply word_end|by apply word_end].
  - apply (text_step_intro (a ++ chars " or " ++ [c1]) (c0 :: x) c b);
      [by rewrite <- !app_assoc..|done|by constructor|by apply word_end|by apply word_end].
  - apply (text_step_intro (a ++ chars " and " ++ [c1]) (c0 :: x) c b);
      [by rewrite <- !app_assoc..|done|by constructor|by apply word_end|by apply word_end].
  - apply (text_step_intro (a ++ [c1; c0]) (c :: x) " "%char (chars "or " ++ b));
      [by rewrite <- !app_assoc..|done|by constructor|done|done].
  - apply (text_step_intro (a ++ [c1; c0]) (c :: x) " "%char (chars "and " ++ b));
      [by rewrite <- !app_assoc..|done|by constructor|done|done].
  - apply (text_step_intro (a ++ [c1; c0]) (c :: x) "]"%char b);
      [by rewrite <- !app_assoc..|done|by constructor|done|done].
Qed.

#[export] Instance rewrite_ref : RewriteLaws.
Proof. split; [apply id_rule_ref|apply text_rule_ref]. Qed.

(** ** Each step uses up one place of the subject *)

Definition slashes (l : list ascii) : nat := length (filter (λ c, c = "/"%char) l).

(** Places where a text step applies: a word followed by something else. *)
Definition word_ends (c t : ascii) : bool := word c && negb (word t) && negb (bool_decide (t = "("%char)).
Fixpoint ends (l : list ascii) : nat :=
  match l with
  | c :: (t :: _) as l' => (if word_ends c t then 1 else 0) + ends l'
  | _ => 0
  end.

Lemma ends_le l : ends l ≤ length l.
Proof.
  induction l as [|c [|t l] IH]; [done|simpl; lia|].
  change (ends (c :: t :: l)) with ((if word_ends c t then 1 else 0) + ends (t :: l)).
  simpl length in *. destruct (word_ends c t); lia.
Qed.

Lemma ends_app a c l : ends (a ++ c :: l) = ends (a ++ [c]) + ends (c :: l).
Proof.
  induction a as [|d a IH]; [done|]. destruct a as [|e a].
  - simpl. lia.
  - change (ends ((d :: e :: a) ++ c :: l)) with ((if word_ends d e then 1 else 0) + ends ((e :: a) ++ c :: l)).
    change (ends ((d :: e :: a) ++ [c])) with ((if word_ends d e then 1 else 0) + ends ((e :: a) ++ [c])).
    rewrite IH. lia.
Qed.

Lemma text_step_ends s s' : text_step s s' → S (ends s') = ends s.
Proof.
  intros (a & c & t & b & -> & -> & Hc & Ht & Hp). rewrite (ends_app a c (t :: b)), ends_app.
  assert (word_ends c t = true) as E1.
  { unfold word_ends. rewrite Hc, Ht, bool_decide_eq_false_2 by done. done. }
  assert (word_ends c "/" = false) as E2.
  { unfold word_ends. by rewrite (andb_comm (word c)). }
  change (ends (c :: t :: b)) with ((if word_ends c t then 1 else 0) + ends (t :: b)).
  change (ends (c :: text_call ++ t :: b)) with ((if word_ends c "/" then 1 else 0) + ends (t :: b)).
  rewrite E1, E2. lia.
Qed.

Lemma slashes_app a b : slashes (a ++ b) = slashes a + slashes b.
Proof. unfold slashes. by rewrite filter_app, length_app. Qed.

Lemma id_step_slashes s s' : id_step s s' → S (slashes s') = slashes s.
Proof.
  intros (a & d & b & -> & -> & Hd).
  assert (slashes (chars "[@id='") = 0 ∧ slashes (chars "']") = 0) as [E1 E2] by done.
  assert (slashes ("/"%char :: d ++ b) = S (slashes (d ++ b))) as E3 by done.
  rewrite !slashes_app, E1, E2, E3, slashes_app. lia.
Qed.

Lemma slashes_le l : slashes l ≤ length l.
Proof. apply length_filter. Qed.

Section termination.
Context `{Boost} `{RewriteLaws}.

Lemma replace_while_ok rule (m : list ascii → nat) fuel s :
  (∀ s s', re_replace false rule.1 rule.2 s = Some s' → m (chars s') < m (chars s)) →
  m (chars s) < fuel →
  ∃ s', replace_while fuel rule s = Ok s' ∧ re_replace false rule.1 rule.2 s' = None.
Proof.
  intros Hm. revert s. induction fuel as [|fuel IH]; intros s Hf; [lia|]. simpl.
  destruct (re_replace false rule.1 rule.2 s) as [s'|] eqn:E; [|eauto].
  apply IH. specialize (Hm _ _ E). lia.
Qed.

Lemma replace_all_ok rule s :
  rule ∈ rules →
  ∃ s', replace_all rule s = Ok s' ∧ re_replace false rule.1 rule.2 s' = None.
Proof.
  unfold rules. intros [->|Hr]%elem_of_cons.
  - apply (replace_while_ok _ slashes).
    + intros s1 s2 E%id_rule_law%id_step_slashes. lia.
    + pose proof (slashes_le (chars s)). lia.
  - apply (replace_while_ok _ ends).
    + intros s1 s2 E%text_rule_law%text_step_ends; [lia|done].
    + pose proof (ends_le (chars s)). lia.
Qed.

Lemma apply_rules_ok rs s : (∀ r, r ∈ rs → r ∈ rules) → ∃ s', apply_rules rs s = Ok s'.
Proof.
  revert s. induction rs as [|r rs IH]; intros s Hin; [by eexists|]. simpl.
  destruct (replace_all_ok r s) as (s1 & -> & _); [apply Hin; by left|].
  apply IH. intros r' ?. apply Hin. by right.
Qed.

Lemma rewrite_part_ok s :
  ∃ s', apply_rules rules s = Ok s' ∧
    rewrite_part s = if strstr s' "//" then Throw (QueryError double_slash) else Ok s'.
Proof.
  destruct (apply_rules_ok rules s) as [s' E]; [done|]. exists s'. split; [done|].
  unfold rewrite_part. by rewrite E.
Qed.

(** The result of rewriting the parts of a query: those at even positions are
    rewritten, those between quotes are kept. *)
Inductive rewritten : list string → list string → Prop :=
| rewritten_nil : rewritten [] []
| rewritten_last p p' :
    apply_rules rules p = Ok p' → strstr p' "//" = false → rewritten [p] [p']
| rewritten_cons p p' quoted l l' :
    apply_rules rules p = Ok p' → strstr p' "//" = false → rewritten l l' →
    rewritten (p :: quoted :: l) (p' :: quoted :: l').

Lemma rewrite_parts_ok l :
  (∃ l', rewrite_parts l = Ok l' ∧ rewritten l l')
  ∨ (rewrite_parts l = Throw (QueryError double_slash)
     ∧ ∃ i p p', l !! (2 * i) = Some p ∧ apply_rules rules p = Ok p' ∧ strstr p' "//" = true).
Proof.
  induction l as [l IH] using (induction_ltof1 _ length). destruct l as [|p l].
  { left. exists []. split; [done|constructor]. }
  simpl. destruct (rewrite_part_ok p) as (p' & E & ->).
  destruct (strstr p' "//") eqn:Es; simpl.
  { right. split; [done|]. by exists 0, p, p'. }
  destruct l as [|quoted l].
  { left. eexists. split; [done|]. by constructor. }
  destruct (IH l) as [(l' & -> & Hl)|[-> (i & q & q' & Hi & Hq)]].
  { unfold ltof. simpl. lia. }
  - left. eexists. split; [done|]. by constructor.
  - right. split; [done|]. exists (S i), q, q'. split; [|done].
    replace (S i + (S i + 0)) with (S (S (2 * i))) by lia. exact Hi.
Qed.

End termination.

#[local] Existing Instance BoostRef.boost_ref.

