(* ===== verification/Site.v ===== *)
(** [cpp/site.cpp] and [cpp/context.cpp]: a site is a parsed document, a tree of
    contexts over its elements, and caches.  The members of a [Context] that
    never change after loading are in [Query.Context]; the tables it fills on
    demand are in [ContextCache], so that queries visibly do not depend on them. *)
From Stdlib Require Import ZArith.
From S2P Require Import Prelude Cpp Extern VaeTypes Xml Query.
From S2P Require LruCache.

(** * Data *)

Record ContextCache := {
  cachedCounts : gmap string Z;
  cachedQueries : gmap string string;
  data : gmap string string;
  dataPopulated : bool;
}.
Definition ContextCache_new : ContextCache :=
  {| cachedCounts := ∅; cachedQueries := ∅; data := ∅; dataPopulated := false |}.

(** [LRUKey]: a context (or none) and a query. *)
Abbreviation LRUKey := (option cptr * string)%type.
(** The cache holds [shared_ptr<Query>]: the null pointer is [None]. *)
Abbreviation QueryCache := (LruCache.LRUCache LRUKey (option Query)).

Record Site := {
  tree : Tree;
  generation : Z;
  subdomain : string;
  secretKeys : list string;
  structures : gmap Z VaeDbStructure;
  associationsToInitialize : list cptr;
  query_cache : QueryCache;
  nodesToClean : list ptr;
  nodesToClean2 : list ptr;
  stagingMode : bool;
  caches : gmap cptr ContextCache;
  next_context : cptr;
}.

(** ** Field updates *)

Definition set_tree (f : Tree → Tree) (s : Site) : Site :=
  {| tree := f (tree s); generation := generation s; subdomain := subdomain s;
     secretKeys := secretKeys s; structures := structures s;
     associationsToInitialize := associationsToInitialize s; query_cache := query_cache s;
     nodesToClean := nodesToClean s; nodesToClean2 := nodesToClean2 s;
     stagingMode := stagingMode s; caches := caches s; next_context := next_context s |}.
Definition set_generation (g : Z) (s : Site) : Site :=
  {| tree := tree s; generation := g; subdomain := subdomain s;
     secretKeys := secretKeys s; structures := structures s;
     associationsToInitialize := associationsToInitialize s; query_cache := query_cache s;
     nodesToClean := nodesToClean s; nodesToClean2 := nodesToClean2 s;
     stagingMode := stagingMode s; caches := caches s; next_context := next_context s |}.
Definition set_structures (f : gmap Z VaeDbStructure → gmap Z VaeDbStructure) (s : Site) : Site :=
  {| tree := tree s; generation := generation s; subdomain := subdomain s;
     secretKeys := secretKeys s; structures := f (structures s);
     associationsToInitialize := associationsToInitialize s; query_cache := query_cache s;
     nodesToClean := nodesToClean s; nodesToClean2 := nodesToClean2 s;
     stagingMode := stagingMode s; caches := caches s; next_context := next_context s |}.
Definition set_associations (f : list cptr → list cptr) (s : Site) : Site :=
  {| tree := tree s; generation := generation s; subdomain := subdomain s;
     secretKeys := secretKeys s; structures := structures s;
     associationsToInitialize := f (associationsToInitialize s); query_cache := query_cache s;
     nodesToClean := nodesToClean s; nodesToClean2 := nodesToClean2 s;
     stagingMode := stagingMode s; caches := caches s; next_context := next_context s |}.
Definition set_query_cache (q : QueryCache) (s : Site) : Site :=
  {| tree := tree s; generation := generation s; subdomain := subdomain s;
     secretKeys := secretKeys s; structures := structures s;
     associationsToInitialize := associationsToInitialize s; query_cache := q;
     nodesToClean := nodesToClean s; nodesToClean2 := nodesToClean2 s;
     stagingMode := stagingMode s; caches := caches s; next_context := next_context s |}.
Definition set_clean (l l2 : list ptr) (s : Site) : Site :=
  {| tree := tree s; generation := generation s; subdomain := subdomain s;
     secretKeys := secretKeys s; structures := structures s;
     associationsToInitialize := associationsToInitialize s; query_cache := query_cache s;
     nodesToClean := nodesToClean s ++ l; nodesToClean2 := nodesToClean2 s ++ l2;
     stagingMode := stagingMode s; caches := caches s; next_context := next_context s |}.
Definition set_caches (f : gmap cptr ContextCache → gmap cptr ContextCache) (s : Site) : Site :=
  {| tree := tree s; generation := generation s; subdomain := subdomain s;
     secretKeys := secretKeys s; structures := structures s;
     associationsToInitialize := associationsToInitialize s; query_cache := query_cache s;
     nodesToClean := nodesToClean s; nodesToClean2 := nodesToClean2 s;
     stagingMode := stagingMode s; caches := f (caches s); next_context := next_context s |}.
Definition set_next_context (c : cptr) (s : Site) : Site :=
  {| tree := tree s; generation := generation s; subdomain := subdomain s;
     secretKeys := secretKeys s; structures := structures s;
     associationsToInitialize := associationsToInitialize s; query_cache := query_cache s;
     nodesToClean := nodesToClean s; nodesToClean2 := nodesToClean2 s;
     stagingMode := stagingMode s; caches := caches s; next_context := c |}.

Definition set_doc (f : heap → heap) (t : Tree) : Tree :=
  {| doc := f (doc t); rootNode := rootNode t; rootDesignNode := rootDesignNode t;
     nodes := nodes t; permalinks := permalinks t; contexts := contexts t |}.
Definition set_roots (r d : option ptr) (t : Tree) : Tree :=
  {| doc := doc t; rootNode := r; rootDesignNode := d;
     nodes := nodes t; permalinks := permalinks t; contexts := contexts t |}.
Definition set_nodes (f : gmap Z ptr → gmap Z ptr) (t : Tree) : Tree :=
  {| doc := doc t; rootNode := rootNode t; rootDesignNode := rootDesignNode t;
     nodes := f (nodes t); permalinks := permalinks t; contexts := contexts t |}.
Definition set_permalinks (f : gmap string ptr → gmap string ptr) (t : Tree) : Tree :=
  {| doc := doc t; rootNode := rootNode t; rootDesignNode := rootDesignNode t;
     nodes := nodes t; permalinks := f (permalinks t); contexts := contexts t |}.
Definition set_contexts (f : gmap cptr Context → gmap cptr Context) (t : Tree) : Tree :=
  {| doc := doc t; rootNode := rootNode t; rootDesignNode := rootDesignNode t;
     nodes := nodes t; permalinks := permalinks t; contexts := f (contexts t) |}.

(** [p->_private = c], [p->last = l], [p->next = q], and the four assignments
    that [initializeAssociation] makes to a node. *)
Definition set_private (c : option cptr) (x : xmlNode) : xmlNode :=
  {| type := type x; name := name x; content := content x; children := children x;
     last := last x; next := next x; parent := parent x; properties := properties x;
     _private := c |}.
Definition set_last (l : option ptr) (x : xmlNode) : xmlNode :=
  {| type := type x; name := name x; content := content x; children := children x;
     last := l; next := next x; parent := parent x; properties := properties x;
     _private := _private x |}.
Definition set_next (q : option ptr) (x : xmlNode) : xmlNode :=
  {| type := type x; name := name x; content := content x; children := children x;
     last := last x; next := q; parent := parent x; properties := properties x;
     _private := _private x |}.
Definition set_children (q : option ptr) (x : xmlNode) : xmlNode :=
  {| type := type x; name := name x; content := content x; children := q;
     last := last x; next := next x; parent := parent x; properties := properties x;
     _private := _private x |}.
Definition set_properties (l : list xmlAttr) (x : xmlNode) : xmlNode :=
  {| type := type x; name := name x; content := content x; children := children x;
     last := last x; next := next x; parent := parent x; properties := l;
     _private := _private x |}.

Definition set_pointerNodes (l : list ptr) (x : Context) : Context :=
  {| node := node x; id := id x; permalink := permalink x; structure := structure x;
     ctype := ctype x; vaeDbContext := vaeDbContext x; pointerNodes := l; killMe := killMe x |}.

(** * Contexts *)

Section site.
Context `{Boost} `{Pcre} `{LibXml}.
(** The global [testMode]. *)
Variable testMode : bool.

Definition modify_doc (f : heap → heap) : eff Site unit := modify (set_tree (set_doc f)).
Definition node_at (p : option ptr) : eff Site xmlNode :=
  λ s, (node_of (doc (tree s)) p, s).
Definition context_at (c : cptr) : eff Site Context :=
  λ s, (context_of (tree s) c, s).
Definition in_tree {A} (f : Tree → outcome A) : eff Site A := λ s, (f (tree s), s).

(** [child->children->content]. *)
Definition attr_content (a : xmlAttr) : outcome string :=
  match attr_value a with Some v => Ok v | None => UB "attribute without child" end.

(** ** Structures *)

Fixpoint structure_attrs (l : list xmlAttr) (st : VaeDbStructure) : outcome VaeDbStructure :=
  match l with
  | [] => Ok st
  | a :: l' =>
      nm ← (if decide (attr_name a = "name") then attr_content a else Ok (structure_name st));
      pl ← (if decide (attr_name a = "permalink") then attr_content a else Ok (structure_permalink st));
      ty ← (if decide (attr_name a = "type") then attr_content a else Ok (structure_type st));
      structure_attrs l' {| structure_id := structure_id st; structure_name := nm;
                            structure_type := ty; structure_permalink := pl |}
  end.

Definition structureFromStructureId (structureId : Z) : eff Site VaeDbStructure :=
  known ← gets (λ s, structures s !! structureId);
  match known with
  | Some st => mret st
  | None =>
      let q := design_query structureId in
      _query ← in_tree (λ t, runRawQuery t None q q);
      p ← lift (getNode _query 0);
      n ← node_at (Some p);
      st ← lift (structure_attrs (properties n)
        {| structure_id := structureId; structure_name := ""; structure_type := "";
           structure_permalink := "" |});
      modify (set_structures (<[structureId := st]>));;
      mret st
  end.

(** ** Construction *)

(** The loop of [populateAttrs] over the attributes: the identifier, the
    structure's identifier and the permalink, or [None] for a node that must
    not be served. *)
Fixpoint attrs_loop (staging : bool) (l : list xmlAttr) (ident structureId : Z)
    (permalink : option string) : outcome (option (Z * Z * option string)) :=
  match l with
  | [] => Ok (Some (ident, structureId, permalink))
  | a :: l' =>
      ident ← (if decide (attr_name a = "id") then atoi <$> attr_content a else Ok ident);
      structureId ← (if decide (attr_name a = "type") then atoi <$> attr_content a
                     else Ok structureId);
      permalink ← (if decide (attr_name a = "permalink") then Some <$> attr_content a
                   else Ok permalink);
      if negb staging && bool_decide (attr_name a = "staging") then Ok None
      else attrs_loop staging l' ident structureId permalink
  end.

Definition populateAttrs (p : ptr)
    : eff Site (option (Z * option string * option VaeDbStructure)) :=
  n ← node_at (Some p);
  staging ← gets stagingMode;
  r ← lift (attrs_loop staging (properties n) 0 0 None);
  match r with
  | None => mret None
  | Some (ident, structureId, permalink) =>
      if (0 <? structureId)%Z then
        st ← structureFromStructureId structureId;
        mret (Some (ident, permalink, Some st))
      else mret (Some (ident, permalink, None))
  end.

Definition structure_type_of (st : option VaeDbStructure) : string :=
  match st with Some st => structure_type st | None => "" end.
Definition is_association (ty : string) : bool :=
  bool_decide (ty = "AssociationItem") || bool_decide (ty = "SingleAssociationItem").

(** [new Context]: an address. *)
Definition new_context : eff Site cptr :=
  c ← gets next_context;
  modify (λ s, set_next_context (Pos.succ c) (set_caches (<[c := ContextCache_new]>) s));;
  mret c.
Definition put_context (c : cptr) (x : Context) : eff Site unit :=
  modify (set_tree (set_contexts (<[c := x]>))).
Definition delete_context (c : cptr) : eff Site unit :=
  modify (λ s, set_tree (set_contexts (delete c)) (set_caches (delete c) s)).

Definition getSingleData_node (p : ptr) : eff Site string :=
  n ← node_at (Some p);
  in_tree (λ t, text_of t n).

Definition killed (p : ptr) : Context :=
  {| node := p; id := 0; permalink := None; structure := None; ctype := "";
     vaeDbContext := VaeDbContext_default; pointerNodes := []; killMe := true |}.

(** What the callers of the constructor do with a child. *)
Definition attach (p : ptr) (c : cptr) : eff Site unit :=
  x ← context_at c;
  if killMe x then
    modify_doc (xmlUnlinkNode p);;
    modify_doc (xmlFreeNode p);;
    delete_context c
  else modify_doc (alter (set_private (Some c)) p).

(** The constructor and its loop over the children. *)
Fixpoint Context_new (fuel : nat) (p : ptr) : eff Site cptr :=
  match fuel with
  | O => no_fuel
  | S fuel =>
      c ← new_context;
      attrs ← populateAttrs p;
      match attrs with
      | None => put_context c (killed p);; mret c
      | Some (ident, permalink, structure) =>
          let ty := structure_type_of structure in
          (if is_association ty then modify (set_associations (λ l, l ++ [c]))
           else n ← node_at (Some p); children_loop fuel false (children n));;
          modify (set_tree (set_nodes (<[ident := p]>)));;
          match permalink with
          | Some pl => modify (set_tree (set_permalinks (<[pl := p]>)))
          | None => mret ()
          end;;
          single ← (if decide (ident = 0%Z) then getSingleData_node p else mret "");
          put_context c
            {| node := p; id := ident; permalink := permalink; structure := structure;
               ctype := ty;
               vaeDbContext :=
                 {| context_id := ident;
                    context_structure_id :=
                      match structure with Some st => structure_id st | None => 0%Z end;
                    context_type := ty;
                    context_permalink := default "" permalink;
                    context_data := single; context_dataMap := ∅ |};
               pointerNodes := []; killMe := false |};;
          mret c
      end
  end
(** [top] is true in [loadXmlDoc], which does not look at [_private]. *)
with children_loop (fuel : nat) (top : bool) (child : option ptr) : eff Site unit :=
  match fuel with
  | O => no_fuel
  | S fuel =>
      match child with
      | None => mret ()
      | Some p =>
          n ← node_at child;
          when (bool_decide (type n = XML_ELEMENT_NODE) && (top || bool_decide (_private n = None)))
            (c ← Context_new fuel p; attach p c);;
          children_loop fuel top (next n)
      end
  end.

(** ** Associations *)

Definition copy_failed : exn := InternalError "xmlCopyNode returned NULL".

(** The forward link: [node] takes the content of [associated]. *)
Definition forward_association (p associated : ptr) : eff Site unit :=
  modify_doc (alter (set_properties []) p);;
  modify (set_clean [] [p]);;
  n ← node_at (Some p);
  match children n with
  | Some ch => x ← node_at (Some ch); modify_doc (xmlFreeNodeList (next x))
  | None => mret ()
  end;;
  a ← node_at (Some associated);
  ch ← deref "null children" (children n);
  modify_doc (alter (set_next (children a)) ch);;
  a ← node_at (Some associated);
  modify_doc (alter (λ x, set_private (_private a) (set_last (last a)
    (set_properties (properties a) x))) p).

Definition copy_node (p : ptr) : eff Site (option ptr) :=
  copied ← gets (λ s, xmlCopyNode p (doc (tree s)));
  modify_doc (λ _, copied.2);;
  mret copied.1.

(** The reverse link: [associated] gets a copy of [node]'s parent as a child. *)
Definition reverse_association (p associated : ptr) : eff Site ptr :=
  n ← node_at (Some p);
  match parent n with
  | None => throw copy_failed
  | Some par =>
      copied ← copy_node par;
      match copied with
      | None => throw copy_failed
      | Some pointerNode =>
          x ← node_at (Some par);
          modify_doc (alter (λ y, set_properties (properties x) (set_last (last x)
            (set_children (children x) (set_private (_private x) y)))) pointerNode);;
          modify (set_clean [pointerNode] []);;
          modify_doc (xmlAddChild associated pointerNode);;
          mret pointerNode
      end
  end.

Definition initializeAssociation (c : cptr) : eff Site unit :=
  x ← context_at c;
  let p := node x in
  single ← getSingleData_node p;
  let ident := atoi single in
  found ← gets (λ s, nodes (tree s) !! ident);
  match (if (0 <? ident)%Z then found else None) with
  | Some associated =>
      forward_association p associated;;
      pointerNode ← reverse_association p associated;
      n ← node_at (Some p);
      par ← node_at (parent n);
      a ← node_at (Some associated);
      parentContext ← deref "null parent context" (_private par);
      associatedContext ← deref "null associated context" (_private a);
      pc ← context_at parentContext;
      put_context parentContext (set_pointerNodes (pointerNodes pc ++ [pointerNode]) pc);;
      ac ← context_at associatedContext;
      for_each (λ it,
        a ← node_at (Some associated);
        modify_doc (alter (set_last (last a)) it)) (pointerNodes ac);;
      delete_context c
  | None =>
      modify_doc (xmlUnlinkNode p);;
      modify_doc (xmlFreeNode p);;
      delete_context c
  end.

(** * Loading *)

(** A query that must find one node. *)
Definition one_node (q display error : string) : eff Site Query :=
  _query ← in_tree (λ t, runRawQuery t None q display);
  if (getSize _query =? 1)%Z then mret _query else throw (InternalError error).

(** Fuel for the construction of the contexts: two calls for each node. *)
Definition load_fuel (h : heap) : nat := 2 * size h + 2.

Definition loadXmlDoc (rawxml : string) : eff Site unit :=
  sub ← gets subdomain;
  match (if testMode then xmlParseFile sub else xmlReadMemory rawxml) with
  | None => throw (InternalError "Could not open/parse XML file")
  | Some h =>
      modify_doc (λ _, h);;
      modify (set_tree (set_roots None None));;
      _rootNodeQuery ← one_node "/website/content" "website root node"
        "Could not find root content node in XML file";
      root ← lift (getNode _rootNodeQuery 0);
      modify (set_tree (set_roots (Some root) None));;
      _rootDesignNodeQuery ← one_node "/website/design" "website design node"
        "Could not find root design node in XML file";
      design ← lift (getNode _rootDesignNodeQuery 0);
      modify (set_tree (set_roots (Some root) (Some design)));;
      n ← node_at (Some root);
      children_loop (load_fuel h) true (children n);;
      associations ← gets associationsToInitialize;
      for_each initializeAssociation associations;;
      modify (set_associations (λ _, []));;
      _generationQuery ← one_node "/website/generation" "website generation node"
        "Could not find feed generation node in XML file";
      s ← in_tree (λ t, Query.getSingleData t _generationQuery);
      modify (set_generation (wrap32 (strtol s)))
  end.

(** The object before [loadXmlDoc]. In test mode [loadXmlDoc] also renames the
    site to "local". *)
Definition Site_init (su : string) (staging : bool) (keys : string) : Site :=
  {| tree := {| doc := ∅; rootNode := None; rootDesignNode := None; nodes := ∅;
                permalinks := ∅; contexts := ∅ |};
     generation := -1; subdomain := su;
     secretKeys := if testMode then [] else split_any_of (",;" +:+ String "010" EmptyString) keys;
     structures := ∅; associationsToInitialize := [];
     query_cache := LruCache.LRUCache_new 384;
     nodesToClean := []; nodesToClean2 := []; stagingMode := staging; caches := ∅;
     next_context := 1 |}.
Definition rename (s : Site) : Site :=
  {| tree := tree s; generation := generation s;
     subdomain := if testMode then "local" else subdomain s;
     secretKeys := secretKeys s; structures := structures s;
     associationsToInitialize := associationsToInitialize s; query_cache := query_cache s;
     nodesToClean := nodesToClean s; nodesToClean2 := nodesToClean2 s;
     stagingMode := stagingMode s; caches := caches s; next_context := next_context s |}.

(** [Site::Site]; [keys] is what [read_s3] answered for the secret keys. *)
Definition Site_new (su : string) (staging : bool) (keys rawxml : string) : outcome Site :=
  match loadXmlDoc rawxml (Site_init su staging keys) with
  | (Ok _, s) => Ok (rename s)
  | (Throw e, _) => Throw e
  | (UB w, _) => UB w
  | (OutOfFuel, _) => OutOfFuel
  end.

Definition key_mismatch : exn := InternalError "Secret Key Mismatch".
Definition validateSecretKey (s : Site) (secretKey : string) : outcome unit :=
  if testMode then Ok ()
  else if existsb (λ k, bool_decide (k = secretKey)) (secretKeys s) then Ok ()
  else Throw key_mismatch.

(** * Queries of a loaded site *)

Definition query_cost : option Query → Z := LruCache.Countfn.

Definition fetch_query (key : LRUKey) : eff Site Query :=
  p_query ← zoom query_cache set_query_cache (LruCache.fetch None key false);
  match p_query with
  | Some q => mret q
  | None =>
      q ← in_tree (λ t, Query_new t key.1 key.2);
      zoom query_cache set_query_cache (LruCache.insert query_cost key (Some q));;
      mret q
  end.

(** ** Data of a context *)

Definition COLLECTION_DESC : string := "(collection)".

Fixpoint child_content (l : list (ptr * xmlNode)) (content : option string) : option string :=
  match l with
  | [] => content
  | (_, n) :: l' =>
      if decide (type n = XML_TEXT_NODE) then child_content l' (Xml.content n)
      else Some COLLECTION_DESC
  end.

Fixpoint data_loop (h : heap) (l : list (ptr * xmlNode)) (d : gmap string string)
    : outcome (gmap string string) :=
  match l with
  | [] => Ok d
  | (_, n) :: l' =>
      if decide (type n = XML_ELEMENT_NODE) then
        l2 ← child_list h n;
        data_loop h l'
          match child_content l2 None, name n with
          | Some v, Some k => <[k := v]> d
          | _, _ => d
          end
      else data_loop h l' d
  end.

Definition cache_at (c : cptr) : eff Site ContextCache :=
  o ← gets (λ s, caches s !! c); deref "dangling context" o.

Definition populateData (c : cptr) : eff Site unit :=
  k ← cache_at c;
  if dataPopulated k then mret ()
  else
    x ← context_at c;
    n ← node_at (Some (node x));
    d ← in_tree (λ t, l ← child_list (doc t) n; data_loop (doc t) l (data k));
    modify (set_caches (<[c := {| cachedCounts := cachedCounts k; cachedQueries := cachedQueries k;
                                  data := d; dataPopulated := true |}]>)).

Definition empty_query : exn := InternalError "Empty query passed to Context::getData".

Definition getData (c : cptr) (query : string) : eff Site string :=
  k ← cache_at c;
  when (negb (dataPopulated k)) (populateData c);;
  if decide (query = "") then throw empty_query
  else
    k ← cache_at c;
    match data k !! query with
    | Some v => mret v
    | None =>
        match cachedQueries k !! query with
        | Some v => mret v
        | None =>
            _query ← in_tree (λ t, Query_new t (Some c) query);
            result ← in_tree (λ t, Query.getSingleData t _query);
            modify (set_caches (<[c := {| cachedCounts := cachedCounts k;
              cachedQueries := <[query := result]> (cachedQueries k);
              data := data k; dataPopulated := dataPopulated k |}]>));;
            mret result
        end
    end.

Definition getCount (c : cptr) (query : string) : eff Site Z :=
  k ← cache_at c;
  match cachedCounts k !! query with
  | Some n => mret n
  | None =>
      _query ← in_tree (λ t, Query_new t (Some c) query);
      let result := getSize _query in
      modify (set_caches (<[c := {| cachedCounts := <[query := result]> (cachedCounts k);
        cachedQueries := cachedQueries k; data := data k; dataPopulated := dataPopulated k |}]>));;
      mret result
  end.

Definition getId (c : cptr) : eff Site Z := x ← context_at c; mret (id x).

Definition toVaeDbContext (c : cptr) : eff Site VaeDbContext :=
  x ← context_at c; mret (vaeDbContext x).
Definition toVaeDbDataForContext (c : cptr) : eff Site VaeDbDataForContext :=
  k ← cache_at c;
  when (negb (dataPopulated k)) (populateData c);;
  k ← cache_at c;
  mret {| dfc_data := data k |}.
Definition toVaeDbStructureForContext (c : cptr) : eff Site VaeDbStructure :=
  x ← context_at c; mret (default VaeDbStructure_default (structure x)).
End site.
