(* ===== verification/QuerySpec.v ===== *)
(** What the queries of [Query] answer: permalinks, identifiers, [prev()] and
    [next()]; and that they never leave the document. *)
From Stdlib Require Import ZArith.
From S2P Require Import Prelude Cpp Extern Regex VaeTypes Xml XmlRef Query Site.

Section spec.
Context `{Boost} `{Pcre} `{LibXml}.

(** ** Permalinks *)

Definition prefix (parts : list string) (i : nat) : string := join (take i parts) "/".

Lemma permalink_loop_none t parts n :
  (∀ i, 1 ≤ i ≤ n → permalinks t !! prefix parts i = None) →
  permalink_loop t parts n = Ok (inl (result None)).
Proof.
  induction n as [|n IH]; intros Hn; [done|]. cbn [permalink_loop].
  pose proof (Hn (S n) ltac:(lia)) as E. unfold prefix in E. rewrite E.
  apply IH. intros i ?. apply Hn. lia.
Qed.

Lemma permalink_loop_skip t parts n i :
  i ≤ n → (∀ j, i < j ≤ n → permalinks t !! prefix parts j = None) →
  permalink_loop t parts n = permalink_loop t parts i.
Proof.
  induction n as [|n IH]; intros Hi Hn; [by assert (i = 0) as -> by lia|].
  destruct (decide (i = S n)) as [->|]; [done|]. cbn [permalink_loop].
  pose proof (Hn (S n) ltac:(lia)) as E. unfold prefix in E. rewrite E.
  apply IH; [lia|]. intros j ?. apply Hn. lia.
Qed.

(** The query left once a leading slash is removed, and its context. *)
Definition start (context : option cptr) (q : string) : option cptr * string :=
  match re_replace false "^/" "" q with
  | Some query => (None, query)
  | None => (context, q)
  end.

(** C13: a permalink is resolved by its longest known prefix: the node itself
    when it is the whole permalink, otherwise the query for the remaining path
    below that node; with no known prefix the result is empty. *)
Theorem permalink_longest_prefix t context q query permalink :
  start context q = (context, query) ∨ start context q = (None, query) →
  re_full_match false "permalink/(.*)" query = Some [permalink] →
  let parts := split_any_of "/" permalink in
  ((∀ i, 1 ≤ i ≤ length parts → permalinks t !! prefix parts i = None) →
    Query_new t context q = Ok (result None)) ∧
  (∀ i p, 1 ≤ i ≤ length parts → permalinks t !! prefix parts i = Some p →
    (∀ j, i < j ≤ length parts → permalinks t !! prefix parts j = None) →
    Query_new t context q =
      if decide (i = length parts) then Ok (result (Some p))
      else c ← private_of t p; Query_id t c (join (drop i parts) "/") q).
Proof.
  intros Hs Hm parts. assert (Query_new t context q =
    (r ← permalink_loop t parts (length parts);
     match r with
     | inl answer => Ok answer
     | inr (c, rest) => Query_id t c rest q
     end)) as ->.
  { unfold Query_new. unfold start in Hs. destruct (re_replace _ _ _ q) as [q'|];
      destruct Hs as [[= E]|[= E]]; subst; by rewrite Hm. }
  split.
  - intros Hn. by rewrite permalink_loop_none.
  - intros i p Hi Hp Hn. rewrite (permalink_loop_skip t parts _ i) by (lia || done).
    destruct i as [|i]; [lia|]. cbn [permalink_loop]. unfold prefix in Hp. rewrite Hp.
    case_decide; [done|]. by destruct (private_of t p).
Qed.

(** ** Identifiers *)

(** A query that starts with an identifier is the node registered under it,
    or nothing; with a path it continues below that node, and an unknown
    identifier gives the empty result whatever the path. *)
Theorem identifier_query t context q query ident rest :
  start context q = (context, query) ∨ start context q = (None, query) →
  re_full_match false "permalink/(.*)" query = None →
  re_full_match false "([0-9]+)(/.*|)" query = Some [ident; rest] →
  Query_new t context q =
    match nodes t !! atoi ident with
    | None => Ok (result None)
    | Some p =>
        if decide (rest = "") then Ok (result (Some p))
        else c ← private_of t p; Query_path t c (of_chars (drop 1 (chars rest))) q
    end.
Proof.
  intros Hs Hp Hm. assert (∃ c, Query_new t context q = Query_id t c query q) as [c ->].
  { unfold Query_new. unfold start in Hs. destruct (re_replace _ _ _ q) as [q'|];
      destruct Hs as [[= E]|[= E]]; subst; rewrite Hp; eauto. }
  unfold Query_id. rewrite Hm. unfold find. destruct (nodes t !! atoi ident) as [p|]; [|done].
  simpl. case_decide; simpl; [by rewrite bool_decide_false by tauto|].
  rewrite bool_decide_true by done. done.
Qed.

(** ** Siblings *)

(** [prev()] and [next()] become the sibling axes for elements named as the
    context's node, and are an error without a context. *)
Theorem sibling_queries t c q x n nm :
  strcasecmp_eq "prev()" q = true →
  context_of t c = Ok x → node_of (doc t) (Some (node x)) = Ok n → name n = Some nm →
  strcasecmp_eq "next()" ("preceding-sibling::" +:+ nm +:+ "[1]") = false →
  Query_path t None q q = Throw (QueryError prev_error) ∧
  Query_path t (Some c) q q =
    (path ← to_xpath ("preceding-sibling::" +:+ nm +:+ "[1]"); runQuery t (Some c) path q).
Proof.
  intros Hq Hx Hn Hnm Hnext. assert (getNodeName t c = Ok (Some nm)) as Hg.
  { unfold getNodeName. rewrite Hx. cbn [mbind outcome_mbind outcome_bind]. by rewrite Hn, <- Hnm. }
  unfold Query_path. split; [unfold sibling_axis; by rewrite Hq|].
  assert (sibling_axis t "prev()" "preceding-sibling::" prev_error (Some c) q
          = Ok ("preceding-sibling::" +:+ nm +:+ "[1]")) as ->.
  { unfold sibling_axis. by rewrite Hq, Hg. }
  cbn [mbind outcome_mbind outcome_bind]. unfold sibling_axis at 1. by rewrite Hnext.
Qed.
End spec.

(** * Queries stay in the document *)

(** Every pointer a query follows has an object at its end. *)
Record tree_ok (t : Tree) : Prop := {
  ok_nodes id p : nodes t !! id = Some p → is_Some (doc t !! p);
  ok_permalinks k p : permalinks t !! k = Some p → is_Some (doc t !! p);
  ok_contexts c x : contexts t !! c = Some x → is_Some (doc t !! node x);
  ok_private p n c : doc t !! p = Some n → _private n = Some c → is_Some (contexts t !! c);
}.
Definition context_ok (t : Tree) (c : option cptr) : Prop :=
  ∀ c', c = Some c' → is_Some (contexts t !! c').

Section defined.
Context `{Boost} `{RewriteLaws} `{LibXml}.

Lemma defined_bind {A B} (o : outcome A) (f : A → outcome B) :
  defined o → (∀ a, o = Ok a → defined (f a)) → defined (o ≫= f).
Proof. destruct o; simpl; auto. Qed.

Lemma runRawQuery_defined t n q d : defined (runRawQuery t n q d).
Proof.
  unfold runRawQuery. destruct (xmlXPathNewContext _); [|done].
  destruct (xmlXPathEvalExpression _ _ _) as [|[|p l]|]; try done. by case_decide.
Qed.

Lemma context_of_ok t c : is_Some (contexts t !! c) → is_ok (context_of t c).
Proof. intros [x E]. unfold context_of. rewrite E. by exists x. Qed.

Lemma runQuery_defined t c q d : context_ok t c → defined (runQuery t c q d).
Proof.
  intros Hc. unfold runQuery. destruct c as [c|]; [|apply runRawQuery_defined].
  destruct (context_of_ok t c) as [x ->]; [by apply Hc|]. apply runRawQuery_defined.
Qed.

Lemma sibling_axis_defined t call axis error c q :
  tree_ok t → context_ok t c → defined (sibling_axis t call axis error c q).
Proof.
  intros Ht Hc. unfold sibling_axis. destruct (strcasecmp_eq _ _); [|done].
  destruct c as [c|]; [|done]. unfold getNodeName.
  destruct (Hc c eq_refl) as [x Ex]. unfold context_of. rewrite Ex. simpl.
  destruct (ok_contexts t Ht c x Ex) as [n ->]. simpl. by destruct (name n).
Qed.

Lemma to_xpath_defined q : defined (to_xpath q).
Proof.
  unfold to_xpath. destruct (rewrite_parts_ok (split_any_of "'" q)) as [(l & -> & _)|[-> _]]; done.
Qed.

Lemma Query_path_defined t c query q :
  tree_ok t → context_ok t c → defined (Query_path t c query q).
Proof.
  intros Ht Hc. unfold Query_path.
  repeat (apply defined_bind; [by apply sibling_axis_defined|intros ? _]).
  apply defined_bind; [apply to_xpath_defined|intros ? _]. by apply runQuery_defined.
Qed.

Lemma private_of_spec t p :
  tree_ok t → is_Some (doc t !! p) → ∃ c, private_of t p = Ok c ∧ context_ok t c.
Proof.
  intros Ht [n E]. exists (_private n). unfold private_of. simpl. rewrite E. split; [done|].
  intros c Hc. by eapply ok_private.
Qed.

Lemma Query_id_defined t c query q :
  tree_ok t → context_ok t c → defined (Query_id t c query q).
Proof.
  intros Ht Hc. unfold Query_id.
  destruct (re_full_match _ _ _) as [[|ident [|rest []]]|]; try by apply Query_path_defined.
  unfold find. destruct (nodes t !! atoi ident) as [p|] eqn:E; [|done]. simpl.
  case_bool_decide; [|done]. simpl.
  destruct (private_of_spec t p Ht) as (c' & -> & Hc'); [by eapply ok_nodes|].
  by apply Query_path_defined.
Qed.

Lemma permalink_loop_spec t parts i :
  tree_ok t →
  ∃ r, permalink_loop t parts i = Ok r
     ∧ match r with inl _ => True | inr (c, _) => context_ok t c end.
Proof.
  intros Ht. induction i as [|i IH]; [by eexists|]. cbn [permalink_loop].
  destruct (permalinks t !! _) as [p|] eqn:E; [|done]. case_decide; [by eexists|].
  destruct (private_of_spec t p Ht) as (c & -> & Hc); [by eapply ok_permalinks|].
  by exists (inr (c, join (drop (S i) parts) "/")).
Qed.

(** Against a consistent tree, every query on every input terminates with
    a result or with an exception: no dangling or null pointer is followed and
    no loop runs out. *)
Theorem Query_new_defined t context q :
  tree_ok t → context_ok t context → defined (Query_new t context q).
Proof.
  intros Ht Hc. unfold Query_new.
  assert (context_ok t None) as H0' by done.
  destruct (re_replace false "^/" "" q) as [query|];
    (destruct (re_full_match _ _ _) as [[|permalink []]|]; try by apply Query_id_defined);
    (destruct (permalink_loop_spec t (split_any_of "/" permalink)
      (length (split_any_of "/" permalink)) Ht) as (r & -> & Hr);
     destruct r as [|[c rest]]; [done|by apply Query_id_defined]).
Qed.
End defined.

(** * The size of a query *)

Section sized.
Context `{Boost} `{Pcre} `{LibXml}.

Definition sized (o : outcome Query) : Prop :=
  ∀ Q, o = Ok Q → qsize Q = Z.of_nat (length (nodeTab Q)).

Lemma sized_bind {A} (o : outcome A) (f : A → outcome Query) :
  (∀ a, sized (f a)) → sized (o ≫= f).
Proof. intros Hf. destruct o; [apply Hf|done..]. Qed.
Lemma sized_result n : sized (Ok (result n)).
Proof. by intros Q [= <-]; destruct n. Qed.
Lemma sized_runRawQuery t n q d : sized (runRawQuery t n q d).
Proof.
  unfold runRawQuery. destruct (xmlXPathNewContext _); [|done].
  destruct (xmlXPathEvalExpression _ _ _) as [|[|p l]|]; try done; [by intros Q [= <-]|].
  case_decide; by intros Q [= <-].
Qed.
Lemma sized_Query_path t c query q : sized (Query_path t c query q).
Proof. unfold Query_path, runQuery. repeat (apply sized_bind; intros ?). apply sized_runRawQuery. Qed.
Lemma sized_Query_id t c query q : sized (Query_id t c query q).
Proof.
  unfold Query_id. destruct (re_full_match _ _ _) as [[|i [|r []]]|]; try apply sized_Query_path.
  destruct (_ && _); [|apply sized_result].
  do 2 (apply sized_bind; intros ?). apply sized_Query_path.
Qed.

Lemma permalink_loop_sized t parts i Q :
  permalink_loop t parts i = Ok (inl Q) → sized (Ok Q).
Proof.
  induction i as [|i IH]; cbn [permalink_loop]; [intros [= <-]; apply (sized_result None)|].
  destruct (permalinks t !! _) as [p|]; [|done].
  case_decide; [intros [= <-]; apply (sized_result (Some p))|]. by destruct (private_of t p).
Qed.

Lemma Query_new_sized t c q : sized (Query_new t c q).
Proof.
  unfold Query_new. destruct (re_replace false "^/" "" q) as [query|];
    (destruct (re_full_match _ _ _) as [[|l []]|]; try apply sized_Query_id);
    (destruct (permalink_loop _ _ _) as [[Q|[]]| | |] eqn:E; try done;
     [by eapply permalink_loop_sized|apply sized_Query_id]).
Qed.
End sized.

(** * The demonstration site *)

Module Demo.
#[export] Existing Instance BoostRef.boost_ref.
#[export] Existing Instance demo_libxml.

Definition site : Site :=
  Eval vm_compute in
  match Site_new true "demo.xml" false "" "" with Ok s => s | _ => Site_init true "" false "" end.
Lemma site_loaded : Site_new true "demo.xml" false "" "" = Ok site.
Proof. vm_compute. reflexivity. Defined.

(** Executable version of [tree_ok]. *)
Definition in_doc (t : Tree) (p : ptr) : bool := bool_decide (is_Some (doc t !! p)).
Definition check (t : Tree) : bool :=
  all_of (λ _ p, in_doc t p) (nodes t) && all_of (λ _ p, in_doc t p) (permalinks t) &&
  all_of (λ _ x, in_doc t (node x)) (contexts t) &&
  all_of (λ _ n, match _private n with
                 | Some c => bool_decide (is_Some (contexts t !! c)) | None => true end) (doc t).

Lemma check_ok t : check t = true → tree_ok t.
Proof.
  unfold check, in_doc. intros [[[H1 H2]%andb_true_iff H3]%andb_true_iff H4]%andb_true_iff.
  split; intros.
  - by apply (all_of_lookup _ _ _ _ H1), bool_decide_eq_true in H.
  - by apply (all_of_lookup _ _ _ _ H2), bool_decide_eq_true in H.
  - by apply (all_of_lookup _ _ _ _ H3), bool_decide_eq_true in H.
  - apply (all_of_lookup _ _ _ _ H4) in H. rewrite H0 in H. by apply bool_decide_eq_true in H.
Qed.

Lemma site_ok : tree_ok (tree site).
Proof. apply check_ok. vm_compute. reflexivity. Defined.
End Demo.
Import Demo.

Example permalink_longest_prefix_witness :
  Query_new (tree site) None "permalink/artists/miles/name"
  = Ok {| qsize := 1; nodeTab := [4%positive] |}.
Proof.
  destruct (permalink_longest_prefix (tree site) None "permalink/artists/miles/name"
    "permalink/artists/miles/name" "artists/miles/name" ltac:(left; vm_compute; reflexivity)
    ltac:(vm_compute; reflexivity)) as [_ Hp].
  rewrite (Hp 2 3%positive); [vm_compute; reflexivity|vm_compute; lia|vm_compute; reflexivity|].
  intros j Hj. assert (j = 3) as -> by (vm_compute in Hj; lia). vm_compute. reflexivity.
Defined.

Example identifier_query_witness :
  Query_new (tree site) None "/1/album" = Ok {| qsize := 1; nodeTab := [8%positive] |}.
Proof.
  rewrite (identifier_query (tree site) None "/1/album" "1/album" "1" "/album");
    vm_compute; first [reflexivity|by right].
Defined.

Example sibling_queries_witness :
  Query_path (tree site) None "PREV()" "PREV()" = Throw (QueryError prev_error).
Proof.
  refine (proj1 (sibling_queries (tree site) 1 "PREV()" _ _ "artist" _ _ _ _ _));
    vm_compute; reflexivity.
Defined.

Example Query_new_defined_witness : defined (Query_new (tree site) (Some 1%positive) "next()/name//x").
Proof.
  apply (Query_new_defined (tree site) (Some 1%positive) "next()/name//x" site_ok).
  intros c [= <-]. vm_compute. eexists. reflexivity.
Defined.
