(* ===== verification/SiteSpec.v ===== *)
(** What a loaded site answers, and what loading leaves out: the query cache
    and the tables of the contexts are invisible, nodes under staging are not
    reachable in production, and a broken association leaves a dangling
    pointer. *)
From Stdlib Require Import ZArith.
From S2P Require Import Prelude Cpp Extern Regex VaeTypes Xml XmlRef Query Site QuerySpec.
From S2P Require LruCache.

(** * The query cache *)

Section query_cache.
Context `{Boost} `{Pcre} `{LibXml}.

Abbreviation cached s := (LruCache.entries (query_cache s)).

(** Each cached query is the one its key gives today. *)
Record coherent (s : Site) : Prop := {
  coherent_wf : LruCache.wf query_cost (query_cache s);
  coherent_size : LruCache.max_size_ (query_cache s) = 384%Z;
  coherent_entries k v : (k, v) ∈ cached s →
    ∃ q, v = Some q ∧ Query_new (tree s) k.1 k.2 = Ok q;
}.

Lemma spec_lookup_elem k v (l : list (LRUKey * option Query)) :
  LruCache.spec_lookup k l = Some v → (k, v) ∈ l.
Proof.
  induction l as [|[k' v'] l IH]; simpl; [done|]. case_decide as E; [|by right; apply IH].
  intros [= <-]. subst. by left.
Qed.

Lemma without_absent_key k (l : list (LRUKey * option Query)) :
  LruCache.spec_lookup k l = None → LruCache.without k l = l.
Proof.
  induction l as [|[k' v'] l IH]; simpl; [done|]. case_decide as E; [done|]. intros Hl.
  unfold LruCache.without in *. rewrite filter_cons_True by done. f_equal. by apply IH.
Qed.

Lemma fetch_query_spec key s :
  coherent s →
  ∃ c, fetch_query key s = (Query_new (tree s) key.1 key.2, set_query_cache c s) ∧
    coherent (set_query_cache c s) ∧
    LruCache.entries c =
      match LruCache.spec_lookup key (cached s), Query_new (tree s) key.1 key.2 with
      | None, Ok q => take 384 ((key, Some q) :: cached s)
      | _, _ => cached s
      end.
Proof.
  intros [W Hm He]. unfold fetch_query.
  destruct (LruCache.fetch_spec query_cost None key false (query_cache s) W)
    as (c1 & E1 & _ & _ & _ & Ec). rewrite Ec in E1 by done.
  assert (zoom query_cache set_query_cache (LruCache.fetch None key false) s
    = (Ok (default None (LruCache.spec_lookup key (cached s))), s)) as Ez.
  { unfold zoom. rewrite E1. by destruct s. }
  rewrite (eff_bind_ok _ _ _ _ _ Ez).
  destruct (LruCache.spec_lookup key (cached s)) as [v|] eqn:El; simpl.
  - destruct (He key v) as (q & -> & Eq); [by apply spec_lookup_elem|]. exists (query_cache s).
    rewrite Eq. split; [by destruct s|]. by destruct s.
  - unfold in_tree, mbind, eff_mbind, eff_bind.
    destruct (Query_new (tree s) key.1 key.2) as [q|e|w|] eqn:Eq;
      [|exists (query_cache s); by destruct s..].
    unfold zoom.
    destruct (LruCache.insert_spec query_cost None LruCache.Countfn_nonneg key (Some q)
      (query_cache s) W) as (c2 & -> & W2 & En & Em); [by rewrite Hm|].
    exists c2. split; [done|].
    assert (LruCache.entries c2 = take 384 ((key, Some q) :: cached s)) as En'.
    { rewrite En, Hm. unfold LruCache.spec_insert. rewrite without_absent_key by done.
      apply (LruCache.fit_Countfn 384). }
    split; [|done]. split; [done|by rewrite <- Hm|]. intros k v Hin.
    change (query_cache (set_query_cache c2 s)) with c2 in Hin.
    rewrite En' in Hin. apply elem_of_take in Hin as (i & Hi & _).
    apply list_elem_of_lookup_2 in Hi. apply elem_of_cons in Hi as [[= -> ->]|Hi]; [by exists q|].
    by apply He.
Qed.

(** C10: [fetch_query] is invisible: it gives exactly the query that the
    constructor gives, exceptions included, and changes nothing but the cache,
    which stays coherent. The cache holds at most 384 queries and is first-in
    first-out: a hit does not renew its entry, although it is an LRU cache. *)
Theorem fetch_query_transparent key s :
  coherent s →
  ∃ c, fetch_query key s = (Query_new (tree s) key.1 key.2, set_query_cache c s) ∧
    coherent (set_query_cache c s) ∧
    LruCache.entries c =
      match LruCache.spec_lookup key (cached s), Query_new (tree s) key.1 key.2 with
      | None, Ok q => take 384 ((key, Some q) :: cached s)
      | _, _ => cached s
      end.
Proof. apply fetch_query_spec. Qed.
End query_cache.

(** * The tables of a context *)

Section memo.
Context `{Boost} `{Pcre} `{LibXml}.

(** The element children of a context, by name. *)
Definition context_map (t : Tree) (c : cptr) : outcome (gmap string string) :=
  x ← context_of t c; n ← node_of (doc t) (Some (node x));
  l ← child_list (doc t) n; data_loop (doc t) l ∅.

(** What [getData] and [getCount] promise, without tables. *)
Definition data_spec (t : Tree) (c : cptr) (query : string) : outcome string :=
  d ← context_map t c;
  if decide (query = "") then Throw empty_query
  else match d !! query with
       | Some v => Ok v
       | None => q ← Query_new t (Some c) query; Query.getSingleData t q
       end.
Definition count_spec (t : Tree) (c : cptr) (query : string) : outcome Z :=
  q ← Query_new t (Some c) query; mret (getSize q).

Record memo_ok (t : Tree) (c : cptr) (k : ContextCache) : Prop := {
  memo_empty : dataPopulated k = false → data k = ∅;
  memo_data : dataPopulated k = true → context_map t c = Ok (data k);
  memo_queries q v : cachedQueries k !! q = Some v →
    ∃ Q, Query_new t (Some c) q = Ok Q ∧ Query.getSingleData t Q = Ok v;
  memo_counts q n : cachedCounts k !! q = Some n → count_spec t c q = Ok n;
}.
Definition memos (s : Site) : Prop :=
  ∀ c k, caches s !! c = Some k → memo_ok (tree s) c k.

Lemma memos_put s c k :
  memos s → memo_ok (tree s) c k → memos (set_caches (<[c := k]>) s).
Proof.
  intros Hs Hk c' k'. simpl. intros [[<- <-]|[_ Hc]]%lookup_insert_Some; [done|by apply Hs].
Qed.

(** The state with another table for [c]. *)
Definition with_cache (c : cptr) (k : ContextCache) (s : Site) : Site :=
  set_caches (<[c := k]>) s.
Lemma cache_at_spec s c k : caches s !! c = Some k → cache_at c s = (Ok k, s).
Proof. intros E. unfold cache_at. rewrite eff_bind_gets, E. done. Qed.

Lemma with_cache_same s c k : caches s !! c = Some k → with_cache c k s = s.
Proof.
  intros E. unfold with_cache, set_caches. rewrite insert_id by done. by destruct s.
Qed.
Lemma with_cache_twice s c k k' : with_cache c k' (with_cache c k s) = with_cache c k' s.
Proof. unfold with_cache, set_caches. simpl. by rewrite insert_insert_eq. Qed.

(** [populateData] computes [context_map], once. *)
Lemma populateData_spec c k s :
  memos s → caches s !! c = Some k →
  ∃ o k', populateData c s = (o, with_cache c k' s) ∧ memos (with_cache c k' s) ∧
    match context_map (tree s) c with
    | Ok d => o = Ok () ∧ dataPopulated k' = true ∧ data k' = d
    | Throw e => o = Throw e
    | UB w => o = UB w
    | OutOfFuel => o = OutOfFuel
    end.
Proof.
  intros Hs Hk. pose proof (Hs c k Hk) as Hm. unfold populateData.
  rewrite (eff_bind_ok _ _ _ _ _ (cache_at_spec _ c k Hk)).
  destruct (dataPopulated k) eqn:Ep.
  { exists (Ok ()), k. rewrite (memo_data _ _ _ Hm Ep), with_cache_same by done. done. }
  unfold context_map, context_at, node_at, in_tree, mbind, eff_mbind, eff_bind, outcome_mbind,
    outcome_bind. rewrite (memo_empty _ _ _ Hm Ep).
  assert (∃ k', s = with_cache c k' s ∧ memos (with_cache c k' s)) as (k0 & Es & Hs0).
  { exists k. by rewrite with_cache_same. }
  destruct (context_of (tree s) c) as [x|e|w|] eqn:Ex;
    [|eexists _, k0; rewrite <- Es; done..].
  destruct (node_of (doc (tree s)) (Some (node x))) as [n|e|w|] eqn:En;
    [|eexists _, k0; rewrite <- Es; done..].
  destruct (child_list (doc (tree s)) n) as [l|e|w|] eqn:El;
    [|eexists _, k0; rewrite <- Es; done..].
  destruct (data_loop (doc (tree s)) l ∅) as [d|e|w|] eqn:Ed;
    [|eexists _, k0; rewrite <- Es; done..].
  eexists _, _. split; [done|]. split; [|done]. apply memos_put; [done|]. split; simpl; try done.
  - intros _. unfold context_map. rewrite Ex. simpl in *. rewrite En. simpl. rewrite El. simpl. done.
  - apply Hm.
  - apply Hm.
Qed.

Lemma populated_spec c k s :
  memos s → caches s !! c = Some k →
  ∃ o k', (when (negb (dataPopulated k)) (populateData c)) s = (o, with_cache c k' s)
    ∧ memos (with_cache c k' s) ∧
    match context_map (tree s) c with
    | Ok d => o = Ok () ∧ dataPopulated k' = true ∧ data k' = d
    | Throw e => o = Throw e
    | UB w => o = UB w
    | OutOfFuel => o = OutOfFuel
    end.
Proof.
  intros Hs Hk. destruct (dataPopulated k) eqn:Ep; simpl; [|by apply (populateData_spec c k)].
  exists (Ok ()), k. rewrite with_cache_same by done.
  by rewrite (memo_data _ _ _ (Hs c k Hk) Ep).
Qed.

Lemma data_recorded t c k Q query v :
  memo_ok t c k → Query_new t (Some c) query = Ok Q → Query.getSingleData t Q = Ok v →
  memo_ok t c {| cachedCounts := cachedCounts k; cachedQueries := <[query := v]> (cachedQueries k);
                 data := data k; dataPopulated := dataPopulated k |}.
Proof.
  intros [] HQ Hv. split; simpl; try done.
  intros q w [[<- <-]|[_ Hq]]%lookup_insert_Some; eauto.
Qed.

Lemma count_recorded t c k query n :
  memo_ok t c k → count_spec t c query = Ok n →
  memo_ok t c {| cachedCounts := <[query := n]> (cachedCounts k); cachedQueries := cachedQueries k;
                 data := data k; dataPopulated := dataPopulated k |}.
Proof.
  intros [] Hn. split; simpl; try done.
  intros q w [[<- <-]|[_ Hq]]%lookup_insert_Some; eauto.
Qed.

Lemma getData_spec c k query s :
  memos s → caches s !! c = Some k →
  ∃ k', getData c query s = (data_spec (tree s) c query, with_cache c k' s)
      ∧ memos (with_cache c k' s).
Proof.
  intros Hs Hk. unfold getData, data_spec.
  rewrite (eff_bind_ok _ _ _ _ _ (cache_at_spec _ c k Hk)).
  destruct (populated_spec c k s Hs Hk) as (o & k1 & E & Hs1 & Ho).
  destruct (context_map (tree s) c) as [d|e|w|];
    [|exists k1; split; [unfold mbind, eff_mbind, eff_bind; by rewrite E, Ho|done]..].
  destruct Ho as (-> & Hp & Hd). rewrite (eff_bind_ok _ _ _ _ _ E).
  assert (caches (with_cache c k1 s) !! c = Some k1) as Hk1 by apply lookup_insert_eq.
  cbn [mbind outcome_mbind outcome_bind]. case_decide; [by exists k1|].
  rewrite (eff_bind_ok _ _ _ _ _ (cache_at_spec _ c k1 Hk1)), Hd.
  destruct (d !! query) as [v|]; [by exists k1|].
  pose proof (Hs1 c k1 Hk1) as Hm. change (tree (with_cache c k1 s)) with (tree s) in Hm.
  destruct (cachedQueries k1 !! query) as [v|] eqn:Eq.
  { destruct (memo_queries _ _ _ Hm _ _ Eq) as (Q & -> & Ev). simpl. rewrite Ev. by exists k1. }
  unfold in_tree, mbind, eff_mbind, eff_bind, outcome_mbind, outcome_bind. simpl.
  destruct (Query_new (tree s) (Some c) query) as [Q|e|w|] eqn:EQ; [|by exists k1..].
  destruct (Query.getSingleData (tree s) Q) as [v|e|w|] eqn:Ev; [|by exists k1..].
  rewrite <- Hd. eexists. split; [f_equal; apply (with_cache_twice s c k1)|].
  apply memos_put; [done|]. by apply (data_recorded (tree s) c k1 Q).
Qed.

Lemma getCount_spec c k query s :
  memos s → caches s !! c = Some k →
  ∃ k', getCount c query s = (count_spec (tree s) c query, with_cache c k' s)
      ∧ memos (with_cache c k' s).
Proof.
  intros Hs Hk. unfold getCount.
  rewrite (eff_bind_ok _ _ _ _ _ (cache_at_spec _ c k Hk)).
  pose proof (Hs c k Hk) as Hm. pose proof (with_cache_same s c k Hk) as Es.
  destruct (cachedCounts k !! query) as [n|] eqn:En.
  { exists k. rewrite Es. split; [|done]. by rewrite (memo_counts _ _ _ Hm _ _ En). }
  unfold in_tree, mbind, eff_mbind, eff_bind, count_spec, mbind, outcome_mbind, outcome_bind.
  destruct (Query_new (tree s) (Some c) query) as [Q|e|w|] eqn:EQ; [|exists k; by rewrite Es..].
  eexists. split; [done|]. apply memos_put; [done|]. apply (count_recorded _ _ k); [done|].
  unfold count_spec. by rewrite EQ.
Qed.

(** The tables of a context are invisible: [getData], [getCount] and
    [toVaeDbDataForContext] answer what the document says now, whatever was
    asked before, errors included, and only touch the context's own table. *)
Theorem context_tables_transparent c k query s :
  memos s → caches s !! c = Some k →
  (∃ k', getData c query s = (data_spec (tree s) c query, with_cache c k' s)
       ∧ memos (with_cache c k' s)) ∧
  (∃ k', getCount c query s = (count_spec (tree s) c query, with_cache c k' s)
       ∧ memos (with_cache c k' s)) ∧
  (∃ k', toVaeDbDataForContext c s =
           ((d ← context_map (tree s) c; mret {| dfc_data := d |}), with_cache c k' s)
       ∧ memos (with_cache c k' s)).
Proof.
  intros Hs Hk. split; [by apply (getData_spec c k)|]. split; [by apply (getCount_spec c k)|].
  unfold toVaeDbDataForContext. rewrite (eff_bind_ok _ _ _ _ _ (cache_at_spec _ c k Hk)).
  destruct (populated_spec c k s Hs Hk) as (o & k1 & E & Hs1 & Ho). exists k1.
  destruct (context_map (tree s) c) as [d|e|w|];
    [|split; [unfold mbind, eff_mbind, eff_bind; by rewrite E, Ho|done]..].
  destruct Ho as (-> & Hp & Hd). rewrite (eff_bind_ok _ _ _ _ _ E).
  assert (caches (with_cache c k1 s) !! c = Some k1) as Hk1 by apply lookup_insert_eq.
  rewrite (eff_bind_ok _ _ _ _ _ (cache_at_spec _ c k1 Hk1)), Hd. done.
Qed.
End memo.

(** The value of an element: its last text, or "(collection)" as soon as it has
    a child that is not text; an element without children has none. *)
Lemma child_content_spec l c :
  child_content l c =
    if forallb (λ e, bool_decide (type e.2 = XML_TEXT_NODE)) l
    then match list.last l with Some e => content e.2 | None => c end
    else Some COLLECTION_DESC.
Proof.
  revert c. induction l as [|[p n] l IH]; intros c; [done|]. cbn [child_content forallb snd].
  case_decide as Ht; [|by rewrite bool_decide_false]. rewrite bool_decide_true, IH by done.
  rewrite last_cons. simpl. destruct (forallb _ l); [|done]. by destruct (list.last l).
Qed.

(** * A freshly loaded site *)

(** Proves that a computation keeps an invariant, by cases on its text; the
    invariant of each assignment is left to [eauto]. *)
Ltac preserve_with tac :=
  repeat first
    [ tac | apply preserves_ret | apply preserves_gets | apply preserves_throw | apply preserves_ub
    | apply preserves_no_fuel | apply preserves_lift | apply preserves_deref
    | apply preserves_when | apply preserves_for_each; intros
    | apply preserves_bind; [|intros]
    | progress case_match ].
Ltac preserve := preserve_with fail.

Section fresh.
Context `{Boost} `{Pcre} `{LibXml}.

(** No query has been cached and no table filled. *)
Definition fresh_caches (s : Site) : Prop :=
  query_cache s = LruCache.LRUCache_new 384 ∧
  ∀ c k, caches s !! c = Some k → k = ContextCache_new.

Lemma fresh_in_tree {A} (f : Tree → outcome A) : preserves fresh_caches (in_tree f).
Proof. by intros s. Qed.
Lemma fresh_node_at p : preserves fresh_caches (node_at p).
Proof. by intros s. Qed.
Lemma fresh_context_at c : preserves fresh_caches (context_at c).
Proof. by intros s. Qed.
Lemma fresh_set_tree f : preserves fresh_caches (modify (set_tree f)).
Proof. by intros s. Qed.
Lemma fresh_modify_doc f : preserves fresh_caches (modify_doc f).
Proof. by intros s. Qed.
Lemma fresh_set_structures f : preserves fresh_caches (modify (set_structures f)).
Proof. by intros s. Qed.
Lemma fresh_set_associations f : preserves fresh_caches (modify (set_associations f)).
Proof. by intros s. Qed.
Lemma fresh_set_clean l l2 : preserves fresh_caches (modify (set_clean l l2)).
Proof. by intros s. Qed.
Lemma fresh_set_generation g : preserves fresh_caches (modify (set_generation g)).
Proof. by intros s. Qed.
Lemma fresh_put_context c x : preserves fresh_caches (put_context c x).
Proof. by intros s. Qed.
Lemma fresh_new_context c :
  preserves fresh_caches
    (modify (λ s, set_next_context (Pos.succ c) (set_caches (<[c := ContextCache_new]>) s))).
Proof.
  intros s [Hq Hc]. split; [done|]. intros c' k. simpl.
  intros [[_ <-]|[_ ?]]%lookup_insert_Some; eauto.
Qed.
Lemma fresh_delete_context c : preserves fresh_caches (delete_context c).
Proof.
  intros s [Hq Hc]. split; [done|]. intros c' k. simpl. intros [_ ?]%lookup_delete_Some; eauto.
Qed.
Create HintDb fresh discriminated.
Hint Resolve fresh_in_tree fresh_node_at fresh_context_at fresh_set_tree fresh_modify_doc
  fresh_set_structures fresh_set_associations fresh_set_clean fresh_set_generation
  fresh_put_context fresh_new_context fresh_delete_context : fresh.

Lemma fresh_populateAttrs p : preserves fresh_caches (populateAttrs p).
Proof. unfold populateAttrs, structureFromStructureId. preserve; eauto with fresh. Qed.
Hint Resolve fresh_populateAttrs : fresh.

Lemma fresh_construction fuel :
  (∀ p, preserves fresh_caches (Context_new fuel p)) ∧
  (∀ top child, preserves fresh_caches (children_loop fuel top child)).
Proof.
  induction fuel as [|fuel [IH1 IH2]]; [by split; intros; apply preserves_no_fuel|].
  split; intros; cbn [Context_new children_loop];
    unfold getSingleData_node, attach; preserve; eauto with fresh.
Qed.

Lemma fresh_initializeAssociation c : preserves fresh_caches (initializeAssociation c).
Proof.
  unfold initializeAssociation, getSingleData_node, forward_association, reverse_association,
    copy_node. preserve; eauto with fresh.
Qed.

Lemma fresh_load testMode rawxml : preserves fresh_caches (loadXmlDoc testMode rawxml).
Proof.
  unfold loadXmlDoc, one_node. preserve; eauto with fresh;
    first [apply (proj2 (fresh_construction _))|apply fresh_initializeAssociation].
Qed.

Lemma Site_new_fresh testMode su staging keys rawxml s :
  Site_new testMode su staging keys rawxml = Ok s → fresh_caches s.
Proof.
  unfold Site_new. pose proof (fresh_load testMode rawxml (Site_init testMode su staging keys)) as Hl.
  destruct (loadXmlDoc _ _ _) as [[]]; [|done..]. intros [= <-]. apply Hl. done.
Qed.

(** A loaded site satisfies the hypotheses of the theorems on its caches. *)
Lemma Site_new_coherent testMode su staging keys rawxml s :
  Site_new testMode su staging keys rawxml = Ok s → coherent s ∧ memos s.
Proof.
  intros [Hq Hc]%Site_new_fresh. split.
  - split; rewrite Hq; [by apply LruCache.wf_new|done|].
    intros k v Hin. by apply not_elem_of_nil in Hin.
  - intros c k ->%Hc. split; done.
Qed.
End fresh.

(** * Staging *)

(** What the code relies on when it removes nodes: the others keep their
    attributes, and a freed node is gone. *)
Class LibXmlLaws `{LibXml} : Prop := {
  unlink_keeps p h q n' : xmlUnlinkNode p h !! q = Some n' →
    ∃ n, h !! q = Some n ∧ properties n' = properties n;
  free_keeps p h q n' : xmlFreeNode p h !! q = Some n' →
    ∃ n, h !! q = Some n ∧ properties n' = properties n;
  free_gone p h : xmlFreeNode p h !! p = None;
}.

Section staging.
Context `{Boost} `{Pcre} `{LibXmlLaws}.
(** The document as parsed. *)
Variable h0 : heap.

(** An element of the document that may be served in production. *)
Definition public (p : ptr) : Prop :=
  ∃ n, h0 !! p = Some n ∧ Forall (λ a, attr_name a ≠ "staging") (properties n).

(** Everything that queries can name is public. *)
Record registered (t : Tree) : Prop := {
  reg_nodes i p : nodes t !! i = Some p → public p;
  reg_permalinks k p : permalinks t !! k = Some p → public p;
  reg_contexts c x : contexts t !! c = Some x → killMe x = false → public (node x);
}.
(** While contexts are built, attributes are those of the document. *)
Record building (s : Site) : Prop := {
  bld_production : stagingMode s = false;
  bld_registered : registered (tree s);
  bld_doc p n : doc (tree s) !! p = Some n →
    ∃ n0, h0 !! p = Some n0 ∧ properties n = properties n0;
}.

Lemma attrs_loop_public l i st pl r :
  attrs_loop false l i st pl = Ok (Some r) → Forall (λ a, attr_name a ≠ "staging") l.
Proof.
  revert i st pl. induction l as [|a l IH]; intros i st pl; [done|]. cbn [attrs_loop].
  unfold mbind, outcome_mbind, outcome_bind. repeat (case_match; try done);
    intros E; constructor; eauto;
    match goal with Hb : negb false && bool_decide _ = false |- _ =>
      by apply bool_decide_eq_false in Hb end.
Qed.

(** Assignments that no part of the invariant looks at. *)
Lemma building_set_structures f : preserves building (modify (set_structures f)).
Proof. by intros s []; split. Qed.
Lemma building_set_associations f : preserves building (modify (set_associations f)).
Proof. by intros s []; split. Qed.
Lemma building_new_context c :
  preserves building
    (modify (λ s, set_next_context (Pos.succ c) (set_caches (<[c := ContextCache_new]>) s))).
Proof. by intros s []; split. Qed.
Lemma building_in_tree {A} (f : Tree → outcome A) : preserves building (in_tree f).
Proof. by intros s. Qed.
Lemma building_node_at p : preserves building (node_at p).
Proof. by intros s. Qed.
Lemma building_context_at c : preserves building (context_at c).
Proof. by intros s. Qed.

(** Registering a public node. *)
Lemma building_set_nodes i p :
  public p → preserves building (modify (set_tree (set_nodes (<[i := p]>)))).
Proof.
  intros Hp s [Hs [Hn Hl Hc] Hd]. split; [done| |done]. split; simpl; [|done|done].
  intros j q [[_ <-]|[_ ?]]%lookup_insert_Some; eauto.
Qed.
Lemma building_set_permalinks k p :
  public p → preserves building (modify (set_tree (set_permalinks (<[k := p]>)))).
Proof.
  intros Hp s [Hs [Hn Hl Hc] Hd]. split; [done| |done]. split; simpl; [done| |done].
  intros j q [[_ <-]|[_ ?]]%lookup_insert_Some; eauto.
Qed.
Lemma building_put_context c x :
  (killMe x = false → public (node x)) → preserves building (put_context c x).
Proof.
  intros Hx s [Hs [Hn Hl Hc] Hd]. split; [done| |done]. split; simpl; [done|done|].
  intros c' y [[_ <-]|[_ ?]]%lookup_insert_Some; eauto.
Qed.
Lemma building_delete_context c : preserves building (delete_context c).
Proof.
  intros s [Hs [Hn Hl Hc] Hd]. split; [done| |done]. split; simpl; [done|done|].
  intros c' y [_ ?]%lookup_delete_Some; eauto.
Qed.

(** Edits of the document. *)
Lemma building_modify_doc f :
  (∀ h p n', f h !! p = Some n' → ∃ n, h !! p = Some n ∧ properties n' = properties n) →
  preserves building (modify_doc f).
Proof.
  intros Hf s [Hs [Hn Hl Hc] Hd]. split; [done|by split|]. simpl. intros p n' Hp.
  apply Hf in Hp as (n & Hp & ->). by apply Hd.
Qed.
Lemma building_unlink p : preserves building (modify_doc (xmlUnlinkNode p)).
Proof. apply building_modify_doc. intros. by eapply unlink_keeps. Qed.
Lemma building_free p : preserves building (modify_doc (xmlFreeNode p)).
Proof. apply building_modify_doc. intros. by eapply free_keeps. Qed.
Lemma building_set_private c p : preserves building (modify_doc (alter (set_private c) p)).
Proof.
  apply building_modify_doc. intros h q n' Hq.
  apply lookup_alter_Some in Hq as [(-> & n & Hn & ->)|[_ Hq]]; eauto.
Qed.

Create HintDb building discriminated.
Hint Resolve building_set_structures building_set_associations building_new_context
  building_in_tree building_node_at building_context_at building_set_nodes
  building_set_permalinks building_put_context building_delete_context building_unlink
  building_free building_set_private : building.

Lemma building_populateAttrs p :
  keeps building (populateAttrs p) (λ r, is_Some r → public p).
Proof.
  intros s Hs. split.
  - revert s Hs. change (preserves building (populateAttrs p)).
    unfold populateAttrs, structureFromStructureId. preserve; eauto with building.
  - intros r Er [r' ->]. destruct Hs as [Hst _ Hd].
    unfold populateAttrs, node_at, lift in Er. unfold mbind, eff_mbind, eff_bind in Er.
    simpl in Er. destruct (doc (tree s) !! p) as [n|] eqn:En; [|done].
    rewrite Hst in Er. destruct (attrs_loop false (properties n) 0 0 None) as [[r|]| | |] eqn:Ea;
      try done.
    destruct (Hd p n En) as (n0 & Hn0 & Ep). exists n0. split; [done|]. rewrite <- Ep.
    by eapply attrs_loop_public.
Qed.

Lemma building_construction fuel :
  (∀ p, preserves building (Context_new fuel p)) ∧
  (∀ top child, preserves building (children_loop fuel top child)).
Proof.
  induction fuel as [|fuel [IH1 IH2]]; [by split; intros; apply preserves_no_fuel|].
  split; intros; cbn [Context_new children_loop].
  - apply preserves_bind; [unfold new_context; preserve; eauto with building|]. intros c.
    eapply preserves_keeps. apply (keeps_bind _ _ _ _ (λ _, True) (building_populateAttrs p)).
    intros r Hr. apply keeps_preserves. unfold getSingleData_node.
    destruct r as [[[i pl] st]|]; [specialize (Hr ltac:(eauto))|];
      preserve; eauto with building; by apply building_put_context.
  - unfold attach. preserve; eauto with building.
Qed.

(** Associations never register anything. *)
Definition serving (s : Site) : Prop := registered (tree s).

Lemma serving_modify_doc f : preserves serving (modify_doc f).
Proof. by intros s []; split. Qed.
Lemma serving_set_clean l l2 : preserves serving (modify (set_clean l l2)).
Proof. by intros s. Qed.
Lemma serving_set_associations f : preserves serving (modify (set_associations f)).
Proof. by intros s. Qed.
Lemma serving_set_generation g : preserves serving (modify (set_generation g)).
Proof. by intros s. Qed.
Lemma serving_in_tree {A} (f : Tree → outcome A) : preserves serving (in_tree f).
Proof. by intros s. Qed.
Lemma serving_node_at p : preserves serving (node_at p).
Proof. by intros s. Qed.
Lemma serving_delete_context c : preserves serving (delete_context c).
Proof.
  intros s [Hn Hl Hc]. split; simpl; [done|done|].
  intros c' y [_ ?]%lookup_delete_Some; eauto.
Qed.
Lemma serving_context_at c :
  keeps serving (context_at c) (λ x, killMe x = false → public (node x)).
Proof.
  intros s Hs. split; [done|]. unfold context_at, context_of. simpl.
  destruct (contexts (tree s) !! c) as [x|] eqn:E; [|done]. intros a [= <-]. by eapply reg_contexts.
Qed.
Lemma serving_put_context c x :
  (killMe x = false → public (node x)) → preserves serving (put_context c x).
Proof.
  intros Hx s [Hn Hl Hc]. split; simpl; [done|done|].
  intros c' y [[_ <-]|[_ ?]]%lookup_insert_Some; eauto.
Qed.

Create HintDb serving discriminated.
Hint Resolve serving_modify_doc serving_set_clean serving_set_associations
  serving_set_generation serving_in_tree serving_node_at serving_delete_context : serving.

Lemma serving_bind_context {A} c (f : Context → eff Site A) :
  (∀ x, (killMe x = false → public (node x)) → preserves serving (f x)) →
  preserves serving (context_at c ≫= f).
Proof.
  intros Hf. eapply preserves_keeps. eapply keeps_bind; [apply serving_context_at|].
  intros x Hx. by apply keeps_preserves, Hf.
Qed.

Lemma serving_initializeAssociation c : preserves serving (initializeAssociation c).
Proof.
  unfold initializeAssociation, getSingleData_node. apply serving_bind_context. intros x Hx.
  unfold forward_association, reverse_association, copy_node.
  preserve_with ltac:(apply serving_bind_context; intros ? ?); eauto with serving.
  all: by apply serving_put_context.
Qed.

(** From one invariant to the other. *)
Definition ends_serving {A} (m : eff Site A) : Prop := ∀ s, building s → serving (m s).2.

Lemma ends_serving_bind {A B} (m : eff Site A) (f : A → eff Site B) :
  preserves building m → (∀ a, ends_serving (f a)) → ends_serving (m ≫= f).
Proof.
  intros Hm Hf s Hs. specialize (Hm s Hs). unfold mbind, eff_mbind, eff_bind.
  destruct (m s) as [[] s1]; simpl in *; [by apply Hf|apply Hm..].
Qed.
Lemma ends_serving_end {A} (m : eff Site A) : preserves serving m → ends_serving m.
Proof. intros Hm s Hs. apply Hm, Hs. Qed.
Lemma building_set_roots r d : preserves building (modify (set_tree (set_roots r d))).
Proof. intros s [Hp [] Hd]. split; [done|by split|done]. Qed.
Hint Resolve building_set_roots : building.

Lemma load_serving (testMode : bool) rawxml s :
  building s →
  (if testMode then xmlParseFile (subdomain s) else xmlReadMemory rawxml) = Some h0 →
  serving (loadXmlDoc testMode rawxml s).2.
Proof.
  intros Hs Hp. unfold loadXmlDoc, one_node. rewrite eff_bind_gets, Hp.
  match goal with |- serving (?m s).2 =>
    enough (ends_serving m) as Hm by (by apply Hm) end.
  clear s Hs Hp.
  apply ends_serving_bind.
  { intros s [Hp [] Hd]. split; [done|by split|]. intros p n Hn. by exists n. }
  intros _.
  repeat (apply ends_serving_bind;
    [preserve; eauto with building; apply (proj2 (building_construction _))|intros ?]).
  apply ends_serving_end.
  preserve_with ltac:(apply serving_initializeAssociation); eauto with serving.
Qed.
End staging.


(** * Broken associations *)

(** An association whose target does not exist frees its node, but the node
    stays registered under its identifier: from then on a query for that
    identifier with a path follows a dangling pointer. *)
Theorem broken_association_dangles `{Boost} `{Pcre} `{LibXmlLaws} c x n s text path q :
  context_of (tree s) c = Ok x → doc (tree s) !! node x = Some n →
  text_of (tree s) n = Ok text → (atoi text ≤ 0 ∨ nodes (tree s) !! atoi text = None)%Z →
  nodes (tree s) !! id x = Some (node x) →
  re_full_match false "([0-9]+)(/.*|)" q = Some [pretty (id x); path] →
  atoi (pretty (id x)) = id x → path ≠ "" →
  ∃ s', initializeAssociation c s = (Ok (), s') ∧
    nodes (tree s') !! id x = Some (node x) ∧
    Query_id (tree s') None q q = UB "dangling node".
Proof.
  intros Hc Hn Ht Hi Hr Hm Ha Hp. unfold initializeAssociation, context_at.
  unfold mbind, eff_mbind, eff_bind at 1. rewrite Hc. cbv beta iota.
  unfold getSingleData_node, node_at, in_tree, mbind, eff_mbind, eff_bind. simpl.
  rewrite Hn, Ht. cbv beta iota. unfold gets.
  assert ((if (0 <? atoi text)%Z then nodes (tree s) !! atoi text else None) = None) as ->.
  { destruct (Z.ltb_spec 0 (atoi text)); [|done]. destruct Hi; [lia|done]. }
  eexists. split; [done|]. simpl. split; [done|].
  unfold Query_id, find. rewrite Hm, Ha. simpl. rewrite Hr. simpl.
  rewrite bool_decide_true by done. simpl. unfold private_of, node_of. simpl. by rewrite free_gone.
Qed.

(** * Witnesses on the demonstration site *)

Import Demo.

Lemma demo_coherent : coherent site.
Proof. exact (proj1 (Site_new_coherent _ _ _ _ _ _ site_loaded)). Defined.

Lemma demo_memos : memos site.
Proof. exact (proj2 (Site_new_coherent _ _ _ _ _ _ site_loaded)). Defined.

Example fetch_query_transparent_witness :
  (fetch_query (None, "artist") site).1 = Ok {| qsize := 2; nodeTab := [3%positive; 13%positive] |}.
Proof.
  destruct (fetch_query_transparent (None, "artist") site demo_coherent) as (c & E & _).
  rewrite E. vm_compute. reflexivity.
Defined.

Example context_tables_transparent_witness :
  (getData 1 "name" site).1 = Ok "Miles Davis".
Proof.
  destruct (context_tables_transparent 1 ContextCache_new "name" site demo_memos
    ltac:(vm_compute; reflexivity)) as ((k & E & _) & _).
  rewrite E. vm_compute. reflexivity.
Defined.

(** The editing functions of [XmlRef] keep the laws. *)
Lemma descendants_self fuel h p : 0 < fuel → p ∈ descendants fuel h p.
Proof. destruct fuel; [lia|]. intros _. by left. Qed.

Lemma foldr_delete_lookup (l : list ptr) (h : heap) q n :
  foldr delete h l !! q = Some n → h !! q = Some n ∧ q ∉ l.
Proof.
  induction l as [|p l IH]; simpl; [split; [done|by apply not_elem_of_nil]|].
  intros [Hne [Hq Hl]%IH]%lookup_delete_Some. split; [done|].
  apply not_elem_of_cons. by split.
Qed.

#[export] Instance demo_laws : LibXmlLaws (H := demo_libxml).
Proof.
  split; simpl.
  - intros p h q n'. unfold unlink. destruct (h !! p) as [n|]; [|by eauto]. cbv zeta.
    unfold update. rewrite lookup_alter_Some.
    intros [(-> & m & Hm & ->)|[_ Hm]]; apply lookup_fmap_Some in Hm as (m' & <- & Hm'); by exists m'.
  - intros p h q n' [Hq _]%foldr_delete_lookup. by exists n'.
  - intros p h. destruct (free p h !! p) as [n|] eqn:E; [|done].
    apply foldr_delete_lookup in E as [E Hp]. destruct Hp. apply descendants_self.
    destruct (size h) eqn:Es; [|lia]. apply map_size_empty_inv in Es as ->. by rewrite lookup_empty in E.
Qed.


(** The second context of a site whose only association points to nothing. *)
Module Broken.
Definition tree : XmlRef.tree :=
  Elem "website" [] [Elem "content" [] [Elem "a" [("id", "1"); ("type", "2")] [Text "9"]]].
Definition state : Site :=
  set_tree (λ t, set_doc (λ _, document tree) (set_nodes (λ _, {[1%Z := 3%positive]})
    (set_contexts (λ _, {[1%positive := {| node := 3; id := 1; permalink := None;
      structure := None; ctype := "AssociationItem"; vaeDbContext := VaeDbContext_default;
      pointerNodes := []; killMe := false |}]}) t))) (Site_init true "" false "").
End Broken.

Example broken_association_dangles_witness :
  ∃ s', initializeAssociation 1 Broken.state = (Ok (), s')
      ∧ Query_id (Site.tree s') None "1/x" "1/x" = UB "dangling node".
Proof.
  destruct (broken_association_dangles 1 _ _ Broken.state "9" "/x" "1/x"
    ltac:(vm_compute; reflexivity) ltac:(vm_compute; reflexivity) ltac:(vm_compute; reflexivity)
    ltac:(right; vm_compute; reflexivity) ltac:(vm_compute; reflexivity)
    ltac:(vm_compute; reflexivity) ltac:(vm_compute; reflexivity) ltac:(discriminate))
    as (s' & E & _ & Q).
  exists s'. split; [exact E|exact Q].
Defined.

(** * Feeds that loading does not survive *)

Module Feeds.
Definition site (content design : list XmlRef.tree) : XmlRef.tree :=
  Elem "website" [] [Elem "content" [] content; Elem "design" [] design;
                     Elem "generation" [] [Text "1"]].
Definition association : XmlRef.tree := Elem "x" [("id", "7"); ("type", "AssociationItem")] [].
Definition libxml : LibXml := libxml_ref [
  ("unknown structure", site [Elem "a" [("id", "1"); ("type", "7")] []] []);
  ("association", site [Elem "a" [("id", "1")] []; Elem "b" [("type", "7")] [Text "1"]]
                       [association]);
  ("plain", site [Elem "a" [("id", "1")] [Elem "b" [("type", "7")] [Text "1"]]] [association])].
End Feeds.

(** Two kinds of well-formed feed make loading dereference a null pointer: an
    element whose "type" is not in the design ([getNode(0)] of an empty result),
    and a resolvable association directly under the content node, which has no
    context; one level deeper the association loads. *)
Theorem load_null_dereferences :
  let load name := Site_new (H1 := Feeds.libxml) false name false "k" name in
  load "unknown structure" = UB "nodeTab out of bounds" ∧
  load "association" = UB "null parent context" ∧
  is_ok (load "plain").
Proof. vm_compute. split_and!; [reflexivity..|eexists; reflexivity]. Qed.
