(* ===== verification/S3.v ===== *)
(** [cpp/s3.cpp]: reading an object from S3, with a copy on disk as a fallback.
    libs3 and Boost.Filesystem are parameters ([S3Env]); [FileLaws] states what
    the code relies on of the file system. *)
From Stdlib Require Import ZArith.
From S2P Require Import Prelude Cpp.

(** What [S3_get_object] does with its handlers: the buffers it delivers, then
    whether the status is [S3StatusOK], and the error message if there is one. *)
Record s3_result := { buffers : list string; status_ok : bool; s3error : option string }.

Class S3Env (E : Type) := {
  S3_get_object : string → eff E s3_result;
  unique_path : eff E string;
  (** [tempfs.open(name, out)] followed by [is_open()]. *)
  open_out : string → eff E bool;
  write_out : string → string → eff E unit;
  (** [remove], [rename] and [exists]; the first two may throw. *)
  fs_remove : string → eff E unit;
  fs_rename : string → string → eff E unit;
  fs_exists : string → eff E bool;
  (** The content that an [ifstream] delivers ("" when it cannot be opened). *)
  fs_read : string → eff E string;
}.

Section s3.
Context {E : Type} `{S3Env E}.
(** The global [_cache_path]. *)
Variable cache_path : string.

Definition object_cache_path (objectname : string) : string := cache_path +:+ "/" +:+ objectname.
Definition read_cache (objectname : string) : eff E string := fs_read (object_cache_path objectname).

Record transfer := {
  failed : bool; tempfs_open : bool; cachename : string; tempname : string;
  ss : string; error_message : string; objectname : string;
}.

Definition transfer_new (objectname : string) : eff E transfer :=
  tempname ← unique_path;
  is_open ← open_out tempname;
  mret {| failed := false; tempfs_open := is_open; cachename := object_cache_path objectname;
          tempname := tempname; ss := ""; error_message := "unknown error.";
          objectname := objectname |}.

Definition get_error (t : transfer) : string :=
  "Error reading " +:+ objectname t +:+ ": " +:+ error_message t.

Definition commit_buffer (bfr : string) (t : transfer) : eff E transfer :=
  when (tempfs_open t) (write_out (tempname t) bfr);;
  mret {| failed := failed t; tempfs_open := tempfs_open t; cachename := cachename t;
          tempname := tempname t; ss := ss t +:+ bfr; error_message := error_message t;
          objectname := objectname t |}.

Fixpoint readObjectDataCallback (bfrs : list string) (t : transfer) : eff E transfer :=
  match bfrs with
  | [] => mret t
  | b :: bfrs' => t ← commit_buffer b t; readObjectDataCallback bfrs' t
  end.

Definition responseCompleteCallback (ok : bool) (err : option string) (t : transfer) : transfer :=
  {| failed := failed t || negb ok; tempfs_open := tempfs_open t; cachename := cachename t;
     tempname := tempname t; ss := ss t; error_message := default (error_message t) err;
     objectname := objectname t |}.

Definition finalize (t : transfer) : eff E unit :=
  if tempfs_open t then
    if failed t then fs_remove (tempname t)
    else
      fs_remove (cachename t);;
      catch_runtime (fs_rename (tempname t) (cachename t)) (mret ())
  else mret ().

Definition get_value (t : transfer) : eff E string :=
  if failed t then
    e ← fs_exists (cachename t);
    if e : bool then read_cache (objectname t) else mret ""
  else mret (ss t).

Definition read_s3 (objectname : string) : eff E string :=
  ts ← transfer_new objectname;
  r ← S3_get_object objectname;
  ts ← readObjectDataCallback (buffers r) ts;
  let ts := responseCompleteCallback (status_ok r) (s3error r) ts in
  finalize ts;;
  get_value ts.
End s3.

(** * What a read gives and keeps *)

(** A file system where the temporary file can be created (outside the cache
    directory) and files can be removed; [can_rename] tells whether [rename] works between the two
    directories. *)
Class FileLaws (E : Type) (cache_path : string) `{S3Env E} := {
  files : E → gmap string string;
  can_rename : Prop;
  get_law name e : ∃ r e', S3_get_object name e = (Ok r, e') ∧ files e' = files e;
  unique_law e : ∃ p e', unique_path e = (Ok p, e') ∧ files e' = files e ∧ files e !! p = None
    ∧ ∀ n, p ≠ object_cache_path cache_path n;
  open_law p e : ∃ e', open_out p e = (Ok true, e') ∧ files e' = <[p := ""]> (files e);
  write_law p s old e : files e !! p = Some old →
    ∃ e', write_out p s e = (Ok (), e') ∧ files e' = <[p := old +:+ s]> (files e);
  remove_law p e : ∃ e', fs_remove p e = (Ok (), e') ∧ files e' = delete p (files e);
  rename_law p q s e : files e !! p = Some s →
    (can_rename ∧ ∃ e', fs_rename p q e = (Ok (), e') ∧ files e' = <[q := s]> (delete p (files e)))
    ∨ (¬ can_rename ∧ ∃ w e', fs_rename p q e = (Throw (RuntimeError w), e') ∧ files e' = files e);
  exists_law p e : ∃ e', fs_exists p e = (Ok (bool_decide (is_Some (files e !! p))), e')
    ∧ files e' = files e;
  read_law p e : ∃ e', fs_read p e = (Ok (default "" (files e !! p)), e') ∧ files e' = files e;
}.

Section laws.
Context {E : Type} {cache_path : string} `{FileLaws E cache_path}.

Definition joined (l : list string) : string := foldr (λ b r, b +:+ r) "" l.

Lemma sappend_assoc (a b c : string) : (a +:+ b) +:+ c = a +:+ b +:+ c.
Proof. apply chars_inj. by rewrite !chars_app, app_assoc. Qed.
Lemma sappend_nil (a : string) : a +:+ "" = a.
Proof. apply chars_inj. by rewrite chars_app, app_nil_r. Qed.

Lemma commit_all bfrs t e old :
  tempfs_open t = true → files e !! tempname t = Some old →
  ∃ e', readObjectDataCallback bfrs t e =
    (Ok {| failed := failed t; tempfs_open := true; cachename := cachename t;
           tempname := tempname t; ss := ss t +:+ joined bfrs; error_message := error_message t;
           objectname := objectname t |}, e') ∧
    files e' = <[tempname t := old +:+ joined bfrs]> (files e).
Proof.
  revert t e old. induction bfrs as [|b bfrs IH]; intros t e old Ho Hf; simpl.
  { exists e. rewrite !sappend_nil, insert_id by done. by destruct t; simpl in *; subst. }
  unfold commit_buffer. rewrite Ho. cbn [when].
  destruct (write_law (tempname t) b old e Hf) as (e1 & E1 & Hf1).
  rewrite eff_bind_assoc, (eff_bind_ok _ _ _ _ _ E1), eff_bind_ret.
  edestruct (IH {| failed := failed t; tempfs_open := true; cachename := cachename t;
    tempname := tempname t; ss := ss t +:+ b; error_message := error_message t;
    objectname := objectname t |} e1 (old +:+ b)) as (e2 & E2 & Hf2); [done|simpl|].
  { by rewrite Hf1, lookup_insert_eq. }
  rewrite E2. exists e2. simpl in *. rewrite !sappend_assoc. split; [done|].
  by rewrite Hf2, Hf1, insert_insert_eq, sappend_assoc.
Qed.

Lemma cache_path_inj m n :
  object_cache_path cache_path m = object_cache_path cache_path n → m = n.
Proof.
  unfold object_cache_path. intros Ep%(f_equal chars). rewrite !chars_app in Ep.
  apply app_inv_head in Ep. apply app_inv_head in Ep. by apply chars_inj.
Qed.

(** The run of [read_s3]. *)
Lemma read_s3_run name e :
  ∃ v e' e1 r e2, S3_get_object name e1 = (Ok r, e2) ∧
    read_s3 cache_path name e = (Ok v, e') ∧
    (let copy n := files e' !! object_cache_path cache_path n in
     let before n := files e !! object_cache_path cache_path n in
     (if status_ok r
      then v = joined (buffers r) ∧ (can_rename → copy name = Some v) ∧ (¬ can_rename → copy name = None)
      else v = default "" (before name) ∧ copy name = before name) ∧
     ∀ other, other ≠ name → copy other = before other).
Proof.
  unfold read_s3, transfer_new. set (path := object_cache_path cache_path name).
  destruct (unique_law e) as (tmp & e0 & E0 & F0 & Hnew & Htmp).
  rewrite eff_bind_assoc, (eff_bind_ok _ _ _ _ _ E0), eff_bind_assoc.
  destruct (open_law tmp e0) as (e1 & E1 & F1). rewrite (eff_bind_ok _ _ _ _ _ E1), eff_bind_ret.
  destruct (get_law name e1) as (r & e2 & E2 & F2). rewrite (eff_bind_ok _ _ _ _ _ E2).
  assert (tmp ≠ path) as Hne by apply Htmp.
  destruct (commit_all (buffers r) {| failed := false; tempfs_open := true; cachename := path;
    tempname := tmp; ss := ""; error_message := "unknown error."; objectname := name |} e2 "")
    as (e3 & E3 & F3); [done| |].
  { simpl. by rewrite F2, F1, lookup_insert_eq. }
  rewrite (eff_bind_ok _ _ _ _ _ E3). cbn [tempname ss failed cachename objectname] in *.
  assert (∀ n, files e3 !! object_cache_path cache_path n = files e !! object_cache_path cache_path n)
    as Hold by (intros n; by rewrite F3, F2, F1, F0, !lookup_insert_ne by done).
  unfold responseCompleteCallback, finalize, get_value.
  cbn [tempname ss failed cachename objectname tempfs_open orb].
  destruct (status_ok r) eqn:Es; cbn [negb].
  - destruct (remove_law path e3) as (e4 & E4 & F4).
    rewrite eff_bind_assoc, (eff_bind_ok _ _ _ _ _ E4).
    assert (files e4 !! tmp = Some (joined (buffers r))) as Ht.
    { by rewrite F4, lookup_delete_ne, F3, lookup_insert_eq. }
    unfold catch_runtime.
    destruct (rename_law tmp path (joined (buffers r)) e4 Ht) as [(Hc & e5 & E5 & F5)|(Hc & w & e5 & E5 & F5)].
    + eexists _, e5, e1, r, e2. split; [done|]. split.
      { unfold mbind, eff_mbind, eff_bind. by rewrite E5. }
      cbv zeta. rewrite Es, F5. split; [split; [done|split; [|done]]|].
      * intros _. by rewrite lookup_insert_eq.
      * intros other Ho. assert (object_cache_path cache_path other ≠ path) by (by intros ?%cache_path_inj).
        rewrite lookup_insert_ne, lookup_delete_ne, F4, lookup_delete_ne by done. apply Hold.
    + eexists _, e5, e1, r, e2. split; [done|]. split.
      { unfold mbind, eff_mbind, eff_bind. by rewrite E5. }
      cbv zeta. rewrite Es, F5. split; [split; [done|split; [done|]]|].
      * intros _. by rewrite F4, lookup_delete_eq.
      * intros other Ho. assert (object_cache_path cache_path other ≠ path) by (by intros ?%cache_path_inj).
        rewrite F4, lookup_delete_ne by done. apply Hold.
  - destruct (remove_law tmp e3) as (e4 & E4 & F4). rewrite (eff_bind_ok _ _ _ _ _ E4).
    destruct (exists_law path e4) as (e5 & E5 & F5). rewrite (eff_bind_ok _ _ _ _ _ E5).
    assert (∀ n, files e5 !! object_cache_path cache_path n = files e !! object_cache_path cache_path n)
      as Hold' by (intros n; by rewrite F5, F4, lookup_delete_ne by done).
    case_bool_decide as Hb.
    + destruct (read_law path e5) as (e6 & E6 & F6). eexists _, e6, e1, r, e2.
      split; [done|]. split; [exact E6|]. cbv zeta. rewrite Es, F6. unfold path.
      split; [by rewrite Hold'|]. intros other _. apply Hold'.
    + eexists _, e5, e1, r, e2. split; [done|]. split; [done|]. cbv zeta. rewrite Es.
      split; [|intros other _; apply Hold']. split; [|apply Hold'].
      fold path. pose proof (Hold' name) as Hn. rewrite F5 in Hn. fold path in Hn. rewrite <- Hn.
      apply eq_None_not_Some in Hb. by rewrite Hb.
Qed.

Lemma read_s3_ok name e : ∃ v e', read_s3 cache_path name e = (Ok v, e').
Proof. destruct (read_s3_run name e) as (v & e' & _ & _ & _ & _ & Er & _). by exists v, e'. Qed.

End laws.

(** * A concrete environment *)

Module S3Ref.
(** A file system and the objects of a bucket; [down] makes every transfer
    stop half way. *)
Record env := { fs : gmap string string; bucket : gmap string string; down : bool }.
Definition set_fs (f : gmap string string → gmap string string) (e : env) : env :=
  {| fs := f (fs e); bucket := bucket e; down := down e |}.

(** A name longer than those in use. *)
Definition longest (m : gmap string string) : nat :=
  foldr (λ e n, Nat.max (String.length e.1) n) 0 (map_to_list m).
Definition temp (m : gmap string string) : string :=
  of_chars (replicate (S (longest m)) "T"%char).

#[export] Instance s3env : S3Env env := {
  S3_get_object name e :=
    (Ok match (if down e then None else bucket e !! name) with
        | Some s => {| buffers := [s]; status_ok := true; s3error := None |}
        | None => {| buffers := ["par"]; status_ok := false; s3error := Some "timeout" |}
        end, e);
  unique_path e := (Ok (temp (fs e)), e);
  open_out p e := (Ok true, set_fs (<[p := ""]>) e);
  write_out p s e := (Ok (), set_fs (alter (λ old, old +:+ s) p) e);
  fs_remove p e := (Ok (), set_fs (delete p) e);
  fs_rename p q e :=
    (Ok (), set_fs (λ m, match m !! p with Some s => <[q := s]> (delete p m) | None => m end) e);
  fs_exists p e := (Ok (bool_decide (is_Some (fs e !! p))), e);
  fs_read p e := (Ok (default "" (fs e !! p)), e);
}.

Lemma length_chars s : length (chars s) = String.length s.
Proof. induction s; simpl; [done|]. f_equal. exact IHs. Qed.

Lemma longest_spec m p s : m !! p = Some s → String.length p ≤ longest m.
Proof.
  intros Hp. apply elem_of_map_to_list in Hp. unfold longest. revert Hp.
  generalize (map_to_list m) as l. induction l as [|[q t] l IH]; simpl; intros Hp.
  - by apply elem_of_nil in Hp.
  - apply elem_of_cons in Hp as [[= <- <-]|Hp]; [lia|]. specialize (IH Hp). lia.
Qed.

Lemma temp_fresh m : m !! temp m = None.
Proof.
  apply eq_None_not_Some. intros [s Hs%longest_spec]. revert Hs.
  unfold temp. rewrite <- length_chars, chars_of_chars, length_replicate. lia.
Qed.

#[export] Instance s3env_laws : FileLaws env "/c".
Proof.
  refine {| files := fs; can_rename := True |}.
  - intros name e. by eexists _, e.
  - intros e. eexists _, e. split; [done|]. split; [done|]. split; [apply temp_fresh|].
    by intros n [=].
  - intros p e. by eexists.
  - intros p s old e Hp. eexists. split; [done|]. simpl. apply map_eq. intros i.
    destruct (decide (i = p)) as [->|].
    + by rewrite lookup_alter_eq, lookup_insert_eq, Hp.
    + by rewrite lookup_alter_ne, lookup_insert_ne.
  - intros p e. by eexists.
  - intros p q s e Hp. left. split; [done|]. eexists. split; [done|]. simpl. by rewrite Hp.
  - intros p e. by eexists.
  - intros p e. by eexists.
Defined.

Definition up (b : gmap string string) : env :=
  {| fs := ∅; bucket := b; down := false |}.
End S3Ref.
Import S3Ref.


(** A read, an outage, and the copy that answers for it. *)
Example read_s3_outage :
  let e := up (<["x-feed.xml" := "<a/>"]> ∅) in
  let e1 := (read_s3 "/c" "x-feed.xml" e).2 in
  let e2 := {| S3Ref.fs := S3Ref.fs e1; S3Ref.bucket := S3Ref.bucket e1; S3Ref.down := true |} in
  ((read_s3 "/c" "x-feed.xml" e2).1, (read_s3 "/c" "y-feed.xml" e2).1) = (Ok "<a/>", Ok "").
Proof. vm_compute. reflexivity. Qed.
