(* ===== verification/Response.v ===== *)
(** [cpp/response.cpp]: a response parses its options, runs a query below each
    context of its parent, filters, uniques, sorts and pages the result.
    [sort] and [random_shuffle] of the C++ library are parameters, because the
    comparison runs queries: it can throw, and it fills tables of the site. *)
From Stdlib Require Import ZArith.
From S2P Require Import Prelude Cpp Extern Util VaeTypes Xml Query Site.

(** * Data *)

Inductive SortType := NoSort | Reverse | Shuffle | Specific.
Inductive SortOrder := Asc | Desc.
#[export] Instance SortType_eq_dec : EqDecision SortType.
Proof. solve_decision. Defined.
#[export] Instance SortOrder_eq_dec : EqDecision SortOrder.
Proof. solve_decision. Defined.

Record SortField := { field : string; count : bool; direction : SortOrder }.

Record ResponseContext := { rc_contexts : list cptr; total : Z }.

(** The members of [Response] that the options set. *)
Record Options := {
  filter : bool; filterTerms : list string;
  groups : Z; page : Z; paginate : Z; skip : Z;
  sortFields : list SortField; sortType : SortType;
  unique : bool; uniqueFields : list string;
}.

(** The results: members [contexts] and [createInfos]. *)
Record Response := { r_contexts : list ResponseContext; createInfos : list VaeDbCreateInfo }.
Definition Response_empty : Response := {| r_contexts := []; createInfos := [] |}.

Class Algorithms := {
  sort : (cptr → cptr → eff Site bool) → list cptr → eff Site (list cptr);
  random_shuffle : list cptr → eff Site (list cptr);
}.

(** * Options *)

Section options.
Context `{Boost} `{Pcre}.

Definition opt_int (options : gmap string string) (k : string) (d : Z) : Z :=
  match options !! k with Some v => atoi v | None => d end.

Definition desc_pattern : string := "DESC\(([.A-Za-z0-9_()\/]+)\)".
Definition count_pattern : string := "COUNT\(([.A-Za-z0-9_()\/]+)\)".

Definition sort_field (term : string) : SortField :=
  let '(f, dir) := match re_full_match true desc_pattern term with
                   | Some [f] => (f, Desc) | _ => (term, Asc) end in
  match re_full_match true count_pattern f with
  | Some [f'] => {| field := f'; count := true; direction := dir |}
  | _ => {| field := f; count := false; direction := dir |}
  end.

Definition parse_order (options : gmap string string) : SortType * list SortField :=
  match options !! "order" with
  | None => (NoSort, [])
  | Some order =>
      if decide (order = "") then (NoSort, [])
      else
        let order := default order (re_replace true "REVERSE\(" "DESC(" order) in
        if strcasecmp_eq order "DESC()" then (Reverse, [])
        else if strcasecmp_eq order "RAND()" then (Shuffle, [])
        else (Specific, sort_field <$> split_any_of "," order)
  end.

(** The order of the tests matters: [paginate] overrides [limit], and
    [page=all] overrides both. *)
Definition parse_page (options : gmap string string) (paginate : Z) : Z * Z :=
  match options !! "page" with
  | None => (1%Z, paginate)
  | Some v =>
      if bool_decide (v = "last()" ∨ v = "last") then ((-1)%Z, paginate)
      else if bool_decide (v = "all" ∨ v = "all()") then (1%Z, 999999999%Z)
      else (atoi v, paginate)
  end.

Definition parse_options (options : gmap string string) : Options :=
  let paginate := opt_int options "paginate" (opt_int options "limit" 99999999) in
  let '(page, paginate) := parse_page options paginate in
  let '(sortType, sortFields) := parse_order options in
  {| skip := opt_int options "skip" 0;
     groups := opt_int options "groups" 0;
     paginate := paginate; page := page;
     unique := bool_decide (is_Some (options !! "unique"));
     uniqueFields := match options !! "unique" with Some v => split_any_of "," v | None => [] end;
     filter := bool_decide (is_Some (options !! "filter"));
     filterTerms := match options !! "filter" with Some v => stream_words v | None => [] end;
     sortType := sortType; sortFields := sortFields |}.
End options.

(** * Filtering *)

Section filter.
Variable h : heap.

(** The terms that a text does not contain remain. *)
Definition remaining (text : string) (terms : list string) : list string :=
  List.filter (λ t, negb (strcasestr text t)) terms.

(** The loop over the children; [recurse] is the call on a child element. *)
Fixpoint filter_children (recurse : option (xmlNode → list string → outcome (list string)))
    (l : list (ptr * xmlNode)) (terms : list string) : outcome (list string) :=
  match l with
  | [] => Ok terms
  | (_, n) :: l' =>
      terms ←
        match type n with
        | XML_ELEMENT_NODE => match recurse with Some f => f n terms | None => Ok terms end
        | XML_TEXT_NODE =>
            match content n with Some s => Ok (remaining s terms) | None => UB "null content" end
        | XML_OTHER_NODE => Ok terms
        end;
      filter_children recurse l' terms
  end.

(** [depth] is [1 - reentry]. *)
Fixpoint filterMatchRecursive (depth : nat) (n : xmlNode) (terms : list string)
    : outcome (list string) :=
  l ← child_list h n;
  filter_children
    match depth with O => None | S depth => Some (filterMatchRecursive depth) end l terms.

Definition filterMatch (terms : list string) (p : ptr) : outcome bool :=
  n ← node_of h (Some p);
  rest ← filterMatchRecursive 1 n terms;
  mret (bool_decide (rest = [])).
End filter.

(** * Queries *)

Section response.
Context {clib : CLib} `{Boost} `{Pcre} `{LibXml} `{Algorithms}.

(** [val += context->getData(field) + "~!~"], for each field. *)
Fixpoint unique_value (c : option cptr) (fields : list string) (val : string) : eff Site string :=
  match fields with
  | [] => mret val
  | f :: fields' =>
      c' ← deref "null context" c;
      v ← getData c' f;
      unique_value c fields' (val +:+ v +:+ "~!~")
  end.

Definition uniqueMatch (fields : list string) (p : ptr) (uniqueFound : gset string)
    : eff Site (bool * gset string) :=
  c ← in_tree (λ t, private_of t p);
  val ← unique_value c fields "";
  if decide (val ∈ uniqueFound) then mret (false, uniqueFound)
  else mret (true, {[val]} ∪ uniqueFound).

(** ** Sorting *)

Fixpoint sortCallback (fields : list SortField) (lhs rhs : cptr) : eff Site bool :=
  match fields with
  | [] => mret false
  | f :: fields' =>
      let decided comp :=
        mret (if decide (direction f = Desc) then negb comp else comp) in
      if decide (field f = "id") then
        l ← getId lhs; r ← getId rhs; decided (l <? r)%Z
      else if count f then
        l ← getCount lhs (field f); r ← getCount rhs (field f);
        if (l =? r)%Z then sortCallback fields' lhs rhs else decided (l <? r)%Z
      else
        l ← getData lhs (field f); r ← getData rhs (field f);
        icomp ← lift (str_compare_nat l r);
        if (icomp =? 0)%Z then sortCallback fields' lhs rhs else decided (0 <? icomp)%Z
  end.

(** ** Paging *)

(** [(int)ceil((float)a / b)]. *)
Definition ceil_div (a b : Z) : outcome Z :=
  int_of_ceil (float_div (float_of_int a) (float_of_int b)).

(** The loop of [groups]: [n] more rounds from round [j]. *)
Fixpoint group_loop (size groups : Z) (n : nat) (j skip_ paginate_ : Z) : outcome (Z * Z) :=
  match n with
  | O => Ok (skip_, paginate_)
  | S n' =>
      skip_ ← (if (0 <? j)%Z then add32 skip_ paginate_ else Ok skip_);
      a ← sub32 size skip_; b ← sub32 groups j;
      paginate_ ← ceil_div a b;
      group_loop size groups n' (j + 1) skip_ paginate_
  end.

(** [skip_] and [paginate_]. *)
Definition page_bounds (o : Options) (size : Z) : outcome (Z * Z) :=
  '(skip_, paginate_) ←
    (if negb (groups o =? 0)%Z then
      let page_ := if (page o <=? 0)%Z then 1%Z else page o in
      group_loop size (groups o) (Z.to_nat page_) 0 (skip o) (paginate o)
    else
      page_ ← (if (page o =? -1)%Z then a ← sub32 size (skip o); ceil_div a (paginate o)
               else Ok (page o));
      let page_ := if (page_ <=? 0)%Z then 1%Z else page_ in
      p ← sub32 page_ 1; m ← mul32 p (paginate o); s ← add32 (skip o) m;
      Ok (s, paginate o));
  let paginate_ := if (paginate_ <? 1)%Z then 1%Z else paginate_ in
  let skip_ := if (skip_ <? 0)%Z then 0%Z else skip_ in
  Ok (skip_, paginate_).

(** [start] and [end]. *)
Definition window (o : Options) (size skip_ paginate_ : Z) : outcome (Z * Z) :=
  match sortType o with
  | NoSort =>
      e ← add32 paginate_ skip_;
      Ok (skip_, if (e <? size)%Z then e else size)
  | _ => Ok (0%Z, size)
  end.

(** ** The loops over the nodes *)

Record progress := {
  skipped : Z; included : Z; matches : Z; picked : list cptr; uniqueFound : gset string;
}.

Definition accept (o : Options) (p : ptr) (found : gset string) : eff Site (bool * gset string) :=
  ok ← (if filter o then in_tree (λ t, filterMatch (doc t) (filterTerms o) p) else mret true);
  if negb ok then mret (false, found)
  else if unique o then uniqueMatch (uniqueFields o) p found
  else mret (true, found).

Definition visit (o : Options) (start end_ : Z) (p : ptr) (g : progress) : eff Site progress :=
  '(ok, found) ← accept o p (uniqueFound g);
  if negb ok then
    mret {| skipped := skipped g; included := included g; matches := matches g;
            picked := picked g; uniqueFound := found |}
  else if (skipped g <? start)%Z then
    mret {| skipped := (skipped g + 1)%Z; included := included g; matches := (matches g + 1)%Z;
            picked := picked g; uniqueFound := found |}
  else if (included g + skipped g <? end_)%Z then
    c ← in_tree (λ t, private_of t p);
    match c with
    | Some c =>
        mret {| skipped := skipped g; included := (included g + 1)%Z;
                matches := (matches g + 1)%Z; picked := picked g ++ [c]; uniqueFound := found |}
    | None =>
        mret {| skipped := skipped g; included := included g; matches := (matches g + 1)%Z;
                picked := picked g; uniqueFound := found |}
    end
  else
    mret {| skipped := skipped g; included := included g; matches := (matches g + 1)%Z;
            picked := picked g; uniqueFound := found |}.

Fixpoint visit_all (o : Options) (start end_ : Z) (l : list ptr) (g : progress)
    : eff Site progress :=
  match l with
  | [] => mret g
  | p :: l' => g ← visit o start end_ p g; visit_all o start end_ l' g
  end.

(** [for (i = start; i < end; i++)], without filter. *)
Fixpoint pick_contexts (q : Query) (i n : nat) : eff Site (list cptr) :=
  match n with
  | O => mret []
  | S n' =>
      p ← lift (getNode q i);
      c ← in_tree (λ t, private_of t p);
      l ← pick_contexts q (S i) n';
      mret (match c with Some c => c :: l | None => l end)
  end.

Definition pick (o : Options) (q : Query) (start end_ : Z) : eff Site (list cptr * Z) :=
  if filter o || unique o then
    g ← visit_all o start end_ (nodeTab q)
          {| skipped := 0; included := 0; matches := 0; picked := []; uniqueFound := ∅ |};
    mret (picked g, matches g)
  else
    l ← pick_contexts q (Z.to_nat start) (Z.to_nat (end_ - start));
    mret (l, getSize q).

Definition order (o : Options) (l : list cptr) : eff Site (list cptr) :=
  match sortType o with
  | NoSort => mret l
  | Reverse => mret (rev l)
  | Shuffle => random_shuffle l
  | Specific => sort (sortCallback (sortFields o)) l
  end.

(** The erasures after sorting. *)
Definition cut (o : Options) (skip_ paginate_ : Z) (l : list cptr) : list cptr :=
  match sortType o with
  | NoSort => l
  | _ => take (Z.to_nat paginate_) (drop (Z.to_nat skip_) l)
  end.

Definition query (o : Options) (context : option cptr) (q : string) : eff Site ResponseContext :=
  p_query ← fetch_query (context, q);
  let size := getSize p_query in
  '(skip_, paginate_) ← lift (page_bounds o size);
  '(start, end_) ← lift (window o size skip_ paginate_);
  '(l, total) ← pick o p_query start end_;
  l ← order o l;
  mret {| rc_contexts := cut o skip_ paginate_ l; total := total |}.

(** Every context of the parent, response context by response context. *)
Definition parent_contexts (parent : option Response) : list (option cptr) :=
  match parent with
  | Some r => Some <$> (r_contexts r ≫= rc_contexts)
  | None => [None]
  end.

Fixpoint map_eff {A B} (f : A → eff Site B) (l : list A) : eff Site (list B) :=
  match l with
  | [] => mret []
  | x :: l' => y ← f x; ys ← map_eff f l'; mret (y :: ys)
  end.

(** The constructor behind [get]. *)
Definition Response_query (parent : option Response) (q : string) (options : gmap string string)
    : eff Site Response :=
  l ← map_eff (λ c, query (parse_options options) c q) (parent_contexts parent);
  mret {| r_contexts := l; createInfos := [] |}.

(** ** Creation *)

Definition invalid_path (query : string) : exn :=
  QueryError ("invalid path for creating: '" +:+ query +:+ "'").
Definition path_not_found (query : string) : exn :=
  QueryError ("could not find path for creating: '" +:+ query +:+ "'").

Fixpoint create_structure (l : list xmlAttr) (st : Z) : outcome Z :=
  match l with
  | [] => Ok st
  | a :: l' =>
      st ← (if decide (attr_name a = "id") then atoi <$> attr_content a else Ok st);
      create_structure l' st
  end.

(** The context below which the last part of the path is created. *)
Definition create_context (context : option cptr) (query : string) (parts : list string)
    (lastPart : string) : eff Site (option cptr) :=
  let mainQuery := join parts "/" in
  if bool_decide (mainQuery = "" ∧ lastPart ≠ "") && negb (bool_decide (parts = [])) then mret None
  else if bool_decide (mainQuery ≠ "") then
    p_query ← fetch_query (context, mainQuery);
    if (0 <? getSize p_query)%Z then
      p ← lift (getNode p_query 0); in_tree (λ t, private_of t p)
    else mret context
  else mret context.

Definition createInfo (context : option cptr) (query : string) : eff Site VaeDbCreateInfo :=
  let queryParts := split_any_of "/" query in
  lastPart ← deref "back() of an empty vector" (list.last queryParts);
  context ← create_context context query (removelast queryParts) lastPart;
  row ← match context with Some c => getId c | None => mret 0%Z end;
  if negb (atoi lastPart =? 0)%Z then throw (invalid_path query)
  else
    structureQuery ← in_tree (λ t, runDesignQuery t context lastPart);
    if (0 <? getSize structureQuery)%Z then
      p ← lift (getNode structureQuery 0);
      n ← node_at (Some p);
      st ← lift (create_structure (properties n) 0);
      mret {| create_structure_id := st; create_row_id := row |}
    else throw (path_not_found query).

(** The constructor behind [createInfo]. *)
Definition Response_create (parent : option Response) (query : string) : eff Site Response :=
  l ← map_eff (λ c, createInfo c query) (parent_contexts parent);
  mret {| r_contexts := []; createInfos := l |}.

(** ** Writing *)

Definition writeVaeDbCreateInfoResponse (r : Response) : VaeDbCreateInfoResponse :=
  {| create_contexts := createInfos r |}.

Definition writeVaeDbDataResponse (r : Response) : eff Site VaeDbDataResponse :=
  l ← map_eff toVaeDbDataForContext (r_contexts r ≫= rc_contexts);
  mret {| data_contexts := l |}.

Definition writeVaeDbResponse (r : Response) : eff Site VaeDbResponse :=
  l ← map_eff (λ rc, cs ← map_eff toVaeDbContext (rc_contexts rc);
                     mret {| rfc_contexts := cs; rfc_totalItems := total rc |}) (r_contexts r);
  mret {| response_id := 0; response_contexts := l |}.

Definition writeVaeDbStructureResponse (r : Response) : eff Site VaeDbStructureResponse :=
  l ← map_eff toVaeDbStructureForContext (r_contexts r ≫= rc_contexts);
  mret {| structure_contexts := l |}.
End response.
