(* ===== verification/ResponseSpec.v ===== *)
(** What a response contains: filtering, paging, uniqueness and ordering of
    [Response], stated against pure functions of the document. *)
From Stdlib Require Import ZArith Sorting.Sorted.
From S2P Require Import Prelude Cpp Extern Regex Util VaeTypes Xml XmlRef Query Site QuerySpec SiteSpec Response.
From S2P Require LruCache.

(** * Filtering *)

Section filtering.
Variable h : heap.

(** The texts a filter looks at: those of the node and of its child elements. *)
Fixpoint texts_of (recurse : option (xmlNode → outcome (list string))) (l : list (ptr * xmlNode))
    : outcome (list string) :=
  match l with
  | [] => Ok []
  | (_, n) :: l' =>
      ts ← match type n with
           | XML_ELEMENT_NODE => match recurse with Some f => f n | None => Ok [] end
           | XML_TEXT_NODE => match content n with Some s => Ok [s] | None => UB "null content" end
           | XML_OTHER_NODE => Ok []
           end;
      rest ← texts_of recurse l';
      mret (ts ++ rest)
  end.
Fixpoint texts (depth : nat) (n : xmlNode) : outcome (list string) :=
  l ← child_list h n;
  texts_of match depth with O => None | S depth => Some (texts depth) end l.

Definition found_in (ts : list string) (t : string) : bool := existsb (λ s, strcasestr s t) ts.
Definition unfound (ts terms : list string) : list string :=
  List.filter (λ t, negb (found_in ts t)) terms.

Lemma unfound_app ts1 ts2 terms : unfound (ts1 ++ ts2) terms = unfound ts2 (unfound ts1 terms).
Proof.
  unfold unfound. induction terms as [|t terms IH]; [done|]. simpl. unfold found_in in *.
  rewrite existsb_app. destruct (existsb (λ s, strcasestr s t) ts1); simpl; rewrite IH; done.
Qed.
Lemma unfound_nil terms : unfound [] terms = terms.
Proof. unfold unfound, found_in. induction terms as [|t terms IH]; simpl in *; [done|by rewrite IH]. Qed.
Lemma unfound_one s terms : unfound [s] terms = remaining s terms.
Proof.
  unfold unfound, found_in, remaining. apply List.filter_ext. intros t. simpl. by rewrite orb_false_r.
Qed.

Lemma filter_children_spec recurse trecurse l ts terms :
  match recurse, trecurse with
  | Some f, Some g => ∀ n ts terms, g n = Ok ts → f n terms = Ok (unfound ts terms)
  | None, None => True
  | _, _ => False
  end →
  texts_of trecurse l = Ok ts → filter_children recurse l terms = Ok (unfound ts terms).
Proof.
  intros Hr. revert ts terms. induction l as [|[p n] l IH]; intros ts terms; simpl.
  { intros [= <-]. by rewrite unfound_nil. }
  unfold mbind, outcome_mbind, outcome_bind.
  destruct (type n).
  - destruct recurse as [f|], trecurse as [g|]; try done.
    + destruct (g n) as [t1| | |] eqn:Eg; try done. rewrite (Hr _ _ _ Eg).
      destruct (texts_of (Some g) l) as [t2| | |] eqn:El; try done. intros [= <-].
      rewrite unfound_app. by apply IH.
    + destruct (texts_of None l) as [t2| | |] eqn:El; try done. intros [= <-]. by apply IH.
  - destruct (content n) as [s|]; [|done].
    destruct (texts_of trecurse l) as [t2| | |] eqn:El; try done. intros [= <-].
    rewrite (IH _ _ eq_refl). f_equal. change (s :: t2) with ([s] ++ t2).
    by rewrite unfound_app, unfound_one.
  - destruct (texts_of trecurse l) as [t2| | |] eqn:El; try done. intros [= <-]. by apply IH.
Qed.

Lemma filterMatchRecursive_spec depth n ts terms :
  texts depth n = Ok ts → filterMatchRecursive h depth n terms = Ok (unfound ts terms).
Proof.
  revert n ts terms. induction depth as [|depth IH]; intros n ts terms; simpl;
    destruct (child_list h n) as [l| | |]; try done; simpl; intros E;
    (eapply filter_children_spec; [|exact E]); first [done|exact IH].
Qed.
End filtering.

(** C36: a node matches a filter exactly when every term occurs, ignoring case, in
    a text of the node or of one of its child elements; deeper text is not
    looked at. *)
Theorem filterMatch_spec h terms p n ts :
  h !! p = Some n → texts h 1 n = Ok ts →
  filterMatch h terms p =
    Ok (bool_decide (Forall (λ t, Exists (λ s, strcasestr s t = true) ts) terms)).
Proof.
  intros Hn Ht. unfold filterMatch, node_of. rewrite Hn. cbn [mbind outcome_mbind outcome_bind].
  rewrite (filterMatchRecursive_spec h 1 n ts terms Ht).
  cbn [mbind outcome_mbind outcome_bind]. unfold mret, outcome_mret. f_equal. apply bool_decide_ext.
  assert (∀ t, found_in ts t = true ↔ Exists (λ s, strcasestr s t = true) ts) as Hf.
  { intros t. unfold found_in. rewrite existsb_exists, Exists_exists.
    by setoid_rewrite list_elem_of_In. }
  unfold unfound. induction terms as [|t terms IH]; simpl; [by split|].
  rewrite Forall_cons, <- Hf. destruct (found_in ts t); simpl; [|split; [done|by intros []]].
  rewrite IH. tauto.
Qed.

(** * Paging *)

Section paging.
Context `{Boost} `{Pcre} `{LibXml}.

(** The slice of page [k], counting from 1. *)
Definition slice {A} (skip paginate k : Z) (l : list A) : list A :=
  take (Z.to_nat paginate) (drop (Z.to_nat (skip + (k - 1) * paginate)) l).

(** Consecutive pages cover the list without gap or overlap. *)
Lemma slices_cover {A} (skip paginate : Z) (l : list A) (n : nat) :
  (0 ≤ skip)%Z → (1 ≤ paginate)%Z →
  (seq 1 n ≫= λ k, slice skip paginate (Z.of_nat k) l)
  = take (n * Z.to_nat paginate) (drop (Z.to_nat skip) l).
Proof.
  intros Hs Hp. induction n as [|n IH]; [done|].
  rewrite seq_S, bind_app, IH. csimpl. rewrite app_nil_r. unfold slice.
  replace (Z.to_nat (skip + (Z.of_nat (S n) - 1) * paginate)) with (Z.to_nat skip + n * Z.to_nat paginate).
  - rewrite <- drop_drop. replace (Z.to_nat paginate + n * Z.to_nat paginate)
      with (n * Z.to_nat paginate + Z.to_nat paginate) by lia.
    rewrite <- (take_drop (n * Z.to_nat paginate) (drop (Z.to_nat skip) l)) at 3.
    rewrite take_app, take_take, length_take.
    destruct (decide (n * Z.to_nat paginate ≤ length (drop (Z.to_nat skip) l))).
    + f_equal; [f_equal; lia|]. f_equal. lia.
    + rewrite (drop_ge (drop _ l)) by lia. rewrite !take_nil. f_equal. f_equal. lia.
  - nia.
Qed.

(** The contexts of a list of nodes. *)
Definition privates (t : Tree) (l : list ptr) : list cptr :=
  omap (λ p, n ← doc t !! p; _private n) l.
Definition in_document (t : Tree) (l : list ptr) : Prop := Forall (λ p, is_Some (doc t !! p)) l.

Lemma private_of_ok t p : is_Some (doc t !! p) → private_of t p = Ok (n ← doc t !! p; _private n).
Proof. intros [n E]. unfold private_of, node_of. by rewrite E. Qed.

Lemma pick_contexts_spec q i n s :
  in_document (tree s) (nodeTab q) → i + n ≤ length (nodeTab q) →
  pick_contexts q i n s = (Ok (privates (tree s) (take n (drop i (nodeTab q)))), s).
Proof.
  intros Hd. revert i. induction n as [|n IH]; intros i Hi; [done|]. cbn [pick_contexts].
  destruct (lookup_lt_is_Some_2 (nodeTab q) i ltac:(lia)) as [p Hp].
  unfold lift at 1, getNode. rewrite Hp. unfold mbind, eff_mbind, eff_bind.
  unfold in_tree. rewrite private_of_ok by exact (Forall_lookup_1 _ _ _ _ Hd Hp).
  rewrite IH by lia. rewrite (drop_S _ _ _ Hp), firstn_cons. unfold privates. cbn [omap list_omap].
  by destruct (doc (tree s) !! p ≫= _private).
Qed.

Lemma page_bounds_plain o size :
  groups o = 0%Z → (1 ≤ page o)%Z → (1 ≤ paginate o)%Z → (0 ≤ skip o)%Z →
  (skip o + page o * paginate o < 2 ^ 31)%Z →
  page_bounds o size = Ok ((skip o + (page o - 1) * paginate o)%Z, paginate o).
Proof.
  intros Hg Hp Hn Hs Ho. assert (page o ≤ page o * paginate o)%Z by nia.
  assert (paginate o ≤ page o * paginate o)%Z by nia. unfold page_bounds. rewrite Hg. cbn [Z.eqb negb].
  rewrite (proj2 (Z.eqb_neq (page o) (-1))) by lia. cbn [mbind outcome_mbind outcome_bind].
  rewrite (proj2 (Z.leb_gt (page o) 0)) by lia. unfold sub32, mul32, add32.
  rewrite (int32_id (page o - 1)) by lia. cbn [mbind outcome_mbind outcome_bind].
  rewrite (int32_id ((page o - 1) * paginate o)) by lia. cbn [mbind outcome_mbind outcome_bind].
  rewrite int32_id by lia. cbn [mbind outcome_mbind outcome_bind].
  rewrite (proj2 (Z.ltb_ge _ _)) by lia. by rewrite (proj2 (Z.ltb_ge _ _)) by lia.
Qed.

Lemma window_plain o size skip_ paginate_ :
  sortType o = NoSort → (0 ≤ skip_)%Z → (1 ≤ paginate_)%Z → (skip_ + paginate_ < 2 ^ 31)%Z →
  window o size skip_ paginate_ = Ok (skip_, Z.min (paginate_ + skip_) size).
Proof.
  intros Hs H0' H1' Ho. unfold window. rewrite Hs. unfold add32. rewrite int32_id by lia.
  cbn [mbind outcome_mbind outcome_bind]. repeat f_equal.
  destruct (Z.ltb_spec (paginate_ + skip_) size); lia.
Qed.

Lemma pick_plain o q start n s :
  filter o = false → unique o = false → in_document (tree s) (nodeTab q) →
  (0 ≤ start)%Z → (0 ≤ n)%Z → qsize q = Z.of_nat (length (nodeTab q)) →
  pick o q start (Z.min (n + start) (qsize q)) s
  = (Ok (privates (tree s) (take (Z.to_nat n) (drop (Z.to_nat start) (nodeTab q))), qsize q), s).
Proof.
  intros Hf Hu Hd Hs Hn Hq. unfold pick. rewrite Hf, Hu. cbn [orb].
  assert (pick_contexts q (Z.to_nat start) (Z.to_nat (Z.min (n + start) (qsize q) - start)) s
    = (Ok (privates (tree s) (take (Z.to_nat n) (drop (Z.to_nat start) (nodeTab q)))), s)) as E.
  { destruct (decide (start ≤ qsize q)%Z) as [Hle|Hgt].
    - rewrite pick_contexts_spec by (done || lia). do 3 f_equal.
      destruct (decide (n + start ≤ qsize q)%Z); [f_equal; lia|].
      rewrite !take_ge; [done|rewrite length_drop; lia..].
    - assert (Z.to_nat (Z.min (n + start) (qsize q) - start) = 0) as -> by lia.
      by rewrite drop_ge, take_nil by lia. }
  by rewrite (eff_bind_ok _ _ _ _ _ E).
Qed.
End paging.

Section queries.
Context {clib : CLib} `{Boost} `{Pcre} `{LibXml} `{Algorithms}.

(** Running [query] once its query is known. *)
Lemma query_run o context q Q s :
  coherent s → Query_new (tree s) context q = Ok Q →
  ∃ s1, coherent s1 ∧ tree s1 = tree s ∧ caches s1 = caches s ∧
    query o context q s =
      ('(skip_, paginate_) ← lift (page_bounds o (qsize Q));
       '(start, end_) ← lift (window o (qsize Q) skip_ paginate_);
       '(l, total) ← pick o Q start end_;
       l ← order o l;
       mret {| rc_contexts := cut o skip_ paginate_ l; total := total |}) s1.
Proof.
  intros Hc HQ. destruct (fetch_query_spec (context, q) s Hc) as (c & E & Hc' & _).
  simpl in E. rewrite HQ in E. exists (set_query_cache c s). split_and!; [done..|].
  unfold query. by rewrite (eff_bind_ok _ _ _ _ _ E).
Qed.

(** Without filter, uniqueness or order, page [k] of a query is the [k]-th
    slice of its nodes in document order, and the total is the number of
    nodes; consecutive pages cover the result without gap or overlap. *)
Theorem pagination o context q Q s :
  coherent s → Query_new (tree s) context q = Ok Q → in_document (tree s) (nodeTab Q) →
  filter o = false → unique o = false → sortType o = NoSort → groups o = 0%Z →
  (1 ≤ page o)%Z → (1 ≤ paginate o)%Z → (0 ≤ skip o)%Z →
  (skip o + page o * paginate o < 2 ^ 31)%Z →
  (∃ s', query o context q s =
     (Ok {| rc_contexts := privates (tree s) (slice (skip o) (paginate o) (page o) (nodeTab Q));
            total := Z.of_nat (length (nodeTab Q)) |}, s')
   ∧ coherent s' ∧ tree s' = tree s) ∧
  ∀ n, (seq 1 n ≫= λ k, slice (skip o) (paginate o) (Z.of_nat k) (nodeTab Q))
       = take (n * Z.to_nat (paginate o)) (drop (Z.to_nat (skip o)) (nodeTab Q)).
Proof.
  intros Hc HQ Hd Hf Hu Ho Hg Hp Hn Hs Hb. split; [|intros n; by apply slices_cover].
  pose proof (Query_new_sized _ _ _ _ HQ) as Hsz.
  destruct (query_run o context q Q s Hc HQ) as (s1 & Hc1 & Ht & _ & ->). exists s1.
  split; [|done]. rewrite (eff_bind_lift _ _ _ _ (page_bounds_plain o (qsize Q) Hg Hp Hn Hs Hb)).
  assert (0 ≤ (page o - 1) * paginate o)%Z by nia.
  erewrite eff_bind_lift; [|by apply window_plain; [|lia|lia|lia]]. cbv beta iota.
  erewrite eff_bind_ok; [|apply pick_plain; [done|done|by rewrite Ht|lia|lia|done]].
  unfold order, cut. rewrite Ho, Ht, Hsz. done.
Qed.
End queries.

(** * Filtered and unique results *)

Section accepted.
Context (keep : ptr → bool) (val : ptr → string) (uniq : bool).

(** The nodes that count: those kept, the first of each value when unique. *)
Fixpoint accepted (found : gset string) (l : list ptr) : list ptr :=
  match l with
  | [] => []
  | p :: l' =>
      if keep p && negb (uniq && bool_decide (val p ∈ found))
      then p :: accepted (if uniq then {[val p]} ∪ found else found) l'
      else accepted found l'
  end.

Lemma accepted_sublist found l : accepted found l `sublist_of` l.
Proof.
  revert found. induction l as [|p l IH]; intros found; [constructor|]. cbn [accepted].
  by case_match; constructor.
Qed.

Lemma accepted_elem found l p :
  p ∈ accepted found l → p ∈ l ∧ keep p = true ∧ (uniq = true → val p ∉ found).
Proof.
  revert found. induction l as [|q l IH]; intros found; cbn [accepted]; [by intros ?%not_elem_of_nil|].
  destruct (keep q) eqn:Ek; cbn [andb].
  - destruct (negb (uniq && bool_decide (val q ∈ found))) eqn:Eu.
    + intros [->|Hin]%elem_of_cons.
      * split; [by left|]. split; [done|]. intros ->. simpl in Eu.
        by apply negb_true_iff, bool_decide_eq_false in Eu.
      * destruct (IH _ Hin) as (H1 & H2 & H3). split; [by right|]. split; [done|].
        intros ->. specialize (H3 eq_refl). set_solver.
    + intros Hin. destruct (IH _ Hin) as (H1 & H2 & H3). split; [by right|]. done.
  - intros Hin. destruct (IH _ Hin) as (H1 & H2 & H3). split; [by right|]. done.
Qed.

Lemma accepted_filter found l : uniq = false → accepted found l = List.filter keep l.
Proof.
  intros Hu. revert found. induction l as [|p l IH]; intros found; [done|].
  cbn [accepted List.filter]. rewrite Hu. destruct (keep p); cbn; [f_equal|]; apply IH.
Qed.

Lemma accepted_nodup found l : uniq = true → NoDup (val <$> accepted found l).
Proof.
  intros Hu. revert found. induction l as [|p l IH]; intros found; cbn [accepted]; [constructor|].
  case_match; [|done]. csimpl. apply NoDup_cons. split; [|done].
  intros (q & Eq & Hq)%list_elem_of_fmap. apply accepted_elem in Hq as (_ & _ & Hq).
  rewrite Hu in Hq. specialize (Hq eq_refl). set_solver.
Qed.

Lemma accepted_cover found l p :
  p ∈ l → keep p = true →
  (uniq = true ∧ val p ∈ found) ∨ val p ∈ val <$> accepted found l.
Proof.
  revert found. induction l as [|q l IH]; intros found; [by intros ?%not_elem_of_nil|].
  intros Hin Hk. cbn [accepted].
  destruct (keep q && negb (uniq && bool_decide (val q ∈ found))) eqn:E; csimpl.
  - apply elem_of_cons in Hin as [->|Hin]; [right; by left|].
    destruct (IH (if uniq then {[val q]} ∪ found else found) Hin Hk) as [[Hu Hf]|Hf];
      [|right; by right].
    rewrite Hu in Hf. apply elem_of_union in Hf as [->%elem_of_singleton|Hf]; [right; by left|].
    by left.
  - apply elem_of_cons in Hin as [->|Hin]; [|by apply IH].
    rewrite Hk in E. simpl in E. apply negb_false_iff, andb_true_iff in E as [Hu Hf].
    apply bool_decide_eq_true in Hf. by left.
Qed.
End accepted.

Section filter_unique.
Context {clib : CLib} `{Boost} `{Pcre} `{LibXml} `{Algorithms}.

(** The key that [uniqueMatch] compares. *)
Fixpoint value_spec (t : Tree) (c : cptr) (fields : list string) : outcome string :=
  match fields with
  | [] => Ok ""
  | f :: fields' =>
      v ← data_spec t c f; rest ← value_spec t c fields'; mret (v +:+ "~!~" +:+ rest)
  end.

(** The site still has tree [t], sound tables, and contexts [D]. *)
Record ready (t : Tree) (D : gset cptr) (s : Site) : Prop := {
  ready_memos : memos s;
  ready_tree : tree s = t;
  ready_dom : dom (caches s) = D;
}.

Lemma ready_getData t D c f s :
  ready t D s → c ∈ D → ∃ s', getData c f s = (data_spec t c f, s') ∧ ready t D s'.
Proof.
  intros [Hm Ht Hd] Hc. assert (is_Some (caches s !! c)) as [k Hk] by (apply elem_of_dom; set_solver).
  destruct (getData_spec c k f s Hm Hk) as (k' & -> & Hm'). rewrite Ht.
  eexists. split; [done|]. split; [done|done|]. simpl. rewrite dom_insert_L. set_solver.
Qed.

Lemma ready_getCount t D c f s :
  ready t D s → c ∈ D → ∃ s', getCount c f s = (count_spec t c f, s') ∧ ready t D s'.
Proof.
  intros [Hm Ht Hd] Hc. assert (is_Some (caches s !! c)) as [k Hk] by (apply elem_of_dom; set_solver).
  destruct (getCount_spec c k f s Hm Hk) as (k' & -> & Hm'). rewrite Ht.
  eexists. split; [done|]. split; [done|done|]. simpl. rewrite dom_insert_L. set_solver.
Qed.

Lemma str_app_assoc (a b c : string) : (a +:+ b) +:+ c = a +:+ b +:+ c.
Proof. apply chars_inj. by rewrite !chars_app, app_assoc. Qed.
Lemma str_app_nil (a : string) : a +:+ "" = a.
Proof. apply chars_inj. by rewrite chars_app, app_nil_r. Qed.

Lemma unique_value_spec t D c fields val v s :
  ready t D s → c ∈ D → value_spec t c fields = Ok v →
  ∃ s', unique_value (Some c) fields val s = (Ok (val +:+ v), s') ∧ ready t D s'.
Proof.
  intros Hs Hc. revert val v s Hs. induction fields as [|f fields IH]; intros val v s Hs; cbn [value_spec unique_value].
  { intros [= <-]. exists s. by rewrite str_app_nil. }
  destruct (data_spec t c f) as [w| | |] eqn:Ew; try done.
  destruct (value_spec t c fields) as [rest| | |]; try done. intros [= <-].
  cbn [deref]. rewrite eff_bind_ret. destruct (ready_getData t D c f s Hs Hc) as (s1 & E & Hs1).
  rewrite Ew in E. rewrite (eff_bind_ok _ _ _ _ _ E).
  destruct (IH (val +:+ w +:+ "~!~") rest s1 Hs1 eq_refl) as (s2 & -> & Hs2).
  exists s2. split; [|done]. by rewrite !str_app_assoc.
Qed.

(** What is assumed of the nodes of a query: each has a context of the site, a
    verdict of the filter and a key. *)
Record judged (o : Options) (t : Tree) (D : gset cptr) (keep : ptr → bool) (val : ptr → string)
    (p : ptr) : Prop := {
  judged_filter : if filter o then filterMatch (doc t) (filterTerms o) p = Ok (keep p)
                  else keep p = true;
  judged_context : ∃ c, private_of t p = Ok (Some c) ∧ c ∈ D ∧
    (unique o = true → value_spec t c (uniqueFields o) = Ok (val p));
}.

Lemma accept_spec o t D keep val p found s :
  ready t D s → judged o t D keep val p →
  let ok := keep p && negb (unique o && bool_decide (val p ∈ found)) in
  ∃ s', accept o p found s
        = (Ok (ok, if unique o && ok then {[val p]} ∪ found else found), s') ∧ ready t D s'.
Proof.
  intros Hs [Hf (c & Hc & HD & Hv)]. unfold accept.
  assert ((if filter o then in_tree (λ t, filterMatch (doc t) (filterTerms o) p) else mret true) s
    = (Ok (keep p), s)) as E.
  { destruct (filter o); [|by rewrite Hf]. unfold in_tree. by rewrite (ready_tree _ _ _ Hs), Hf. }
  rewrite (eff_bind_ok _ _ _ _ _ E). destruct (keep p); simpl; [|exists s; by rewrite andb_false_r].
  destruct (unique o); simpl; [|by exists s]. unfold uniqueMatch.
  assert (in_tree (λ t, private_of t p) s = (Ok (Some c), s)) as Ec.
  { unfold in_tree. by rewrite (ready_tree _ _ _ Hs), Hc. }
  rewrite (eff_bind_ok _ _ _ _ _ Ec).
  destruct (unique_value_spec t D c (uniqueFields o) "" (val p) s Hs HD (Hv eq_refl)) as (s1 & E1 & Hs1).
  rewrite (eff_bind_ok _ _ _ _ _ E1). exists s1. split; [|done].
  change ("" +:+ val p) with (val p).
  destruct (decide (val p ∈ found)); [rewrite bool_decide_true by done|rewrite bool_decide_false by done];
    done.
Qed.

(** The progress after a list of nodes. *)
Lemma visit_all_spec o t D keep val start end_ l g s :
  ready t D s → Forall (judged o t D keep val) l →
  (0 ≤ skipped g ≤ start)%Z → (0 ≤ included g)%Z → (skipped g < start → included g = 0)%Z →
  let A := accepted keep val (unique o) (uniqueFound g) l in
  ∃ g' s', visit_all o start end_ l g s = (Ok g', s') ∧ ready t D s' ∧
    matches g' = (matches g + Z.of_nat (length A))%Z ∧
    picked g' = picked g ++ privates t (take (Z.to_nat (end_ - start - included g))
                                          (drop (Z.to_nat (start - skipped g)) A)).
Proof.
  revert g s. induction l as [|p l IH]; intros g s Hs Hl Hsk Hin Hsi; cbn [visit_all accepted].
  { exists g, s. split; [done|]. split; [done|]. split; [simpl; lia|].
    by rewrite drop_nil, take_nil, app_nil_r. }
  apply Forall_cons in Hl as [Hp Hl].
  destruct (accept_spec o t D keep val p (uniqueFound g) s Hs Hp) as (s1 & E & Hs1).
  destruct (judged_context _ _ _ _ _ _ Hp) as (c & Hc & _).
  unfold visit. rewrite eff_bind_assoc, (eff_bind_ok _ _ _ _ _ E). cbv beta iota.
  set (ok := keep p && negb (unique o && bool_decide (val p ∈ uniqueFound g))) in *.
  destruct ok; cbn [negb]; last first.
  { rewrite eff_bind_ret, andb_false_r.
    match goal with |- context [visit_all _ _ _ l ?g1 s1] =>
      destruct (IH g1 s1) as (g' & s' & E' & Hs' & Hm & Hpk) end; [done|done|exact Hsk|exact Hin|exact Hsi|]. rewrite E'. by exists g', s'. }
  rewrite andb_true_r. set (found := if unique o then _ else _).
  destruct (Z.ltb_spec (skipped g) start) as [Hlt|Hge].
  { rewrite eff_bind_ret.
    match goal with |- context [visit_all _ _ _ l ?g1 s1] =>
      destruct (IH g1 s1) as (g' & s' & E' & Hs' & Hm & Hpk) end; [done|done|simpl; lia|exact Hin|simpl; lia|]. rewrite E'. exists g', s'.
    split; [done|]. split; [done|]. cbn [length matches picked skipped included uniqueFound] in *.
    split; [lia|]. rewrite Hpk. do 3 f_equal.
    replace (Z.to_nat (start - skipped g)) with (S (Z.to_nat (start - (skipped g + 1)))) by lia.
    done. }
  replace (Z.to_nat (start - skipped g)) with 0 by lia. rewrite drop_0.
  assert (in_tree (λ t, private_of t p) s1 = (Ok (Some c), s1)) as Ec.
  { unfold in_tree. by rewrite (ready_tree _ _ _ Hs1), Hc. }
  destruct (Z.ltb_spec (included g + skipped g) end_) as [Hlt'|Hge'].
  - rewrite eff_bind_assoc, (eff_bind_ok _ _ _ _ _ Ec), eff_bind_ret.
    match goal with |- context [visit_all _ _ _ l ?g1 s1] =>
      destruct (IH g1 s1) as (g' & s' & E' & Hs' & Hm & Hpk) end; [done|done|exact Hsk|simpl; lia|simpl; lia|]. rewrite E'. exists g', s'.
    split; [done|]. split; [done|]. cbn [length matches picked skipped included uniqueFound] in *.
    split; [lia|]. rewrite Hpk, <- app_assoc. f_equal.
    replace (Z.to_nat (end_ - start - included g))
      with (S (Z.to_nat (end_ - start - (included g + 1)))) by lia.
    replace (Z.to_nat (start - skipped g)) with 0 by lia. rewrite drop_0, firstn_cons.
    unfold privates. cbn [omap list_omap]. unfold private_of, node_of in Hc.
    destruct (doc t !! p) as [n|]; [|done]. injection Hc as Hc. simpl. by rewrite Hc.
  - rewrite eff_bind_ret.
    match goal with |- context [visit_all _ _ _ l ?g1 s1] =>
      destruct (IH g1 s1) as (g' & s' & E' & Hs' & Hm & Hpk) end; [done|done|exact Hsk|exact Hin|exact Hsi|]. rewrite E'. exists g', s'.
    split; [done|]. split; [done|]. cbn [length matches picked skipped included uniqueFound] in *.
    split; [lia|]. rewrite Hpk. f_equal.
    by replace (Z.to_nat (end_ - start - included g)) with 0 by lia.
Qed.

Lemma slice_end start n size (A : list ptr) :
  (0 ≤ start)%Z → (0 ≤ n)%Z → (Z.of_nat (length A) ≤ size)%Z →
  take (Z.to_nat (Z.min (n + start) size - start)) (drop (Z.to_nat start) A)
  = take (Z.to_nat n) (drop (Z.to_nat start) A).
Proof.
  intros Hs Hn Hl. destruct (decide (n + start ≤ size)%Z); [f_equal; lia|].
  rewrite !take_ge; [done|rewrite length_drop; lia..].
Qed.

Lemma memos_cache s s1 : memos s → tree s1 = tree s → caches s1 = caches s → memos s1.
Proof. intros Hm Ht Hc c k. rewrite Ht, Hc. apply Hm. Qed.

(** C9: with a filter or a uniqueness condition, the total counts the nodes that
    match (only the first of each key when unique), and page [k] is the [k]-th
    slice of exactly these nodes, in document order. *)
Theorem filtered_pages o context q Q s keep val :
  coherent s → memos s → Query_new (tree s) context q = Ok Q →
  Forall (judged o (tree s) (dom (caches s)) keep val) (nodeTab Q) →
  filter o || unique o = true → sortType o = NoSort → groups o = 0%Z →
  (1 ≤ page o)%Z → (1 ≤ paginate o)%Z → (0 ≤ skip o)%Z →
  (skip o + page o * paginate o < 2 ^ 31)%Z →
  let A := accepted keep val (unique o) ∅ (nodeTab Q) in
  (∃ s', query o context q s =
     (Ok {| rc_contexts := privates (tree s) (slice (skip o) (paginate o) (page o) A);
            total := Z.of_nat (length A) |}, s')) ∧
  A `sublist_of` nodeTab Q ∧
  (unique o = false → A = List.filter keep (nodeTab Q)) ∧
  (unique o = true → NoDup (val <$> A) ∧
     ∀ p, p ∈ nodeTab Q → keep p = true → val p ∈ val <$> A).
Proof.
  intros Hc Hm HQ Hj Hfu Ho Hg Hp Hn Hs Hb A. split.
  - pose proof (Query_new_sized _ _ _ _ HQ) as Hsz.
    destruct (query_run o context q Q s Hc HQ) as (s1 & Hc1 & Ht & Hca & ->).
    rewrite (eff_bind_lift _ _ _ _ (page_bounds_plain o (qsize Q) Hg Hp Hn Hs Hb)).
    assert (0 ≤ (page o - 1) * paginate o)%Z by nia. set (start := (skip o + _)%Z).
    erewrite eff_bind_lift; [|by apply window_plain; [|lia|lia|lia]]. cbv beta iota.
    assert (ready (tree s) (dom (caches s)) s1) as Hr.
    { split; [by eapply memos_cache|done|by rewrite Hca]. }
    assert (length A ≤ length (nodeTab Q)) as Hlen by apply sublist_length, accepted_sublist.
    destruct (visit_all_spec o (tree s) (dom (caches s)) keep val start
      (Z.min (paginate o + start) (qsize Q)) (nodeTab Q)
      {| skipped := 0; included := 0; matches := 0; picked := []; uniqueFound := ∅ |} s1 Hr Hj)
      as (g' & s2 & E & _ & Hmt & Hpk); [simpl; lia..|].
    unfold pick. rewrite Hfu, eff_bind_assoc, (eff_bind_ok _ _ _ _ _ E), eff_bind_ret.
    unfold order, cut. rewrite Ho. exists s2. cbn [matches picked skipped included uniqueFound] in *.
    fold A in Hmt, Hpk. rewrite Hmt, Hpk, !Z.sub_0_r. cbn [app].
    by rewrite (slice_end start (paginate o) (qsize Q) A) by lia.
  - split; [apply accepted_sublist|]. split; [apply accepted_filter|]. intros Hu.
    split; [by apply accepted_nodup|]. intros p Hin Hk.
    destruct (accepted_cover keep val (unique o) ∅ (nodeTab Q) p Hin Hk) as [[_ Hf]|]; [|done].
    set_solver.
Qed.
End filter_unique.

(** * Ordering *)

(** What [std::sort] asks of a comparison, on the elements of a list. *)
Record strict_weak {A} (lt : A → A → bool) (l : list A) : Prop := {
  sw_irrefl a : a ∈ l → lt a a = false;
  sw_trans a b c : a ∈ l → b ∈ l → c ∈ l → lt a b = true → lt b c = true → lt a c = true;
  sw_ties a b c : a ∈ l → b ∈ l → c ∈ l →
    lt a b = false → lt b a = false → lt b c = false → lt c b = false →
    lt a c = false ∧ lt c a = false;
}.

(** The contracts of [sort] and [random_shuffle], for a comparison that keeps an
    invariant of the site and computes a strict weak order. *)
Class AlgorithmLaws `{Algorithms} : Prop := {
  sort_law (I : Site → Prop) (lt : cptr → cptr → bool) cmp l s :
    I s →
    (∀ a b s, a ∈ l → b ∈ l → I s → ∃ s', cmp a b s = (Ok (lt a b), s') ∧ I s') →
    strict_weak lt l →
    ∃ l' s', sort cmp l s = (Ok l', s') ∧ I s' ∧ l' ≡ₚ l ∧ Sorted (λ a b, lt b a = false) l';
  shuffle_law l s : ∃ l' s', random_shuffle l s = (Ok l', s') ∧ l' ≡ₚ l;
}.

Section ordering.
Context {clib : CLib} `{Boost} `{Pcre} `{LibXml} `{AlgorithmLaws}.

(** The comparison as a function of the document. *)
Fixpoint sort_lt (t : Tree) (fields : list SortField) (a b : cptr) : outcome bool :=
  match fields with
  | [] => Ok false
  | f :: fields' =>
      let decided comp := Ok (if decide (direction f = Desc) then negb comp else comp) in
      if decide (field f = "id") then
        x ← context_of t a; y ← context_of t b; decided (id x <? id y)%Z
      else if count f then
        m ← count_spec t a (field f); n ← count_spec t b (field f);
        if (m =? n)%Z then sort_lt t fields' a b else decided (m <? n)%Z
      else
        v ← data_spec t a (field f); w ← data_spec t b (field f);
        r ← str_compare_nat v w;
        if (r =? 0)%Z then sort_lt t fields' a b else decided (0 <? r)%Z
  end.

Lemma sortCallback_spec t D fields a b s :
  ready t D s → a ∈ D → b ∈ D →
  ∃ s', sortCallback fields a b s = (sort_lt t fields a b, s') ∧ ready t D s'.
Proof.
  intros Hs Ha Hb. revert s Hs. induction fields as [|f fields IH]; intros s Hs; [by exists s|].
  cbn [sortCallback sort_lt]. case_decide as Hid; [|destruct (count f)].
  - exists s. split; [|done]. unfold getId, context_at, mbind, eff_mbind, eff_bind, outcome_mbind,
      outcome_bind. rewrite (ready_tree _ _ _ Hs).
    destruct (context_of t a); [|done..]. simpl. rewrite (ready_tree _ _ _ Hs).
    by destruct (context_of t b).
  - destruct (ready_getCount t D a (field f) s Hs Ha) as (s1 & E1 & Hs1).
    destruct (ready_getCount t D b (field f) s1 Hs1 Hb) as (s2 & E2 & Hs2).
    unfold mbind, eff_mbind, eff_bind, outcome_mbind, outcome_bind. rewrite E1.
    destruct (count_spec t a (field f)); [|by exists s1..]. rewrite E2.
    destruct (count_spec t b (field f)); [|by exists s2..].
    case_match; [by apply IH|by exists s2].
  - destruct (ready_getData t D a (field f) s Hs Ha) as (s1 & E1 & Hs1).
    destruct (ready_getData t D b (field f) s1 Hs1 Hb) as (s2 & E2 & Hs2).
    unfold mbind, eff_mbind, eff_bind, outcome_mbind, outcome_bind, lift. rewrite E1.
    destruct (data_spec t a (field f)) as [v| | |]; [|by exists s1..]. rewrite E2.
    destruct (data_spec t b (field f)) as [w| | |]; [|by exists s2..].
    destruct (str_compare_nat v w); [|by exists s2..].
    case_match; [by apply IH|by exists s2].
Qed.

(** C28: sorting by fields whose comparison is a strict weak order on the result
    gives a sorted permutation of all its contexts, whatever tables were
    filled on the way, and page [k] is the [k]-th slice of it. *)
Theorem ordered_pages o context q Q s lt :
  coherent s → memos s → Query_new (tree s) context q = Ok Q →
  in_document (tree s) (nodeTab Q) →
  (∀ c, c ∈ privates (tree s) (nodeTab Q) → c ∈ dom (caches s)) →
  (∀ a b, a ∈ privates (tree s) (nodeTab Q) → b ∈ privates (tree s) (nodeTab Q) →
     sort_lt (tree s) (sortFields o) a b = Ok (lt a b)) →
  strict_weak lt (privates (tree s) (nodeTab Q)) →
  filter o = false → unique o = false → sortType o = Specific → groups o = 0%Z →
  (1 ≤ page o)%Z → (1 ≤ paginate o)%Z → (0 ≤ skip o)%Z →
  (skip o + page o * paginate o < 2 ^ 31)%Z →
  ∃ l s', l ≡ₚ privates (tree s) (nodeTab Q) ∧ Sorted (λ a b, lt b a = false) l ∧
    query o context q s =
      (Ok {| rc_contexts := slice (skip o) (paginate o) (page o) l;
             total := Z.of_nat (length (nodeTab Q)) |}, s').
Proof.
  intros Hc Hm HQ Hd HD Hlt Hsw Hf Hu Ho Hg Hp Hn Hs Hb.
  pose proof (Query_new_sized _ _ _ _ HQ) as Hsz.
  destruct (query_run o context q Q s Hc HQ) as (s1 & Hc1 & Ht & Hca & E). rewrite E.
  rewrite (eff_bind_lift _ _ _ _ (page_bounds_plain o (qsize Q) Hg Hp Hn Hs Hb)).
  assert (window o (qsize Q) (skip o + (page o - 1) * paginate o) (paginate o)
          = Ok (0%Z, Z.min (qsize Q + 0) (qsize Q))) as Hw.
  { unfold window. rewrite Ho. do 2 f_equal. lia. }
  rewrite (eff_bind_lift _ _ _ _ Hw). cbv beta iota.
  erewrite eff_bind_ok; [|apply pick_plain; [done|done|by rewrite Ht|lia|lia|done]]. cbv beta iota.
  rewrite drop_0, take_ge, Ht by lia. unfold order at 1, cut. rewrite Ho.
  destruct (sort_law (ready (tree s) (dom (caches s))) lt (sortCallback (sortFields o))
    (privates (tree s) (nodeTab Q)) s1) as (l & s2 & El & _ & Hperm & Hsort).
  - split; [by eapply memos_cache|done|by rewrite Hca].
  - intros a b s' Ha Hb' Hr. rewrite <- Hlt by done. by apply sortCallback_spec; [|apply HD..].
  - done.
  - exists l, s2. split; [done|]. split; [done|]. rewrite (eff_bind_ok _ _ _ _ _ El), Hsz. done.
Qed.

(** ** Which orders are strict weak *)

(** [COUNT(...)] in either direction, and [id] ascending. *)
Definition plain_field (f : SortField) : Prop :=
  if decide (field f = "id") then direction f = Asc else count f = true.

(** Any sequence of [COUNT(...)] fields, ascending or descending, and
    ascending [id] fields meets the contract of [std::sort]. *)
Theorem count_orders_strict_weak t fields l :
  Forall plain_field fields →
  (∀ a, a ∈ l → is_ok (context_of t a) ∧
     ∀ f, f ∈ fields → field f ≠ "id" → is_ok (count_spec t a (field f))) →
  ∃ lt, (∀ a b, a ∈ l → b ∈ l → sort_lt t fields a b = Ok (lt a b)) ∧ strict_weak lt l.
Proof.
  induction fields as [|f fields IH]; intros Hp Hok.
  { exists (λ _ _, false). split; [done|]. by split. }
  apply Forall_cons in Hp as [Hf Hp]. destruct IH as (lt & Hlt & Hsw); [done| |].
  { intros a Ha. destruct (Hok a Ha) as [H1' H2']. split; [done|]. intros g Hg. apply H2'. by right. }
  unfold plain_field in Hf. cbn [sort_lt]. destruct (decide (field f = "id")) as [Hid|Hid].
  - set (key a := match context_of t a with Ok x => id x | _ => 0%Z end).
    exists (λ a b, (key a <? key b)%Z). split.
    + intros a b Ha Hb. destruct (Hok a Ha) as [[x Ex] _], (Hok b Hb) as [[y Ey] _].
      unfold key. rewrite Ex, Ey, Hf. done.
    + split; intros; lia.
  - rewrite Hf. set (key a := match count_spec t a (field f) with Ok n => n | _ => 0%Z end).
    exists (λ a b, if (key a =? key b)%Z then lt a b
                   else if decide (direction f = Desc) then negb (key a <? key b)%Z
                   else (key a <? key b)%Z). split.
    + intros a b Ha Hb.
      destruct (proj2 (Hok a Ha) f ltac:(by left) Hid) as [m Em].
      destruct (proj2 (Hok b Hb) f ltac:(by left) Hid) as [n En].
      unfold key. rewrite Em, En. simpl. case_match; [by apply Hlt|done].
    + destruct Hsw as [Hi Htr Hti]. split.
      * intros a Ha. rewrite Z.eqb_refl. by apply Hi.
      * intros a b c Ha Hb Hc. specialize (Htr a b c Ha Hb Hc).
        destruct (Z.eqb_spec (key a) (key b)), (Z.eqb_spec (key b) (key c)),
          (Z.eqb_spec (key a) (key c)); try case_decide; try lia; auto; try congruence.
      * intros a b c Ha Hb Hc. specialize (Hti a b c Ha Hb Hc).
        destruct (Z.eqb_spec (key a) (key b)), (Z.eqb_spec (key b) (key a)),
          (Z.eqb_spec (key b) (key c)), (Z.eqb_spec (key c) (key b)),
          (Z.eqb_spec (key a) (key c)), (Z.eqb_spec (key c) (key a)); try congruence; auto;
          case_decide; lia.
Qed.

(** Descending [id] breaks the contract: the comparison puts an element
    before itself, because the negation also applies when the identifiers are
    equal. *)
Theorem desc_id_not_irreflexive t fields a x n :
  context_of t a = Ok x →
  sort_lt t ({| field := "id"; count := n; direction := Desc |} :: fields) a a = Ok true.
Proof. intros Ex. cbn [sort_lt]. simpl. rewrite Ex. simpl. by rewrite Z.ltb_irrefl. Qed.
End ordering.

(** * Arithmetic of the pages *)

(** The first node of a page, as the page number and size ask for it. *)
Definition page_offset (o : Options) : Z := ((page o - 1) * paginate o + skip o)%Z.

(** C40: without groups, a page number whose offset exceeds [int] is undefined
      behaviour: for instance page 23 when no page size is given. *)
Theorem page_overflow o size :
  groups o = 0%Z → (1 ≤ page o < 2 ^ 31)%Z → (0 ≤ paginate o < 2 ^ 31)%Z → (0 ≤ skip o < 2 ^ 31)%Z →
  (2 ^ 31 ≤ page_offset o)%Z →
  page_bounds o size = UB "signed integer overflow".
Proof.
  intros Hg Hp Hn Hs Ho. unfold page_offset in Ho. unfold page_bounds. rewrite Hg. cbn [Z.eqb negb].
  rewrite (proj2 (Z.eqb_neq (page o) (-1))) by lia. cbn [mbind outcome_mbind outcome_bind].
  rewrite (proj2 (Z.leb_gt (page o) 0)) by lia. unfold sub32, mul32, add32.
  rewrite int32_id by lia. cbn [mbind outcome_mbind outcome_bind].
  assert (0 ≤ (page o - 1) * paginate o)%Z by nia.
  destruct (decide ((page o - 1) * paginate o < 2 ^ 31)%Z).
  - rewrite int32_id by lia. cbn [mbind outcome_mbind outcome_bind].
    by rewrite int32_overflow by lia.
  - by rewrite int32_overflow by lia.
Qed.

(** The last page that holds something, by integer division. *)
Definition last_page (size skip paginate : Z) : Z := Z.max 1 ((size - skip + paginate - 1) / paginate).

Definition last_ok (rest paginate : Z) : bool :=
  bool_decide (ceil_div rest paginate = Ok ((rest + paginate - 1) / paginate)%Z).

Lemma last_ok_small :
  forallb (λ r, forallb (λ p, last_ok (Z.of_nat r) (Z.of_nat p)) (seq 1 100)) (seq 0 201) = true.
Proof. vm_compute. reflexivity. Qed.

(** [page=last] is the last non-empty page, for results of up to 200 nodes
    and pages of up to 100: the [float] division is exact enough there. *)
Theorem last_page_small o size :
  groups o = 0%Z → page o = (-1)%Z → (1 ≤ paginate o ≤ 100)%Z → (0 ≤ skip o < 2 ^ 30)%Z →
  (0 ≤ size - skip o ≤ 200)%Z →
  page_bounds o size =
    Ok ((skip o + (last_page size (skip o) (paginate o) - 1) * paginate o)%Z, paginate o) ∧
  (size ≤ skip o + last_page size (skip o) (paginate o) * paginate o)%Z ∧
  (skip o < size → skip o + (last_page size (skip o) (paginate o) - 1) * paginate o < size)%Z.
Proof.
  intros Hg Hp Hn Hs Hr. set (r := (size - skip o)%Z) in *.
  assert (ceil_div r (paginate o) = Ok ((r + paginate o - 1) / paginate o)%Z) as Hceil.
  { pose proof last_ok_small as Hall. rewrite forallb_forall in Hall.
    specialize (Hall (Z.to_nat r) ltac:(apply in_seq; lia)). rewrite forallb_forall in Hall.
    specialize (Hall (Z.to_nat (paginate o)) ltac:(apply in_seq; lia)).
    rewrite !Z2Nat.id in Hall by lia. by apply bool_decide_eq_true in Hall. }
  unfold last_page. fold r. set (n := ((r + paginate o - 1) / paginate o)%Z) in *.
  assert (paginate o * n ≤ r + paginate o - 1)%Z by (apply Z.mul_div_le; lia).
  assert (r + paginate o - 1 < paginate o * Z.succ n)%Z by (apply Z.mul_succ_div_gt; lia).
  assert (0 ≤ n ≤ 300)%Z by nia.
  split; [|split; nia]. unfold page_bounds. rewrite Hg, Hp. cbn [Z.eqb negb].
  unfold sub32, mul32, add32. fold r. rewrite (int32_id r) by lia.
  cbn [mbind outcome_mbind outcome_bind Pos.eqb]. rewrite Hceil. cbn [mbind outcome_mbind outcome_bind].
  replace (if (n <=? 0)%Z then 1%Z else n) with (Z.max 1 n) by (destruct (Z.leb_spec n 0); lia).
  rewrite int32_id by lia. cbn [mbind outcome_mbind outcome_bind].
  assert (0 ≤ (Z.max 1 n - 1) * paginate o ≤ 30000)%Z by nia.
  rewrite int32_id by lia. cbn [mbind outcome_mbind outcome_bind].
  rewrite int32_id by lia. cbn [mbind outcome_mbind outcome_bind].
  rewrite (proj2 (Z.ltb_ge _ _)) by lia. by rewrite (proj2 (Z.ltb_ge _ _)) by lia.
Qed.

(** * A concrete [sort] *)

Module SortRef.
Section insertion.
Variable cmp : cptr → cptr → eff Site bool.
Fixpoint insert (x : cptr) (l : list cptr) : eff Site (list cptr) :=
  match l with
  | [] => mret [x]
  | y :: l' => b ← cmp y x; if b : bool then r ← insert x l'; mret (y :: r) else mret (x :: l)
  end.
Fixpoint insertion_sort (l : list cptr) : eff Site (list cptr) :=
  match l with
  | [] => mret []
  | x :: l' => r ← insertion_sort l'; insert x r
  end.
End insertion.

#[export] Instance algorithms : Algorithms :=
  {| sort := insertion_sort; random_shuffle l := mret (rev l) |}.

Section laws.
Context (I : Site → Prop) (lt : cptr → cptr → bool) (cmp : cptr → cptr → eff Site bool).
Context (all : list cptr) (Hsw : strict_weak lt all).
Hypothesis Hcmp : ∀ a b s, a ∈ all → b ∈ all → I s → ∃ s', cmp a b s = (Ok (lt a b), s') ∧ I s'.
Abbreviation sorted := (Sorted (λ a b, lt b a = false)).

Lemma asym a b : a ∈ all → b ∈ all → lt a b = true → lt b a = false.
Proof.
  intros Ha Hb Hab. destruct (lt b a) eqn:E; [|done].
  pose proof (sw_trans _ _ Hsw a b a Ha Hb Ha Hab E) as Haa. by rewrite (sw_irrefl _ _ Hsw) in Haa.
Qed.

Lemma sorted_insert_spec x l s :
  I s → x ∈ all → (∀ y, y ∈ l → y ∈ all) → sorted l →
  ∃ l' s', insert cmp x l s = (Ok l', s') ∧ I s' ∧ l' ≡ₚ x :: l ∧ sorted l' ∧
    ∀ z, lt x z = false → HdRel (λ a b, lt b a = false) z l → HdRel (λ a b, lt b a = false) z l'.
Proof.
  intros Hs Hx Hl Hsort. revert s Hs. induction l as [|y l IH]; intros s Hs; cbn [insert].
  { exists [x], s. split_and!; [done..| |]; by repeat constructor. }
  apply Sorted_inv in Hsort as [Hsort Hhd].
  destruct (Hcmp y x s (Hl y ltac:(by left)) Hx Hs) as (s1 & E & Hs1).
  rewrite (eff_bind_ok _ _ _ _ _ E). destruct (lt y x) eqn:Eyx.
  - destruct (IH) with (s := s1) as (r & s2 & E2 & Hs2 & Hperm & Hr & Hz);
      [intros z ?; apply Hl; by right|done|done|].
    rewrite (eff_bind_ok _ _ _ _ _ E2). exists (y :: r), s2.
    split; [done|]. split; [done|]. split; [rewrite Hperm; apply perm_swap|]. split.
    + constructor; [done|]. apply Hz; [|done]. by apply asym; [apply Hl; left| |].
    + intros z _ Hzy. apply HdRel_inv in Hzy. by constructor.
  - exists (x :: y :: l), s1. split_and!; [done..| |].
    + constructor; [by constructor|]. by constructor.
    + intros z Hzx _. by constructor.
Qed.

Lemma insertion_sort_spec l s :
  I s → (∀ y, y ∈ l → y ∈ all) →
  ∃ l' s', insertion_sort cmp l s = (Ok l', s') ∧ I s' ∧ l' ≡ₚ l ∧ sorted l'.
Proof.
  intros Hs Hl. induction l as [|x l IH]; cbn [insertion_sort].
  { exists [], s. by split_and!; [| | |constructor]. }
  destruct IH as (r & s1 & E1 & Hs1 & Hp & Hr); [intros y ?; apply Hl; by right|].
  rewrite (eff_bind_ok _ _ _ _ _ E1).
  destruct (sorted_insert_spec x r s1) as (l' & s2 & E2 & Hs2 & Hp' & Hr' & _);
    [done|apply Hl; by left| |done|].
  { intros y. rewrite Hp. intros ?. apply Hl. by right. }
  exists l', s2. split; [done|]. split; [done|]. split; [by rewrite Hp', Hp|done].
Qed.
End laws.

#[export] Instance algorithms_laws : AlgorithmLaws.
Proof.
  split.
  - intros I lt cmp l s Hs Hcmp Hsw. by apply (insertion_sort_spec I lt cmp l).
  - intros l s. exists (rev l), s. split; [done|]. rewrite rev_alt. apply reverse_Permutation.
Qed.
End SortRef.

(** * Witnesses on the demonstration site *)

Import Demo.
#[local] Existing Instances SortRef.algorithms SortRef.algorithms_laws.

Definition opts (l : list (string * string)) : Options := parse_options (list_to_map l).
Definition artists : Query := {| qsize := 2; nodeTab := [3%positive; 13%positive] |}.

Lemma site_caches : coherent site ∧ memos site.
Proof. exact (Site_new_coherent _ _ _ _ _ _ site_loaded). Defined.

Lemma artists_in_document : in_document (tree site) (nodeTab artists).
Proof. repeat constructor; vm_compute; eexists; reflexivity. Defined.

Lemma artist_contexts : privates (tree site) (nodeTab artists) = [1%positive; 7%positive].
Proof. vm_compute. reflexivity. Defined.

Example filterMatch_spec_witness :
  ∃ n ts, doc (tree site) !! 3%positive = Some n ∧ texts (doc (tree site)) 1 n = Ok ts ∧
  filterMatch (doc (tree site)) ["MILES"; "1926"] 3 = Ok true.
Proof.
  eexists _, _. split; [vm_compute; reflexivity|]. split; [vm_compute; reflexivity|].
  erewrite (filterMatch_spec (doc (tree site)) ["MILES"; "1926"] 3);
    [|vm_compute; reflexivity|vm_compute; reflexivity].
  vm_compute. reflexivity.
Defined.

Example pagination_witness :
  ∃ s', query (opts [("paginate", "1"); ("page", "2")]) None "artist" site
        = (Ok {| rc_contexts := [7%positive]; total := 2 |}, s').
Proof.
  destruct (pagination (opts [("paginate", "1"); ("page", "2")]) None "artist" artists site
    (proj1 site_caches) ltac:(vm_compute; reflexivity) artists_in_document) as [(s' & E & _) _];
    [(vm_compute; first [reflexivity|discriminate])..|].
  exists s'. exact E.
Defined.

Example filtered_pages_witness :
  ∃ s', query (opts [("filter", "19"); ("unique", "year"); ("limit", "5")]) None "artist" site
        = (Ok {| rc_contexts := [1%positive; 7%positive]; total := 2 |}, s').
Proof.
  destruct (filtered_pages (opts [("filter", "19"); ("unique", "year"); ("limit", "5")]) None "artist"
    artists site (λ _, true) (λ p, if decide (p = 3%positive) then "1926~!~" else "1919~!~")
    (proj1 site_caches) (proj2 site_caches) ltac:(vm_compute; reflexivity)) as [(s' & E) _];
    [|(vm_compute; first [reflexivity|discriminate])..|].
  - repeat constructor; try (vm_compute; reflexivity);
      [exists 1%positive|exists 7%positive];
      (split; [vm_compute; reflexivity|split; [|intros _; vm_compute; reflexivity]]);
      apply elem_of_dom; vm_compute; eexists; reflexivity.
  - exists s'. exact E.
Defined.

Definition by_albums (a b : cptr) : bool := bool_decide (a = 7%positive) && bool_decide (b = 1%positive).

Lemma by_albums_strict : strict_weak by_albums [1%positive; 7%positive].
Proof.
  split; intros *; rewrite ?list_elem_of_In; simpl; intuition subst; vm_compute in *; try done; auto.
Defined.

Example ordered_pages_witness :
  ∃ l s', l ≡ₚ [1%positive; 7%positive] ∧ Sorted (λ a b, by_albums b a = false) l ∧
    query (opts [("order", "COUNT(album)"); ("limit", "5")]) None "artist" site
    = (Ok {| rc_contexts := slice 0 5 1 l; total := 2 |}, s').
Proof.
  destruct (ordered_pages (opts [("order", "COUNT(album)"); ("limit", "5")]) None "artist" artists site
    by_albums (proj1 site_caches) (proj2 site_caches) ltac:(vm_compute; reflexivity)
    artists_in_document) as (l & s' & Hp & Hs & E);
    [| | |(vm_compute; first [reflexivity|discriminate])..|]; rewrite ?artist_contexts in *.
  - intros c Hc. apply elem_of_dom. rewrite list_elem_of_In in Hc. simpl in Hc.
    destruct Hc as [<-|[<-|[]]]; vm_compute; eexists; reflexivity.
  - intros a b. rewrite !list_elem_of_In. simpl.
    intros [<-|[<-|[]]] [<-|[<-|[]]]; vm_compute; reflexivity.
  - exact by_albums_strict.
  - exists l, s'. split; [exact Hp|]. split; [exact Hs|exact E].
Defined.

Example count_orders_strict_weak_witness :
  ∃ lt, strict_weak lt [1%positive; 7%positive] ∧
    sort_lt (tree site) [{| field := "album"; count := true; direction := Desc |};
                         {| field := "id"; count := false; direction := Asc |}] 1 7 = Ok (lt 1%positive 7%positive).
Proof.
  destruct (count_orders_strict_weak (tree site)
    [{| field := "album"; count := true; direction := Desc |};
     {| field := "id"; count := false; direction := Asc |}] [1%positive; 7%positive])
    as (lt & Hlt & Hsw).
  - repeat constructor.
  - intros a Ha. rewrite list_elem_of_In in Ha. simpl in Ha.
    destruct Ha as [<-|[<-|[]]]; (split; [vm_compute; eexists; reflexivity|]);
      intros f Hf; rewrite list_elem_of_In in Hf; simpl in Hf;
      destruct Hf as [<-|[<-|[]]]; intros Hne; try (by destruct Hne); vm_compute; eexists; reflexivity.
  - exists lt. split; [exact Hsw|]. apply Hlt; rewrite list_elem_of_In; simpl; auto.
Defined.

Example desc_id_not_irreflexive_witness :
  sortFields (opts [("order", "DESC(id)")]) = [{| field := "id"; count := false; direction := Desc |}] ∧
  sort_lt (tree site) [{| field := "id"; count := false; direction := Desc |}] 1 1 = Ok true.
Proof.
  split; [vm_compute; reflexivity|].
  eapply (desc_id_not_irreflexive (tree site) [] 1). vm_compute. reflexivity.
Defined.

Example page_overflow_witness :
  page_bounds (opts [("page", "23")]) 2 = UB "signed integer overflow".
Proof.
  apply (page_overflow (opts [("page", "23")]) 2); vm_compute; try split; try reflexivity; discriminate.
Defined.

Example last_page_small_witness :
  page_bounds (opts [("page", "last"); ("paginate", "3")]) 7 = Ok (6%Z, 3%Z).
Proof.
  apply (last_page_small (opts [("page", "last"); ("paginate", "3")]) 7);
    vm_compute; try split; try reflexivity; discriminate.
Defined.

(** Beyond the precision of [float] the division is off by one page. *)
Example last_page_large : ceil_div 16777217 1 = Ok 16777216%Z.
Proof. vm_compute. reflexivity. Qed.
