(* ===== verification/SharedSite.v ===== *)
(** Requests that share a site.  [Context::getCount], [getData],
    [populateData] and [toVaeDbDataForContext] of [cpp/context.cpp] and
    [Site::fetch_query] of [cpp/site.cpp] are cut where another thread may come
    in: a thread is a tree of actions, each of them one critical section (under
    the mutex of the context or of the query cache), one access that the source
    makes without a mutex, or a computation on the document, which does not
    change.  [safe] says that a thread answers a given outcome whatever the
    others do in between; [Threaded] carries, for a computation on the site, its
    thread, that it does the same alone, and that it is safe.  Unlocked reads are
    taken as atomic. *)
From Stdlib Require Import ZArith.
From S2P Require Import Prelude Cpp Extern Regex VaeTypes Xml Query Site QuerySpec SiteSpec ResponseSpec.
From S2P Require LruCache.

(** * Actions *)

(** What happens without another thread in between. *)
Inductive action : Type → Type :=
| FetchQuery (key : LRUKey) : action (option Query)       (* query_cache.fetch, its mutex *)
| InsertQuery (key : LRUKey) (q : Query) : action unit    (* query_cache.insert, its mutex *)
| IsPopulated (c : cptr) : action bool                    (* dataPopulated, no mutex *)
| PopulateData (c : cptr) : action unit                   (* all of populateData, its mutex *)
| LookupData (c : cptr) (query : string) : action string  (* getData from its lock on *)
| LookupCount (c : cptr) (query : string) : action Z      (* all of getCount, its mutex *)
| CopyData (c : cptr) : action (gmap string string)       (* _return.data = data, no mutex *)
| ReadTree {A} (f : Tree → outcome A) : action A.         (* nothing writes the document *)

Section sharing.
Context `{Boost} `{Pcre} `{LibXml}.

(** [getData] from its lock on. *)
Definition lookup_data (c : cptr) (query : string) : eff Site string :=
  if decide (query = "") then throw empty_query
  else
    k ← cache_at c;
    match data k !! query with
    | Some v => mret v
    | None =>
        match cachedQueries k !! query with
        | Some v => mret v
        | None =>
            _query ← in_tree (λ t, Query_new t (Some c) query);
            result ← in_tree (λ t, Query.getSingleData t _query);
            modify (set_caches (<[c := {| cachedCounts := cachedCounts k;
              cachedQueries := <[query := result]> (cachedQueries k);
              data := data k; dataPopulated := dataPopulated k |}]>));;
            mret result
        end
    end.

Definition perform {A} (x : action A) : eff Site A :=
  match x with
  | FetchQuery key => zoom query_cache set_query_cache (LruCache.fetch None key false)
  | InsertQuery key q => zoom query_cache set_query_cache (LruCache.insert query_cost key (Some q))
  | IsPopulated c => k ← cache_at c; mret (dataPopulated k)
  | PopulateData c => populateData c
  | LookupData c query => lookup_data c query
  | LookupCount c query => getCount c query
  | CopyData c => k ← cache_at c; mret (data k)
  | ReadTree f => in_tree f
  end.

(** * Threads *)

(** What is left to do. *)
Inductive thread (A : Type) : Type :=
| Done (o : outcome A)
| Act {B} (x : action B) (k : B → thread A).
#[global] Arguments Done {A} o.
#[global] Arguments Act {A B} x k.

Definition after {A B} (k : A → thread B) (r : outcome A) : thread B :=
  match r with
  | Ok a => k a
  | Throw e => Done (Throw e)
  | UB why => Done (UB why)
  | OutOfFuel => Done OutOfFuel
  end.

Fixpoint thread_bind {A B} (k : A → thread B) (th : thread A) : thread B :=
  match th with
  | Done o => after k o
  | Act x k' => Act x (λ b, thread_bind k (k' b))
  end.

(** The thread, with no other in between. *)
Fixpoint alone {A} (th : thread A) : eff Site A :=
  match th with
  | Done o => lift o
  | Act x k => b ← perform x; alone (k b)
  end.

Lemma alone_bind {A B} (th : thread A) (k : A → thread B) s :
  alone (thread_bind k th) s = (a ← alone th; alone (k a)) s.
Proof.
  revert s. induction th as [o|C x k' IH]; intros s; cbn [alone thread_bind].
  - by destruct o.
  - rewrite eff_bind_assoc. by apply eff_bind_proper.
Qed.

(** * Safe threads *)

(** The site serves document [t]; its contexts are [D]. *)
Record serving (t : Tree) (D : gset cptr) (s : Site) : Prop := {
  serving_coherent : coherent s;
  serving_ready : ready t D s;
}.

(** What no thread undoes: a table that was filled stays filled. *)
Definition filled (s : Site) (c : cptr) : Prop :=
  ∃ k, caches s !! c = Some k ∧ dataPopulated k = true.
Definition grows (s s' : Site) : Prop := ∀ c, filled s c → filled s' c.
#[export] Instance grows_preorder : PreOrder grows.
Proof. split; [by intros s c|]. intros s1 s2 s3 H12 H23 c Hc. by apply H23, H12. Qed.

Section safe.
Context (t : Tree) (D : gset cptr).

(** [th] will answer [o], if the others only do what [serving] and [grows]
    allow, and does so itself. *)
Fixpoint safe {A} (o : outcome A) (s : Site) (th : thread A) : Prop :=
  match th with
  | Done o' => o' = o
  | Act x k => ∀ s1, serving t D s1 → grows s s1 →
      let '(r, s2) := perform x s1 in
      serving t D s2 ∧ grows s1 s2 ∧
      match r with
      | Ok b => safe o s2 (k b)
      | Throw e => o = Throw e
      | UB why => o = UB why
      | OutOfFuel => o = OutOfFuel
      end
  end.

Lemma safe_grows {A} (o : outcome A) s s' th : grows s s' → safe o s th → safe o s' th.
Proof.
  intros Hg. destruct th as [o'|B x k]; cbn [safe]; [done|].
  intros Hs s1 Hs1 Hg1. apply Hs; [done|by etrans].
Qed.

Lemma safe_bind {A B} (o1 : outcome A) (g : A → outcome B) (k : A → thread B) s th :
  safe o1 s th → (∀ a s', o1 = Ok a → safe (g a) s' (k a)) →
  safe (o1 ≫= g) s (thread_bind k th).
Proof.
  intros Hth Hk. revert s Hth. induction th as [o'|C x k' IH]; intros s Hth; cbn [safe] in *.
  - subst o'. destruct o1 as [a| | |]; [by apply Hk|done..].
  - intros s1 Hs1 Hg. specialize (Hth s1 Hs1 Hg).
    destruct (perform x s1) as [r s2]. destruct Hth as (Hs2 & Hg2 & Hr). split; [done|]. split; [done|].
    destruct r as [b| | |]; [by apply IH|by subst o1..].
Qed.

(** An action that answers something of the document, whatever the tables. *)
Lemma safe_act {A B} (x : action B) (r : outcome B) (o : outcome A) s k :
  (∀ s1, serving t D s1 → ∃ s2, perform x s1 = (r, s2) ∧ serving t D s2 ∧ grows s1 s2) →
  match r with
  | Ok b => ∀ s2, safe o s2 (k b)
  | Throw e => o = Throw e
  | UB why => o = UB why
  | OutOfFuel => o = OutOfFuel
  end →
  safe o s (Act x k).
Proof.
  intros Hx Ho s1 Hs1 _. destruct (Hx s1 Hs1) as (s2 & -> & Hs2 & Hg). do 2 (split; [done|]).
  by destruct r.
Qed.
End safe.

(** * The tables under other threads *)

Section tables.
Context (t : Tree) (D : gset cptr).
Abbreviation serving := (serving t D).

Lemma serving_cache s c : serving s → c ∈ D → ∃ k, caches s !! c = Some k.
Proof. intros [_ [_ _ Hd]] Hc. apply elem_of_dom. by rewrite Hd. Qed.

Lemma serving_absent s c : serving s → c ∉ D → caches s !! c = None.
Proof. intros [_ [_ _ Hd]] Hc. apply not_elem_of_dom. by rewrite Hd. Qed.

Lemma with_cache_serving s c k k' :
  serving s → caches s !! c = Some k → memo_ok t c k' →
  (dataPopulated k = true → dataPopulated k' = true) →
  serving (with_cache c k' s) ∧ grows s (with_cache c k' s).
Proof.
  intros [[W Hz He] [Hm Ht Hd]] Hk Hok Hp. split.
  - split; [by split|]. split; [apply memos_put; [done|by rewrite Ht]|done|].
    assert (c ∈ D) as Hc by (rewrite <- Hd; by eapply elem_of_dom_2).
    simpl. rewrite dom_insert_L, Hd. by apply subseteq_union_1_L, singleton_subseteq_l.
  - intros c' (k1 & Hk1 & Hp1). unfold filled. simpl. destruct (decide (c = c')) as [<-|Hc].
    + exists k'. rewrite lookup_insert_eq. split; [done|]. apply Hp. by simplify_eq.
    + exists k1. by rewrite lookup_insert_ne.
Qed.

Lemma fetch_action key s :
  serving s →
  ∃ r, perform (FetchQuery key) s = (Ok r, s) ∧
    match r with Some q => Query_new t key.1 key.2 = Ok q | None => True end.
Proof.
  intros [[W Hz He] [_ Ht _]]. cbn [perform]. unfold zoom.
  destruct (LruCache.fetch_spec query_cost None key false (query_cache s) W)
    as (c1 & E1 & _ & _ & _ & Ec). rewrite Ec in E1 by done. rewrite E1.
  eexists. split; [by destruct s|].
  destruct (LruCache.spec_lookup key _) as [v|] eqn:El; [|done]. simpl.
  destruct (He key v) as (q & -> & Eq); [by apply spec_lookup_elem|]. by rewrite <- Ht.
Qed.

(** An entry of a list after [fit]. *)
Lemma elem_of_fit b e (l : list (LRUKey * option Query)) : e ∈ LruCache.fit query_cost b l → e ∈ l.
Proof.
  revert b. induction l as [|e' l IH]; intros b; cbn [LruCache.fit]; [done|].
  case_match; [|by intros ?%not_elem_of_nil].
  intros [->|Hin]%elem_of_cons; [by left|]. right. by eapply IH.
Qed.

(** The key may have been inserted by another thread in the meantime. *)
Lemma insert_action key q s :
  serving s → Query_new t key.1 key.2 = Ok q →
  ∃ s', perform (InsertQuery key q) s = (Ok tt, s') ∧ serving s' ∧ grows s s'.
Proof.
  intros [[W Hz He] [Hm Ht Hd]] Hq. cbn [perform]. unfold zoom.
  destruct (LruCache.insert_spec query_cost None LruCache.Countfn_nonneg key (Some q)
    (query_cache s) W) as (c2 & -> & W2 & En & Em); [by rewrite Hz|].
  eexists. split; [done|]. split; [|by intros c]. split; [|by split].
  split; [done|by rewrite <- Hz|]. intros k v Hin.
  change (query_cache (set_query_cache c2 s)) with c2 in Hin. rewrite En in Hin.
  apply elem_of_fit, elem_of_cons in Hin as [[= -> ->]|Hin].
  - exists q. split; [done|]. simpl. by rewrite Ht.
  - apply list_elem_of_filter in Hin as [_ Hin]. by apply He.
Qed.

Lemma populated_action c s :
  serving s → c ∈ D →
  ∃ b, perform (IsPopulated c) s = (Ok b, s) ∧ (b = true → filled s c).
Proof.
  intros Hs Hc. destruct (serving_cache s c Hs Hc) as [k Hk]. exists (dataPopulated k). split.
  - cbn [perform]. by rewrite (eff_bind_ok _ _ _ _ _ (cache_at_spec _ c k Hk)).
  - intros Hp. by exists k.
Qed.

(** The second of two threads that both saw an empty table finds it filled. *)
Lemma populate_action c s :
  serving s → c ∈ D →
  ∃ s', serving s' ∧ grows s s' ∧
    match context_map t c with
    | Ok d => perform (PopulateData c) s = (Ok tt, s') ∧ filled s' c
    | Throw e => perform (PopulateData c) s = (Throw e, s')
    | UB w => perform (PopulateData c) s = (UB w, s')
    | OutOfFuel => perform (PopulateData c) s = (OutOfFuel, s')
    end.
Proof.
  intros Hs Hc. destruct (serving_cache s c Hs Hc) as [k Hk]. pose proof Hs as [_ [Hm Ht _]].
  cbn [perform]. destruct (populateData_spec c k s Hm Hk) as (o & k' & -> & Hm' & Ho).
  rewrite Ht in Ho. assert (caches (with_cache c k' s) !! c = Some k') as Hk' by apply lookup_insert_eq.
  pose proof (Hm' c k' Hk') as Hok. simpl in Hok. rewrite Ht in Hok.
  destruct (with_cache_serving s c k k' Hs Hk Hok) as [Hs' Hg].
  { intros Hp. pose proof (memo_data _ _ _ (Hm c k Hk) Hp) as Hd. rewrite Ht in Hd.
    rewrite Hd in Ho. apply Ho. }
  exists (with_cache c k' s). do 2 (split; [done|]).
  destruct (context_map t c); [|by subst o..]. destruct Ho as (-> & Hp & _).
  split; [done|]. by exists k'.
Qed.

Lemma count_action c query s :
  serving s → c ∈ D →
  ∃ s', perform (LookupCount c query) s = (count_spec t c query, s') ∧ serving s' ∧ grows s s'.
Proof.
  intros Hs Hc. destruct (serving_cache s c Hs Hc) as [k Hk]. pose proof Hs as [_ [Hm Ht _]].
  pose proof (Hm c k Hk) as Hok. rewrite Ht in Hok.
  cbn [perform]. unfold getCount. rewrite (eff_bind_ok _ _ _ _ _ (cache_at_spec _ c k Hk)).
  destruct (cachedCounts k !! query) as [n|] eqn:En.
  { exists s. by rewrite (memo_counts _ _ _ Hok _ _ En). }
  unfold in_tree, mbind, eff_mbind, eff_bind. rewrite Ht. unfold count_spec, mbind, outcome_mbind, outcome_bind.
  destruct (Query_new t (Some c) query) as [Q|e|w|] eqn:EQ; [|by exists s..].
  eexists. split; [done|]. eapply with_cache_serving; [done..| |done].
  apply (count_recorded _ _ k); [done|]. unfold count_spec. by rewrite EQ.
Qed.

Lemma lookup_action c query s :
  serving s → c ∈ D → filled s c →
  ∃ s', perform (LookupData c query) s = (data_spec t c query, s') ∧ serving s' ∧ grows s s'.
Proof.
  intros Hs Hc (k & Hk & Hp). pose proof Hs as [_ [Hm Ht _]].
  pose proof (Hm c k Hk) as Hok. rewrite Ht in Hok.
  cbn [perform]. unfold lookup_data, data_spec. rewrite (memo_data _ _ _ Hok Hp).
  cbn [mbind outcome_mbind outcome_bind]. case_decide; [by exists s|].
  rewrite (eff_bind_ok _ _ _ _ _ (cache_at_spec _ c k Hk)).
  destruct (data k !! query) as [v|]; [by exists s|].
  destruct (cachedQueries k !! query) as [v|] eqn:Eq.
  { destruct (memo_queries _ _ _ Hok _ _ Eq) as (Q & -> & Ev). simpl. rewrite Ev. by exists s. }
  unfold in_tree, mbind, eff_mbind, eff_bind, outcome_mbind, outcome_bind. rewrite Ht.
  destruct (Query_new t (Some c) query) as [Q|e|w|] eqn:EQ; [|by exists s..].
  destruct (Query.getSingleData t Q) as [v|e|w|] eqn:Ev; [|by exists s..].
  eexists. split; [done|]. eapply with_cache_serving; [done..| |done].
  by apply (data_recorded t c k Q).
Qed.

Lemma copy_action c s :
  serving s → filled s c → ∃ d, perform (CopyData c) s = (Ok d, s) ∧ context_map t c = Ok d.
Proof.
  intros [_ [Hm Ht _]] (k & Hk & Hp). exists (data k). cbn [perform].
  rewrite (eff_bind_ok _ _ _ _ _ (cache_at_spec _ c k Hk)). split; [done|].
  rewrite <- Ht. by apply (memo_data _ _ _ (Hm c k Hk)).
Qed.
End tables.

(** * Computations as threads *)

(** [m] may run beside others: its thread does the same alone, and its answer
    depends on nothing but the document and the contexts. *)
Class Threaded {A} (m : eff Site A) := {
  as_thread : thread A;
  as_thread_alone s : alone as_thread s = m s;
  as_thread_safe t D : ∃ o, ∀ s, safe t D o s as_thread;
}.
#[global] Arguments as_thread {A} m {_}.

#[export] Instance threaded_lift {A} (o : outcome A) : Threaded (lift o).
Proof. exists (Done o); [done|]. intros. by exists o. Defined.
#[export] Instance threaded_ret {A} (a : A) : Threaded (mret a).
Proof. exact (threaded_lift (Ok a)). Defined.
#[export] Instance threaded_throw {A} e : Threaded (throw e : eff Site A).
Proof. exact (threaded_lift (Throw e)). Defined.
#[export] Instance threaded_deref {A} w (o : option A) : Threaded (deref w o).
Proof. destruct o as [a|]; [exact (threaded_ret a)|exact (threaded_lift (UB w))]. Defined.

#[export] Instance threaded_bind {A B} (m : eff Site A) (f : A → eff Site B) :
  Threaded m → (∀ a, Threaded (f a)) → Threaded (m ≫= f).
Proof.
  intros Tm Tf. exists (thread_bind (λ a, as_thread (f a)) (as_thread m)).
  - intros s. rewrite alone_bind. unfold mbind, eff_mbind, eff_bind. rewrite as_thread_alone.
    destruct (m s) as [[] s']; [apply as_thread_alone|done..].
  - intros t D. destruct (as_thread_safe t D (m := m)) as [o1 Hm].
    assert (∃ o : outcome B, ∀ a s, o1 = Ok a → safe t D o s (as_thread (f a))) as [o Hf].
    { destruct o1 as [a|e|w|]; [|by exists OutOfFuel..].
      destruct (as_thread_safe t D (m := f a)) as [o Hf]. exists o. by intros ? s [= <-]. }
    exists (o1 ≫= λ _, o). intros s. apply safe_bind; [done|]. intros a s' ->. by apply Hf.
Defined.

#[export] Instance threaded_in_tree {A} (f : Tree → outcome A) : Threaded (in_tree f).
Proof.
  exists (Act (ReadTree f) (λ a, Done (Ok a))).
  - intros s. cbn [alone perform]. unfold in_tree, lift, mbind, eff_mbind, eff_bind. by destruct (f (tree s)).
  - intros t D. exists (f t). intros s. apply (safe_act t D _ (f t)).
    + intros s1 Hs1. exists s1. split; [|by split]. destruct Hs1 as [_ [_ <- _]]. done.
    + by destruct (f t).
Defined.
#[export] Instance threaded_node_at p : Threaded (node_at p).
Proof. exact (threaded_in_tree (λ t, node_of (doc t) p)). Defined.
#[export] Instance threaded_context_at c : Threaded (context_at c).
Proof. exact (threaded_in_tree (λ t, context_of t c)). Defined.

(** Two threads may both miss, both build the query and both insert it. *)
#[export] Instance threaded_fetch_query key : Threaded (fetch_query key).
Proof.
  exists (Act (FetchQuery key) (λ p_query,
    match p_query with
    | Some q => Done (Ok q)
    | None => Act (ReadTree (λ t, Query_new t key.1 key.2)) (λ q,
                Act (InsertQuery key q) (λ _, Done (Ok q)))
    end)).
  - intros s. unfold fetch_query. cbn [alone perform]. apply eff_bind_proper. by intros [q|] s'.
  - intros t D. exists (Query_new t key.1 key.2). intros s s1 Hs1 _.
    destruct (fetch_action t D key s1 Hs1) as (r & -> & Hr). split; [done|]. split; [done|].
    destruct r as [q|]; [by symmetry|].
    apply (safe_act t D _ (Query_new t key.1 key.2)).
    { intros s2 Hs2. exists s2. split; [|by split]. by destruct Hs2 as [_ [_ <- _]]. }
    destruct (Query_new t key.1 key.2) as [q|e|w|] eqn:Hq; [|done..]. intros s2.
    apply (safe_act t D _ (Ok tt)); [|done]. intros s3 Hs3. by apply insert_action.
Defined.

#[export] Instance threaded_getCount c query : Threaded (getCount c query).
Proof.
  exists (Act (LookupCount c query) (λ n, Done (Ok n))).
  - intros s. cbn [alone perform]. unfold lift, mbind, eff_mbind, eff_bind. by destruct (getCount c query s) as [[] s'].
  - intros t D. destruct (decide (c ∈ D)) as [Hc|Hc].
    + exists (count_spec t c query). intros s. apply (safe_act t D _ (count_spec t c query)).
      * intros s1 Hs1. by apply count_action.
      * by destruct (count_spec t c query).
    + exists (UB "dangling context"). intros s. apply (safe_act t D _ (UB "dangling context")); [|done].
      intros s1 Hs1. exists s1. split; [|by split]. cbn [perform]. unfold getCount, cache_at.
      by rewrite eff_bind_assoc, eff_bind_gets, (serving_absent t D s1 c Hs1 Hc).
Defined.

(** [if (!dataPopulated) populateData();] and then [rest]. *)
Definition when_populated {A} (c : cptr) (rest : thread A) : thread A :=
  Act (IsPopulated c) (λ b : bool, if b then rest else Act (PopulateData c) (λ _, rest)).

Lemma when_populated_alone {A} c (rest : thread A) s :
  alone (when_populated c rest) s
  = (k ← cache_at c; when (negb (dataPopulated k)) (populateData c);; alone rest) s.
Proof.
  unfold when_populated. cbn [alone perform]. rewrite eff_bind_assoc. apply eff_bind_proper.
  intros k s'. rewrite eff_bind_ret. by destruct (dataPopulated k).
Qed.

Lemma when_populated_safe {A} t D c (rest : thread A) :
  (∃ o, ∀ s, filled s c → safe t D o s rest) → ∃ o, ∀ s, safe t D o s (when_populated c rest).
Proof.
  intros [o Hr]. destruct (decide (c ∈ D)) as [Hc|Hc].
  - exists (context_map t c ≫= λ _, o). intros s s1 Hs1 _.
    destruct (populated_action t D c s1 Hs1 Hc) as (b & -> & Hb). do 2 (split; [done|]).
    assert (∀ s2, safe t D (context_map t c ≫= λ _, o) s2 (Act (PopulateData c) (λ _, rest))) as Hpop.
    { intros s2 s3 Hs3 _. destruct (populate_action t D c s3 Hs3 Hc) as (s4 & Hs4 & Hg & Ho).
      destruct (context_map t c); [destruct Ho as [-> Hf]|rewrite Ho; by do 2 (split; [done|])..].
      do 2 (split; [done|]). by apply Hr. }
    destruct b; [|apply Hpop].
    destruct (copy_action t D c s1 Hs1 (Hb eq_refl)) as (d & _ & ->). by apply Hr, Hb.
  - exists (UB "dangling context"). intros s. apply (safe_act t D _ (UB "dangling context")); [|done].
    intros s1 Hs1. exists s1. split; [|by split]. cbn [perform]. unfold cache_at.
    by rewrite eff_bind_assoc, eff_bind_gets, (serving_absent t D s1 c Hs1 Hc).
Qed.

#[export] Instance threaded_getData c query : Threaded (getData c query).
Proof.
  exists (when_populated c (Act (LookupData c query) (λ v, Done (Ok v)))).
  - intros s. rewrite when_populated_alone. unfold getData.
    apply eff_bind_proper. intros k s1. apply eff_bind_proper. intros [] s2.
    cbn [alone perform]. change (lookup_data c query ≫= λ v, lift (Ok v)) with (lookup_data c query ≫= mret).
    fold (lookup_data c query). unfold mbind, eff_mbind, eff_bind. by destruct (lookup_data c query s2) as [[] ?].
  - intros t D. apply when_populated_safe. exists (data_spec t c query).
    intros s (k & Hk & Hp) s1 Hs1 Hg. assert (filled s1 c) as Hf by (apply Hg; by exists k).
    assert (c ∈ D) as Hc. { destruct Hs1 as [_ [_ _ <-]], Hf as (k1 & Hk1 & _). by eapply elem_of_dom_2. }
    destruct (lookup_action t D c query s1 Hs1 Hc Hf) as (s2 & -> & Hs2 & Hg2). do 2 (split; [done|]).
    by destruct (data_spec t c query).
Defined.

#[export] Instance threaded_data_for c : Threaded (toVaeDbDataForContext c).
Proof.
  exists (when_populated c (Act (CopyData c) (λ d, Done (Ok {| dfc_data := d |})))).
  - intros s. rewrite when_populated_alone. unfold toVaeDbDataForContext.
    apply eff_bind_proper. intros k s1. apply eff_bind_proper. intros [] s2.
    cbn [alone perform]. by rewrite eff_bind_assoc.
  - intros t D. apply when_populated_safe.
    exists (d ← context_map t c; mret {| dfc_data := d |}).
    intros s (k & Hk & Hp) s1 Hs1 Hg. assert (filled s1 c) as Hf by (apply Hg; by exists k).
    destruct (copy_action t D c s1 Hs1 Hf) as (d & -> & ->). by do 2 (split; [done|]).
Defined.
(** A safe thread that meets no other gives its answer. *)
Lemma safe_alone {A} t D (o : outcome A) s th :
  serving t D s → safe t D o s th → (alone th s).1 = o ∧ serving t D (alone th s).2.
Proof.
  revert s. induction th as [o'|B x k IH]; intros s Hs Ho; cbn [safe alone] in *; [done|].
  specialize (Ho s Hs ltac:(done)). unfold mbind, eff_mbind, eff_bind.
  destruct (perform x s) as [r s']. destruct Ho as (Hs' & _ & Ho).
  destruct r; [by apply IH|by subst..].
Qed.

Lemma answered_alone {A} (m : eff Site A) `{!Threaded m} t D s s' :
  serving t D s → safe t D (m s).1 s' (as_thread m).
Proof.
  intros Hs. destruct (as_thread_safe t D (m := m)) as [o Ho].
  rewrite <- as_thread_alone. by rewrite (proj1 (safe_alone t D o s _ Hs (Ho s))).
Qed.

(** The answer does not depend on the tables, and asking keeps them sound. *)
Lemma answer_stable {A} (m : eff Site A) `{!Threaded m} t D s s' :
  serving t D s → serving t D s' → (m s').1 = (m s).1 ∧ serving t D (m s').2.
Proof.
  intros Hs Hs'. rewrite <- (as_thread_alone (m := m) s').
  apply safe_alone; [done|]. by apply answered_alone.
Qed.
End sharing.
