(* ===== verification/ConcurrentRequests.v ===== *)
(** The operations of [cpp/response.cpp] as threads that share one site
    ([SharedSite]): the queries, creations and writings that the handler runs
    for different clients at the same time, with no mutex around the site.
    [sort] of the C++ library is asked only to work through its comparison;
    [random_shuffle] is random, and requests in random order are left out. *)
From Stdlib Require Import ZArith.
From S2P Require Import Prelude Cpp Extern Regex Util VaeTypes Xml XmlRef Query Site QuerySpec SiteSpec Response ResponseSpec.
From S2P Require Import SharedSite.

(** What the code relies on: [sort] touches the site only by its comparison. *)
Class AlgorithmThreads `{Boost} `{Pcre} `{LibXml} `{Algorithms} :=
  sort_threaded cmp l : (∀ a b, Threaded (cmp a b)) → Threaded (sort cmp l).
#[export] Existing Instance sort_threaded.

(** Cuts a computation into the actions of its parts. *)
Ltac thread :=
  repeat first
    [ assumption
    | progress intros
    | match goal with |- Threaded (_ ≫= _) => apply threaded_bind end
    | apply _
    | match goal with |- Threaded (match ?x with _ => _ end) => destruct x end
    | progress cbn beta zeta ].

Section requests.
Context {clib : CLib} `{Boost} `{Pcre} `{LibXml} {alg : Algorithms} {algt : AlgorithmThreads}.

#[export] Instance threaded_map_eff {A B} (f : A → eff Site B) l :
  (∀ a, Threaded (f a)) → Threaded (map_eff f l).
Proof. intros Hf. induction l as [|a l IH]; cbn [map_eff]; thread. Defined.

#[export] Instance threaded_getId c : Threaded (getId c).
Proof. unfold getId. thread. Defined.
#[export] Instance threaded_context c : Threaded (toVaeDbContext c).
Proof. unfold toVaeDbContext. thread. Defined.
#[export] Instance threaded_structure_for c : Threaded (toVaeDbStructureForContext c).
Proof. unfold toVaeDbStructureForContext. thread. Defined.

#[export] Instance threaded_unique_value c fields val : Threaded (unique_value c fields val).
Proof. revert val. induction fields as [|f fields IH]; intros val; cbn [unique_value]; thread. Defined.
#[export] Instance threaded_uniqueMatch fields p found : Threaded (uniqueMatch fields p found).
Proof. unfold uniqueMatch. thread. Defined.

#[export] Instance threaded_sortCallback fields a b : Threaded (sortCallback fields a b).
Proof. induction fields as [|f fields IH]; cbn [sortCallback]; thread. Defined.

#[export] Instance threaded_visit o start end_ p g : Threaded (visit o start end_ p g).
Proof. unfold visit, accept. thread. Defined.
#[export] Instance threaded_visit_all o start end_ l g : Threaded (visit_all o start end_ l g).
Proof. revert g. induction l as [|p l IH]; intros g; cbn [visit_all]; thread. Defined.
#[export] Instance threaded_pick_contexts q i n : Threaded (pick_contexts q i n).
Proof. revert i. induction n as [|n IH]; intros i; cbn [pick_contexts]; thread. Defined.
#[export] Instance threaded_pick o q start end_ : Threaded (pick o q start end_).
Proof. unfold pick. thread. Defined.

Definition threaded_order o l : sortType o ≠ Shuffle → Threaded (order o l).
Proof. intros Ho. unfold order. destruct (sortType o); [apply _|apply _|by destruct Ho|apply _]. Defined.
Definition threaded_query o context q : sortType o ≠ Shuffle → Threaded (query o context q).
Proof. intros Ho. pose proof (λ l, threaded_order o l Ho). unfold query. thread. Defined.

#[export] Instance threaded_createInfo context query : Threaded (createInfo context query).
Proof. unfold createInfo, create_context. thread. Defined.

(** * Requests *)

(** What the handler has a session do with a site. *)
Inductive request :=
| RunQuery (parent : option Response) (query : string) (options : gmap string string)
| RunCreate (parent : option Response) (query : string)
| WriteContexts (r : Response)
| WriteData (r : Response)
| WriteStructures (r : Response).
Inductive reply :=
| Made (r : Response)
| Contexts (w : VaeDbResponse)
| DataOf (w : VaeDbDataResponse)
| StructuresOf (w : VaeDbStructureResponse).

Definition serve (r : request) : eff Site reply :=
  match r with
  | RunQuery parent q options => r ← Response_query parent q options; mret (Made r)
  | RunCreate parent q => r ← Response_create parent q; mret (Made r)
  | WriteContexts r => w ← writeVaeDbResponse r; mret (Contexts w)
  | WriteData r => w ← writeVaeDbDataResponse r; mret (DataOf w)
  | WriteStructures r => w ← writeVaeDbStructureResponse r; mret (StructuresOf w)
  end.

(** Not in random order. *)
Definition repeatable (r : request) : Prop :=
  match r with RunQuery _ _ options => sortType (parse_options options) ≠ Shuffle | _ => True end.

#[export] Instance threaded_serve (r : { r | repeatable r }) : Threaded (serve (proj1_sig r)).
Proof.
  destruct r as [[parent q options|parent q|r|r|r] Hr]; cbn [serve proj1_sig repeatable] in *.
  - pose proof (λ c, threaded_query (parse_options options) c q Hr). unfold Response_query. thread.
  - unfold Response_create. thread.
  - unfold writeVaeDbResponse. thread.
  - unfold writeVaeDbDataResponse. thread.
  - unfold writeVaeDbStructureResponse. thread.
Defined.
End requests.

(** * Threads on one site *)

Section pool.
Context `{Boost} `{Pcre} `{LibXml}.

Record sharing := { shared : Site; threads : list (thread reply) }.

(** Thread [i] does its next action. *)
Definition run_thread (i : nat) (m : sharing) : option sharing :=
  th ← threads m !! i;
  match th with
  | Done _ => None
  | Act x k =>
      let '(r, s) := perform x (shared m) in
      Some {| shared := s; threads := <[i := after k r]> (threads m) |}
  end.
Definition sharing_step (m m' : sharing) : Prop := ∃ i, run_thread i m = Some m'.

Definition finished (th : thread reply) : Prop := ∃ o, th = Done o.
#[export] Instance finished_dec th : Decision (finished th).
Proof. destruct th as [o|B x k]; [left; by exists o|right; by intros [o E]]. Defined.

(** A schedule, as the numbers of the threads that run. *)
Definition schedule (l : list nat) (m : sharing) : option sharing :=
  foldl (λ m i, m ← m; run_thread i m) (Some m) l.

Lemma turns_taken l m m' : schedule l m = Some m' → rtc sharing_step m m'.
Proof.
  revert m'. induction l as [|i l IH] using rev_ind; intros m'; [by intros [= <-]|].
  unfold schedule in *. rewrite foldl_app. simpl. destruct (foldl _ _ l) as [m1|]; [|done]. simpl.
  intros Hm. eapply rtc_r; [by apply IH|]. by exists i.
Qed.

(** ** Every thread answers what it was going to answer *)

Record on_course (t : Tree) (D : gset cptr) (answers : list (outcome reply)) (m : sharing) : Prop := {
  course_serving : serving t D (shared m);
  course_safe : Forall2 (λ o th, safe t D o (shared m) th) answers (threads m);
}.

Lemma on_course_step t D answers m m' :
  on_course t D answers m → sharing_step m m' → on_course t D answers m'.
Proof.
  intros [Hs Hall] [i Hr]. unfold run_thread in Hr.
  destruct (threads m !! i) as [th|] eqn:Hi; [|done]. simpl in Hr.
  destruct th as [o'|B x k]; [done|].
  destruct (Forall2_lookup_r _ _ _ _ _ Hall Hi) as (o & Ho & Hsafe). cbn [safe] in Hsafe.
  specialize (Hsafe (shared m) Hs ltac:(done)).
  destruct (perform x (shared m)) as [r s'] eqn:Ex. injection Hr as <-.
  destruct Hsafe as (Hs' & Hg & Hk). split; [done|]. simpl.
  assert (Forall2 (λ o th, safe t D o s' th) answers (threads m)) as Hall'.
  { eapply Forall2_impl; [done|]. intros o1 th1. by apply safe_grows. }
  rewrite <- (list_insert_id answers i o Ho). apply Forall2_insert; [done|].
  by destruct r as [b| | |]; simpl; [|subst o..].
Qed.

(** ** Every thread ends *)

(** What remains after an action, whatever it answered. *)
Definition remains (th' th : thread reply) : Prop :=
  match th with Done _ => False | Act x k => ∃ r, th' = after k r end.

Lemma thread_finite (th : thread reply) : Acc remains th.
Proof.
  induction th as [o|B x k IH]; constructor; intros th' Hr; [done|].
  destruct Hr as [r ->]. destruct r; simpl; [apply IH|..]; by constructor.
Qed.

Lemma run_thread_remains i m m' : run_thread i m = Some m' → one_of remains (threads m') (threads m).
Proof.
  unfold run_thread. destruct (threads m !! i) as [th|] eqn:Hi; [|done]. simpl.
  destruct th as [o|B x k]; [done|]. destruct (perform x (shared m)) as [r s]. intros [= <-].
  exists i, (Act x k), (after k r). split; [done|]. split; [by exists r|done].
Qed.

Lemma sharing_finite m : sn sharing_step m.
Proof.
  remember (threads m) as l eqn:El. pose proof (one_of_finite remains l thread_finite) as Hl. revert m El.
  induction Hl as [l _ IH]. intros m ->. constructor. intros m' [i Hr].
  by eapply IH; [eapply run_thread_remains|].
Qed.

(** A thread that has not ended can go on: nothing is waited for. *)
Lemma sharing_progress m : Forall finished (threads m) ∨ ∃ m', sharing_step m m'.
Proof.
  destruct (decide (Forall finished (threads m))) as [Hf|Hf]; [by left|right].
  apply not_Forall_Exists in Hf; [|apply _].
  apply Exists_exists in Hf as (th & (i & Hi)%list_elem_of_lookup & Hth).
  destruct th as [o|B x k]; [by destruct Hth; exists o|].
  destruct (perform x (shared m)) as [r s] eqn:Ex.
  eexists. exists i. unfold run_thread. rewrite Hi. simpl. by rewrite Ex.
Qed.

Lemma sharing_ends m : ∃ m', rtc sharing_step m m' ∧ Forall finished (threads m').
Proof.
  induction (sharing_finite m) as [m _ IH].
  destruct (sharing_progress m) as [Hf|(m1 & Hm1)]; [by exists m|].
  destruct (IH m1 Hm1) as (m' & Hr & Hf). exists m'. split; [by eapply rtc_l|done].
Qed.
End pool.

Section concurrent.
Context {clib : CLib} `{Boost} `{Pcre} `{LibXml} {alg : Algorithms} {algt : AlgorithmThreads}.

(** Requests that arrive together at a site. *)
Definition together (s : Site) (rs : list { r | repeatable r }) : sharing :=
  {| shared := s; threads := (λ r, as_thread (serve (proj1_sig r))) <$> rs |}.

Lemma together_on_course t D s rs :
  serving t D s → on_course t D ((λ r, (serve (proj1_sig r) s).1) <$> rs) (together s rs).
Proof.
  intros Hs. split; [done|]. apply Forall2_fmap, Forall_Forall2_diag, Forall_forall. intros r _.
  by apply answered_alone.
Qed.

(** C6: requests that run at the same time on one loaded site, with no mutex
    around it: in every interleaving of their critical sections, unlocked reads
    and computations, each request that is done has answered what it answers
    alone, errors included; the document is untouched, and the query cache and
    the tables of the contexts stay sound. No interleaving is endless, and from
    every state all requests get done: none waits for another. *)
Theorem concurrent_requests testMode su staging keys rawxml s rs m :
  Site_new testMode su staging keys rawxml = Ok s →
  rtc sharing_step (together s rs) m →
  (∀ i r o, rs !! i = Some r → threads m !! i = Some (Done o) → o = (serve (proj1_sig r) s).1) ∧
  (tree (shared m) = tree s ∧ coherent (shared m) ∧ memos (shared m)) ∧
  sn sharing_step m ∧ ∃ m', rtc sharing_step m m' ∧ Forall finished (threads m').
Proof.
  intros [Hc Hm]%Site_new_coherent Hr.
  assert (on_course (tree s) (dom (caches s)) ((λ r, (serve (proj1_sig r) s).1) <$> rs) m)
    as [[Hc' [Hm' Ht _]] Hsafe].
  { eapply rtc_invariant; [|by intros ???; eapply on_course_step|done].
    by apply together_on_course. }
  split; [|split; [done|split; [apply sharing_finite|apply sharing_ends]]]. intros i r o Hi Ho.
  destruct (Forall2_lookup_r _ _ _ _ _ Hsafe Ho) as (o' & Hlo & ->).
  rewrite list_lookup_fmap, Hi in Hlo. by injection Hlo as <-.
Qed.
End concurrent.

(** The insertion sort of [SortRef] works through its comparison only. *)
#[export] Instance algorithm_threads_ref `{Boost} `{Pcre} `{LibXml} :
  AlgorithmThreads (H2 := SortRef.algorithms).
Proof.
  intros cmp l Hcmp. unfold sort. simpl. induction l as [|x l IH]; cbn [SortRef.insertion_sort]; [apply _|].
  apply threaded_bind; [done|]. intros r. clear IH.
  induction r as [|y r IH]; cbn [SortRef.insert]; [apply _|].
  apply threaded_bind; [done|]. intros [|]; [|apply _].
  apply threaded_bind; [done|]. apply _.
Defined.

(** * Two requests at once *)

#[local] Existing Instances BoostRef.boost_ref demo_libxml SortRef.algorithms.

Module Demo.
Definition by_name : { r | repeatable r }.
Proof. exists (RunQuery None "/artist" {["unique" := "name"]}). vm_compute. discriminate. Defined.
Definition start : sharing := together QuerySpec.Demo.site [by_name; by_name].
(** The two threads take turns, [n] times. *)
Definition turns (n : nat) : sharing := default start (schedule (concat (repeat [0; 1] n)) start).

Lemma turns_steps n : rtc sharing_step start (turns n).
Proof.
  unfold turns. destruct (schedule _ start) as [m|] eqn:E; simpl; [|done].
  by eapply turns_taken.
Qed.
Definition next (th : thread reply) : string :=
  match th with
  | Done _ => "done"
  | Act (FetchQuery _) _ => "fetch"
  | Act (InsertQuery _ _) _ => "insert"
  | Act (IsPopulated _) _ => "populated?"
  | Act (PopulateData _) _ => "populate"
  | Act (LookupData _ _) _ => "lookup"
  | Act (LookupCount _ _) _ => "count"
  | Act (CopyData _) _ => "copy"
  | Act (ReadTree _) _ => "read"
  end.
Definition answers (m : sharing) : list (outcome reply) :=
  threads m ≫= λ th, match th with Done o => [o] | _ => [] end.
End Demo.

(** Both threads miss the cached query and insert it; both find the table of the
    first context empty, and both call [populateData] for it. *)
Example both_populate :
  (λ n, Demo.next <$> threads (Demo.turns n)) <$> [2; 5; 6; 13] =
    [["insert"; "insert"]; ["populate"; "populate"]; ["lookup"; "lookup"]; ["done"; "done"]].
Proof. vm_compute. reflexivity. Qed.

Example concurrent_requests_witness :
  Demo.answers (Demo.turns 13) = repeat (Ok (Made {|
    r_contexts := [{| rc_contexts := [1%positive; 7%positive]; total := 2 |}]; createInfos := [] |})) 2 ∧
  (serve (proj1_sig Demo.by_name) QuerySpec.Demo.site).1 = Ok (Made {|
    r_contexts := [{| rc_contexts := [1%positive; 7%positive]; total := 2 |}]; createInfos := [] |}).
Proof.
  split; [vm_compute; reflexivity|].
  destruct (concurrent_requests true "demo.xml" false "" "" QuerySpec.Demo.site [Demo.by_name; Demo.by_name]
    (Demo.turns 13) QuerySpec.Demo.site_loaded (Demo.turns_steps 13)) as [Ha _].
  symmetry. apply (Ha 1 Demo.by_name); [reflexivity|]. vm_compute. reflexivity.
Defined.
