(* ===== verification/Session.v ===== *)
(** [cpp/session.cpp]: a session numbers the responses it computes, and later
    calls name them as parents. *)
From Stdlib Require Import ZArith.
From S2P Require Import Prelude Cpp Extern Regex Util VaeTypes Xml XmlRef Query Site Response.
From S2P Require QuerySpec ResponseSpec.

(** [shared_ptr<Site>]: several sessions share a site. *)
Abbreviation site_ptr := positive.

Record Session := { createdAt : Z; responses : list Response; site : site_ptr }.

(** [Session::Session]; [now] is [time(NULL)]. *)
Definition Session_new (s : site_ptr) (now : Z) : Session :=
  {| createdAt := now; responses := []; site := s |}.

(** [responses.push_back(r)]. *)
Definition push_back (r : Response) (s : Session) : Session :=
  {| createdAt := createdAt s; responses := responses s ++ [r]; site := site s |}.

Definition invalid_response : exn := InternalError "Invalid responseId".

(** [responses[i]]. *)
Definition element (l : list Response) (i : Z) : option Response :=
  if (i <? 0)%Z then None else l !! Z.to_nat i.

Definition set_response_id (i : Z) (r : VaeDbResponse) : VaeDbResponse :=
  {| response_id := i; response_contexts := response_contexts r |}.

(** A method runs on the session and on its site. *)
Definition on_site {A} (m : eff Site A) : eff (Session * Site) A := zoom snd (λ st s, (s.1, st)) m.

Section session.
Context {clib : CLib} `{Boost} `{Pcre} `{LibXml} `{Algorithms}.

(** [responses.size() >= responseId] converts the identifier to [size_t]. *)
Definition response_at (responseId : Z) : eff (Session * Site) Response :=
  l ← gets (λ s, responses s.1);
  if (size_t responseId <=? Z.of_nat (length l))%Z
  then deref "responses[-1]" (element l (responseId - 1))
  else throw invalid_response.

Definition parent_of (responseId : Z) : eff (Session * Site) (option Response) :=
  if decide (responseId = 0%Z) then mret None
  else r ← response_at responseId; mret (Some r).

Definition createInfo (responseId : Z) (query : string)
    : eff (Session * Site) VaeDbCreateInfoResponse :=
  parent ← parent_of responseId;
  response ← on_site (Response_create parent query);
  mret (writeVaeDbCreateInfoResponse response).

Definition data (responseId : Z) : eff (Session * Site) VaeDbDataResponse :=
  response ← response_at responseId;
  on_site (writeVaeDbDataResponse response).

Definition get (responseId : Z) (query : string) (options : gmap string string)
    : eff (Session * Site) VaeDbResponse :=
  parent ← parent_of responseId;
  response ← on_site (Response_query parent query options);
  _return ← on_site (writeVaeDbResponse response);
  n ← gets (λ s, length (responses s.1));
  modify (λ s, (push_back response s.1, s.2));;
  mret (set_response_id (wrap32 (Z.of_nat n + 1)) _return).

Definition structure (responseId : Z) : eff (Session * Site) VaeDbStructureResponse :=
  response ← response_at responseId;
  on_site (writeVaeDbStructureResponse response).
End session.

(** * Numbering *)

Section numbering.
Context {clib : CLib} `{Boost} `{Pcre} `{LibXml} `{Algorithms}.

(** The number of a response: what the client may send. *)
Definition names (l : list Response) (i : Z) (r : Response) : Prop :=
  (1 ≤ i)%Z ∧ l !! Z.to_nat (i - 1) = Some r.

Lemma names_append l i r k : names l i r → names (l ++ k) i r.
Proof. intros [? E]. split; [done|]. by apply lookup_app_l_Some. Qed.

Lemma response_at_named i r s st :
  names (responses s) i r → (i < 2 ^ 31)%Z → response_at i (s, st) = (Ok r, (s, st)).
Proof.
  intros [Hi Hr] Hb. unfold response_at. rewrite eff_bind_gets. simpl.
  pose proof (lookup_lt_Some _ _ _ Hr). rewrite size_t_id by lia.
  rewrite (proj2 (Z.leb_le _ _)) by lia. unfold element.
  by rewrite (proj2 (Z.ltb_ge _ _)), Hr by lia.
Qed.

Lemma response_at_unnamed i s st :
  (- 2 ^ 31 ≤ i < 2 ^ 31)%Z → i ≠ 0%Z → (∀ r, ¬ names (responses s) i r) →
  (Z.of_nat (length (responses s)) < 2 ^ 31)%Z →
  response_at i (s, st) = (Throw invalid_response, (s, st)).
Proof.
  intros Hi Hz Hn Hl. unfold response_at. rewrite eff_bind_gets. simpl.
  rewrite (proj2 (Z.leb_gt _ _)); [done|].
  destruct (decide (i < 0)%Z) as [Hneg|].
  { pose proof (size_t_negative i ltac:(lia)). lia. }
  rewrite size_t_id by lia. destruct (responses s !! Z.to_nat (i - 1)) as [r|] eqn:E.
  - by destruct (Hn r); split; [lia|].
  - apply lookup_ge_None in E. lia.
Qed.

Lemma on_site_eq {A} (m : eff Site A) s st :
  on_site m (s, st) = ((m st).1, (s, (m st).2)).
Proof. unfold on_site, zoom. simpl. by destruct (m st). Qed.

Lemma on_site_ok {A} (m : eff Site A) s st o st' :
  m st = (o, st') → on_site m (s, st) = (o, (s, st')).
Proof. intros E. by rewrite on_site_eq, E. Qed.

Lemma get_ok parent i query options s st r st1 w st2 :
  parent_of i (s, st) = (Ok parent, (s, st)) →
  Response_query parent query options st = (Ok r, st1) →
  writeVaeDbResponse r st1 = (Ok w, st2) →
  get i query options (s, st)
  = (Ok (set_response_id (wrap32 (Z.of_nat (length (responses s)) + 1)) w), (push_back r s, st2)).
Proof.
  intros Ep Er Ew. unfold get. rewrite (eff_bind_ok _ _ _ _ _ Ep).
  rewrite (eff_bind_ok _ _ _ _ _ (on_site_ok _ s _ _ _ Er)).
  by rewrite (eff_bind_ok _ _ _ _ _ (on_site_ok _ s _ _ _ Ew)).
Qed.

(** ** Later calls *)

(** The calls of a session, and running one after the other, whatever they
    answer. *)
Inductive call :=
| CreateInfo (responseId : Z) (query : string)
| Data (responseId : Z)
| Get (responseId : Z) (query : string) (options : gmap string string)
| Structure (responseId : Z).

Definition perform (c : call) (s : Session * Site) : Session * Site :=
  match c with
  | CreateInfo i q => (createInfo i q s).2
  | Data i => (data i s).2
  | Get i q o => (get i q o s).2
  | Structure i => (structure i s).2
  end.

(** A session only grows. *)
Definition grown (s : Session) (t : Session * Site) : Prop :=
  createdAt t.1 = createdAt s ∧ site t.1 = site s ∧ responses s `prefix_of` responses t.1.

Lemma grown_on_site {A} s (m : eff Site A) : preserves (grown s) (on_site m).
Proof. intros [s' st] Hs. by rewrite on_site_eq. Qed.
Lemma grown_response_at s i : preserves (grown s) (response_at i).
Proof.
  apply preserves_bind; [auto with eff|]. intros l. case_match; auto with eff.
Qed.
Lemma grown_parent_of s i : preserves (grown s) (parent_of i).
Proof.
  unfold parent_of. case_decide; [auto with eff|].
  apply preserves_bind; [apply grown_response_at|auto with eff].
Qed.
#[local] Hint Resolve grown_on_site grown_response_at grown_parent_of : eff.

Lemma perform_grown c s t : grown s t → grown s (perform c t).
Proof.
  revert t. destruct c; simpl; change (∀ t, ?P t → ?P (?m t).2) with (preserves P m).
  - unfold createInfo. auto with eff.
  - unfold data. auto with eff.
  - do 4 (apply preserves_bind; [auto with eff|intros ?]). apply preserves_bind; [|auto with eff].
    apply preserves_modify. intros t (? & ? & Hp). split_and!; [done..|]. by apply prefix_app_r.
  - unfold structure. auto with eff.
Qed.

Lemma performed_grown l s t : grown s t → grown s (foldl (λ t c, perform c t) t l).
Proof. revert t. induction l as [|c l IH]; intros t Ht; [done|]. by apply IH, perform_grown. Qed.

(** C14: a response keeps its number: the identifier that [get] answers is not
    in use, and after any further calls, failed ones included, it still
    denotes the response that was computed. *)
Theorem response_ids_stable i query options s st w s1 st1 later :
  (Z.of_nat (length (responses s)) < 2 ^ 31 - 1)%Z →
  get i query options (s, st) = (Ok w, (s1, st1)) →
  ∃ parent r st', Response_query parent query options st = (Ok r, st') ∧
    (∀ r', ¬ names (responses s) (response_id w) r') ∧
    (let '(s2, st2) := foldl (λ t c, perform c t) (s1, st1) later in
     response_at (response_id w) (s2, st2) = (Ok r, (s2, st2)) ∧
     data (response_id w) (s2, st2) =
       ((writeVaeDbDataResponse r st2).1, (s2, (writeVaeDbDataResponse r st2).2))).
Proof.
  intros Hl Hg. unfold get in Hg.
  apply eff_bind_inv in Hg as (parent & [s0 st0] & Ep & Hg).
  assert ((s0, st0) = (s, st)) as [= -> ->].
  { revert Ep. unfold parent_of, response_at. case_decide; [by intros [= _ <- <-]|].
    rewrite eff_bind_assoc, eff_bind_gets. case_match; [|done].
    destruct (element _ _); [|done]. by intros [= _ <- <-]. }
  apply eff_bind_inv in Hg as (r & [s0 st0] & Er & Hg).
  rewrite on_site_eq in Er. injection Er as Er <- E0.
  apply eff_bind_inv in Hg as (v & [s0' st0'] & Ew & Hg).
  rewrite on_site_eq in Ew. injection Ew as Ew <- E0'.
  rewrite eff_bind_gets, eff_bind_modify in Hg. simpl in Hg. injection Hg as <- <- ->.
  exists parent, r, st0. split; [by rewrite <- Er, <- E0; destruct (Response_query _ _ _ _)|].
  simpl response_id. rewrite wrap32_id by lia. split.
  { intros r' [_ Hr']. apply lookup_lt_Some in Hr'. lia. }
  destruct (foldl _ _ later) as [s2 st2] eqn:E2.
  assert (grown (push_back r s) (s2, st2)) as (_ & _ & Hp) by (rewrite <- E2; by apply performed_grown).
  assert (names (responses s2) (Z.of_nat (length (responses s)) + 1) r) as Hn.
  { destruct Hp as [k Hp]. simpl in Hp. rewrite Hp. apply names_append. split; [lia|].
    rewrite lookup_app_r by lia. by replace (_ - length (responses s)) with 0 by lia. }
  pose proof (response_at_named _ _ s2 st2 Hn ltac:(lia)) as Ea. split; [done|].
  unfold data. rewrite (eff_bind_ok _ _ _ _ _ Ea). apply on_site_eq.
Qed.

(** C37: a number that no response has, other than 0, is refused with the same
    error by the four calls, which then change nothing; 0 means no parent for
    [createInfo] and [get], but [data] and [structure] read before the first
    element of the vector. *)
Theorem invalid_response_ids i query options s st :
  (- 2 ^ 31 ≤ i < 2 ^ 31)%Z → (Z.of_nat (length (responses s)) < 2 ^ 31)%Z →
  (∀ r, ¬ names (responses s) i r) →
  if decide (i = 0%Z)
  then data i (s, st) = (UB "responses[-1]", (s, st))
     ∧ structure i (s, st) = (UB "responses[-1]", (s, st))
     ∧ createInfo i query (s, st)
       = (writeVaeDbCreateInfoResponse <$> (Response_create None query st).1,
          (s, (Response_create None query st).2))
  else ∀ c, c ∈ [CreateInfo i query; Data i; Get i query options; Structure i] →
       perform c (s, st) = (s, st) ∧
       match c with
       | CreateInfo i q => (createInfo i q (s, st)).1 = Throw invalid_response
       | Data i => (data i (s, st)).1 = Throw invalid_response
       | Get i q o => (get i q o (s, st)).1 = Throw invalid_response
       | Structure i => (structure i (s, st)).1 = Throw invalid_response
       end.
Proof.
  intros Hi Hl Hn. case_decide as Hz.
  - subst i. assert (response_at 0 (s, st) = (UB "responses[-1]", (s, st))) as E.
    { unfold response_at. rewrite eff_bind_gets. cbn [fst]. rewrite size_t_id by done.
      by rewrite (proj2 (Z.leb_le _ _)) by lia. }
    unfold data, structure, mbind, eff_mbind, eff_bind. rewrite E. split; [done|]. split; [done|].
    unfold createInfo, parent_of. rewrite decide_True by done. rewrite eff_bind_ret.
    unfold mbind, eff_mbind, eff_bind. rewrite on_site_eq.
    by destruct (Response_create None query st) as [[] ?].
  - pose proof (response_at_unnamed i s st Hi Hz Hn Hl) as E.
    assert (parent_of i (s, st) = (Throw invalid_response, (s, st))) as Ep.
    { unfold parent_of. rewrite decide_False by done. by apply eff_bind_throw. }
    intros c Hc. rewrite !elem_of_cons, elem_of_nil in Hc.
    destruct Hc as [->|[->|[->|[->|[]]]]]; simpl;
      unfold createInfo, data, get, structure;
      first [rewrite (eff_bind_throw _ _ _ _ _ E)|rewrite (eff_bind_throw _ _ _ _ _ Ep)]; done.
Qed.
End numbering.

(** * A session of the demonstration site *)

#[local] Existing Instances BoostRef.boost_ref demo_libxml ResponseSpec.SortRef.algorithms.

Module Demo.
Definition opened : Session * Site := (Session_new 1 100, QuerySpec.Demo.site).
Definition first_answer : VaeDbResponse :=
  Eval vm_compute in
  match (get 0 "/artist" ∅ opened).1 with Ok w => w | _ => VaeDbResponse_default end.
Definition after : Session * Site := Eval vm_compute in (get 0 "/artist" ∅ opened).2.
Lemma answered : get 0 "/artist" ∅ opened = (Ok first_answer, after).
Proof. vm_compute. reflexivity. Qed.
End Demo.

Example response_ids_stable_witness :
  ∃ r, let '(s2, st2) := foldl (λ t c, perform c t) (Demo.after.1, Demo.after.2)
                           [Data 1; Get 1 "name" ∅; Structure 5; CreateInfo 0 "album"] in
       response_at 1 (s2, st2) = (Ok r, (s2, st2)).
Proof.
  destruct (response_ids_stable 0 "/artist" ∅ Demo.opened.1 Demo.opened.2 Demo.first_answer
    Demo.after.1 Demo.after.2 [Data 1; Get 1 "name" ∅; Structure 5; CreateInfo 0 "album"]
    ltac:(vm_compute; reflexivity) Demo.answered) as (parent & r & st' & _ & _ & Hr).
  exists r. revert Hr. destruct (foldl _ _ _) as [s2 st2]. intros [Hr _]. exact Hr.
Defined.

Example invalid_response_ids_witness :
  (data 3 Demo.after).1 = Throw invalid_response ∧ (data 0 Demo.after).1 = UB "responses[-1]".
Proof.
  split.
  - refine (proj2 (invalid_response_ids 3 "" ∅ Demo.after.1 Demo.after.2 _ _ _ (Data 3) _));
      [vm_compute; split; [discriminate|reflexivity]|vm_compute; reflexivity| |].
    + intros r [_ Hr]. vm_compute in Hr. discriminate.
    + rewrite list_elem_of_In. simpl. auto.
  - refine (f_equal fst (proj1 (invalid_response_ids 0 "" ∅ Demo.after.1 Demo.after.2 _ _ _)));
      [vm_compute; split; [discriminate|reflexivity]|vm_compute; reflexivity|].
    intros r [Hr _]. vm_compute in Hr. by destruct Hr.
Defined.
