(* ===== verification/SiteFrame.v ===== *)
(** What the operations of a site never change: loading keeps its name, mode
    and keys; the calls of sessions also keep its document and generation. *)
From Stdlib Require Import ZArith.
From S2P Require Import Prelude Cpp Extern VaeTypes Xml Query Site SiteSpec Response Session.
From S2P Require LruCache.

(** [sort] and [random_shuffle] touch the site through the comparison only. *)
Class AlgorithmFrame `{Algorithms} : Prop := {
  sort_frame (I : Site → Prop) cmp l :
    (∀ a b, preserves I (cmp a b)) → preserves I (sort cmp l);
  shuffle_frame (I : Site → Prop) l : preserves I (random_shuffle l);
}.

Create HintDb frame discriminated.

(** * Loading *)

Definition identity (s : Site) : string * bool * list string :=
  (subdomain s, stagingMode s, secretKeys s).

Section loading.
Context `{Boost} `{Pcre} `{LibXml}.
Variable x : string * bool * list string.
Abbreviation I := (λ s, identity s = x).

Lemma id_in_tree {A} (f : Tree → outcome A) : preserves I (in_tree f).
Proof. by intros s. Qed.
Lemma id_node_at p : preserves I (node_at p).
Proof. by intros s. Qed.
Lemma id_context_at c : preserves I (context_at c).
Proof. by intros s. Qed.
Lemma id_set_tree f : preserves I (modify (set_tree f)).
Proof. by intros s. Qed.
Lemma id_modify_doc f : preserves I (modify_doc f).
Proof. by intros s. Qed.
Lemma id_set_structures f : preserves I (modify (set_structures f)).
Proof. by intros s. Qed.
Lemma id_set_associations f : preserves I (modify (set_associations f)).
Proof. by intros s. Qed.
Lemma id_set_clean l l2 : preserves I (modify (set_clean l l2)).
Proof. by intros s. Qed.
Lemma id_set_generation g : preserves I (modify (set_generation g)).
Proof. by intros s. Qed.
Lemma id_put_context c y : preserves I (put_context c y).
Proof. by intros s. Qed.
Lemma id_new_context c :
  preserves I (modify (λ s, set_next_context (Pos.succ c) (set_caches (<[c := ContextCache_new]>) s))).
Proof. by intros s. Qed.
Lemma id_delete_context c : preserves I (delete_context c).
Proof. by intros s. Qed.
#[local] Hint Resolve id_in_tree id_node_at id_context_at id_set_tree id_modify_doc
  id_set_structures id_set_associations id_set_clean id_set_generation id_put_context
  id_new_context id_delete_context : frame.

Lemma id_populateAttrs p : preserves I (populateAttrs p).
Proof. unfold populateAttrs, structureFromStructureId. preserve; auto with frame. Qed.
#[local] Hint Resolve id_populateAttrs : frame.

Lemma id_construction fuel :
  (∀ p, preserves I (Context_new fuel p)) ∧ (∀ top child, preserves I (children_loop fuel top child)).
Proof.
  induction fuel as [|fuel [IH1 IH2]]; [by split; intros; apply preserves_no_fuel|].
  split; intros; cbn [Context_new children_loop];
    unfold getSingleData_node, attach; preserve; eauto with frame.
Qed.

Lemma id_initializeAssociation c : preserves I (initializeAssociation c).
Proof.
  unfold initializeAssociation, getSingleData_node, forward_association, reverse_association,
    copy_node. preserve; auto with frame.
Qed.

Lemma id_load testMode rawxml : preserves I (loadXmlDoc testMode rawxml).
Proof.
  unfold loadXmlDoc, one_node. preserve; auto with frame;
    first [apply (proj2 (id_construction _))|apply id_initializeAssociation].
Qed.
End loading.

(** A site outside test mode answers to the name and keys it was made with. *)
Lemma Site_new_identity `{Boost} `{Pcre} `{LibXml} su staging keys rawxml s :
  Site_new false su staging keys rawxml = Ok s →
  identity s = (su, staging, split_any_of (",;" +:+ String "010" EmptyString) keys).
Proof.
  unfold Site_new. pose proof (id_load (identity (Site_init false su staging keys)) false rawxml
    (Site_init false su staging keys) eq_refl) as Hl.
  destruct (loadXmlDoc _ _ _) as [[] s1]; [|done..]. intros [= <-]. exact Hl.
Qed.

(** * Answering *)

Definition frozen_parts : Type := string * bool * list string * Z * Tree * list ptr * list ptr.
Definition frozen (s : Site) : frozen_parts :=
  (identity s, generation s, tree s, nodesToClean s, nodesToClean2 s).

Section answering.
Context {clib : CLib} `{Boost} `{Pcre} `{LibXml} `{AlgorithmFrame}.
Variable x : frozen_parts.
Abbreviation I := (λ s, frozen s = x).

Lemma frozen_in_tree {A} (f : Tree → outcome A) : preserves I (in_tree f).
Proof. by intros s. Qed.
Lemma frozen_node_at p : preserves I (node_at p).
Proof. by intros s. Qed.
Lemma frozen_context_at c : preserves I (context_at c).
Proof. by intros s. Qed.
Lemma frozen_set_caches f : preserves I (modify (set_caches f)).
Proof. by intros s. Qed.
Lemma frozen_query_cache {A} (m : eff QueryCache A) : preserves I (zoom query_cache set_query_cache m).
Proof. intros s Hs. unfold zoom. by destruct (m _). Qed.
#[local] Hint Resolve frozen_in_tree frozen_node_at frozen_context_at frozen_set_caches
  frozen_query_cache : frame.

Lemma frozen_cache_at c : preserves I (cache_at c).
Proof. unfold cache_at. preserve. Qed.
#[local] Hint Resolve frozen_cache_at : frame.
Lemma frozen_fetch_query k : preserves I (fetch_query k).
Proof. unfold fetch_query. preserve; auto with frame. Qed.
Lemma frozen_populateData c : preserves I (populateData c).
Proof. unfold populateData. preserve; auto with frame. Qed.
#[local] Hint Resolve frozen_fetch_query frozen_populateData : frame.
Lemma frozen_getData c q : preserves I (getData c q).
Proof. unfold getData. preserve; auto with frame. Qed.
Lemma frozen_getCount c q : preserves I (getCount c q).
Proof. unfold getCount. preserve; auto with frame. Qed.
Lemma frozen_getId c : preserves I (getId c).
Proof. unfold getId. preserve; auto with frame. Qed.
#[local] Hint Resolve frozen_getData frozen_getCount frozen_getId : frame.

Lemma frozen_sortCallback fields a b : preserves I (sortCallback fields a b).
Proof. induction fields; cbn [sortCallback]; preserve; auto with frame. Qed.
Lemma frozen_unique_value c fields v : preserves I (unique_value c fields v).
Proof. revert v. induction fields; intros v; cbn [unique_value]; preserve; auto with frame. Qed.
#[local] Hint Resolve frozen_sortCallback frozen_unique_value : frame.

Lemma frozen_visit o i j p g : preserves I (visit o i j p g).
Proof. unfold visit, accept, uniqueMatch. preserve; auto with frame. Qed.
Lemma frozen_visit_all o i j l g : preserves I (visit_all o i j l g).
Proof.
  revert g. induction l; intros g; cbn [visit_all]; preserve; auto using frozen_visit with frame.
Qed.
Lemma frozen_pick_contexts q i n : preserves I (pick_contexts q i n).
Proof. revert i. induction n; intros i; cbn [pick_contexts]; preserve; auto with frame. Qed.
Lemma frozen_order o l : preserves I (order o l).
Proof.
  unfold order. destruct (sortType o); [apply preserves_ret..| |].
  - by apply (shuffle_frame (λ s, frozen s = x)).
  - apply (sort_frame (λ s, frozen s = x)). auto with frame.
Qed.
#[local] Hint Resolve frozen_visit_all frozen_pick_contexts frozen_order : frame.

Lemma frozen_query o c q : preserves I (query o c q).
Proof. unfold query, pick. preserve; auto with frame. Qed.
Lemma frozen_createInfo c q : preserves I (Response.createInfo c q).
Proof. unfold Response.createInfo, create_context. preserve; auto with frame. Qed.
Lemma frozen_map_eff {A B} (f : A → eff Site B) l :
  (∀ a, preserves I (f a)) → preserves I (map_eff f l).
Proof. intros Hf. induction l; cbn [map_eff]; preserve; auto with frame. Qed.
#[local] Hint Resolve frozen_query frozen_createInfo frozen_map_eff : frame.

Lemma frozen_Response_query parent q o : preserves I (Response_query parent q o).
Proof. unfold Response_query. preserve; auto with frame. Qed.
Lemma frozen_Response_create parent q : preserves I (Response_create parent q).
Proof. unfold Response_create. preserve; auto with frame. Qed.
Lemma frozen_write r : preserves I (writeVaeDbResponse r).
Proof.
  unfold writeVaeDbResponse, toVaeDbContext. preserve; auto with frame.
  apply frozen_map_eff. intros rc. preserve; auto with frame.
  apply frozen_map_eff. intros c. preserve; auto with frame.
Qed.
Lemma frozen_write_data r : preserves I (writeVaeDbDataResponse r).
Proof.
  unfold writeVaeDbDataResponse, toVaeDbDataForContext. preserve; auto with frame.
  apply frozen_map_eff. intros rc. preserve; auto with frame.
Qed.
Lemma frozen_write_structure r : preserves I (writeVaeDbStructureResponse r).
Proof.
  unfold writeVaeDbStructureResponse, toVaeDbStructureForContext. preserve; auto with frame.
  apply frozen_map_eff. intros rc. preserve; auto with frame.
Qed.
#[local] Hint Resolve frozen_Response_query frozen_Response_create frozen_write frozen_write_data
  frozen_write_structure : frame.

(** ** Sessions *)

Lemma frozen_on_site {A} (m : eff Site A) :
  preserves I m → preserves (λ t : Session * Site, frozen t.2 = x) (on_site m).
Proof. intros Hm [s st] Hs. rewrite on_site_eq. by apply (Hm st). Qed.
Lemma frozen_response_at i : preserves (λ t : Session * Site, frozen t.2 = x) (response_at i).
Proof. unfold response_at. preserve. Qed.
Lemma frozen_parent_of i : preserves (λ t : Session * Site, frozen t.2 = x) (parent_of i).
Proof. unfold parent_of. preserve; apply frozen_response_at. Qed.
#[local] Hint Resolve frozen_on_site frozen_response_at frozen_parent_of : frame.

Lemma frozen_perform c t : frozen t.2 = x → frozen (perform c t).2 = x.
Proof.
  revert t. destruct c; simpl;
    change (∀ t, frozen t.2 = x → frozen ((?m t).2).2 = x)
      with (preserves (λ t : Session * Site, frozen t.2 = x) m).
  - unfold createInfo. preserve; auto with frame.
  - unfold data. preserve; auto with frame.
  - unfold get. preserve; auto with frame. by apply preserves_modify.
  - unfold structure. preserve; auto with frame.
Qed.
End answering.

Section read_only.
Context {clib : CLib} `{Boost} `{Pcre} `{LibXml} `{AlgorithmFrame}.

(** Only the caches differ. *)
Record content_kept (st st' : Site) : Prop := {
  kept_tree : tree st' = tree st;
  kept_generation : generation st' = generation st;
  kept_keys : secretKeys st' = secretKeys st;
  kept_subdomain : subdomain st' = subdomain st;
  kept_mode : stagingMode st' = stagingMode st;
  kept_clean : nodesToClean st' = nodesToClean st;
  kept_clean2 : nodesToClean2 st' = nodesToClean2 st;
}.

(** C26: answering never writes: whatever calls the sessions of a site make,
    and however they end, its document, contexts, keys, name and generation stay
    as they were loaded; only the caches change. *)
Theorem session_calls_read_only l (s : Session) (st : Site) :
  content_kept st (foldl (λ t c, perform c t) (s, st) l).2.
Proof.
  assert (∀ t, frozen t.2 = frozen st → frozen (foldl (λ t c, perform c t) t l).2 = frozen st)
    as Hfold.
  { induction l as [|c l IH]; intros t Ht; [done|]. by apply IH, frozen_perform. }
  specialize (Hfold (s, st) eq_refl). destruct (foldl _ _ _) as [s' st']. simpl in Hfold.
  injection Hfold. intros. by split.
Qed.
End read_only.

(** The concrete algorithms of [ResponseSpec]. *)
From S2P Require ResponseSpec.

#[export] Instance algorithm_frame_ref : AlgorithmFrame (H := ResponseSpec.SortRef.algorithms).
Proof.
  split.
  - intros I cmp l Hc. unfold sort. simpl. induction l as [|x l IH]; cbn; [apply preserves_ret|].
    apply preserves_bind; [done|]. clear IH. intros r. induction r as [|y r IH]; cbn; [apply preserves_ret|].
    preserve; auto.
  - intros I l. apply preserves_ret.
Qed.
