(* ===== verification/SiteDestroy.v ===== *)
(** The destructor of a site ([Site::~Site] and [freeContexts] in
    [cpp/site.cpp]), on the aliased document that associations leave behind: the
    nodes that were made to share the content of others are cut loose first, then
    the contexts are freed on a walk over the document. *)
From Stdlib Require Import ZArith.
From S2P Require Import Prelude Cpp Extern Regex Util VaeTypes Xml XmlRef Query Site.
From S2P Require QuerySpec SiteSpec ResponseSpec Session SiteFrame.

(** * The destructor *)

Section destructor.
Context `{Boost} `{Pcre} `{LibXml}.

(** The bodies of the two loops over [nodesToClean] and [nodesToClean2]. *)
Definition clean_pointer (it : ptr) : eff Site unit :=
  _ ← node_at (Some it);
  modify_doc (alter (λ x, set_private None (set_properties [] (set_children None (set_last None x)))) it).
Definition clean_association (it : ptr) : eff Site unit :=
  n ← node_at (Some it);
  match children n with
  | Some ch => _ ← node_at (Some ch); modify_doc (alter (set_next None) ch)
  | None => mret ()
  end;;
  modify_doc (alter (λ x, set_private None (set_properties [] (set_last (children x) x))) it).

Definition clean_nodes : eff Site unit :=
  pointers ← gets nodesToClean;
  for_each clean_pointer pointers;;
  associations ← gets nodesToClean2;
  for_each clean_association associations.

(** [delete]: undefined for an address that is not that of a live object. *)
Definition free_context (c : cptr) : eff Site unit := _ ← context_at c; delete_context c.

(** The loop of [freeContexts] from one child on. *)
Fixpoint free_children (fuel : nat) (child : option ptr) : eff Site unit :=
  match child with
  | None => mret ()
  | Some _ =>
      match fuel with
      | O => no_fuel
      | S fuel =>
          n ← node_at child;
          (if decide (type n = XML_ELEMENT_NODE) then
             match _private n with Some c => free_context c | None => mret () end;;
             free_children fuel (children n)
           else mret ());;
          free_children fuel (next n)
      end
  end.
Definition freeContexts (fuel : nat) (node : option ptr) : eff Site unit :=
  n ← node_at node; free_children fuel (children n).

Definition forget_lists (s : Site) : Site :=
  {| tree := tree s; generation := generation s; subdomain := subdomain s;
     secretKeys := secretKeys s; structures := structures s;
     associationsToInitialize := associationsToInitialize s; query_cache := query_cache s;
     nodesToClean := []; nodesToClean2 := [];
     stagingMode := stagingMode s; caches := caches s; next_context := next_context s |}.

(** The library's [xmlFreeDoc] is an argument. *)
Definition Site_destroy (xmlFreeDoc : heap → heap) : eff Site unit :=
  clean_nodes;;
  modify forget_lists;;
  root ← gets (λ s, rootNode (tree s));
  h ← gets (λ s, doc (tree s));
  freeContexts (size h) root;;
  modify_doc xmlFreeDoc;;
  modify (set_tree (set_nodes (λ _, ∅)));;
  modify (set_structures (λ _, ∅)).

(** ** The walk *)

(** The nodes that the loop meets. *)
Fixpoint walk (fuel : nat) (h : heap) (child : option ptr) : outcome (list ptr) :=
  match child with
  | None => Ok []
  | Some q =>
      match fuel with
      | O => OutOfFuel
      | S fuel =>
          n ← node_of h child;
          below ← (if decide (type n = XML_ELEMENT_NODE) then walk fuel h (children n) else Ok []);
          rest ← walk fuel h (next n);
          mret (q :: below ++ rest)
      end
  end.

Lemma walk_inv fuel h q l :
  walk fuel h (Some q) = Ok l →
  ∃ fuel' n below rest, fuel = S fuel' ∧ h !! q = Some n ∧
    (if decide (type n = XML_ELEMENT_NODE) then walk fuel' h (children n) else Ok []) = Ok below ∧
    walk fuel' h (next n) = Ok rest ∧ l = q :: below ++ rest.
Proof.
  destruct fuel as [|fuel]; [done|]. cbn [walk node_of].
  destruct (h !! q) as [n|]; [|done]. cbn [mbind outcome_mbind outcome_bind].
  destruct (if decide _ then _ else _) as [below| | |] eqn:Eb; try done. cbn [mbind outcome_mbind outcome_bind].
  destruct (walk fuel h (next n)) as [rest| | |] eqn:Er; try done.
  intros [= <-]. by exists fuel, n, below, rest.
Qed.

(** One level of fuel for each node that the walk meets is enough. *)
Lemma walk_enough fuel fuel' h child l :
  walk fuel h child = Ok l → length l ≤ fuel' → walk fuel' h child = Ok l.
Proof.
  revert fuel' child l. induction fuel as [|fuel IH]; intros fuel' [q|] l Hw Hl;
    [done|by destruct fuel'| |by destruct fuel'].
  apply walk_inv in Hw as (f & n & below & rest & [= <-] & Hq & Eb & Er & ->).
  simpl in Hl. rewrite length_app in Hl. destruct fuel' as [|fuel']; [lia|].
  cbn [walk node_of]. rewrite Hq. cbn [mbind outcome_mbind outcome_bind].
  rewrite (IH fuel' (next n) rest) by (done || lia).
  case_decide; [rewrite (IH fuel' (children n) below) by (done || lia)|injection Eb as <-]; done.
Qed.

Lemma walk_nodes fuel h child l : walk fuel h child = Ok l → ∀ q, q ∈ l → is_Some (h !! q).
Proof.
  revert child l. induction fuel as [|fuel IH]; intros [q|] l Hw; [done| | |].
  1, 3: injection Hw as <-; by intros ? ?%not_elem_of_nil.
  apply walk_inv in Hw as (f & n & below & rest & [= <-] & Hq & Eb & Er & ->).
  intros r [->|[Hr|Hr]%elem_of_app]%elem_of_cons; [by eexists| |by eapply (IH _ _ Er)].
  case_decide; [by eapply (IH _ _ Eb)|]. injection Eb as <-. by apply not_elem_of_nil in Hr.
Qed.

Lemma walk_fuel fuel h child l :
  walk fuel h child = Ok l → NoDup l → walk (size h) h child = Ok l.
Proof.
  intros Hw Hl. apply (walk_enough fuel); [done|].
  rewrite <- (size_list_to_set (C := gset ptr)) by done. rewrite <- size_dom.
  apply subseteq_size. intros q Hq%elem_of_list_to_set. by eapply elem_of_dom, walk_nodes.
Qed.

(** The contexts that a walk frees. *)
Definition freed (h : heap) (l : list ptr) : list cptr :=
  omap (λ q, n ← h !! q; if decide (type n = XML_ELEMENT_NODE) then _private n else None) l.

(** What freeing a list of contexts leaves. *)
Definition without_contexts (cs : list cptr) (s : Site) : Site :=
  set_tree (set_contexts (λ m, foldr delete m cs)) (set_caches (λ m, foldr delete m cs) s).

Lemma without_nothing s : without_contexts [] s = s.
Proof. by destruct s as [[]]. Qed.

Lemma without_more cs cs' s :
  without_contexts cs' (without_contexts cs s) = without_contexts (cs' ++ cs) s.
Proof. unfold without_contexts, set_tree, set_contexts, set_caches. simpl. by rewrite !foldr_app. Qed.

Lemma without_doc cs s : doc (tree (without_contexts cs s)) = doc (tree s).
Proof. done. Qed.
Lemma without_live cs s c :
  c ∉ cs → is_Some (contexts (tree s) !! c) → is_Some (contexts (tree (without_contexts cs s)) !! c).
Proof. intros Hc Hs. simpl. by rewrite lookup_foldr_delete_not_elem_of. Qed.

Lemma node_at_ok (s : Site) p n : doc (tree s) !! p = Some n → node_at (Some p) s = (Ok n, s).
Proof. intros Hp. unfold node_at, node_of. by rewrite Hp. Qed.

Lemma freed_app h l l' : freed h (l ++ l') = freed h l ++ freed h l'.
Proof. apply omap_app. Qed.

Lemma free_context_spec c s :
  is_Some (contexts (tree s) !! c) → free_context c s = (Ok (), without_contexts [c] s).
Proof.
  intros [x Hx]. unfold free_context, context_at, context_of.
  by rewrite (eff_bind_ok _ _ s x s) by by rewrite Hx.
Qed.

(** The first statement of the loop, for a node [n] of type element. *)
Lemma free_own_spec h q n s :
  h !! q = Some n → type n = XML_ELEMENT_NODE →
  (∀ c, c ∈ freed h [q] → is_Some (contexts (tree s) !! c)) →
  match _private n with Some c => free_context c | None => mret () end s
  = (Ok (), without_contexts (freed h [q]) s).
Proof.
  intros Hq Hn. unfold freed. simpl. rewrite Hq. simpl. rewrite decide_True by done.
  destruct (_private n) as [c|]; intros Hc; [|by rewrite without_nothing].
  apply free_context_spec, Hc. by left.
Qed.

(** Every context met by the walk is freed, once. *)
Lemma free_children_spec fuel child s l :
  walk fuel (doc (tree s)) child = Ok l → NoDup (freed (doc (tree s)) l) →
  (∀ c, c ∈ freed (doc (tree s)) l → is_Some (contexts (tree s) !! c)) →
  ∃ cs, free_children fuel child s = (Ok (), without_contexts cs s) ∧ cs ≡ₚ freed (doc (tree s)) l.
Proof.
  revert child s l. induction fuel as [|fuel IH]; intros [q|] s l Hw Hnd Hc; [done| | |].
  1, 3: injection Hw as <-; exists []; by rewrite without_nothing.
  apply walk_inv in Hw as (f & n & below & rest & [= <-] & Hq & Eb & Er & ->).
  set (h := doc (tree s)) in *.
  change (q :: below ++ rest) with ([q] ++ below ++ rest) in *. rewrite !freed_app in Hnd, Hc |- *.
  apply NoDup_app in Hnd as (_ & Hq' & (Hnb & Hbr & Hnr)%NoDup_app).
  assert (∃ c1, (if decide (type n = XML_ELEMENT_NODE) then
      match _private n with Some c => free_context c | None => mret () end;;
      free_children fuel (children n) else mret ()) s = (Ok (), without_contexts c1 s) ∧
      c1 ≡ₚ freed h [q] ++ freed h below) as (c1 & E1 & P1).
  { case_decide as Hn.
    - rewrite (eff_bind_ok _ _ _ _ _ (free_own_spec h q n s Hq Hn ltac:(set_solver))).
      destruct (IH (children n) (without_contexts (freed h [q]) s) below) as (cb & E2 & P2); [done|done| |].
      { intros c Hb. apply without_live; set_solver. }
      exists (cb ++ freed h [q]). rewrite E2, without_more. split; [done|].
      rewrite P2. by rewrite Permutation_app_comm.
    - injection Eb as <-. exists []. rewrite without_nothing. split; [done|].
      unfold freed. simpl. rewrite Hq. simpl. by rewrite decide_False. }
  destruct (IH (next n) (without_contexts c1 s) rest) as (c2 & E2 & P2); [done|done| |].
  { intros c Hr. apply without_live; [rewrite P1|]; set_solver. }
  exists (c2 ++ c1). split.
  - cbn [free_children]. rewrite (eff_bind_ok _ _ _ _ _ (node_at_ok s q n Hq)).
    rewrite (eff_bind_ok _ _ _ _ _ E1), E2. by rewrite without_more.
  - rewrite without_doc in P2. fold h in P2. rewrite P2, P1. by rewrite Permutation_app_comm, app_assoc.
Qed.
End destructor.

(** * The contexts of a loaded site *)

(** What the code relies on: [_private] is the program's own.  Parsing leaves it
    null, removing and adding nodes does not touch it, a copy has none. *)
Class LibXmlPrivate `{LibXml} : Prop := {
  read_private text h p n : xmlReadMemory text = Some h → h !! p = Some n → _private n = None;
  parse_private text h p n : xmlParseFile text = Some h → h !! p = Some n → _private n = None;
  unlink_private p h q n' : xmlUnlinkNode p h !! q = Some n' →
    ∃ n, h !! q = Some n ∧ _private n' = _private n;
  free_private p h q n' : xmlFreeNode p h !! q = Some n' →
    q ≠ p ∧ ∃ n, h !! q = Some n ∧ _private n' = _private n;
  free_list_private p h q n' : xmlFreeNodeList p h !! q = Some n' →
    ∃ n, h !! q = Some n ∧ _private n' = _private n;
  copy_private p h q n' : (xmlCopyNode p h).2 !! q = Some n' →
    (∃ n, h !! q = Some n ∧ _private n' = _private n) ∨ _private n' = None;
  add_private p c h q n' : xmlAddChild p c h !! q = Some n' →
    ∃ n, h !! q = Some n ∧ _private n' = _private n;
}.

Section ownership.
Context `{Boost} `{Pcre} `{LibXmlPrivate}.

(** The node that a context was made for. *)
Definition homes (s : Site) : gmap cptr ptr := node <$> contexts (tree s).
Definition cleaned (s : Site) (p : ptr) : Prop := p ∈ nodesToClean s ∨ p ∈ nodesToClean2 s.
Definition private_at (s : Site) (p : ptr) : option cptr := n ← doc (tree s) !! p; _private n.

(** A node that the destructor does not clean refers to no context but its own;
    the addresses of contexts are used once; no node refers yet to the contexts
    [l] that are being made. *)
Record ownership (priv : ptr → option cptr) (home : gmap cptr ptr) (free : cptr)
    (clean : ptr → Prop) (l : list cptr) : Prop := {
  own_home p c : priv p = Some c → ¬ clean p → home !! c = Some p;
  own_old c p : home !! c = Some p → (c < free)%positive;
  own_nodup : NoDup l;
  own_unused c : c ∈ l → (c < free)%positive ∧ ∀ p, priv p = Some c → ¬ clean p → False;
}.
Definition owned (l : list cptr) (s : Site) : Prop :=
  ownership (private_at s) (homes s) (next_context s) (cleaned s) l.

(** ** Operations that keep ownership *)

(** An edit of the document that gives no node a context. *)
Definition private_edit (f : heap → heap) : Prop :=
  ∀ h q n', f h !! q = Some n' → _private n' = None ∨ ∃ n, h !! q = Some n ∧ _private n' = _private n.

Lemma fewer_private priv priv' home free clean l :
  (∀ p c, priv' p = Some c → priv p = Some c) →
  ownership priv home free clean l → ownership priv' home free clean l.
Proof.
  intros Hp [Hh Ho Hn Hu]. split; [by eauto|done|done|]. intros c Hc.
  destruct (Hu c Hc). split; [done|]. eauto.
Qed.

Lemma owned_edit l f : private_edit f → preserves (owned l) (modify_doc f).
Proof.
  intros Hf s Hs. apply (fewer_private (private_at s)); [|exact Hs]. intros p c.
  unfold private_at. simpl. destruct (f _ !! p) as [n'|] eqn:E; [|done]. simpl. intros Hc.
  destruct (Hf _ _ _ E) as [Hn|(n & -> & Hn)]; simpl; congruence.
Qed.

Lemma edit_alter g p : (∀ n, _private (g n) = _private n) → private_edit (alter g p).
Proof.
  intros Hg h q n' [(-> & n & Hn & ->)|[_ Hq]]%lookup_alter_Some; right; [|by exists n'].
  exists n. by rewrite Hg.
Qed.
Lemma edit_unlink p : private_edit (xmlUnlinkNode p).
Proof. intros h q n' Hq. right. by eapply unlink_private. Qed.
Lemma edit_free p : private_edit (xmlFreeNode p).
Proof. intros h q n' [_ Hq]%free_private. by right. Qed.
Lemma edit_free_list p : private_edit (xmlFreeNodeList p).
Proof. intros h q n' Hq. right. by eapply free_list_private. Qed.
Lemma edit_add p c : private_edit (xmlAddChild p c).
Proof. intros h q n' Hq. right. by eapply add_private. Qed.

Lemma owned_new_context l c :
  ensures (λ s, owned l s ∧ next_context s = c)
    (modify (λ s, set_next_context (Pos.succ c) (set_caches (<[c := ContextCache_new]>) s)))
    (λ _, owned (c :: l)).
Proof.
  intros s [] s' [[Hh Ho Hn Hu] <-] [= <-]. split; simpl.
  - done.
  - intros c' p Hc%Ho. lia.
  - constructor; [|done]. intros [Hc _]%Hu. lia.
  - intros c' [->|Hc]%elem_of_cons.
    + split; [lia|]. intros p Hp Hcl. specialize (Ho _ _ (Hh _ _ Hp Hcl)). lia.
    + destruct (Hu c' Hc). split; [lia|done].
Qed.

Lemma homes_put c x s : homes (set_tree (set_contexts (<[c := x]>)) s) = <[c := node x]> (homes s).
Proof. unfold homes. simpl. by rewrite fmap_insert. Qed.
Lemma homes_delete c s : homes (set_tree (set_contexts (delete c)) s) = delete c (homes s).
Proof. unfold homes. simpl. by rewrite fmap_delete. Qed.

Lemma owned_put_context l c x :
  ensures (owned (c :: l)) (put_context c x)
    (λ _ s, owned (c :: l) s ∧ homes s !! c = Some (node x)).
Proof.
  intros s [] s' [Hh Ho Hn Hu] [= <-]. destruct (Hu c ltac:(by left)) as [Hlt Hc]. split.
  - split; try done.
    + intros p c' Hp Hcl. rewrite homes_put. destruct (decide (c' = c)) as [->|Hne].
      * by destruct (Hc p).
      * rewrite lookup_insert_ne by done. by apply Hh.
    + intros c' p. rewrite homes_put. intros [[<- _]|[_ Hp]]%lookup_insert_Some; [done|by eapply Ho].
  - by rewrite homes_put, lookup_insert_eq.
Qed.

(** Deleting a context that no node will be found to refer to. *)
Lemma owned_delete l c s :
  owned l s → (∀ p, private_at s p = Some c → ¬ cleaned s p → False) →
  owned l (delete_context c s).2.
Proof.
  intros [Hh Ho Hn Hu] Hc. split; try done.
  - intros p c' Hp Hcl. simpl. change (homes _) with (homes (set_tree (set_contexts (delete c)) s)).
    rewrite homes_delete, lookup_delete_ne; [by apply Hh|]. intros <-. by destruct (Hc p).
  - intros c' p. change (homes _) with (homes (set_tree (set_contexts (delete c)) s)).
    rewrite homes_delete. intros [_ Hp]%lookup_delete_Some. by eapply Ho.
Qed.

Lemma owned_weaken l c s : owned (c :: l) s → owned l s.
Proof.
  intros [Hh Ho Hn Hu]. split; [done..| |].
  - by apply NoDup_cons in Hn as [_ ?].
  - intros c' Hc. apply Hu. by right.
Qed.

Lemma owned_attach l c p :
  ensures (λ s, owned (c :: l) s ∧ homes s !! c = Some p) (attach p c) (λ _, owned l).
Proof.
  unfold attach. eapply ensures_bind.
  { apply ensures_keep. by intros s. }
  intros x. destruct (killMe x).
  - intros s [] s' [Hs _] H'. inv_bind H'. inv_bind H'.
    pose proof (owned_edit _ _ (edit_unlink p) _ Hs) as Hs1. rewrite E in Hs1. simpl in Hs1.
    pose proof (owned_edit _ _ (edit_free p) _ Hs1) as Hs2. rewrite E0 in Hs2. simpl in Hs2.
    apply (owned_weaken _ c).
    assert (owned (c :: l) (delete_context c s1).2) as Hd
      by (apply owned_delete; [done|]; apply (own_unused _ _ _ _ _ Hs2 c); by left).
    by rewrite H' in Hd.
  - intros s [] s' [[Hh Ho Hn Hu] Hp] [= <-].
    assert (∀ q c', private_at (set_tree (set_doc (alter (set_private (Some c)) p)) s) q = Some c' →
      (q = p ∧ c' = c) ∨ private_at s q = Some c') as Hpriv.
    { intros q c'. unfold private_at. simpl. destruct (decide (q = p)) as [->|Hne].
      - rewrite lookup_alter_eq. destruct (doc (tree s) !! p); [|done]. intros [= <-]. by left.
      - rewrite lookup_alter_ne by done. by right. }
    apply NoDup_cons in Hn as [Hnin Hn]. split; [|done|done|].
    + intros q c' [[-> ->]|Hq]%Hpriv Hcl; [done|by apply Hh].
    + intros c' Hc. destruct (Hu c' ltac:(by right)) as [Hlt Hc']. split; [done|].
      intros q [[-> ->]|Hq]%Hpriv Hcl; [done|by eapply Hc'].
Qed.

(** ** Construction *)

(** Operations that ownership does not look at. *)
Lemma owned_in_tree l {A} (f : Tree → outcome A) : preserves (owned l) (in_tree f).
Proof. by intros s. Qed.
Lemma owned_node_at l p : preserves (owned l) (node_at p).
Proof. by intros s. Qed.
Lemma owned_context_at l c : preserves (owned l) (context_at c).
Proof. by intros s. Qed.
Lemma owned_set_structures l f : preserves (owned l) (modify (set_structures f)).
Proof. by intros s. Qed.
Lemma owned_set_associations l f : preserves (owned l) (modify (set_associations f)).
Proof. by intros s. Qed.
Lemma owned_set_generation l g : preserves (owned l) (modify (set_generation g)).
Proof. by intros s. Qed.
Lemma owned_set_nodes l f : preserves (owned l) (modify (set_tree (set_nodes f))).
Proof. by intros s. Qed.
Lemma owned_set_permalinks l f : preserves (owned l) (modify (set_tree (set_permalinks f))).
Proof. by intros s. Qed.
Lemma owned_set_roots l r d : preserves (owned l) (modify (set_tree (set_roots r d))).
Proof. by intros s. Qed.
Create HintDb owned discriminated.
Hint Resolve owned_in_tree owned_node_at owned_context_at owned_set_structures
  owned_set_associations owned_set_generation owned_set_nodes owned_set_permalinks
  owned_set_roots : owned.

Lemma owned_populateAttrs l p : preserves (owned l) (populateAttrs p).
Proof. unfold populateAttrs, structureFromStructureId. SiteSpec.preserve; eauto with owned. Qed.
Hint Resolve owned_populateAttrs : owned.

Lemma owned_construction fuel :
  (∀ l p, ensures (owned l) (Context_new fuel p)
     (λ c s, owned (c :: l) s ∧ homes s !! c = Some p)) ∧
  (∀ l top child, ensures (owned l) (children_loop fuel top child) (λ _, owned l)).
Proof.
  induction fuel as [|fuel [IH1 IH2]]; [by split; intros; intros s a s' _ [=]|].
  split; intros; cbn [Context_new children_loop].
  - eapply ensures_bind.
    { unfold new_context. eapply (ensures_bind _ _ _ (λ c s, owned l s ∧ next_context s = c)).
      { intros s c s' Hs Hg. unfold gets in Hg. by simplify_eq. }
      intros c. eapply ensures_bind; [apply owned_new_context|].
      intros []. apply (ensures_ret _ c (λ c s, owned (c :: l) s)). done. }
    intros c. simpl. apply ensures_seq; [eauto with owned|]. intros [[[i pl] st]|].
    + eapply ensures_bind.
      { destruct (is_association _).
        - apply ensures_keep, owned_set_associations.
        - apply ensures_seq; [eauto with owned|]. intros n. apply IH2. }
      intros []. apply ensures_seq; [eauto with owned|]. intros _.
      apply ensures_seq; [destruct pl; SiteSpec.preserve; eauto with owned|]. intros _.
      apply ensures_seq; [unfold getSingleData_node; SiteSpec.preserve; eauto with owned|].
      intros single. eapply ensures_bind; [apply owned_put_context|].
      intros []. by apply ensures_ret.
    + eapply ensures_bind; [apply owned_put_context|]. intros []. by apply ensures_ret.
  - destruct child as [p|]; [|by apply ensures_ret].
    apply ensures_seq; [eauto with owned|]. intros n.
    apply (ensures_bind _ _ _ (λ _, owned l)); [|intros []; apply IH2].
    destruct (_ && _); [|by apply ensures_ret].
    eapply ensures_bind; [apply IH1|]. intros c. apply owned_attach.
Qed.

(** ** Associations *)

(** The context [c] of the association node [p]; then [p] will be cleaned. *)
Definition linked (c : cptr) (p : ptr) (s : Site) : Prop := owned [] s ∧ homes s !! c = Some p.
Definition hidden (c : cptr) (p : ptr) (s : Site) : Prop := linked c p s ∧ p ∈ nodesToClean2 s.

Lemma linked_edit c p f : private_edit f → preserves (linked c p) (modify_doc f).
Proof. intros Hf s [Hs Hc]. split; [by apply owned_edit|done]. Qed.
Lemma hidden_edit c p f : private_edit f → preserves (hidden c p) (modify_doc f).
Proof. intros Hf s [Hs Hp]. split; [by apply linked_edit|done]. Qed.

(** Nodes may be put on the lists at any time. *)
Lemma more_clean priv home free clean clean' l :
  (∀ p, clean p → clean' p) → ownership priv home free clean l → ownership priv home free clean' l.
Proof.
  intros Hc [Hh Ho Hn Hu]. split; [by eauto|done|done|]. intros c Hl.
  destruct (Hu c Hl). split; [done|]. eauto.
Qed.
Lemma cleaned_more l l2 s p : cleaned s p → cleaned (set_clean l l2 s) p.
Proof. intros [?|?]; [left|right]; simpl; apply elem_of_app; by left. Qed.

Lemma hide_node c p : ensures (linked c p) (modify (set_clean [] [p])) (λ _, hidden c p).
Proof.
  intros s [] s' [Hs Hc] [= <-]. split; [split; [|done]|].
  - eapply more_clean; [apply cleaned_more|exact Hs].
  - simpl. apply elem_of_app. right. by left.
Qed.

(** A cleaned node may get any context. *)
Lemma private_cleaned l g p s :
  cleaned s p → owned l s → owned l (set_tree (set_doc (alter g p)) s).
Proof.
  intros Hp [Hh Ho Hn Hu].
  assert (∀ q c, private_at (set_tree (set_doc (alter g p)) s) q = Some c → ¬ cleaned s q →
    private_at s q = Some c) as Hq.
  { intros q c Hq Hcl. unfold private_at in *. simpl in Hq.
    rewrite lookup_alter_ne in Hq; [done|]. by intros <-. }
  split; [by eauto|done|done|]. intros c Hl. destruct (Hu c Hl). split; [done|]. eauto.
Qed.

Lemma hidden_set_node c p g : preserves (hidden c p) (modify_doc (alter g p)).
Proof.
  intros s [[Hs Hc] Hp]. split; [split|]; [|done|done].
  apply private_cleaned; [by right|done].
Qed.

Lemma linked_node_at c p q : preserves (linked c p) (node_at q).
Proof. by intros s. Qed.
Lemma linked_in_tree c p {A} (f : Tree → outcome A) : preserves (linked c p) (in_tree f).
Proof. by intros s. Qed.
Lemma hidden_node_at c p q : preserves (hidden c p) (node_at q).
Proof. by intros s. Qed.
Lemma hidden_context_at c p c' : preserves (hidden c p) (context_at c').
Proof. by intros s. Qed.
Hint Resolve linked_node_at linked_in_tree hidden_node_at hidden_context_at linked_edit hidden_edit
  hidden_set_node edit_alter edit_unlink edit_free edit_free_list edit_add : owned.

Lemma forward_hides c p a : ensures (linked c p) (forward_association p a) (λ _, hidden c p).
Proof.
  unfold forward_association. apply ensures_seq; [by apply linked_edit, edit_alter|]. intros [].
  eapply ensures_bind; [apply hide_node|]. intros []. apply ensures_keep.
  SiteSpec.preserve; eauto with owned.
Qed.

(** The copy of the parent gets the parent's context and joins the list. *)
Lemma pointer_hides c p g q :
  preserves (hidden c p) (modify_doc (alter g q);; modify (set_clean [q] [])).
Proof.
  intros s [[Hs Hc] Hp]. split; [split|]; [|done|].
  - unfold owned. change (ownership (private_at (set_tree (set_doc (alter g q)) (set_clean [q] [] s)))
      (homes s) (next_context s) (cleaned (set_clean [q] [] s)) []).
    apply private_cleaned; [left; simpl; apply elem_of_app; right; by left|].
    eapply more_clean; [apply cleaned_more|exact Hs].
  - simpl. apply elem_of_app. by left.
Qed.

Lemma hidden_copy c p q : preserves (hidden c p) (copy_node q).
Proof.
  intros s Hs. unfold copy_node. rewrite eff_bind_gets.
  destruct (xmlCopyNode q (doc (tree s))) as [r h] eqn:Ec. simpl.
  assert (h = (xmlCopyNode q (doc (tree s))).2) as -> by by rewrite Ec.
  destruct Hs as [[Hs Hc] Hp]. split; [split|]; [|done|done].
  apply (fewer_private (private_at s)); [|exact Hs]. intros t c'. unfold private_at. simpl.
  destruct (_ !! t) as [n'|] eqn:Et; [|done]. simpl. intros Hn'.
  destruct (copy_private _ _ _ _ Et) as [(n & -> & Hn)|Hn]; simpl; congruence.
Qed.

(** Two steps that keep the invariant together. *)
Lemma preserves_two {S A B C} (I : S → Prop) (m : eff S A) (m' : A → eff S B) (f : A → B → eff S C) :
  preserves I (m ≫= m') → (∀ a b, preserves I (f a b)) →
  preserves I (m ≫= λ a, m' a ≫= f a).
Proof.
  intros Hm Hf s Hs. specialize (Hm s Hs). unfold mbind, eff_mbind, eff_bind in *.
  destruct (m s) as [[a| | |] s1]; [|done..].
  destruct (m' a s1) as [[b| | |] s2]; [|done..]. by apply Hf.
Qed.

Lemma reverse_keeps c p a : preserves (hidden c p) (reverse_association p a).
Proof.
  unfold reverse_association. apply preserves_bind; [eauto with owned|]. intros n.
  destruct (parent n) as [par|]; [|apply preserves_throw].
  apply preserves_bind; [apply hidden_copy|]. intros [q|]; [|apply preserves_throw].
  apply preserves_bind; [eauto with owned|]. intros x.
  apply preserves_two; [apply pointer_hides|]. intros [] [].
  apply preserves_bind; [eauto with owned|]. intros []. apply preserves_ret.
Qed.

(** [put_context] of a context that keeps its node. *)
Lemma context_known c p c' :
  ensures (hidden c p) (context_at c') (λ x s, hidden c p s ∧ homes s !! c' = Some (node x)).
Proof.
  intros s x s' Hs. unfold context_at, context_of.
  destruct (contexts (tree s) !! c') as [y|] eqn:Ey; [|done]. intros [= <- <-].
  split; [done|]. unfold homes. by rewrite lookup_fmap, Ey.
Qed.
Lemma put_known c p c' x x' :
  node x' = node x →
  ensures (λ s, hidden c p s ∧ homes s !! c' = Some (node x)) (put_context c' x') (λ _, hidden c p).
Proof.
  intros Hx s [] s' [[[Hs Hc] Hp] Hn] [= <-].
  assert (homes (set_tree (set_contexts (<[c' := x']>)) s) = homes s) as Eh
    by (rewrite homes_put, Hx; by apply insert_id).
  split; [split|]; [| |done].
  - unfold owned. rewrite Eh. exact Hs.
  - by rewrite Eh.
Qed.

Lemma delete_hidden c p : ensures (hidden c p) (delete_context c) (λ _, owned []).
Proof.
  intros s [] s' [[Hs Hc] Hp] Hd. pose proof (owned_delete [] c s Hs) as Ho. rewrite Hd in Ho.
  apply Ho. intros q Hq Hcl. apply Hcl. right. simpl.
  pose proof (own_home _ _ _ _ _ Hs q c Hq Hcl) as Hh. congruence.
Qed.
Lemma delete_freed c p :
  ensures (λ s, linked c p s ∧ doc (tree s) !! p = None) (delete_context c) (λ _, owned []).
Proof.
  intros s [] s' [[Hs Hc] Hp] Hd. pose proof (owned_delete [] c s Hs) as Ho. rewrite Hd in Ho.
  apply Ho. intros q Hq Hcl. pose proof (own_home _ _ _ _ _ Hs q c Hq Hcl) as Hh.
  unfold private_at in Hq. replace q with p in Hq by congruence. by rewrite Hp in Hq.
Qed.
Lemma free_frees c p :
  ensures (linked c p) (modify_doc (xmlFreeNode p)) (λ _ s, linked c p s ∧ doc (tree s) !! p = None).
Proof.
  intros s [] s' Hs [= <-]. split; [by apply (linked_edit c p _ (edit_free p))|]. simpl.
  destruct (xmlFreeNode p (doc (tree s)) !! p) as [n|] eqn:En; [|done].
  by apply free_private in En as [? _].
Qed.

Lemma owned_initializeAssociation c : ensures (owned []) (initializeAssociation c) (λ _, owned []).
Proof.
  unfold initializeAssociation. eapply (ensures_bind _ _ _ (λ x, linked c (node x))).
  { intros s x s' Hs. unfold context_at, context_of.
    destruct (contexts (tree s) !! c) as [y|] eqn:Ey; [|done]. intros [= <- <-].
    split; [done|]. unfold homes. by rewrite lookup_fmap, Ey. }
  intros x. apply ensures_seq; [unfold getSingleData_node; SiteSpec.preserve; eauto with owned|].
  intros single. apply ensures_seq; [apply preserves_gets|]. intros found.
  destruct (if _ : bool then _ else _) as [a|].
  - eapply ensures_bind; [apply forward_hides|]. intros [].
    apply ensures_seq; [apply reverse_keeps|]. intros pointerNode.
    do 3 (apply ensures_seq; [eauto with owned|]; intros ?).
    do 2 (apply ensures_seq; [apply preserves_deref|]; intros ?).
    eapply ensures_bind; [apply context_known|]. intros pc.
    eapply ensures_bind; [by apply put_known|]. intros [].
    apply ensures_seq; [eauto with owned|]. intros ac.
    apply ensures_seq; [|intros []; apply delete_hidden].
    SiteSpec.preserve; eauto with owned.
  - apply ensures_seq; [eauto with owned|]. intros [].
    eapply ensures_bind; [apply free_frees|]. intros []. apply delete_freed.
Qed.

Lemma owned_load testMode rawxml :
  ensures (λ s, homes s = ∅) (loadXmlDoc testMode rawxml) (λ _, owned []).
Proof.
  intros s [] s' Hs. unfold loadXmlDoc, one_node. rewrite eff_bind_gets.
  destruct (if testMode then _ else _) as [h|] eqn:Ep; [|done].
  assert (∀ p n, h !! p = Some n → _private n = None) as Hh
    by (intros p n Hp; destruct testMode; eauto using read_private, parse_private).
  unfold modify_doc at 1. rewrite eff_bind_modify. set (s1 := set_tree _ s). intros E.
  assert (owned [] s1) as Hs1.
  { assert (homes s1 = ∅) as Eh by done.
    split; [|by rewrite Eh|constructor|by intros c Hc%not_elem_of_nil].
    intros p c. unfold private_at. simpl. destruct (h !! p) as [n|] eqn:En; [|done]. simpl.
    rewrite (Hh _ _ En). done. }
  revert s1 Hs1 E. generalize s'. intros s2 s1 Hs1 E.
  match type of E with ?m s1 = _ =>
    enough (ensures (owned []) m (λ _, owned [])) as Hm by (by eapply Hm) end.
  clear Ep Hs s1 Hs1 E.
  repeat (apply ensures_seq; [solve [SiteSpec.preserve; eauto with owned]|intros ?]).
  eapply ensures_bind; [exact (proj2 (owned_construction (load_fuel h)) [] true _)|]. intros [].
  apply ensures_seq; [apply preserves_gets|]. intros associations.
  eapply ensures_bind; [apply ensures_for_each; intros c; apply owned_initializeAssociation|].
  intros []. apply ensures_keep. SiteSpec.preserve; eauto with owned.
Qed.

Lemma Site_new_owned testMode su staging keys rawxml s :
  Site_new testMode su staging keys rawxml = Ok s → owned [] s.
Proof.
  unfold Site_new. destruct (loadXmlDoc _ _ _) as [[[]| | |] s1] eqn:El; [|done..].
  intros [= <-].
  pose proof (owned_load testMode rawxml (Site_init testMode su staging keys) _ _ eq_refl El) as Ho.
  exact Ho.
Qed.

(** * Destroying a site *)

(** What the two loops leave, after the nodes [d]. *)
Record cleaning (s0 : Site) (d : list ptr) (s : Site) : Prop := {
  cln_contexts : contexts (tree s) = contexts (tree s0);
  cln_root : rootNode (tree s) = rootNode (tree s0);
  cln_lists : nodesToClean s = nodesToClean s0 ∧ nodesToClean2 s = nodesToClean2 s0;
  cln_private p c : private_at s p = Some c → private_at s0 p = Some c ∧ p ∉ d;
}.

Lemma cleaning_edit s0 d f :
  (∀ h q n', f h !! q = Some n' → ∃ n, h !! q = Some n ∧ _private n' = _private n) →
  preserves (cleaning s0 d) (modify_doc f).
Proof.
  intros Hf s [Hc Hr Hl Hp]. split; [done..|]. intros p c Hpc. apply Hp. revert Hpc.
  unfold private_at. simpl. destruct (f _ !! p) as [n'|] eqn:En; [|done].
  destruct (Hf _ _ _ En) as (n & -> & Hn). simpl. by rewrite Hn.
Qed.

(** A node whose context is dropped. *)
Lemma cleaning_drop s0 d it g :
  (∀ n, _private (g n) = None) →
  ensures (cleaning s0 d) (modify_doc (alter g it)) (λ _, cleaning s0 (it :: d)).
Proof.
  intros Hg s [] s' [Hc Hr Hl Hp] [= <-]. split; [done..|]. intros p c. unfold private_at. simpl.
  destruct (decide (p = it)) as [->|Hne].
  - rewrite lookup_alter_eq. destruct (doc (tree s) !! it); [|done]. simpl. by rewrite Hg.
  - rewrite lookup_alter_ne by done. intros [Hpc Hd]%Hp. split; [done|]. by apply not_elem_of_cons.
Qed.

Lemma cleaning_pointer s0 d it : ensures (cleaning s0 d) (clean_pointer it) (λ _, cleaning s0 (it :: d)).
Proof.
  unfold clean_pointer. apply ensures_seq; [by intros s|]. intros _. by apply cleaning_drop.
Qed.
Lemma cleaning_association s0 d it :
  ensures (cleaning s0 d) (clean_association it) (λ _, cleaning s0 (it :: d)).
Proof.
  unfold clean_association. apply ensures_seq; [by intros s|]. intros n.
  apply ensures_seq; [|intros _; by apply cleaning_drop].
  destruct (children n) as [ch|]; [|apply preserves_ret].
  apply preserves_bind; [by intros s|]. intros _. apply cleaning_edit.
  intros h q n' [(-> & m & Hm & ->)|[_ Hq]]%lookup_alter_Some; [by exists m|by exists n'].
Qed.
Lemma cleaning_loop s0 body l :
  (∀ d it, ensures (cleaning s0 d) (body it) (λ _, cleaning s0 (it :: d))) →
  ∀ d, ensures (cleaning s0 d) (for_each body l) (λ _, cleaning s0 (reverse l ++ d)).
Proof.
  intros Hb. induction l as [|it l IH]; intros d; simpl; [by apply ensures_ret|].
  eapply ensures_bind; [apply Hb|]. intros []. rewrite reverse_cons, <- app_assoc. apply IH.
Qed.

(** The nodes of the lists have no context left; the others keep theirs. *)
Lemma clean_nodes_spec s s1 :
  clean_nodes s = (Ok (), s1) →
  cleaning s [] s1 ∧ ∀ p c, private_at s1 p = Some c → ¬ cleaned s p.
Proof.
  unfold clean_nodes. rewrite eff_bind_gets. intros E. inv_bind E. rewrite eff_bind_gets in E.
  assert (cleaning s [] s) as H0' by (split; [done..|]; split; [done|apply not_elem_of_nil]).
  pose proof (cleaning_loop s _ _ (cleaning_pointer s) [] _ _ _ H0' E0) as C1. simpl in C1.
  pose proof (cleaning_loop s _ _ (cleaning_association s) _ _ _ _ C1 E) as [Hc Hr Hl Hp].
  split; [split; [done..|]|].
  - intros p c [? _]%Hp. split; [done|apply not_elem_of_nil].
  - intros p c [_ Hn]%Hp [Hcl|Hcl]; apply Hn; rewrite !elem_of_app, !elem_of_reverse; [auto|].
    left. by rewrite (proj2 (cln_lists _ _ _ C1)).
Qed.

Lemma freed_in h l c : c ∈ freed h l → ∃ q n, q ∈ l ∧ h !! q = Some n ∧ _private n = Some c.
Proof.
  intros (q & Hq & Hn)%list_elem_of_omap. destruct (h !! q) as [n|] eqn:En; [|done]. simpl in Hn.
  case_decide; [|done]. by exists q, n.
Qed.

(** Nodes without a common context free each context once. *)
Lemma freed_nodup h l (M : gmap cptr ptr) :
  NoDup l → (∀ q n c, h !! q = Some n → _private n = Some c → M !! c = Some q) → NoDup (freed h l).
Proof.
  intros Hl HM. induction Hl as [|q l Hq Hl IH]; [constructor|].
  unfold freed. simpl. fold (freed h l). destruct (h !! q) as [n|] eqn:En; simpl; [|done].
  case_decide; [|done]. destruct (_private n) as [c|] eqn:Ec; [|done]. constructor; [|done].
  intros (q' & n' & Hq' & En' & Ec')%freed_in. apply Hq.
  pose proof (HM _ _ _ En Ec). pose proof (HM _ _ _ En' Ec'). congruence.
Qed.

(** The destructor's first loops end, and from there the walk ends without
    meeting a node twice; [l] are the nodes it meets. *)
Definition cut_loose (s s1 : Site) (l : list ptr) : Prop :=
  clean_nodes s = (Ok (), s1) ∧ NoDup l ∧
  ∃ root n fuel, rootNode (tree s) = Some root ∧ doc (tree s1) !! root = Some n ∧
    walk fuel (doc (tree s1)) (children n) = Ok l.

End ownership.

(** * Witnesses *)

Lemma keeps_private_alter (g : xmlNode → xmlNode) p (h : heap) q n' :
  (∀ n, _private (g n) = _private n) → alter g p h !! q = Some n' →
  ∃ n, h !! q = Some n ∧ _private n' = _private n.
Proof.
  intros Hg [(-> & n & Hn & ->)|[_ Hq]]%lookup_alter_Some; [exists n; by rewrite Hg|by exists n'].
Qed.

#[local] Opaque document demo_tree.
#[export] Instance demo_private : LibXmlPrivate (H := demo_libxml).
Proof.
  assert (∀ p n, document demo_tree !! p = Some n → _private n = None) as Hdoc.
  { intros p n Hp. set (null := λ (_ : ptr) n, match _private n with None => true | _ => false end).
    pose proof (all_of_lookup null (document demo_tree) p n ltac:(vm_compute; reflexivity) Hp) as Hn.
    unfold null in Hn. by destruct (_private n). }
  assert (∀ text (h : heap) (p : ptr) n,
    @xmlReadMemory demo_libxml text = Some h → h !! p = Some n → _private n = None) as Hread.
  { intros text h p n. cbn -[document demo_tree]. case_decide; cbn -[document demo_tree]; [|done].
    intros Hh. by apply (inj Some) in Hh as <-; apply Hdoc. }
  split; [exact Hread|exact Hread|..]; cbn -[document demo_tree]; clear.
  - intros p h q n'. unfold unlink. destruct (h !! p) as [n|]; [|by eauto]. cbv zeta. intros Hq.
    apply keeps_private_alter in Hq as (m & Hm & ->); [|done].
    apply lookup_fmap_Some in Hm as (m' & <- & Hm'). by exists m'.
  - intros p h q n' [Hd Hq]%lookup_foldr_delete_Some. split; [|by exists n'].
    intros ->. apply Hd, SiteSpec.descendants_self. destruct (size h) eqn:Es; [|lia].
    apply map_size_empty_inv in Es as ->. by rewrite lookup_empty in Hq.
  - intros p h q n'. unfold free_list. destruct (siblings _ h p) as [l| | |]; [|by eauto..].
    induction (l.*1) as [|r l' IH]; simpl; [by eauto|].
    intros [_ Hq]%lookup_foldr_delete_Some. by apply IH.
  - intros p h q n'. unfold copy. destruct (h !! p) as [n|] eqn:Ep; simpl; [|by eauto].
    intros [[_ <-]|[_ Hq]]%lookup_insert_Some; [by right|left; by exists n'].
  - intros p c h q n'. unfold add_child. destruct (list.last _) as [r|]; unfold update; intros Hq.
    all: repeat (apply keeps_private_alter in Hq as (? & Hq & ->); [|done]); by eexists.
Qed.

#[local] Transparent document demo_tree.

(** The demonstration site (its association shares the content of two nodes)
    after some calls of a session. *)
Module Released.
#[export] Existing Instances BoostRef.boost_ref demo_libxml ResponseSpec.SortRef.algorithms
  SiteFrame.algorithm_frame_ref.
Definition calls : list Session.call :=
  [Session.Get 0 "/artist" ∅; Session.Data 1; Session.Get 1 "influence/name" ∅].
Definition served : Site :=
  (foldl (λ t c, Session.perform c t) (Session.Session_new 1 100, QuerySpec.Demo.site) calls).2.
Definition loose : Site := (clean_nodes served).2.
Definition content_children : option ptr :=
  Eval vm_compute in n ← doc (tree loose) !! 2%positive; children n.
Definition walked : list ptr :=
  Eval vm_compute in
  match walk 100 (doc (tree loose)) content_children with Ok l => l | _ => [] end.
End Released.
Import Released.

Lemma served_kept : SiteFrame.content_kept QuerySpec.Demo.site served.
Proof. split; vm_compute; reflexivity. Qed.
Lemma served_loose : cut_loose served loose walked.
Proof.
  split; [vm_compute; reflexivity|]. split; [apply (bool_decide_unpack _); vm_compute; exact I|].
  assert ((n ← doc (tree loose) !! 2%positive; children n) = content_children) as Hc
    by (vm_compute; reflexivity).
  assert (walk 100 (doc (tree loose)) content_children = Ok walked) as Hw by (vm_compute; reflexivity).
  assert (rootNode (tree served) = Some 2%positive) as Hr by (vm_compute; reflexivity).
  destruct (doc (tree loose) !! 2%positive) as [n|] eqn:En; [|discriminate Hc].
  exists 2%positive, n, 100. split; [exact Hr|]. split; [exact En|]. simpl in Hc. by rewrite Hc.
Qed.


(** * Associations that point to associations *)

(** Artist 1 has an association to the association node 5, which is set up
    later.  Its pointer node then hangs below node 5, shares the children of
    artist 1, and is freed, with these children, when node 5 is set up: album 3
    is gone from the document but still registered. *)
Module Chain.
Definition chain : XmlRef.tree :=
  Elem "website" [] [
    Elem "content" [] [
      Elem "artist" [("id", "1"); ("type", "10")] [
        Elem "album" [("id", "3"); ("type", "11")] [Elem "title" [] [Text "Kind of Blue"]];
        Elem "influence" [("type", "12")] [Text "5"]];
      Elem "artist" [("id", "4"); ("type", "10")] [
        Elem "influence" [("id", "5"); ("type", "12")] [Text "2"]];
      Elem "artist" [("id", "2"); ("type", "10")] [
        Elem "name" [] [Text "Art Blakey"]]];
    Elem "design" [] [
      Elem "artist" [("id", "10"); ("name", "Artist"); ("type", "Collection")] [
        Elem "album" [("id", "11"); ("type", "Collection")] []];
      Elem "influence" [("id", "12"); ("type", "AssociationItem")] []];
    Elem "generation" [] [Text "1"]].
Definition chain_libxml : LibXml := libxml_ref [("chain.xml", chain)].
Definition site : outcome Site := Site_new (H1 := chain_libxml) true "chain.xml" false "" "".
End Chain.

Example association_chain_dangles :
  ∃ s p, Chain.site = Ok s ∧ nodes (tree s) !! 3%Z = Some p ∧ doc (tree s) !! p = None ∧
    Query_new (H1 := Chain.chain_libxml) (tree s) None "3/title" = UB "dangling node".
Proof.
  destruct Chain.site as [s| | |] eqn:E; [|vm_compute in E; discriminate..].
  exists s, 4%positive. split; [done|]. vm_compute in E. injection E as <-.
  split_and!; vm_compute; reflexivity.
Qed.
