(* ===== verification/Handler.v ===== *)
(** [cpp/vae_db_handler.cpp], [cpp/reaper.cpp] and [cpp/bus.cpp]: the state of
    the server and the calls it answers.  One call runs at a time: the mutexes
    that order calls from several threads are not held between calls.  The
    clock and [rand] are parameters ([Os]); the other parameters are those of
    the components. *)
From Stdlib Require Import ZArith.
From S2P Require Import Prelude Cpp Extern QueryLog VaeTypes Xml.
From S2P Require Site Response Session S3 MysqlProxy MemcacheProxy.
Import S3 MysqlProxy MemcacheProxy Response.

Abbreviation site_ptr := Session.site_ptr.

(** [rand()], [time(NULL)] and [microsec_clock::universal_time()]. *)
Class Os (T : Type) := {
  rand : T → Z * T;
  time : T → Z * T;
  universal_time : T → Z * T;
}.

(** * The state of the server *)

(** The members of [VaeDbHandler]; [site_objects] holds the sites that
    [shared_ptr]s point to, [siteMutexes] the keys that have a mutex, [s3] and
    [os] the state of the environment. *)
Record World (Mem Db E T : Type) := {
  sessions : gmap Z Session.Session;
  sites : gmap string site_ptr;
  site_objects : gmap site_ptr Site.Site;
  siteMutexes : gset string;
  queryLog : QueryLog;
  memcacheProxy : MemcacheProxy Mem;
  mysqlProxy : MysqlProxy Db;
  s3 : E;
  os : T;
}.
Arguments Build_World {Mem Db E T}.
Arguments sessions {Mem Db E T} _.
Arguments sites {Mem Db E T} _.
Arguments site_objects {Mem Db E T} _.
Arguments siteMutexes {Mem Db E T} _.
Arguments queryLog {Mem Db E T} _.
Arguments memcacheProxy {Mem Db E T} _.
Arguments mysqlProxy {Mem Db E T} _.
Arguments s3 {Mem Db E T} _.
Arguments os {Mem Db E T} _.

Section setters.
Context {Mem Db E T : Type}.
Abbreviation World := (World Mem Db E T).
Definition set_sessions (f : gmap Z Session.Session → gmap Z Session.Session) (w : World) : World :=
  Build_World (f (sessions w)) (sites w) (site_objects w) (siteMutexes w) (queryLog w)
    (memcacheProxy w) (mysqlProxy w) (s3 w) (os w).
Definition set_sites (f : gmap string site_ptr → gmap string site_ptr) (w : World) : World :=
  Build_World (sessions w) (f (sites w)) (site_objects w) (siteMutexes w) (queryLog w)
    (memcacheProxy w) (mysqlProxy w) (s3 w) (os w).
Definition set_objects (f : gmap site_ptr Site.Site → gmap site_ptr Site.Site) (w : World) : World :=
  Build_World (sessions w) (sites w) (f (site_objects w)) (siteMutexes w) (queryLog w)
    (memcacheProxy w) (mysqlProxy w) (s3 w) (os w).
Definition set_mutexes (f : gset string → gset string) (w : World) : World :=
  Build_World (sessions w) (sites w) (site_objects w) (f (siteMutexes w)) (queryLog w)
    (memcacheProxy w) (mysqlProxy w) (s3 w) (os w).
Definition set_log (l : QueryLog) (w : World) : World :=
  Build_World (sessions w) (sites w) (site_objects w) (siteMutexes w) l
    (memcacheProxy w) (mysqlProxy w) (s3 w) (os w).
Definition set_mem (m : MemcacheProxy Mem) (w : World) : World :=
  Build_World (sessions w) (sites w) (site_objects w) (siteMutexes w) (queryLog w)
    m (mysqlProxy w) (s3 w) (os w).
Definition set_mysql (m : MysqlProxy Db) (w : World) : World :=
  Build_World (sessions w) (sites w) (site_objects w) (siteMutexes w) (queryLog w)
    (memcacheProxy w) m (s3 w) (os w).
Definition set_s3 (e : E) (w : World) : World :=
  Build_World (sessions w) (sites w) (site_objects w) (siteMutexes w) (queryLog w)
    (memcacheProxy w) (mysqlProxy w) e (os w).
Definition set_os (o : T) (w : World) : World :=
  Build_World (sessions w) (sites w) (site_objects w) (siteMutexes w) (queryLog w)
    (memcacheProxy w) (mysqlProxy w) (s3 w) o.

(** Running a computation of a component. *)
Definition on_mem {A} : eff (MemcacheProxy Mem) A → eff World A := zoom memcacheProxy set_mem.
Definition on_mysql {A} : eff (MysqlProxy Db) A → eff World A := zoom mysqlProxy set_mysql.
Definition on_s3 {A} : eff E A → eff World A := zoom s3 set_s3.
Definition from_os {A} (f : T → A * T) : eff World A := λ w,
  let '(a, o) := f (os w) in (Ok a, set_os o w).
End setters.

Section handler.
Context {Mem Db E T : Type}.
Context {clib : CLib} `{Boost} `{Pcre} `{LibXml} `{Algorithms}.
Context `{MemcacheClient Mem} `{SqlEngine Db} `{S3Env E} `{Os T}.
Abbreviation World := (World Mem Db E T).
(** The globals [testMode] and [_cache_path]; the fuel of the escaping loop of
    the query log and of the loop of [openSession]. *)
Variable (testMode : bool) (cache_path : string) (log_fuel rand_fuel : nat).

(** ** Query log *)

(** The life of [entry] around the body of a handler: its destructor runs also
    when the body throws. *)
Definition with_entry {A} (name : string) (args : list log_value)
    (body : eff (World * QueryLogEntry) A) : eff World A := λ w,
  let '(entry, log) := QueryLogEntry_new (queryLog w) in
  let '(start, o) := if is_logging log then universal_time (os w) else (0%Z, os w) in
  let w := set_os o (set_log log w) in
  match log_args log_fuel log args (method_call log start name entry) with
  | Ok entry =>
      let '(r, (w, entry)) := body (w, entry) in
      match r with
      | Ok _ | Throw _ =>
          let '(stop, o) := if is_logging log then universal_time (os w) else (0%Z, os w) in
          (r, set_os o (set_log (QueryLogEntry_destroy stop entry (queryLog w)) w))
      | _ => (r, w)
      end
  | Throw e => (Throw e, w)
  | UB why => (UB why, w)
  | OutOfFuel => (OutOfFuel, w)
  end.

(** ** Sites *)

Definition sites_key (subdomain : string) (stagingMode : bool) : string :=
  if stagingMode then subdomain +:+ ".staging" else subdomain.

Definition site_at (p : site_ptr) : eff World Site.Site :=
  o ← gets (λ w, site_objects w !! p); deref "dangling site" o.

Definition _get_site_mutex (subdomain : string) (stagingMode : bool) : eff World unit :=
  modify (set_mutexes (λ m, {[sites_key subdomain stagingMode]} ∪ m)).

(** [new Site(subdomain, stagingMode, xml)]: the constructor reads the keys. *)
Definition new_site (subdomain : string) (stagingMode : bool) (xml : string) : eff World site_ptr :=
  keys ← (if testMode then mret "" else on_s3 (read_s3 cache_path (subdomain +:+ "-secret")));
  st ← lift (Site.Site_new testMode subdomain stagingMode keys xml);
  p ← gets (λ w, fresh (dom (site_objects w)));
  modify (set_objects (<[p := st]>));;
  mret p.

Definition _loadSite (subdomain : string) (stagingMode : bool) (xml : string) : eff World site_ptr :=
  p ← new_site subdomain stagingMode xml;
  modify (set_sites (<[sites_key subdomain stagingMode := p]>));;
  mret p.

Definition _getSite (sitesKey secretKey : string) : eff World (option site_ptr) :=
  o ← gets (λ w, sites w !! sitesKey);
  match o with
  | Some p =>
      st ← site_at p;
      lift (Site.validateSecretKey testMode st secretKey);;
      mret (Some p)
  | None => mret None
  end.

Definition getSite (subdomain secretKey : string) (stagingMode : bool) : eff World site_ptr :=
  _get_site_mutex subdomain stagingMode;;
  site ← _getSite (sites_key subdomain stagingMode) secretKey;
  match site with
  | Some p => mret p
  | None =>
      xml ← (if testMode then mret "" else on_s3 (read_s3 cache_path (subdomain +:+ "-feed.xml")));
      p ← _loadSite subdomain stagingMode xml;
      st ← site_at p;
      lift (Site.validateSecretKey testMode st secretKey);;
      mret p
  end.

Definition _eraseSite (sitesKey secretKey : string) (force : bool) : eff World unit :=
  (if force then mret ()
   else
     o ← gets (λ w, sites w !! sitesKey);
     p ← deref "null site" o;
     st ← site_at p;
     lift (Site.validateSecretKey testMode st secretKey));;
  modify (set_sites (delete sitesKey)).

Definition erase_if_loaded (sitesKey secretKey : string) (force : bool) : eff World unit :=
  o ← gets (λ w, sites w !! sitesKey);
  match o with Some _ => _eraseSite sitesKey secretKey force | None => mret () end.

Definition _resetSite (subdomain secretKey : string) (force : bool) : eff World unit :=
  erase_if_loaded subdomain secretKey force;;
  erase_if_loaded (subdomain +:+ ".staging") secretKey force.

Definition resetSite (subdomain secretKey : string) : eff World unit :=
  with_entry "resetSite" [LString subdomain; LString secretKey; LCharArray newline]
    (outer (_resetSite subdomain secretKey false)).

Definition reloadSite (subdomain : string) : eff World unit :=
  reload_prod ← gets (λ w, sites w !! subdomain);
  reload_staging ← gets (λ w, sites w !! (subdomain +:+ ".staging"));
  rawxml ← on_s3 (read_s3 cache_path (subdomain +:+ "-feed.xml"));
  _resetSite subdomain "" true;;
  when (bool_decide (is_Some reload_prod))
    (_get_site_mutex subdomain false;; _loadSite subdomain false rawxml;; mret ());;
  when (bool_decide (is_Some reload_staging))
    (_get_site_mutex subdomain true;; _loadSite subdomain true rawxml;; mret ()).

(** ** Sessions *)

Definition find_session (sessionId : Z) : eff World (option Session.Session) :=
  gets (λ w, sessions w !! sessionId).

(** [session->getSite()->getSubdomain()]. *)
Definition subdomain_of (s : Session.Session) : eff World string :=
  st ← site_at (Session.site s); mret (Site.subdomain st).

(** A method of the session [s], registered as [sessionId]. *)
Definition in_session {A} (sessionId : Z) (s : Session.Session)
    (m : eff (Session.Session * Site.Site) A) : eff World A := λ w,
  match site_objects w !! Session.site s with
  | None => (UB "dangling site", w)
  | Some st =>
      let '(r, (s', st')) := m (s, st) in
      (r, set_sessions (<[sessionId := s']>) (set_objects (<[Session.site s := st']>) w))
  end.

(** The body of [createInfo], [data], [get] and [structure]: an unknown session
    leaves [_return] as it was constructed. *)
Definition session_body {A} (sessionId : Z) (_return : A)
    (m : eff (Session.Session * Site.Site) A) : eff (World * QueryLogEntry) A :=
  o ← outer (find_session sessionId);
  match o with
  | None => mret _return
  | Some s =>
      sub ← outer (subdomain_of s);
      set_local (set_subdomain sub);;
      outer (in_session sessionId s m)
  end.

Definition createInfo (sessionId responseId : Z) (query : string) : eff World VaeDbCreateInfoResponse :=
  with_entry "createInfo" [LInt sessionId; LInt responseId; LString query; LCharArray newline]
    (session_body sessionId {| create_contexts := [] |} (Session.createInfo responseId query)).

Definition data (sessionId responseId : Z) : eff World VaeDbDataResponse :=
  with_entry "data" [LInt sessionId; LInt responseId; LCharArray newline]
    (session_body sessionId {| data_contexts := [] |} (Session.data responseId)).

Definition get (sessionId responseId : Z) (query : string) (options : gmap string string)
    : eff World VaeDbResponse :=
  with_entry "get" [LInt sessionId; LInt responseId; LString query; LMap (entries options);
                    LCharArray newline]
    (session_body sessionId VaeDbResponse_default (Session.get responseId query options)).

Definition structure (sessionId responseId : Z) : eff World VaeDbStructureResponse :=
  with_entry "structure" [LInt sessionId; LInt responseId; LCharArray newline]
    (session_body sessionId {| structure_contexts := [] |} (Session.structure responseId)).

Definition closeSession (sessionId : Z) (secretKey : string) : eff World unit :=
  with_entry "closeSession" [LInt sessionId; LString secretKey; LCharArray newline]
    (o ← outer (find_session sessionId);
     match o with
     | Some _ => outer (modify (set_sessions (delete sessionId)))
     | None => mret ()
     end).

(** [while (sessions.count(sessionId)) sessionId = rand();] *)
Fixpoint unused_id (fuel : nat) (sessionId : Z) : eff World Z :=
  match fuel with
  | O => no_fuel
  | S fuel =>
      o ← find_session sessionId;
      match o with
      | Some _ => sessionId ← from_os rand; unused_id fuel sessionId
      | None => mret sessionId
      end
  end.

Definition openSession (subdomain secretKey : string) (stagingMode : bool) (suggestedSessionId : Z)
    : eff World VaeDbOpenSessionResponse :=
  with_entry "openSession" [LString subdomain; LString secretKey; LBool stagingMode;
                            LInt suggestedSessionId; LCharArray newline]
    (site ← outer (getSite subdomain secretKey stagingMode);
     sessionId ← outer (unused_id rand_fuel suggestedSessionId);
     now ← outer (from_os time);
     outer (modify (set_sessions (<[sessionId := Session.Session_new site now]>)));;
     st ← outer (site_at site);
     set_local (set_subdomain (Site.subdomain st));;
     mret {| open_session_id := sessionId; open_generation := Site.generation st |}).

Definition ping : eff World Z := with_entry "ping" [LCharArray newline] (mret 0%Z).

(** ** Caches and locks *)

(** The body of these handlers; [dflt] is what an unknown session gets. *)
Definition with_subdomain {A} (sessionId : Z) (dflt : A) (body : string → eff World A) : eff World A :=
  o ← find_session sessionId;
  match o with
  | None => mret dflt
  | Some s => sub ← subdomain_of s; body sub
  end.

Definition short_key (subdomain key : string) : string := "VaedbProxy:" +:+ subdomain +:+ ":" +:+ key.
Definition long_key (subdomain key : string) : string :=
  "VaedbProxy:" +:+ subdomain +:+ "LongTerm2:" +:+ key.

Definition shortTermCacheGet (sessionId : Z) (key : string) (flags : Z) : eff World string :=
  with_subdomain sessionId "" (λ sub, on_mem (MemcacheProxy.get (short_key sub key) flags)).
Definition shortTermCacheSet (sessionId : Z) (key value : string) (flags expireInterval : Z)
    : eff World unit :=
  with_subdomain sessionId ()
    (λ sub, on_mem (MemcacheProxy.set (short_key sub key) value flags expireInterval)).
Definition shortTermCacheDelete (sessionId : Z) (key : string) : eff World unit :=
  with_subdomain sessionId () (λ sub, on_mem (MemcacheProxy.remove (short_key sub key))).

Definition sessionCacheGet (sessionId : Z) (key : string) : eff World string :=
  with_subdomain sessionId "" (λ sub, on_mysql (MysqlProxy.sessionCacheGet sub key)).
Definition sessionCacheSet (sessionId : Z) (key value : string) : eff World unit :=
  with_subdomain sessionId () (λ sub, on_mysql (MysqlProxy.sessionCacheSet sub key value)).
Definition sessionCacheDelete (sessionId : Z) (key : string) : eff World unit :=
  with_subdomain sessionId () (λ sub, on_mysql (MysqlProxy.sessionCacheDelete sub key)).

Definition longTermCacheGet (sessionId : Z) (key : string) (renewExpiry useShortTermCache : Z)
    : eff World string :=
  with_subdomain sessionId "" (λ sub,
    answer ← (if (useShortTermCache =? 0)%Z then mret ""
              else on_mem (MemcacheProxy.get (long_key sub key) 0));
    if decide (answer = "") then
      v ← on_mysql (MysqlProxy.longTermCacheGet sub key renewExpiry);
      on_mem (MemcacheProxy.set (long_key sub key) v 0 86400);;
      mret v
    else mret answer).
Definition longTermCacheSet (sessionId : Z) (key value : string) (expireInterval isFilename : Z)
    : eff World unit :=
  with_subdomain sessionId () (λ sub,
    on_mysql (MysqlProxy.longTermCacheSet sub key value expireInterval isFilename);;
    on_mem (MemcacheProxy.set (long_key sub key) value 0 86400)).
Definition longTermCacheDelete (sessionId : Z) (key : string) : eff World unit :=
  with_subdomain sessionId () (λ sub,
    on_mysql (MysqlProxy.longTermCacheDelete sub key);;
    on_mem (MemcacheProxy.remove (long_key sub key))).
Definition longTermCacheEmpty (sessionId : Z) : eff World unit :=
  with_subdomain sessionId () (λ sub, on_mysql (MysqlProxy.longTermCacheEmpty sub)).
Definition longTermCacheSweeperInfo (sessionId : Z) : eff World VaeDbDataForContext :=
  with_subdomain sessionId {| dfc_data := ∅ |} (λ sub,
    d ← on_mysql (MysqlProxy.longTermCacheSweeperInfo ∅ sub);
    mret {| dfc_data := d |}).

Definition sitewideLock (sessionId : Z) : eff World Z :=
  with_subdomain sessionId (-1)%Z (λ sub, on_mysql (MysqlProxy.lock sub)).
Definition sitewideUnlock (sessionId : Z) : eff World Z :=
  with_subdomain sessionId (-1)%Z (λ sub, on_mysql (MysqlProxy.unlock sub)).

(** ** The reaper *)

Definition SESSION_REAP_TIME : Z := 62.

(** The loop over the entries of the map. *)
Fixpoint reap_loop (now : Z) (it : list (Z * Session.Session)) (m : gmap Z Session.Session)
    : gmap Z Session.Session :=
  match it with
  | [] => m
  | (i, s) :: it' =>
      reap_loop now it'
        (if (SESSION_REAP_TIME <? now - Session.createdAt s)%Z then delete i m else m)
  end.

(** One round of [Reaper::Run], after its [sleep]. *)
Definition reap : eff World unit :=
  now ← from_os time;
  modify (set_sessions (λ m, reap_loop now (map_to_list m) m));;
  on_mysql garbageCollect.

(** ** The bus *)

(** One message on the socket: the site is reloaded, then once more by the
    thread that is spawned. *)
Definition bus_message (subdomain : string) : eff World unit :=
  reloadSite subdomain;; reloadSite subdomain.

(** ** The interface [VaeDbIf] *)

Inductive session_request :=
| CreateInfo (sessionId responseId : Z) (query : string)
| Data (sessionId responseId : Z)
| Get (sessionId responseId : Z) (query : string) (options : gmap string string)
| Structure (sessionId responseId : Z)
| ShortTermCacheGet (sessionId : Z) (key : string) (flags : Z)
| ShortTermCacheSet (sessionId : Z) (key value : string) (flags expireInterval : Z)
| ShortTermCacheDelete (sessionId : Z) (key : string)
| SessionCacheGet (sessionId : Z) (key : string)
| SessionCacheSet (sessionId : Z) (key value : string)
| SessionCacheDelete (sessionId : Z) (key : string)
| LongTermCacheGet (sessionId : Z) (key : string) (renewExpiry useShortTermCache : Z)
| LongTermCacheSet (sessionId : Z) (key value : string) (expireInterval isFilename : Z)
| LongTermCacheDelete (sessionId : Z) (key : string)
| LongTermCacheEmpty (sessionId : Z)
| LongTermCacheSweeperInfo (sessionId : Z)
| SitewideLock (sessionId : Z)
| SitewideUnlock (sessionId : Z).

Inductive request :=
| Ping
| OpenSession (subdomain secretKey : string) (stagingMode : bool) (suggestedSessionId : Z)
| CloseSession (sessionId : Z) (secretKey : string)
| ResetSite (subdomain secretKey : string)
| OnSession (r : session_request).

Inductive reply :=
| RVoid
| RInt (z : Z)
| RString (s : string)
| ROpenSession (r : VaeDbOpenSessionResponse)
| RCreateInfo (r : VaeDbCreateInfoResponse)
| RData (r : VaeDbDataResponse)
| RResponse (r : VaeDbResponse)
| RStructure (r : VaeDbStructureResponse)
| RDataForContext (r : VaeDbDataForContext).

Definition answering {A} (f : A → reply) (m : eff World A) : eff World reply := a ← m; mret (f a).

Definition session_dispatch (r : session_request) : eff World reply :=
  match r with
  | CreateInfo i j q => answering RCreateInfo (createInfo i j q)
  | Data i j => answering RData (data i j)
  | Get i j q o => answering RResponse (get i j q o)
  | Structure i j => answering RStructure (structure i j)
  | ShortTermCacheGet i k f => answering RString (shortTermCacheGet i k f)
  | ShortTermCacheSet i k v f e => answering (λ _, RVoid) (shortTermCacheSet i k v f e)
  | ShortTermCacheDelete i k => answering (λ _, RVoid) (shortTermCacheDelete i k)
  | SessionCacheGet i k => answering RString (sessionCacheGet i k)
  | SessionCacheSet i k v => answering (λ _, RVoid) (sessionCacheSet i k v)
  | SessionCacheDelete i k => answering (λ _, RVoid) (sessionCacheDelete i k)
  | LongTermCacheGet i k r u => answering RString (longTermCacheGet i k r u)
  | LongTermCacheSet i k v e f => answering (λ _, RVoid) (longTermCacheSet i k v e f)
  | LongTermCacheDelete i k => answering (λ _, RVoid) (longTermCacheDelete i k)
  | LongTermCacheEmpty i => answering (λ _, RVoid) (longTermCacheEmpty i)
  | LongTermCacheSweeperInfo i => answering RDataForContext (longTermCacheSweeperInfo i)
  | SitewideLock i => answering RInt (sitewideLock i)
  | SitewideUnlock i => answering RInt (sitewideUnlock i)
  end.

Definition dispatch (r : request) : eff World reply :=
  match r with
  | Ping => answering RInt ping
  | OpenSession sub k st i => answering ROpenSession (openSession sub k st i)
  | CloseSession i k => answering (λ _, RVoid) (closeSession i k)
  | ResetSite sub k => answering (λ _, RVoid) (resetSite sub k)
  | OnSession r => session_dispatch r
  end.
End handler.
