(* ===== verification/HandlerSpec.v ===== *)
(** What the calls of the server do to its state: sessions, sites and their
    keys, the caches, the reaper and the bus. *)
From Stdlib Require Import ZArith.
From S2P Require Import Prelude Cpp Extern QueryLog VaeTypes Xml.
From S2P Require Site Response Session S3 MysqlProxy MemcacheProxy Pool Handler.
Import S3 MysqlProxy MemcacheProxy Response Handler.

Create HintDb caches discriminated.

(** * Keys of the short term cache *)

Lemma split_colon (a b k l : list ascii) :
  ":"%char ∉ a → ":"%char ∉ b → a ++ ":"%char :: k = b ++ ":"%char :: l → a = b ∧ k = l.
Proof.
  revert b. induction a as [|x a IH]; intros [|y b] Ha Hb; simpl; intros E.
  - by injection E.
  - injection E as <- _. by destruct Hb; left.
  - injection E as -> _. by destruct Ha; left.
  - injection E as <- E. apply not_elem_of_cons in Ha as [_ Ha], Hb as [_ Hb].
    by destruct (IH b Ha Hb E) as [-> ->].
Qed.

Definition no_colon (s : string) : Prop := ":"%char ∉ chars s.

Lemma no_colon_long sub : no_colon sub → no_colon (sub +:+ "LongTerm2").
Proof.
  unfold no_colon. rewrite chars_app, not_elem_of_app. split; [done|].
  apply (bool_decide_unpack _). vm_compute. exact I.
Qed.

Lemma short_key_inj s1 k1 s2 k2 :
  no_colon s1 → no_colon s2 → short_key s1 k1 = short_key s2 k2 → s1 = s2 ∧ k1 = k2.
Proof.
  intros H1 H2 E%(f_equal chars). unfold short_key in E. rewrite !chars_app in E.
  apply app_inv_head in E. change (chars ":") with [":"%char] in E. simpl in E.
  apply split_colon in E as [E1%chars_inj E2%chars_inj]; done.
Qed.

Lemma long_key_short sub k : long_key sub k = short_key (sub +:+ "LongTerm2") k.
Proof.
  apply chars_inj. unfold long_key, short_key. rewrite !chars_app, <- !app_assoc. done.
Qed.

(** For subdomains without a colon, the entries that the server keeps in
    memcached are separated by site and key, with one exception: the short term
    entries of a site named [X ++ "LongTerm2"] are the long term entries of [X]. *)
Theorem cache_keys_separate s1 k1 s2 k2 :
  no_colon s1 → no_colon s2 →
  (short_key s1 k1 = short_key s2 k2 ↔ s1 = s2 ∧ k1 = k2) ∧
  (long_key s1 k1 = long_key s2 k2 ↔ s1 = s2 ∧ k1 = k2) ∧
  (short_key s1 k1 = long_key s2 k2 ↔ s1 = s2 +:+ "LongTerm2" ∧ k1 = k2).
Proof.
  intros H1 H2. rewrite !long_key_short. split_and!; split; try by intros [-> ->].
  - by apply short_key_inj.
  - intros E. apply short_key_inj in E as [E ->]; [|by apply no_colon_long..]. split; [|done].
    apply (f_equal chars) in E. rewrite !chars_app in E. by apply app_inv_tail, chars_inj in E.
  - apply short_key_inj; [done|by apply no_colon_long].
Qed.

Example cache_keys_separate_witness : short_key "shopLongTerm2" "k" = long_key "shop" "k".
Proof.
  apply (proj2 (proj2 (cache_keys_separate "shopLongTerm2" "k" "shop" "k"
    ltac:(apply (bool_decide_unpack _); vm_compute; exact I)
    ltac:(apply (bool_decide_unpack _); vm_compute; exact I)))).
  by split.
Defined.

(** * The handlers on a world *)

Section handler.
Context {Mem Db E T : Type}.
Context {clib : CLib} `{Boost} `{Pcre} `{LibXml} `{Algorithms}.
Context `{MemcacheClient Mem} `{SqlEngine Db} `{S3Env E} `{Os T}.
Abbreviation World := (World Mem Db E T).
Context (testMode : bool) (cache_path : string) (log_fuel rand_fuel : nat).

(** The worlds that differ by the log and the clock only. *)
Definition core (w : World) :=
  (sessions w, sites w, site_objects w, siteMutexes w, memcacheProxy w, mysqlProxy w, s3 w).
Record same_core (w w' : World) : Prop := { same : core w = core w' }.
#[local] Instance world_equiv : Equiv World := same_core.
#[local] Instance world_equivalence : Equivalence (≡@{World}).
Proof. split; repeat intros [?]; split; congruence. Qed.
#[local] Instance sessions_proper : Proper ((≡@{World}) ==> eq) sessions.
Proof. by intros ?? [[=]]. Qed.
#[local] Instance sites_proper : Proper ((≡@{World}) ==> eq) sites.
Proof. by intros ?? [[=]]. Qed.
#[local] Instance objects_proper : Proper ((≡@{World}) ==> eq) site_objects.
Proof. by intros ?? [[=]]. Qed.

Lemma core_clock o l w : set_os o (set_log l w) ≡ w.
Proof. done. Qed.

(** A call can be logged when logging is off or its arguments print. *)
Definition loggable (w : World) (args : list log_value) : Prop :=
  is_logging (queryLog w) = true → Forall value_printable args.

Lemma with_entry_run {A} (Hf : 0 < log_fuel) name args (body : eff (World * QueryLogEntry) A) w :
  loggable w args →
  ∃ w1 e, w1 ≡ w ∧ ∀ r w2 e2, body (w1, e) = (r, (w2, e2)) →
    ∃ w', with_entry log_fuel name args body w = (r, w') ∧ w' ≡ w2.
Proof.
  intros Hl. unfold with_entry. simpl.
  set (log := {| p_out := p_out (queryLog w); query_id := _ |}).
  assert (is_logging log = is_logging (queryLog w)) as El by done.
  destruct (if is_logging log then universal_time (os w) else (0%Z, os w)) as [start o].
  set (e0 := method_call log start name _).
  assert (∃ e, log_args log_fuel log args e0 = Ok e) as [e Ee].
  { destruct (is_logging log) eqn:Eo.
    - eexists. apply log_args_on; [done|done|]. by apply Hl.
    - eexists. by apply log_args_off. }
  exists (set_os o (set_log log w)), e. split; [apply core_clock|].
  intros r w2 e2 Er. rewrite Ee, Er.
  destruct r; try (by eexists);
    destruct (if is_logging log then universal_time (os w2) else (0%Z, os w2)) as [stop o2];
    eexists; (split; [done|apply core_clock]).
Qed.

(** Whatever is logged, the body runs or the call does not return. *)
Lemma with_entry_cases {A} name args (body : eff (World * QueryLogEntry) A) w :
  (∃ r w', with_entry log_fuel name args body w = (r, w') ∧ w' ≡ w ∧ ∀ a, r ≠ Ok a) ∨
  ∃ w1 e, w1 ≡ w ∧ ∀ r w2 e2, body (w1, e) = (r, (w2, e2)) →
    ∃ w', with_entry log_fuel name args body w = (r, w') ∧ w' ≡ w2.
Proof.
  unfold with_entry. simpl. set (log := {| p_out := p_out (queryLog w); query_id := _ |}).
  destruct (if is_logging log then universal_time (os w) else (0%Z, os w)) as [start o].
  set (e0 := method_call log start name _).
  destruct (log_args log_fuel log args e0) as [e| | |] eqn:Ee;
    [right|left; by (eexists _, _; split; [done|]; split; [apply core_clock|])..].
  exists (set_os o (set_log log w)), e. split; [apply core_clock|]. intros r w2 e2 ->.
  destruct r; try (by eexists);
    destruct (if is_logging log then universal_time (os w2) else (0%Z, os w2)) as [stop o2];
    eexists; (split; [done|apply core_clock]).
Qed.

(** ** Unknown sessions *)

Definition session_of (r : session_request) : Z :=
  match r with
  | CreateInfo i _ _ | Data i _ | Get i _ _ _ | Structure i _ | ShortTermCacheGet i _ _
  | ShortTermCacheSet i _ _ _ _ | ShortTermCacheDelete i _ | SessionCacheGet i _
  | SessionCacheSet i _ _ | SessionCacheDelete i _ | LongTermCacheGet i _ _ _
  | LongTermCacheSet i _ _ _ _ | LongTermCacheDelete i _ | LongTermCacheEmpty i
  | LongTermCacheSweeperInfo i | SitewideLock i | SitewideUnlock i => i
  end.

(** What the query log prints of a request. *)
Definition logged_args (r : session_request) : list log_value :=
  match r with
  | CreateInfo i j q => [LInt i; LInt j; LString q; LCharArray newline]
  | Data i j | Structure i j => [LInt i; LInt j; LCharArray newline]
  | Get i j q o => [LInt i; LInt j; LString q; LMap (entries o); LCharArray newline]
  | _ => []
  end.

(** The reply of a handler that returns before setting anything. *)
Definition untouched_reply (r : session_request) : reply :=
  match r with
  | CreateInfo _ _ _ => RCreateInfo {| create_contexts := [] |}
  | Data _ _ => RData {| data_contexts := [] |}
  | Get _ _ _ _ => RResponse VaeDbResponse_default
  | Structure _ _ => RStructure {| structure_contexts := [] |}
  | ShortTermCacheGet _ _ _ | SessionCacheGet _ _ | LongTermCacheGet _ _ _ _ => RString ""
  | LongTermCacheSweeperInfo _ => RDataForContext {| dfc_data := ∅ |}
  | SitewideLock _ | SitewideUnlock _ => RInt (-1)
  | _ => RVoid
  end.

Lemma session_body_unknown {A} name args i (d : A) m w :
  0 < log_fuel → loggable w args → sessions w !! i = None →
  ∃ w', with_entry log_fuel name args (session_body i d m) w = (Ok d, w') ∧ w' ≡ w.
Proof.
  intros Hf Hl Hi. destruct (with_entry_run Hf name args (session_body i d m) w Hl)
    as (w1 & e & Hw & Hrun).
  destruct (Hrun (Ok d) w1 e) as (w' & Er & Hw').
  - unfold session_body, find_session. simpl. unfold mbind, eff_mbind, eff_bind. simpl.
    assert (sessions w1 !! i = None) as -> by by rewrite Hw. done.
  - exists w'. split; [done|]. by rewrite Hw'.
Qed.

Lemma with_subdomain_unknown {A} i (d : A) body (w : World) :
  sessions w !! i = None → with_subdomain i d body w = (Ok d, w).
Proof. intros Hi. unfold with_subdomain, find_session. rewrite eff_bind_gets. by rewrite Hi. Qed.

Lemma answering_ok {A} (f : A → reply) (m : eff World A) w a w' :
  m w = (Ok a, w') → answering f m w = (Ok (f a), w').
Proof. intros Em. unfold answering. by rewrite (eff_bind_ok _ _ _ _ _ Em). Qed.

(** A call that names a session that does not exist is not an error: it
    answers an empty structure, "" or -1, and changes nothing but the log. *)
Theorem unknown_session_noop r w :
  0 < log_fuel → sessions w !! session_of r = None → loggable w (logged_args r) →
  ∃ w', session_dispatch log_fuel r w = (Ok (untouched_reply r), w') ∧ w' ≡ w.
Proof.
  intros Hf Hi Hl. destruct r; simpl in Hi, Hl |- *;
    try (eexists; split; [|done];
         first [apply answering_ok|apply (answering_ok (λ _, RVoid) _ _ ())];
         by apply with_subdomain_unknown).
  all: edestruct @session_body_unknown as (w' & Er & Hw); [exact Hf|exact Hl|exact Hi|];
    exists w'; split; [apply answering_ok; exact Er|done].
Qed.

(** ** Sessions that exist *)

Definition known (w : World) (i : Z) (sub : string) : Prop :=
  ∃ s st, sessions w !! i = Some s ∧ site_objects w !! Session.site s = Some st
        ∧ Site.subdomain st = sub.

Lemma with_subdomain_known {A} i (d : A) body (w : World) sub :
  known w i sub → with_subdomain i d body w = body sub w.
Proof.
  intros (s & st & Hs & Ho & <-). unfold with_subdomain, find_session.
  rewrite eff_bind_gets, Hs. unfold subdomain_of, site_at.
  by rewrite eff_bind_assoc, eff_bind_assoc, eff_bind_gets, Ho.
Qed.

Lemma on_mem_ok {A} (m : eff (MemcacheProxy Mem) A) (w : World) o p :
  m (memcacheProxy w) = (o, p) → on_mem m w = (o, set_mem p w).
Proof. intros Em. unfold on_mem, zoom. by rewrite Em. Qed.
Lemma on_mysql_ok {A} (m : eff (MysqlProxy Db) A) (w : World) o p :
  m (mysqlProxy w) = (o, p) → on_mysql m w = (o, set_mysql p w).
Proof. intros Em. unfold on_mysql, zoom. by rewrite Em. Qed.

(** A connection is free in both pools. *)
Record connected (w : World) : Prop := {
  mem_ok : Pool.pool_ok (mem_pool (memcacheProxy w));
  mem_free : Pool.availableConnections (mem_pool (memcacheProxy w)) ≠ 0%Z;
  mysql_ok : Pool.pool_ok (mysql_pool (mysqlProxy w));
  mysql_free : Pool.availableConnections (mysql_pool (mysqlProxy w)) ≠ 0%Z;
}.

Definition store (w : World) : Mem := mem_store (memcacheProxy w).
Definition db (w : World) : Db := mysql_db (mysqlProxy w).
Definition put_store (m : Mem) (w : World) : World :=
  set_mem {| connectString := connectString (memcacheProxy w);
             mem_pool := mem_pool (memcacheProxy w); mem_store := m |} w.
Definition put_db (d : Db) (w : World) : World :=
  set_mysql {| mysql_database := mysql_database (mysqlProxy w);
               mysql_pool := mysql_pool (mysqlProxy w); mysql_db := d |} w.

Lemma mem_call {A} (b : eff Mem A) (w : World) o m :
  connected w → b (store w) = (o, m) → on_mem (with_client b) w = (o, put_store m w).
Proof. intros [] Eb. apply on_mem_ok. by apply with_client_ok. Qed.

Lemma mysql_call {A} (b : string → eff Db A) (w : World) o d :
  connected w → b (mysql_database (mysqlProxy w)) (db w) = (o, d) →
  on_mysql (with_connection b) w = (o, put_db d w).
Proof. intros [] Eb. apply on_mysql_ok. rewrite with_connection_ok by done. unfold db in Eb. by rewrite Eb. Qed.

(** The worlds that differ by the contents of the caches only. *)
Definition cache_only (w w' : World) : Prop := ∃ m d, w' = put_store m (put_db d w).

Lemma cache_only_refl w : cache_only w w.
Proof. exists (store w), (db w). destruct w as [????? [] []]. done. Qed.
Lemma put_store_only w w' m : cache_only w w' → cache_only w (put_store m w').
Proof. intros (m' & d' & ->). by exists m, d'. Qed.
Lemma put_db_only w w' d : cache_only w w' → cache_only w (put_db d w').
Proof. intros (m' & d' & ->). by exists m', d. Qed.
Lemma connected_only w w' : cache_only w w' → connected w → connected w'.
Proof. intros (m' & d' & ->) []. by split. Qed.
Lemma known_only w w' i sub : cache_only w w' → known w i sub → known w' i sub.
Proof. intros (m' & d' & ->) Hk. exact Hk. Qed.
#[local] Hint Resolve cache_only_refl put_store_only put_db_only : caches.

Section caches.
Context {database : string} {ML : MemcacheLaws Mem} {L : SqlLaws Db database}.

(** [longTermCacheSet] writes the database, and memcached at best. *)
Lemma longTermCacheSet_run i key v days fname w sub :
  known w i sub → connected w → mysql_database (mysqlProxy w) = database →
  bindable (SStr key) → bindable (SStr sub) → bindable (SStr v) →
  bindable (SInt days) → bindable (SInt fname) →
  ∃ w', longTermCacheSet i key v days fname w = (Ok (), w') ∧ cache_only w w' ∧
    kv_value (view (db w')) sub key = v ∧
    (cached (store w') ⊆ <[long_key sub key := v]> (cached (store w))
     ∨ cached (store w') ⊆ cached (store w)).
Proof.
  intros Hk Hc Hd Hb1 Hb2 Hb3 Hb4 Hb5. unfold longTermCacheSet.
  rewrite (with_subdomain_known _ _ _ _ _ Hk).
  destruct (longTermCacheSet_spec sub key v days fname (db w)) as (d' & Ed & Vd); [done..|].
  erewrite eff_bind_ok by (apply mysql_call; [done|rewrite Hd; exact Ed]).
  destruct (set_body_spec (long_key sub key) v 0 86400 (store w)) as (m' & Em & Vm).
  exists (put_store m' (put_db d' w)). split.
  { apply mem_call; [|exact Em]. eapply connected_only; [|done]. auto with caches. }
  split; [auto with caches|]. split; [|exact Vm].
  change (kv_value (view d') sub key = v). rewrite Vd. by rewrite decide_True.
Qed.

Lemma longTermCacheGet_run i key renew use w sub :
  known w i sub → connected w → mysql_database (mysqlProxy w) = database →
  bindable (SStr key) → bindable (SStr sub) → bindable (SInt renew) →
  ∃ a w', longTermCacheGet i key renew use w = (Ok a, w') ∧ cache_only w w' ∧
    (a = kv_value (view (db w)) sub key
     ∨ use ≠ 0%Z ∧ a ≠ "" ∧ cached (store w) !! long_key sub key = Some a).
Proof.
  intros Hk Hc Hd Hb1 Hb2 Hb3. unfold longTermCacheGet.
  rewrite (with_subdomain_known _ _ _ _ _ Hk).
  assert (∃ a w1, (if (use =? 0)%Z then mret ""
                   else on_mem (MemcacheProxy.get (long_key sub key) 0)) w = (Ok a, w1)
    ∧ cache_only w w1 ∧ db w1 = db w
    ∧ (a = "" ∨ use ≠ 0%Z ∧ cached (store w) !! long_key sub key = Some a))
    as (a & w1 & E1 & O1 & Hdb & Ha).
  { destruct (Z.eqb_spec use 0) as [->|Hu].
    - exists "", w. split_and!; auto with caches.
    - destruct (get_body_spec (long_key sub key) (store w)) as (a & m' & Em & _ & Va).
      exists a, (put_store m' w). split; [by apply mem_call|].
      split; [auto with caches|]. split; [done|]. tauto. }
  rewrite (eff_bind_ok _ _ _ _ _ E1). case_decide as Hne.
  - destruct (longTermCacheGet_spec sub key renew (db w1)) as (d' & Ed & _); [done..|].
    assert (connected w1) as Hc1 by eauto using connected_only.
    assert (mysql_database (mysqlProxy w1) = database) as Hd1 by (destruct O1 as (?&?&->); done).
    erewrite eff_bind_ok by (apply mysql_call; [done|rewrite Hd1; exact Ed]).
    destruct (set_body_spec (long_key sub key) (kv_value (view (db w1)) sub key) 0 86400
      (store (put_db d' w1))) as (m' & Em & _).
    erewrite eff_bind_ok by (apply mem_call; [|exact Em]; eapply connected_only; [|exact Hc1];
      auto with caches).
    exists (kv_value (view (db w)) sub key). rewrite Hdb. eexists. split; [done|].
    split; [auto with caches|by left].
  - exists a, w1. split; [done|]. split; [done|]. right.
    destruct Ha as [->|[Hu Ha]]; [done|by split_and!].
Qed.

(** C24: a value stored in the long term cache is read back by the next read,
    except when memcached refused the write and the read may use it: then
    the answer can be the value it had before. *)
Theorem longTermCache_read_your_writes i key v days fname renew use w sub :
  known w i sub → connected w → mysql_database (mysqlProxy w) = database →
  bindable (SStr key) → bindable (SStr sub) → bindable (SStr v) →
  bindable (SInt days) → bindable (SInt fname) → bindable (SInt renew) →
  ∃ a w1 w2, longTermCacheSet i key v days fname w = (Ok (), w1) ∧
    longTermCacheGet i key renew use w1 = (Ok a, w2) ∧ cache_only w w2 ∧
    (a = v ∨ use ≠ 0%Z ∧ a ≠ "" ∧ cached (store w) !! long_key sub key = Some a
           ∧ cached (store w1) ⊆ cached (store w)).
Proof.
  intros Hk Hc Hd Hb1 Hb2 Hb3 Hb4 Hb5 Hb6.
  destruct (longTermCacheSet_run i key v days fname w sub) as (w1 & E1 & O1 & Hv & Hm); [done..|].
  assert (mysql_database (mysqlProxy w1) = database) as Hd1 by (destruct O1 as (?&?&->); done).
  destruct (longTermCacheGet_run i key renew use w1 sub) as (a & w2 & E2 & O2 & Ha);
    eauto using known_only, connected_only.
  exists a, w1, w2. split; [done|]. split; [done|]. split.
  { destruct O2 as (m2 & d2 & ->). auto with caches. }
  destruct Ha as [->|(Hu & Hne & Hc1)]; [by left|].
  destruct Hm as [Hm|Hm]; pose proof (lookup_weaken _ _ _ _ Hc1 Hm) as Hw.
  - rewrite lookup_insert_eq in Hw. injection Hw as ->. by left.
  - right. by split_and!.
Qed.
End caches.

(** ** The reaper *)

Definition old (now : Z) (s : Session.Session) : Prop :=
  (SESSION_REAP_TIME < now - Session.createdAt s)%Z.
#[local] Instance old_dec now s : Decision (old now s).
Proof. unfold old. apply _. Defined.

Lemma reap_loop_spec now it m i :
  NoDup it.*1 → (∀ j s, (j, s) ∈ it → m !! j = Some s) →
  reap_loop now it m !! i =
    match list_to_map (M := gmap Z Session.Session) it !! i with
    | Some s => if decide (old now s) then None else Some s
    | None => m !! i
    end.
Proof.
  revert m. induction it as [|[j s] it IH]; intros m Hnd Hm; [done|].
  cbn in Hnd. apply NoDup_cons in Hnd as [Hj Hnd]. cbn [reap_loop list_to_map foldr].
  rewrite IH; [|done|].
  - destruct (decide (i = j)) as [->|Hne].
    + simpl. rewrite lookup_insert_eq. assert (list_to_map (M := gmap Z _) it !! j = None) as ->.
      { by apply not_elem_of_list_to_map. }
      unfold old. case_decide as Hd.
      * rewrite (proj2 (Z.ltb_lt _ _)) by done. by rewrite lookup_delete_eq.
      * rewrite (proj2 (Z.ltb_ge _ _)) by lia. apply Hm. by left.
    + simpl. rewrite lookup_insert_ne by done. destruct (list_to_map it !! i); [done|].
      destruct (_ <? _)%Z; [by rewrite lookup_delete_ne|done].
  - intros k t Hin. assert (k ≠ j) as Hne.
    { intros ->. apply Hj. apply list_elem_of_fmap. by exists (j, t). }
    destruct (_ <? _)%Z; [rewrite lookup_delete_ne by done|]; apply Hm; by right.
Qed.

Lemma reap_loop_map now (m : gmap Z Session.Session) :
  reap_loop now (map_to_list m) m = base.filter (λ e, ¬ old now e.2) m.
Proof.
  apply map_eq. intros i. rewrite reap_loop_spec.
  - rewrite list_to_map_to_list. symmetry. destruct (m !! i) as [s|] eqn:Ei.
    + case_decide; [apply map_lookup_filter_None|apply map_lookup_filter_Some]; naive_solver.
    + apply map_lookup_filter_None. by left.
  - apply NoDup_fst_map_to_list.
  - intros j s. apply elem_of_map_to_list.
Qed.

(** C30: a round of the reaper drops exactly the sessions opened more than 62
    seconds ago, however recently they were used, and keeps the others, and
    every site, as they are. *)
Theorem reap_spec (w : World) now o :
  time (os w) = (now, o) →
  sessions (reap w).2 = base.filter (λ e, ¬ old now e.2) (sessions w) ∧
  sites (reap w).2 = sites w ∧ site_objects (reap w).2 = site_objects w ∧
  ∀ i s, sessions w !! i = Some s →
    sessions (reap w).2 !! i
    = if decide (Session.createdAt s + 62 < now)%Z then None else Some s.
Proof.
  intros Et. unfold reap. rewrite (eff_bind_ok _ _ _ now (set_os o w)).
  2: { unfold from_os. by rewrite Et. }
  rewrite eff_bind_modify. unfold on_mysql, zoom. destruct (garbageCollect _) as [r p]. simpl.
  rewrite reap_loop_map. split_and!; [done..|]. intros i s Hi. unfold old, SESSION_REAP_TIME.
  case_decide; [apply map_lookup_filter_None|apply map_lookup_filter_Some].
  - right. intros s' Hs'. replace s' with s by congruence. simpl. lia.
  - split; [done|]. simpl. lia.
Qed.
End handler.
