(* ===== verification/ServerSpec.v ===== *)
(** The invariant of the server, and what opening, resetting and reloading a
    site do. *)
From Stdlib Require Import ZArith.
From S2P Require Import Prelude Cpp Extern QueryLog VaeTypes Xml.
From S2P Require Site Response Session SiteFrame S3 MysqlProxy MemcacheProxy Pool Handler HandlerSpec.
Import S3 MysqlProxy MemcacheProxy Response SiteFrame Handler HandlerSpec.

Section server.
Context {Mem Db E T : Type}.
Context {clib : CLib} `{Boost} `{Pcre} `{LibXml} `{AlgorithmFrame}.
Context `{MemcacheClient Mem} `{SqlEngine Db} `{S3Env E} `{Os T}.
Abbreviation World := (World Mem Db E T).
Context (testMode : bool) (cache_path : string) (log_fuel rand_fuel : nat).
Abbreviation dispatch := (dispatch testMode cache_path log_fuel rand_fuel).
Abbreviation getSite := (getSite testMode cache_path).
Abbreviation _loadSite := (_loadSite testMode cache_path).
Abbreviation _resetSite := (_resetSite testMode).
Abbreviation reloadSite := (reloadSite testMode cache_path).

(** * Sites *)

Definition grants (st : Site.Site) (key : string) : Prop :=
  Site.validateSecretKey testMode st key = Ok ().

#[local] Instance grants_dec st key : Decision (grants st key).
Proof. unfold grants. apply _. Defined.

Lemma validate_cases st key :
  grants st key ∨ Site.validateSecretKey testMode st key = Throw Site.key_mismatch.
Proof. unfold grants, Site.validateSecretKey. repeat case_match; auto. Qed.

Lemma validate_rejects st key :
  ¬ grants st key → Site.validateSecretKey testMode st key = Throw Site.key_mismatch.
Proof. by destruct (validate_cases st key). Qed.

(** An entry of [sites] is a site made for its key. *)
Definition made_for (key : string) (st : Site.Site) : Prop :=
  testMode = false → sites_key (Site.subdomain st) (Site.stagingMode st) = key.

Record world_ok (w : World) : Prop := {
  session_sites i s : sessions w !! i = Some s → is_Some (site_objects w !! Session.site s);
  named_sites k p : sites w !! k = Some p → ∃ st, site_objects w !! p = Some st ∧ made_for k st;
  pools_ok : connected w;
}.

Lemma site_at_ok p st (w : World) : site_objects w !! p = Some st → site_at p w = (Ok st, w).
Proof. intros Ho. unfold site_at. by rewrite eff_bind_gets, Ho. Qed.

(** ** Loading *)

Definition same_but_sites (w w' : World) : Prop :=
  sessions w' = sessions w ∧ queryLog w' = queryLog w ∧
  memcacheProxy w' = memcacheProxy w ∧ mysqlProxy w' = mysqlProxy w ∧
  site_objects w ⊆ site_objects w'.

Lemma same_but_sites_refl w : same_but_sites w w.
Proof. by split_and!. Qed.
Lemma same_but_sites_trans w1 w2 w3 :
  same_but_sites w1 w2 → same_but_sites w2 w3 → same_but_sites w1 w3.
Proof. intros (?&?&?&?&?) (?&?&?&?&?). split_and!; [congruence..|by etrans]. Qed.

Lemma world_ok_same_but_sites w w' :
  world_ok w → same_but_sites w w' →
  (∀ k p, sites w' !! k = Some p → ∃ st, site_objects w' !! p = Some st ∧ made_for k st) →
  world_ok w'.
Proof.
  intros [Hs _ [? ? ? ?]] (E1 & _ & E2 & E3 & Hsub) Hn. split; [|done|].
  - intros i s. rewrite E1. intros [st Hst]%Hs. exists st. by eapply lookup_weaken.
  - split; by rewrite ?E2, ?E3.
Qed.

Lemma new_site_spec sub staging xml (w : World) :
  let '(r, w') := new_site testMode cache_path sub staging xml w in
  same_but_sites w w' ∧ sites w' = sites w ∧ siteMutexes w' = siteMutexes w ∧
  match r with
  | Ok p => ∃ st keys, site_objects w !! p = None ∧ site_objects w' = <[p := st]> (site_objects w)
                  ∧ Site.Site_new testMode sub staging keys xml = Ok st
  | _ => site_objects w' = site_objects w
  end.
Proof.
  unfold new_site. run_case Ek.
  2-4: unfold mbind, eff_mbind, eff_bind; rewrite Ek; revert Ek; destruct testMode;
    [done|]; unfold on_s3, zoom; destruct (read_s3 _ _ _); intros [= -> <-];
    by split_and!.
  rewrite (eff_bind_ok _ _ _ _ _ Ek).
  assert (same_but_sites w w0 ∧ sites w0 = sites w ∧ siteMutexes w0 = siteMutexes w
          ∧ site_objects w0 = site_objects w) as (Hw & Hs & Hm & Ho).
  { revert Ek. destruct testMode; [by intros [= _ <-]|]. unfold on_s3, zoom.
    destruct (read_s3 _ _ _). intros [= _ <-]. by split_and!. }
  destruct (Site.Site_new testMode sub staging a xml) as [st| | |] eqn:En;
    [|by split_and!..].
  rewrite (eff_bind_lift _ _ _ _ eq_refl), eff_bind_gets, eff_bind_modify.
  assert (site_objects w !! fresh (dom (site_objects w)) = None) as Hf
    by apply not_elem_of_dom, is_fresh.
  cbn -[fresh dom]. rewrite Ho. destruct Hw as (? & ? & ? & ? & ?). split.
  { split_and!; [done..|]. simpl. rewrite ?Ho. by apply insert_subseteq. }
  split; [done|]. split; [done|]. exists st, a. simpl. by rewrite ?Ho.
Qed.

Lemma made_for_new sub staging keys xml st :
  Site.Site_new testMode sub staging keys xml = Ok st → made_for (sites_key sub staging) st.
Proof.
  intros En Ht. rewrite Ht in En. apply Site_new_identity in En.
  unfold identity in En. by injection En as -> -> _.
Qed.

Lemma loadSite_spec sub staging xml (w : World) :
  let '(r, w') := _loadSite sub staging xml w in
  same_but_sites w w' ∧ siteMutexes w' = siteMutexes w ∧
  match r with
  | Ok p => ∃ st keys, site_objects w !! p = None ∧ site_objects w' = <[p := st]> (site_objects w)
                  ∧ sites w' = <[sites_key sub staging := p]> (sites w)
                  ∧ Site.Site_new testMode sub staging keys xml = Ok st
  | _ => sites w' = sites w ∧ site_objects w' = site_objects w
  end.
Proof.
  pose proof (new_site_spec sub staging xml w) as Hn. unfold Handler._loadSite.
  destruct (new_site _ _ _ _ _ w) as [[p| | |] w1] eqn:En; destruct Hn as (Hw & Hs & Hm & Hn);
    [|by unfold mbind, eff_mbind, eff_bind; rewrite En..].
  rewrite (eff_bind_ok _ _ _ _ _ En), eff_bind_modify.
  destruct Hn as (st & keys & Hf & Ho & En'), Hw as (?&?&?&?&?).
  cbn. rewrite Hs. split; [by split_and!|]. split; [done|]. by exists st, keys.
Qed.

Lemma loaded_ok sub staging st p (w w' : World) :
  world_ok w → same_but_sites w w' → site_objects w' = <[p := st]> (site_objects w) →
  site_objects w !! p = None → sites w' = <[sites_key sub staging := p]> (sites w) →
  made_for (sites_key sub staging) st → world_ok w'.
Proof.
  intros Hw Hsame Ho Hf Hs Hm. apply (world_ok_same_but_sites w); [done..|].
  intros k q. rewrite Hs, Ho. intros [[<- <-]|[Hne Hq]]%lookup_insert_Some.
  - exists st. by rewrite lookup_insert_eq.
  - apply (named_sites _ Hw) in Hq as (st' & Hst' & ?). exists st'. split; [|done].
    rewrite lookup_insert_ne; [done|]. by intros <-; rewrite Hf in Hst'.
Qed.

Lemma loadSite_ok sub staging xml (w : World) :
  world_ok w → world_ok (_loadSite sub staging xml w).2.
Proof.
  intros Hw. pose proof (loadSite_spec sub staging xml w) as Hl.
  destruct (_loadSite sub staging xml w) as [[p| | |] w1]; destruct Hl as (Hs & _ & Hl); simpl;
    [|by eapply world_ok_same_but_sites; [..|intros k p; destruct Hl as [-> ->];
         apply (named_sites _ Hw)]..].
  destruct Hl as (st & keys & Hf & Ho & Hi & En).
  by eapply (loaded_ok sub staging st p w w1); [..|eapply made_for_new].
Qed.

(** ** Finding a site *)

Lemma getSite_cached_spec k key p st (w : World) :
  sites w !! k = Some p → site_objects w !! p = Some st →
  _getSite testMode k key w =
    (if decide (grants st key) then Ok (Some p) else Throw Site.key_mismatch, w).
Proof.
  intros Hk Ho. unfold _getSite. rewrite eff_bind_gets, Hk.
  rewrite (eff_bind_ok _ _ _ _ _ (site_at_ok _ _ _ Ho)).
  case_decide as Hg; [by rewrite (eff_bind_lift _ _ _ _ Hg)|].
  unfold mbind, eff_mbind, eff_bind, lift. by rewrite (validate_rejects st key Hg).
Qed.

Lemma set_mutexes_ok f (w : World) : world_ok w → world_ok (set_mutexes f w).
Proof. intros Hw. by apply (world_ok_same_but_sites w); [..|apply (named_sites _ Hw)]. Qed.

(** What a call of [getSite] may do: the site it answers is registered under
    its key and accepts the secret key; sites that were there stay. *)
Lemma getSite_spec sub key staging (w : World) :
  world_ok w →
  let k := sites_key sub staging in
  let '(r, w') := getSite sub key staging w in
  same_but_sites w w' ∧ world_ok w' ∧
  (∀ k' p, sites w !! k' = Some p → sites w' !! k' = Some p) ∧
  match r with
  | Ok p => ∃ st, site_objects w' !! p = Some st ∧ sites w' !! k = Some p ∧ grants st key
  | _ => True
  end.
Proof.
  intros Hw k. unfold Handler.getSite, _get_site_mutex. rewrite eff_bind_modify. fold k.
  set (w0 := set_mutexes _ w). assert (world_ok w0) as Hw0 by by apply set_mutexes_ok.
  destruct (sites w !! k) as [p|] eqn:Ek.
  - destruct (named_sites _ Hw k p Ek) as (st & Ho & Hm).
    pose proof (getSite_cached_spec k key p st w0 Ek Ho) as Eg. case_decide as Hg.
    + rewrite (eff_bind_ok _ _ _ _ _ Eg). split; [done|]. split; [done|]. split; [done|].
      by exists st.
    + rewrite (eff_bind_throw _ _ _ _ _ Eg). by split_and!.
  - assert (_getSite testMode k key w0 = (Ok None, w0)) as Eg.
    { unfold _getSite. rewrite eff_bind_gets. simpl. by rewrite Ek. }
    rewrite (eff_bind_ok _ _ _ _ _ Eg).
    set (read := if testMode then _ else _).
    assert (∃ x e, read w0 = (x, set_s3 e w0)) as (x & e & Er).
    { unfold read. destruct testMode; [exists (Ok ""), (s3 w0); by destruct w|].
      unfold on_s3, zoom. destruct (read_s3 _ _ _) as [x e]. by exists x, e. }
    set (w1 := set_s3 e w0) in Er.
    assert (world_ok w1) as Hw1
      by by apply (world_ok_same_but_sites w); [..|apply (named_sites _ Hw)].
    unfold mbind at 1, eff_mbind at 1, eff_bind at 1. rewrite Er.
    destruct x as [xml| | |]; [|by split_and!..].
    pose proof (loadSite_spec sub staging xml w1) as Hl.
    pose proof (loadSite_ok sub staging xml w1 Hw1) as Hw2.
    destruct (_loadSite sub staging xml w1) as [[p| | |] w2] eqn:El;
      destruct Hl as (Hs & _ & Hl);
      [|by unfold mbind, eff_mbind, eff_bind; rewrite El; destruct Hl as [-> _]; split_and!..].
    rewrite (eff_bind_ok _ _ _ _ _ El). destruct Hl as (st & keys & Hf & Ho & Hi & En).
    assert (site_objects w2 !! p = Some st) as Hp by (by rewrite Ho, lookup_insert_eq).
    rewrite (eff_bind_ok _ _ _ _ _ (site_at_ok _ _ _ Hp)).
    assert (∀ k' q, sites w !! k' = Some q → sites w2 !! k' = Some q) as Hold.
    { intros k' q Hq. rewrite Hi. change (sites w1) with (sites w). rewrite lookup_insert_ne; [done|].
      fold k. intros <-. congruence. }
    destruct (validate_cases st key) as [Hg|Hg].
    + rewrite (eff_bind_lift _ _ _ _ Hg). split; [done|]. split; [done|]. split; [done|].
      exists st. split; [done|]. split; [|done]. by rewrite Hi, lookup_insert_eq.
    + unfold mbind, eff_mbind, eff_bind, lift. rewrite Hg. by split_and!.
Qed.

(** * Opening a session *)

Lemma same_core_ok (w w' : World) : same_core w' w → world_ok w → world_ok w'.
Proof.
  destruct w, w'. intros [Hc]. injection Hc as -> -> -> -> -> -> ->.
  intros [Hs Hn [? ? ? ?]]. by split.
Qed.

Lemma unused_id_spec fuel i (w : World) :
  let '(r, w') := unused_id fuel i w in
  ∃ o, w' = set_os o w ∧
    match r with
    | Ok j => sessions w !! j = None ∧ (sessions w !! i = None → j = i)
    | OutOfFuel => True
    | _ => False
    end.
Proof.
  revert i w. induction fuel as [|fuel IH]; intros i w; cbn [unused_id].
  { exists (os w). by destruct w. }
  unfold find_session. rewrite eff_bind_gets. destruct (sessions w !! i) as [s|] eqn:Ei.
  - unfold from_os. destruct (rand (os w)) as [j o] eqn:Er.
    rewrite (eff_bind_ok _ _ _ j (set_os o w)) by by rewrite Er.
    specialize (IH j (set_os o w)). destruct (unused_id fuel j (set_os o w)) as [r w'].
    destruct IH as (o' & -> & Hr). exists o'. split; [done|].
    destruct r; try done. by destruct Hr.
  - exists (os w). by destruct w.
Qed.

Definition open_body sub key staging suggested : eff (World * QueryLogEntry) VaeDbOpenSessionResponse :=
  site ← outer (getSite sub key staging);
  sessionId ← outer (unused_id rand_fuel suggested);
  now ← outer (from_os time);
  outer (modify (set_sessions (<[sessionId := Session.Session_new site now]>)));;
  st ← outer (site_at site);
  set_local (set_subdomain (Site.subdomain st));;
  mret {| open_session_id := sessionId; open_generation := Site.generation st |}.

(** The body of [openSession], from the site it found. *)
Lemma open_body_found sub key staging suggested p st j o (w w1 : World) e :
  getSite sub key staging w = (Ok p, w1) → site_objects w1 !! p = Some st →
  unused_id rand_fuel suggested w1 = (Ok j, set_os o w1) →
  open_body sub key staging suggested (w, e) =
    let '(now, o') := time o in
    (Ok {| open_session_id := j; open_generation := Site.generation st |},
     (set_sessions (<[j := Session.Session_new p now]>) (set_os o' w1),
      set_subdomain (Site.subdomain st) e)).
Proof.
  intros Eg Ho Ei. unfold open_body.
  rewrite (eff_bind_ok _ _ _ _ _ (outer_eq _ _ e _ _ Eg)).
  rewrite (eff_bind_ok _ _ _ _ _ (outer_eq _ _ e _ _ Ei)).
  destruct (time o) as [now o'] eqn:Et.
  assert (from_os time (set_os o w1) = (Ok now, set_os o' w1)) as En
    by (unfold from_os; simpl; by rewrite Et).
  rewrite (eff_bind_ok _ _ _ _ _ (outer_eq _ _ e _ _ En)).
  set (w2 := set_sessions (<[j := Session.Session_new p now]>) (set_os o' w1)).
  rewrite (eff_bind_ok _ _ _ () (w2, e)) by done.
  by rewrite (eff_bind_ok _ _ _ _ _ (outer_eq _ _ e _ _ (site_at_ok p st w2 Ho))).
Qed.

Lemma add_session_ok j s o st (w : World) :
  world_ok w → site_objects w !! Session.site s = Some st →
  world_ok (set_sessions (<[j := s]>) (set_os o w)).
Proof.
  intros [Hs Hn Hp] Ho. split; [|done|by destruct Hp].
  intros i t. simpl. intros [[_ <-]|[_ Ht]]%lookup_insert_Some; [by eexists|by eapply Hs].
Qed.

(** The invariant holds and no site object has gone. *)
Definition grows (w w' : World) : Prop := world_ok w' ∧ site_objects w ⊆ site_objects w'.

Lemma grows_core w w1 w' : grows w w1 → same_core w' w1 → grows w w'.
Proof.
  intros [Hok Hsub] Hc. split; [by eapply same_core_ok|]. by destruct Hc as [[= _ _ -> _ _ _ _]].
Qed.

Lemma openSession_cases sub key staging suggested (w : World) :
  world_ok w →
  let '(r, w') := openSession testMode cache_path log_fuel rand_fuel sub key staging suggested w in
  grows w w' ∧
  match r with
  | Ok a =>
      let i := open_session_id a in
      sessions w !! i = None ∧ (sessions w !! suggested = None → i = suggested) ∧
      ∃ p st now,
        sessions w' = <[i := Session.Session_new p now]> (sessions w) ∧
        sites w' !! sites_key sub staging = Some p ∧ site_objects w' !! p = Some st ∧
        made_for (sites_key sub staging) st ∧ grants st key ∧
        open_generation a = Site.generation st
  | _ => sessions w' = sessions w
  end.
Proof.
  intros Hw. unfold openSession. fold (open_body sub key staging suggested).
  destruct (with_entry_cases log_fuel "openSession"
    [LString sub; LString key; LBool staging; LInt suggested; LCharArray newline]
    (open_body sub key staging suggested) w)
    as [(r & w' & -> & Hw' & Hr)|(w1 & e & Hw1 & Hrun)].
  { split; [by apply (grows_core w w); [split|]|]. destruct Hw' as [[=]].
    destruct r; try done. by destruct (Hr a). }
  assert (world_ok w1) as Ok1 by by eapply same_core_ok.
  pose proof (getSite_spec sub key staging w1 Ok1) as Hg.
  destruct (getSite sub key staging w1) as [r w2] eqn:Eg.
  destruct Hg as ((Es & _ & _ & _ & Hsub) & Ok2 & _ & Hr).
  assert (sessions w1 = sessions w) as Es1 by by destruct Hw1 as [[=]].
  assert (grows w w2) as Gr by (split; [done|]; by destruct Hw1 as [[= _ _ <- _ _ _ _]]).
  destruct r as [p| | |].
  2-4: eassert (open_body sub key staging suggested (w1, e) = (_, (w2, e))) as Eb
      by (unfold open_body, mbind, eff_mbind, eff_bind, outer; rewrite Eg; reflexivity);
    destruct (Hrun _ _ _ Eb) as (w' & -> & Hw');
    (split; [by eapply grows_core|]); destruct Hw' as [[=]]; congruence.
  destruct Hr as (st & Ho & Hs & Hgr).
  pose proof (unused_id_spec rand_fuel suggested w2) as Hi.
  destruct (unused_id rand_fuel suggested w2) as [r w3] eqn:Ei. destruct Hi as (o & -> & Hi).
  destruct r as [j| | |]; [|done..|].
  2: { eassert (open_body sub key staging suggested (w1, e) = (_, (set_os o w2, e))) as Eb
         by (unfold open_body, mbind, eff_mbind, eff_bind, outer; rewrite Eg, Ei; reflexivity).
       destruct (Hrun _ _ _ Eb) as (w' & -> & Hw'). split.
       - apply (grows_core w (set_os o w2)); [|done]. by apply (grows_core w w2).
       - destruct Hw' as [[=]]; simpl in *. congruence. }
  pose proof (open_body_found sub key staging suggested p st j o w1 w2 e Eg Ho Ei) as Eb.
  destruct (time o) as [now o'].
  destruct (Hrun _ _ _ Eb) as (w' & -> & Hw'). split.
  { eapply grows_core; [|exact Hw']. split; [by eapply add_session_ok|apply Gr]. }
  destruct (named_sites _ Ok2 _ _ Hs) as (st' & Ho' & Hm). replace st' with st in Hm by congruence.
  destruct Hw' as [[=]]. simpl in *.
  split; [destruct Hi; congruence|]. split; [intros ?; apply Hi; congruence|].
  exists p, st, now. split_and!; congruence || done.
Qed.

(** The identifiers that the loop tries. *)
Fixpoint candidates (n : nat) (i : Z) (o : T) : list Z :=
  match n with
  | O => []
  | S n => i :: (let '(j, o') := rand o in candidates n j o')
  end.

Lemma unused_id_found fuel i (w : World) :
  Exists (λ j, sessions w !! j = None) (candidates fuel i (os w)) →
  ∃ j o, unused_id fuel i w = (Ok j, set_os o w).
Proof.
  revert i w. induction fuel as [|fuel IH]; intros i w Hex; [by apply Exists_nil in Hex|].
  cbn [candidates unused_id] in *. unfold find_session. rewrite eff_bind_gets.
  destruct (sessions w !! i) as [s|] eqn:Ei.
  - apply Exists_cons in Hex as [?|Hex]; [congruence|]. destruct (rand (os w)) as [j o] eqn:Er.
    rewrite (eff_bind_ok _ _ _ j (set_os o w)) by by (unfold from_os; rewrite Er).
    destruct (IH j (set_os o w) Hex) as (j' & o' & ->). by exists j', o'.
  - exists i, (os w). by destruct w.
Qed.



(** * Resetting and reloading *)

(** A loaded site whose keys do not include the one given. *)
Definition refused (k key : string) (w : World) : Prop :=
  ∃ p st, sites w !! k = Some p ∧ site_objects w !! p = Some st ∧ ¬ grants st key.
#[local] Instance refused_dec k key w : Decision (refused k key w).
Proof.
  destruct (sites w !! k) as [p|] eqn:Ek; [|right; intros (?&?&?&?); congruence].
  destruct (site_objects w !! p) as [st|] eqn:Eo; [|right; intros (?&?&?&?&?); congruence].
  destruct (decide (grants st key)) as [Hg|Hg].
  - right. intros (q&st'&Eq&Eo'&Hn). replace q with p in Eo' by congruence.
    by replace st' with st in Hn by congruence.
  - left. by exists p, st.
Defined.

Lemma set_sites_id f (w : World) : f (sites w) = sites w → set_sites f w = w.
Proof. intros Ef. unfold set_sites. rewrite Ef. by destruct w. Qed.

Lemma erase_spec k key force (w : World) :
  world_ok w →
  erase_if_loaded testMode k key force w =
    if decide (force = false ∧ refused k key w) then (Throw Site.key_mismatch, w)
    else (Ok (), set_sites (delete k) w).
Proof.
  intros Hw. unfold erase_if_loaded. rewrite eff_bind_gets.
  destruct (sites w !! k) as [p|] eqn:Ek.
  2: { rewrite decide_False by (intros (_&?&?&?&_); congruence).
       by rewrite set_sites_id by by apply delete_id. }
  destruct (named_sites _ Hw k p Ek) as (st & Ho & _). unfold _eraseSite. destruct force.
  { by rewrite decide_False by (by intros [? _]). }
  rewrite eff_bind_assoc, eff_bind_gets, Ek. cbn [deref].
  rewrite eff_bind_assoc, eff_bind_ret, eff_bind_assoc.
  rewrite (eff_bind_ok _ _ _ _ _ (site_at_ok _ _ _ Ho)).
  destruct (validate_cases st key) as [Hg|Hg].
  - rewrite (eff_bind_lift _ _ _ _ Hg), decide_False; [done|].
    intros (_ & q & st' & Eq & Eo & Hn). replace q with p in Eo by congruence.
    by replace st' with st in Hn by congruence.
  - rewrite decide_True.
    + unfold mbind, eff_mbind, eff_bind, lift. by rewrite Hg.
    + split; [done|]. exists p, st. unfold grants. rewrite Hg. by split_and!.
Qed.

Lemma delete_site_ok k (w : World) : world_ok w → world_ok (set_sites (delete k) w).
Proof.
  intros Hw. apply (world_ok_same_but_sites w); [done..|]. intros k' p. simpl.
  intros [_ Hk]%lookup_delete_Some. by apply (named_sites _ Hw).
Qed.

Lemma staging_key_ne sub : sub +:+ ".staging" ≠ sub.
Proof.
  intros En%(f_equal (length ∘ chars)). simpl in En. rewrite chars_app, length_app in En.
  simpl in En. lia.
Qed.

Lemma resetSite_inner sub key force (w : World) :
  world_ok w →
  _resetSite sub key force w =
    if decide (force = false ∧ refused sub key w) then (Throw Site.key_mismatch, w)
    else
      let w1 := set_sites (delete sub) w in
      if decide (force = false ∧ refused (sub +:+ ".staging") key w) then (Throw Site.key_mismatch, w1)
      else (Ok (), set_sites (delete (sub +:+ ".staging")) w1).
Proof.
  intros Hw. unfold Handler._resetSite. pose proof (erase_spec sub key force w Hw) as E1.
  case_decide; [by rewrite (eff_bind_throw _ _ _ _ _ E1)|]. rewrite (eff_bind_ok _ _ _ _ _ E1).
  rewrite erase_spec by by apply delete_site_ok. cbv zeta.
  assert (refused (sub +:+ ".staging") key (set_sites (delete sub) w)
          ↔ refused (sub +:+ ".staging") key w) as Hr.
  { unfold refused. simpl. rewrite lookup_delete_ne by by apply not_eq_sym, staging_key_ne. done. }
  repeat case_decide; tauto.
Qed.

(** C25: [resetSite] forgets the production and the staging site that the key
    opens; a wrong key is an error. The two are checked one after the other:
    when only the staging site refuses the key, the production site is gone
    although the call fails. Sessions keep the sites they have. *)
Theorem resetSite_spec sub key (w : World) :
  0 < log_fuel → world_ok w → loggable w [LString sub; LString key; LCharArray newline] →
  ∃ r w', resetSite testMode log_fuel sub key w = (r, w') ∧
    sessions w' = sessions w ∧ site_objects w' = site_objects w ∧
    (r, sites w') =
      if decide (refused sub key w) then (Throw Site.key_mismatch, sites w)
      else if decide (refused (sub +:+ ".staging") key w)
      then (Throw Site.key_mismatch, delete sub (sites w))
      else (Ok (), delete (sub +:+ ".staging") (delete sub (sites w))).
Proof.
  intros Hf Hw Hl. unfold resetSite.
  destruct (with_entry_run log_fuel Hf "resetSite" _ (outer (_resetSite sub key false)) w Hl)
    as (w1 & e & Hw1 & Hrun).
  assert (world_ok w1) as Ok1 by by eapply same_core_ok.
  assert (∀ k, refused k key w1 ↔ refused k key w) as Hr.
  { intros k. unfold refused. destruct Hw1 as [[=]].
    replace (sites w1) with (sites w). by replace (site_objects w1) with (site_objects w). }
  pose proof (resetSite_inner sub key false w1 Ok1) as Ei. cbv zeta in Ei.
  destruct (decide (refused sub key w)) as [R|R].
  2: rewrite decide_False in Ei by (by intros [_ ?%Hr]);
     destruct (decide (refused (sub +:+ ".staging") key w)) as [R2|R2].
  1, 2: rewrite decide_True in Ei by (split; [done|by apply Hr]).
  3: rewrite decide_False in Ei by (by intros [_ ?%Hr]).
  all: destruct (Hrun _ _ _ (outer_eq _ _ e _ _ Ei)) as (w' & -> & Hw');
    eexists _, w'; (split; [done|]); destruct Hw1 as [[=]], Hw' as [[=]]; simpl in *;
    split_and!; congruence.
Qed.

Definition reload_one (b : bool) sub staging xml : eff World unit :=
  when b (_get_site_mutex sub staging;; _loadSite sub staging xml;; mret ()).

Lemma reload_one_spec b sub staging xml (w : World) :
  world_ok w →
  let '(r, w') := reload_one b sub staging xml w in
  same_but_sites w w' ∧ world_ok w' ∧
  match r with
  | Ok _ =>
      if b then ∃ p st keys, site_objects w !! p = None ∧ site_objects w' !! p = Some st
                ∧ sites w' = <[sites_key sub staging := p]> (sites w)
                ∧ Site.Site_new testMode sub staging keys xml = Ok st
      else w' = w
  | _ => b = true ∧ sites w' = sites w
  end.
Proof.
  intros Hw. unfold reload_one. destruct b; cbn [when]; [|by split_and!].
  unfold _get_site_mutex. rewrite eff_bind_modify. set (w0 := set_mutexes _ w).
  pose proof (loadSite_spec sub staging xml w0) as Hl.
  pose proof (loadSite_ok sub staging xml w0 ltac:(by apply set_mutexes_ok)) as Ok1.
  destruct (_loadSite sub staging xml w0) as [[p| | |] w1] eqn:El;
    destruct Hl as (Hs & _ & Hl);
    [|by unfold mbind, eff_mbind, eff_bind; rewrite El; destruct Hl as [-> _]; split_and!..].
  rewrite (eff_bind_ok _ _ _ _ _ El). destruct Hl as (st & keys & Hf & Ho & Hi & En).
  split; [done|]. split; [done|]. exists p, st, keys.
  by rewrite Ho, lookup_insert_eq.
Qed.

(** What a successful reload of one entry does to the table. *)
Lemma reload_one_ok b sub staging xml (w w' : World) :
  let key := sites_key sub staging in
  world_ok w → reload_one b sub staging xml w = (Ok (), w') →
  same_but_sites w w' ∧ world_ok w' ∧ (∀ k, k ≠ key → sites w' !! k = sites w !! k) ∧
  if b then ∃ p st keys, sites w' !! key = Some p ∧ site_objects w !! p = None ∧
              site_objects w' !! p = Some st ∧
              Site.Site_new testMode sub staging keys xml = Ok st
  else sites w' !! key = sites w !! key.
Proof.
  intros key Hw Er. pose proof (reload_one_spec b sub staging xml w Hw) as S1. rewrite Er in S1.
  destruct S1 as (Hs & Hok & S1). split; [done|]. split; [done|]. destruct b; [|by subst].
  destruct S1 as (p & st & keys & Hf & Ho & Hi & En). rewrite Hi. split.
  - intros k Hk. by rewrite lookup_insert_ne.
  - exists p, st, keys. by rewrite lookup_insert_eq.
Qed.

Lemma reloadSite_unfold sub xml e (w : World) :
  world_ok w → read_s3 cache_path (sub +:+ "-feed.xml") (s3 w) = (Ok xml, e) →
  reloadSite sub w =
    (reload_one (bool_decide (is_Some (sites w !! sub))) sub false xml;;
     reload_one (bool_decide (is_Some (sites w !! (sub +:+ ".staging")))) sub true xml)
    (set_sites (delete (sub +:+ ".staging")) (set_sites (delete sub) (set_s3 e w))).
Proof.
  intros Hw Er. unfold Handler.reloadSite. rewrite !eff_bind_gets.
  rewrite (eff_bind_ok _ _ _ xml (set_s3 e w)) by (unfold on_s3, zoom; by rewrite Er).
  assert (world_ok (set_s3 e w)) as Hw1
    by by apply (world_ok_same_but_sites w); [..|apply (named_sites _ Hw)].
  pose proof (resetSite_inner sub "" true _ Hw1) as Ei.
  rewrite !decide_False in Ei by (by intros [? _]). by rewrite (eff_bind_ok _ _ _ _ _ Ei).
Qed.

Lemma emptied_ok sub e (w : World) :
  world_ok w →
  let w1 := set_sites (delete (sub +:+ ".staging")) (set_sites (delete sub) (set_s3 e w)) in
  world_ok w1 ∧ same_but_sites w w1.
Proof.
  intros Hw. split; [|done]. do 2 apply delete_site_ok.
  by apply (world_ok_same_but_sites w); [..|apply (named_sites _ Hw)].
Qed.

(** C11: reloading after a change of the feed: exactly the entries of the site
    that were loaded get a new object, made from the feed that was read; the
    other sites stay, sessions keep the object they had, and no site object
    that exists is modified. *)
Theorem reloadSite_spec sub (w w' : World) :
  world_ok w → reloadSite sub w = (Ok (), w') →
  sessions w' = sessions w ∧ site_objects w ⊆ site_objects w' ∧
  (∀ k, k ≠ sub → k ≠ sub +:+ ".staging" → sites w' !! k = sites w !! k) ∧
  ∃ xml, (read_s3 cache_path (sub +:+ "-feed.xml") (s3 w)).1 = Ok xml ∧
  ∀ staging : bool, let k := sites_key sub staging in
    match sites w !! k with
    | None => sites w' !! k = None
    | Some _ => ∃ p st keys, sites w' !! k = Some p ∧ site_objects w !! p = None ∧
                  site_objects w' !! p = Some st ∧
                  Site.Site_new testMode sub staging keys xml = Ok st
    end.
Proof.
  intros Hw. destruct (read_s3 cache_path (sub +:+ "-feed.xml") (s3 w)) as [x e] eqn:Er.
  destruct x as [xml| | |].
  2-4: unfold Handler.reloadSite; rewrite !eff_bind_gets; unfold mbind at 1, eff_mbind at 1,
    eff_bind at 1, on_s3, zoom; by rewrite Er.
  rewrite (reloadSite_unfold sub xml e w Hw Er).
  destruct (emptied_ok sub e w Hw) as [Ok1 Hsame1].
  set (w1 := set_sites _ _) in *. intros Hrun.
  apply eff_bind_inv in Hrun as ([] & w2 & E1 & E2).
  destruct (reload_one_ok _ _ _ _ _ _ Ok1 E1) as (Hsame2 & Ok2 & O2 & S2).
  destruct (reload_one_ok _ _ _ _ _ _ Ok2 E2) as (Hsame3 & Ok3 & O3 & S3). simpl in *.
  destruct (same_but_sites_trans _ _ _ Hsame1 (same_but_sites_trans _ _ _ Hsame2 Hsame3))
    as (Es & _ & _ & _ & Hsub).
  pose proof (staging_key_ne sub) as Hne.
  split; [done|]. split; [done|]. split.
  { intros k K1 K2. rewrite O3, O2 by done. unfold w1. simpl. by rewrite !lookup_delete_ne. }
  exists xml. split; [done|]. intros [|]; simpl.
  - destruct (sites w !! (sub +:+ ".staging")) as [q|] eqn:Eq; simpl in S3.
    + destruct S3 as (p & st & keys & ? & Hf & ? & ?). exists p, st, keys. split_and!; [done| |done..].
      eapply lookup_weaken_None; [exact Hf|]. apply Hsame2.
    + rewrite S3, O2 by done. unfold w1. simpl. by rewrite lookup_delete_eq.
  - rewrite O3 by done. destruct (sites w !! sub) as [q|] eqn:Eq; simpl in S2.
    + destruct S2 as (p & st & keys & ? & Hf & Ho & ?). exists p, st, keys. split_and!; [done|done| |done].
      eapply lookup_weaken; [exact Ho|]. apply Hsame3.
    + rewrite S2. unfold w1. simpl. by rewrite lookup_delete_ne, lookup_delete_eq.
Qed.

Lemma Site_new_unparsed sub staging keys xml :
  testMode = false → xmlReadMemory xml = None →
  Site.Site_new testMode sub staging keys xml
  = Throw (InternalError "Could not open/parse XML file").
Proof.
  intros Ht Hx. unfold Site.Site_new, Site.loadXmlDoc. rewrite eff_bind_gets, Ht, Hx. done.
Qed.

(** A feed that does not parse unloads the site: the reload that the bus
    runs forgets its entries first and then fails with an exception that
    [Bus::run] does not catch; the sessions keep their objects. *)
Theorem unparsable_feed sub xml e (w : World) :
  world_ok w → testMode = false → xmlReadMemory xml = None →
  read_s3 cache_path (sub +:+ "-feed.xml") (s3 w) = (Ok xml, e) →
  (∀ e, ∃ keys e', read_s3 cache_path (sub +:+ "-secret") e = (Ok keys, e')) →
  is_Some (sites w !! sub) ∨ is_Some (sites w !! (sub +:+ ".staging")) →
  ∃ w', bus_message testMode cache_path sub w
          = (Throw (InternalError "Could not open/parse XML file"), w') ∧
    sites w' !! sub = None ∧ sites w' !! (sub +:+ ".staging") = None ∧
    sessions w' = sessions w ∧ site_objects w' = site_objects w.
Proof.
  intros Hw Ht Hx Er Hk Hl.
  destruct (emptied_ok sub e w Hw) as [Ok1 Hsame1].
  pose proof (reloadSite_unfold sub xml e w Hw Er) as Eu. set (w1 := set_sites _ _) in *.
  assert (∀ staging, ∃ w2, reload_one true sub staging xml w1
      = (Throw (InternalError "Could not open/parse XML file"), w2)
      ∧ sites w2 = sites w1 ∧ sessions w2 = sessions w ∧ site_objects w2 = site_objects w) as Hfail.
  { intros staging. unfold reload_one, _get_site_mutex. cbn [when]. rewrite eff_bind_modify.
    set (w0 := set_mutexes _ w1). destruct (Hk (s3 w0)) as (keys & e' & Ek).
    assert (_loadSite sub staging xml w0
      = (Throw (InternalError "Could not open/parse XML file"), set_s3 e' w0)) as El.
    { apply eff_bind_throw. unfold new_site.
      erewrite eff_bind_ok; [|by rewrite Ht; unfold on_s3, zoom; rewrite Ek].
      apply eff_bind_throw. unfold lift. by rewrite Site_new_unparsed. }
    rewrite (eff_bind_throw _ _ _ _ _ El). by eexists. }
  assert (∃ w2, reloadSite sub w = (Throw (InternalError "Could not open/parse XML file"), w2)
      ∧ sites w2 = sites w1 ∧ sessions w2 = sessions w ∧ site_objects w2 = site_objects w)
    as (w2 & E2 & Hs & ? & ?).
  { rewrite Eu. destruct (sites w !! sub) eqn:E1; simpl.
    - destruct (Hfail false) as (w2 & E2 & ?). exists w2. split; [|done]. by apply eff_bind_throw.
    - rewrite (eff_bind_ok _ _ _ () w1) by done. destruct Hl as [[? ?]|Hl]; [done|].
      rewrite (bool_decide_eq_true_2 _ Hl). apply Hfail. }
  exists w2. unfold bus_message. rewrite (eff_bind_throw _ _ _ _ _ E2). rewrite Hs. unfold w1. simpl.
  pose proof (staging_key_ne sub). split_and!; [done| |by rewrite lookup_delete_eq|done..].
  by rewrite lookup_delete_ne, lookup_delete_eq.
Qed.
End server.
