(* ===== verification/ServerInv.v ===== *)
(** The invariant of the server is kept by every call, reload and round of the
    reaper, and a site object never changes what it serves. *)
From Stdlib Require Import ZArith.
From S2P Require Import Prelude Cpp Extern QueryLog VaeTypes Xml.
From S2P Require Site SiteSpec Response Session SiteFrame S3 MysqlProxy MemcacheProxy Pool Handler HandlerSpec ServerSpec.
Import SiteSpec S3 MysqlProxy MemcacheProxy Response SiteFrame Handler HandlerSpec ServerSpec.

Section invariant.
Context {Mem Db E T : Type}.
Context {clib : CLib} `{Boost} `{Pcre} `{LibXml} `{AlgorithmFrame}.
Context `{MemcacheClient Mem} `{SqlEngine Db} `{S3Env E} `{Os T}.
Abbreviation World := (World Mem Db E T).
Context (testMode : bool) (cache_path : string) (log_fuel rand_fuel : nat).
Abbreviation world_ok := (world_ok testMode).

(** Site objects are never dropped, and keep their document, keys and name. *)
Definition evolves (w0 w : World) : Prop :=
  world_ok w ∧
  ∀ p st, site_objects w0 !! p = Some st →
    ∃ st', site_objects w !! p = Some st' ∧ frozen st' = frozen st.

Lemma evolves_refl w : world_ok w → evolves w w.
Proof. intros Hw. split; [done|]. eauto. Qed.

Lemma evolves_extends w0 w w' :
  evolves w0 w → world_ok w' → site_objects w ⊆ site_objects w' → evolves w0 w'.
Proof.
  intros [_ He] Hw Hsub. split; [done|]. intros p st (st' & Hp & Hf)%He.
  exists st'. split; [|done]. by eapply lookup_weaken.
Qed.

Section pieces.
Variable w0 : World.
Abbreviation J := (evolves w0).

Lemma inv_core w w' : J w → same_core w' w → J w'.
Proof.
  intros Hw Hc. eapply evolves_extends; [exact Hw| |].
  - eapply same_core_ok; [exact Hc|apply Hw].
  - by destruct Hc as [[= _ _ -> _ _ _ _]].
Qed.

Lemma inv_with_entry {A} name args (body : eff (World * QueryLogEntry) A) :
  preserves (λ t, J t.1) body → preserves J (with_entry log_fuel name args body).
Proof.
  intros Hb w Hw. destruct (with_entry_cases log_fuel name args body w)
    as [(r & w' & -> & Hc & _)|(w1 & e & Hc & Hrun)]; [by eapply inv_core|].
  pose proof (Hb (w1, e) (inv_core _ _ Hw Hc)) as Hj.
  destruct (body (w1, e)) as [r [w2 e2]] eqn:Er.
  destruct (Hrun _ _ _ eq_refl) as (w' & -> & Hc'). by eapply inv_core.
Qed.

Lemma inv_outer {A} (m : eff World A) :
  preserves J m → preserves (λ t : World * QueryLogEntry, J t.1) (outer m).
Proof. intros Hm [w e] Hw. specialize (Hm w Hw). simpl. by destruct (m w). Qed.
Lemma inv_set_local f : preserves (λ t : World * QueryLogEntry, J t.1) (set_local f).
Proof. by intros [w e]. Qed.

Lemma inv_same_but_sites w w' :
  J w → same_but_sites w w' → world_ok w' → J w'.
Proof. intros Hw (_ & _ & _ & _ & Hsub) Hok. by eapply evolves_extends. Qed.

Lemma inv_site_at p : preserves J (site_at p).
Proof. unfold site_at. preserve. Qed.
Lemma inv_find_session i : preserves J (find_session i).
Proof. by intros w. Qed.
Lemma inv_subdomain_of s : preserves J (subdomain_of s).
Proof. unfold subdomain_of. preserve; apply inv_site_at. Qed.

Lemma inv_set_mutexes f : preserves J (modify (set_mutexes f)).
Proof.
  intros w Hw. eapply evolves_extends; [exact Hw| |done]. simpl. by apply set_mutexes_ok, Hw.
Qed.
Lemma inv_from_os {A} (f : T → A * T) : preserves J (from_os f).
Proof. intros w Hw. unfold from_os. destruct (f (os w)). by eapply inv_core. Qed.

Lemma inv_on_s3 {A} (m : eff E A) : preserves J (on_s3 m).
Proof.
  intros w Hw. unfold on_s3, zoom. destruct (m (s3 w)) as [r e]. simpl.
  apply (inv_same_but_sites w); [done..|].
  by apply (world_ok_same_but_sites testMode w); [apply Hw|..|apply (named_sites _ _ (proj1 Hw))].
Qed.

(** ** Caches *)

Lemma inv_mem {A} (b : eff Mem A) : preserves J (on_mem (with_client b)).
Proof.
  intros w Hw. pose proof (pools_ok _ _ (proj1 Hw)) as Hc. destruct (b (store w)) as [r m] eqn:Eb.
  rewrite (mem_call _ _ _ _ Hc Eb). apply (evolves_extends w0 w); [done| |done].
  destruct Hw as [[Hs Hn _] _]. split; [done..|]. simpl. by destruct Hc.
Qed.
Lemma inv_mysql {A} (b : string → eff Db A) : preserves J (on_mysql (with_connection b)).
Proof.
  intros w Hw. pose proof (pools_ok _ _ (proj1 Hw)) as Hc.
  destruct (b (mysql_database (mysqlProxy w)) (db w)) as [r d] eqn:Eb.
  rewrite (mysql_call _ _ _ _ Hc Eb). apply (evolves_extends w0 w); [done| |done].
  destruct Hw as [[Hs Hn _] _]. split; [done..|]. simpl. by destruct Hc.
Qed.

Lemma inv_with_subdomain {A} i (d : A) body :
  (∀ sub, preserves J (body sub)) → preserves J (with_subdomain i d body).
Proof. intros Hb. unfold with_subdomain. preserve; auto using inv_find_session, inv_subdomain_of. Qed.

(** ** Sites *)

Lemma inv_getSite sub key staging : preserves J (getSite testMode cache_path sub key staging).
Proof.
  intros w Hw. pose proof (getSite_spec testMode cache_path sub key staging w (proj1 Hw)) as Hg.
  simpl in Hg. destruct (getSite _ _ _ _ _ _) as [r w']. destruct Hg as (Hs & Hok & _).
  by eapply inv_same_but_sites.
Qed.

Lemma inv_resetSite sub key force : preserves J (_resetSite testMode sub key force).
Proof.
  intros w Hw. rewrite (resetSite_inner testMode sub key force w (proj1 Hw)).
  repeat case_decide; cbn; try done; eapply inv_same_but_sites; try exact Hw; try done;
    repeat apply delete_site_ok; apply Hw.
Qed.

Lemma inv_loadSite sub staging xml : preserves J (_loadSite testMode cache_path sub staging xml).
Proof.
  intros w Hw. pose proof (loadSite_spec testMode cache_path sub staging xml w) as Hl.
  pose proof (loadSite_ok testMode cache_path sub staging xml w (proj1 Hw)) as Hok.
  destruct (_loadSite _ _ _ _ _ _) as [r w']. destruct Hl as [Hs _].
  by eapply inv_same_but_sites.
Qed.
End pieces.
Create HintDb server discriminated.
#[local] Hint Resolve inv_outer inv_set_local inv_site_at inv_find_session inv_subdomain_of
  inv_set_mutexes inv_from_os inv_on_s3 inv_mem inv_mysql inv_with_subdomain inv_getSite
  inv_resetSite inv_loadSite : server.
(** The pieces first: they are not to be unfolded. *)
#[local] Ltac steps := preserve_with ltac:(solve [auto with server nocore]).

Lemma inv_reloadSite w0 sub : preserves (evolves w0) (reloadSite testMode cache_path sub).
Proof. unfold reloadSite, _get_site_mutex. steps. Qed.

Lemma inv_reap w0 : preserves (evolves w0) reap.
Proof.
  unfold reap, garbageCollect. steps. intros w Hw. simpl.
  eapply evolves_extends; [exact Hw| |done]. destruct Hw as [[Hs Hn [? ? ? ?]] _].
  split; [|done|by split]. intros i s. simpl. rewrite reap_loop_map.
  intros [Hi _]%map_lookup_filter_Some. by eapply Hs.
Qed.

(** ** Sessions *)

(** A method that keeps the session on its site, and the site as it is. *)
Definition well_behaved {A} (m : eff (Session.Session * Site.Site) A) : Prop :=
  ∀ t, Session.site (m t).2.1 = Session.site t.1 ∧ frozen (m t).2.2 = frozen t.2.

Lemma perform_behaves c t :
  Session.site (Session.perform c t).1 = Session.site t.1 ∧
  frozen (Session.perform c t).2 = frozen t.2.
Proof.
  destruct t as [s st]. split.
  - by destruct (Session.perform_grown c s (s, st)) as (_ & Hs & _).
  - by apply frozen_perform.
Qed.
Lemma createInfo_behaves i q : well_behaved (Session.createInfo i q).
Proof. exact (perform_behaves (Session.CreateInfo i q)). Qed.
Lemma data_behaves i : well_behaved (Session.data i).
Proof. exact (perform_behaves (Session.Data i)). Qed.
Lemma get_behaves i q o : well_behaved (Session.get i q o).
Proof. exact (perform_behaves (Session.Get i q o)). Qed.
Lemma structure_behaves i : well_behaved (Session.structure i).
Proof. exact (perform_behaves (Session.Structure i)). Qed.

Lemma made_for_frozen k st st' :
  frozen st' = frozen st → made_for testMode k st → made_for testMode k st'.
Proof. intros [= Es Em _ _ _ _ _] Hm Ht. rewrite Es, Em. by apply Hm. Qed.

Lemma in_session_ok {A} i s (m : eff (Session.Session * Site.Site) A) (w : World) :
  well_behaved m → world_ok w → evolves w (in_session i s m w).2.
Proof.
  intros Hm Hw. unfold in_session.
  destruct (site_objects w !! Session.site s) as [st|] eqn:Eo; [|by apply evolves_refl].
  destruct (Hm (s, st)) as [Hs Hf]. destruct (m (s, st)) as [r [s' st']]. simpl in *.
  destruct Hw as [Hsess Hn Hp].
  assert (∀ p st0, site_objects w !! p = Some st0 →
    ∃ st1, (<[Session.site s := st']> (site_objects w)) !! p = Some st1 ∧ frozen st1 = frozen st0)
    as Hobj.
  { intros p st0 Hp0. destruct (decide (p = Session.site s)) as [->|].
    - exists st'. rewrite lookup_insert_eq. split; [done|]. congruence.
    - exists st0. by rewrite lookup_insert_ne. }
  split; [|exact Hobj]. split; [| |by destruct Hp].
  - intros j t. simpl. intros [[_ <-]|[_ [st0 Ht]%Hsess]]%lookup_insert_Some.
    + rewrite Hs, lookup_insert_eq. by eexists.
    + destruct (Hobj _ _ Ht) as (st1 & -> & _). by eexists.
  - intros k p Hk. destruct (Hn k p Hk) as (st0 & Ht & Hmade).
    destruct (Hobj _ _ Ht) as (st1 & Ht1 & Hf1). exists st1. split; [done|].
    by apply (made_for_frozen _ st0).
Qed.

Section calls.
Variable w0 : World.
Abbreviation J := (evolves w0).

Lemma evolves_trans w1 w2 : J w1 → evolves w1 w2 → J w2.
Proof.
  intros [_ He] [Hok He']. split; [done|]. intros p st (st1 & Hp1 & Hf1)%He.
  destruct (He' _ _ Hp1) as (st2 & Hp2 & Hf2). exists st2. split; [done|congruence].
Qed.

Lemma inv_session_body {A} i (d : A) m :
  well_behaved m → preserves (λ t : World * QueryLogEntry, J t.1) (session_body i d m).
Proof.
  intros Hm. unfold session_body. preserve_with ltac:(solve [auto with server nocore]).
  apply inv_outer. intros w Hw. eapply evolves_trans; [exact Hw|].
  apply in_session_ok; [done|apply Hw].
Qed.

Lemma inv_openSession sub key staging i :
  preserves J (openSession testMode cache_path log_fuel rand_fuel sub key staging i).
Proof.
  intros w Hw.
  pose proof (openSession_cases testMode cache_path log_fuel rand_fuel sub key staging i w (proj1 Hw)) as Hc.
  destruct (openSession _ _ _ _ _ _ _ _ _) as [r w']. destruct Hc as [[Hok Hsub] _].
  by eapply evolves_extends.
Qed.

Lemma inv_erase_session i : preserves J (modify (set_sessions (delete i))).
Proof.
  intros w Hw. eapply evolves_extends; [exact Hw| |done]. destruct Hw as [[Hs Hn [? ? ? ?]] _].
  split; [|done|by split]. intros j s. simpl. intros [_ Hj]%lookup_delete_Some. by eapply Hs.
Qed.
End calls.
#[local] Hint Resolve inv_with_entry inv_session_body inv_openSession inv_erase_session
  createInfo_behaves data_behaves get_behaves structure_behaves inv_reloadSite inv_reap : server.

Lemma inv_answering {A} w0 (f : A → reply) m :
  preserves (evolves w0) m → preserves (evolves w0) (answering f m).
Proof. intros Hm. apply preserves_bind; [done|intros; apply preserves_ret]. Qed.

Lemma inv_session_dispatch w0 r : preserves (evolves w0) (session_dispatch log_fuel r).
Proof.
  destruct r; simpl; apply inv_answering;
    unfold Handler.createInfo, Handler.data, Handler.get, Handler.structure; auto with server nocore;
    apply inv_with_subdomain; intros sub'; steps; first [apply inv_mem|apply inv_mysql].
Qed.

Lemma inv_dispatch w0 r :
  preserves (evolves w0) (dispatch testMode cache_path log_fuel rand_fuel r).
Proof.
  destruct r; simpl; [| | | |apply inv_session_dispatch]; apply inv_answering;
    [apply inv_with_entry, preserves_ret|apply inv_openSession| |].
  - apply inv_with_entry. steps; apply inv_outer, inv_erase_session.
  - apply inv_with_entry. auto with server nocore.
Qed.

(** * The server *)

(** What changes the state: a call, whatever its arguments and its outcome, a
    message on the bus, a round of the reaper. *)
Inductive server_step : World → World → Prop :=
| step_call r w : server_step w (dispatch testMode cache_path log_fuel rand_fuel r w).2
| step_bus sub w : server_step w (bus_message testMode cache_path sub w).2
| step_reap w : server_step w (reap w).2.

Lemma step_evolves w0 w w' : evolves w0 w → server_step w w' → evolves w0 w'.
Proof.
  intros Hw Hs. destruct Hs; [by apply inv_dispatch| |by apply inv_reap].
  unfold bus_message. assert (preserves (evolves w0)
    (reloadSite testMode cache_path sub;; reloadSite testMode cache_path sub)) as Hp
    by (apply preserves_bind; intros; apply inv_reloadSite).
  by apply Hp.
Qed.


(** The state of the server after it started. *)
Lemma start_world_ok log mem mysql e o :
  Pool.pool_ok (mem_pool mem) → Pool.availableConnections (mem_pool mem) ≠ 0%Z →
  Pool.pool_ok (mysql_pool mysql) → Pool.availableConnections (mysql_pool mysql) ≠ 0%Z →
  world_ok (Build_World ∅ ∅ ∅ ∅ log mem mysql e o : World).
Proof. intros. by split. Qed.
End invariant.
