(* ===== verification/ServerDemo.v ===== *)
(** A small server, on which the theorems of [HandlerSpec], [ServerSpec] and
    [ServerInv] are applied: two feeds in the bucket, one of them unparsable. *)
From Stdlib Require Import ZArith.
From S2P Require Import Prelude Cpp Extern Regex QueryLog Util VaeTypes Xml XmlRef.
From S2P Require Site SiteSpec Response ResponseSpec Session SiteFrame S3 MysqlProxy MemcacheProxy Pool.
From S2P Require Handler HandlerSpec ServerSpec ServerInv.
Import S3 MysqlProxy MemcacheProxy Response SiteFrame Handler HandlerSpec ServerSpec ServerInv.

#[export] Existing Instances BoostRef.boost_ref demo_libxml ResponseSpec.SortRef.algorithms
  algorithm_frame_ref S3Ref.s3env S3Ref.s3env_laws.

(** A clock that stands at 1000 seconds and a counter for [rand], whose values are
    those of an [int]. *)
#[export] Instance counter_os : Os Z :=
  {| rand o := ((o `mod` 2 ^ 31)%Z, (o + 1)%Z); time o := (1000%Z, o); universal_time o := (1000000000%Z, o) |}.

Abbreviation World := (World (gmap string string) Tables S3Ref.env Z).

Definition bucket : gmap string string :=
  list_to_map [("shop-feed.xml", "demo.xml"); ("shop-secret", "k1,k2");
               ("bad-feed.xml", "<"); ("bad-secret", "k")].

Definition mysql : MysqlProxy Tables :=
  MysqlProxy_new "vaedb" (λ i, Some (Pos.of_succ_nat i)) SqlRef.tables.

Definition start : World :=
  Build_World ∅ ∅ ∅ ∅ (QueryLog_new None) MemRef.proxy mysql (S3Ref.up bucket) 7%Z.

Abbreviation call := (dispatch false "/c" 5 5).

(** A session on the demonstration site. *)
Definition opened : World := (call (OpenSession "shop" "k2" false 42) start).2.

Example opened_session :
  (call (OpenSession "shop" "k2" false 42) start).1
  = Ok (ROpenSession {| open_session_id := 42; open_generation := 7 |}).
Proof. vm_compute. reflexivity. Qed.
Example wrong_key : (call (OpenSession "shop" "k3" false 42) start).1 = Throw Site.key_mismatch.
Proof. vm_compute. reflexivity. Qed.
Example taken_id :
  (call (OpenSession "shop" "k1" true 42) opened).1
  = Ok (ROpenSession {| open_session_id := 7; open_generation := 7 |}).
Proof. vm_compute. reflexivity. Qed.

(** * The invariant *)

Lemma mysql_pool_ok : Pool.pool_ok (mysql_pool mysql).
Proof.
  apply Pool.Pool_new_ok. apply (bool_decide_unpack _). vm_compute. exact I.
Defined.

Lemma start_ok : world_ok false start.
Proof.
  apply start_world_ok; [exact MemRef.proxy_pool|vm_compute; discriminate|exact mysql_pool_ok|].
  vm_compute. discriminate.
Defined.


Lemma opened_ok : world_ok false opened.
Proof.
  assert (evolves false start opened) as [Hok _]; [|exact Hok].
  apply (inv_dispatch false "/c" 5 5 start (OpenSession "shop" "k2" false 42)).
  apply evolves_refl, start_ok.
Qed.

Definition shop : Site.Site :=
  Eval vm_compute in
  match site_objects opened !! 1%positive with Some st => st | None => Site.Site_init false "" false "" end.
Lemma shop_loaded : site_objects opened !! 1%positive = Some shop.
Proof. vm_compute. reflexivity. Qed.
Lemma opened_known : known opened 42 "shop".
Proof. eexists _, shop. split; [vm_compute; reflexivity|]. by split; [exact shop_loaded|]. Qed.

(** * Calls *)

Example unknown_session_noop_witness :
  ∃ w', session_dispatch 5 (SitewideLock 43) opened = (Ok (RInt (-1)), w') ∧ sessions w' = sessions opened.
Proof.
  destruct (unknown_session_noop 5 (SitewideLock 43) opened ltac:(lia) ltac:(vm_compute; reflexivity)
    ltac:(intros Hl; vm_compute in Hl; discriminate)) as (w' & E & [Hc]).
  exists w'. split; [exact E|]. exact (f_equal (λ c, c.1.1.1.1.1.1) Hc).
Defined.

Example session_calls_read_only_witness :
  Site.generation (foldl (λ t c, Session.perform c t) (Session.Session_new 1 0, shop)
    [Session.Get 0 "/artist" ∅; Session.Data 1]).2 = 7%Z.
Proof.
  pose proof (session_calls_read_only [Session.Get 0 "/artist" ∅; Session.Data 1]
    (Session.Session_new 1 0) shop) as Hr.
  exact (kept_generation _ _ Hr).
Defined.

Example longTermCache_read_your_writes_witness :
  ∃ a w1 w2, longTermCacheSet 42 "img" "new" 3 0 opened = (Ok (), w1) ∧
    longTermCacheGet 42 "img" 30 1 w1 = (Ok a, w2) ∧ a = "new".
Proof.
  destruct (longTermCache_read_your_writes (database := "vaedb") 42 "img" "new" 3 0 30 1 opened "shop"
    opened_known (pools_ok _ _ opened_ok) ltac:(vm_compute; reflexivity)
    (SqlRef.bindable_all _) (SqlRef.bindable_all _) (SqlRef.bindable_all _)
    (SqlRef.bindable_all _) (SqlRef.bindable_all _) (SqlRef.bindable_all _))
    as (a & w1 & w2 & E1 & E2 & _ & [->|(_ & _ & Hc & _)]).
  - exists "new", w1, w2. split; [exact E1|]. split; [exact E2|done].
  - vm_compute in Hc. discriminate.
Defined.

(** Emptying the long term cache leaves the copies in memcached: a read that may
    use them answers a value that no longer exists. *)
Example longTermCacheEmpty_stale :
  let w1 := (longTermCacheSet 42 "img" "new" 3 0 opened).2 in
  let w2 := (longTermCacheEmpty 42 w1).2 in
  (longTermCacheGet 42 "img" 0 1 w2).1 = Ok "new" ∧ (longTermCacheGet 42 "img" 0 0 w2).1 = Ok "".
Proof. vm_compute. split; reflexivity. Qed.

Example reap_spec_witness : sessions (reap opened).2 !! 42%Z = sessions opened !! 42%Z.
Proof.
  assert (time (os opened) = (1000%Z, os opened)) as Et by (vm_compute; reflexivity).
  destruct (reap_spec opened 1000 (os opened) Et) as (_ & _ & _ & Hi).
  destruct (sessions opened !! 42%Z) as [s|] eqn:E; [|vm_compute in E; discriminate].
  rewrite (Hi 42%Z s E). vm_compute in E. injection E as <-. reflexivity.
Defined.

(** * Sites *)

Lemma pair_inj {A B} (a a' : A) (b b' : B) : (a, b) = (a', b') → a = a' ∧ b = b'.
Proof. by intros [= -> ->]. Qed.



Example resetSite_spec_witness :
  ∃ w', resetSite false 5 "shop" "k1" opened = (Ok (), w') ∧ sites w' = ∅ ∧ sessions w' = sessions opened.
Proof.
  destruct (resetSite_spec false 5 "shop" "k1" opened ltac:(lia) opened_ok
    ltac:(intros Hl; vm_compute in Hl; discriminate)) as (r & w' & E & Hs & _ & Hr).
  rewrite decide_False in Hr.
  2: { intros (p & st & Ep & Eo & Hg). vm_compute in Ep. injection Ep as <-.
       rewrite shop_loaded in Eo. injection Eo as <-. by apply Hg. }
  rewrite decide_False in Hr by (intros (p & st & Ep & _); vm_compute in Ep; discriminate).
  apply pair_inj in Hr as [Er Hr]. rewrite Er in E.
  exists w'. split; [exact E|]. split; [|exact Hs].
  rewrite Hr. vm_compute. reflexivity.
Defined.

Definition reloaded : World := (reloadSite false "/c" "shop" opened).2.

Example reloadSite_spec_witness :
  sessions reloaded = sessions opened ∧ sites reloaded !! "shop.staging" = None.
Proof.
  destruct (reloadSite_spec false "/c" "shop" opened reloaded opened_ok) as (Hs & _ & _ & xml & _ & Hk).
  { unfold reloaded. assert ((reloadSite false "/c" "shop" opened).1 = Ok ()) as E by (vm_compute; reflexivity).
    destruct (reloadSite false "/c" "shop" opened). simpl in E. by subst. }
  split; [exact Hs|]. exact (Hk true).
Defined.

(** The site "bad" was loaded, then its feed was replaced. *)
Definition with_bucket (b : gmap string string) (w : World) : World :=
  set_s3 {| S3Ref.fs := S3Ref.fs (s3 w); S3Ref.bucket := b; S3Ref.down := S3Ref.down (s3 w) |} w.
Definition broken : World :=
  with_bucket bucket (call (OpenSession "bad" "k" false 1)
    (with_bucket (<["bad-feed.xml" := "demo.xml"]> bucket) start)).2.

Lemma broken_ok : world_ok false broken.
Proof.
  assert (∀ b w, world_ok false w → world_ok false (with_bucket b w)) as Hb.
  { intros b w Hw. by apply (world_ok_same_but_sites false w); [..|apply (named_sites _ _ Hw)]. }
  apply Hb. refine (proj1 (inv_dispatch false "/c" 5 5 _ (OpenSession "bad" "k" false 1) _ (evolves_refl _ _ _))).
  apply Hb, start_ok.
Qed.

Example unparsable_feed_witness :
  ∃ w', bus_message false "/c" "bad" broken
          = (Throw (InternalError "Could not open/parse XML file"), w') ∧ sites w' !! "bad" = None.
Proof.
  destruct (unparsable_feed false "/c" "bad" "<" (read_s3 "/c" "bad-feed.xml" (s3 broken)).2 broken
    broken_ok eq_refl) as (w' & E & Hn & _).
  - vm_compute. reflexivity.
  - vm_compute. reflexivity.
  - intros e. destruct (read_s3_ok (cache_path := "/c") "bad-secret" e) as (v & e' & Er). by exists v, e'.
  - left. vm_compute. eexists. reflexivity.
  - exists w'. split; [exact E|exact Hn].
Defined.
