(* ===== verification/Service.v ===== *)
(** [VaeDbHandler] behind [VaeDbProcessor]: the handlers of [Handler] implement
    the interface [VaeDbIf], so that the clients of [RpcSpec] talk to the server
    of [ServerInv]. *)
From Stdlib Require Import ZArith.
From S2P Require Import Prelude Cpp Extern Regex Util VaeTypes Xml XmlRef Protocol ProtocolSpec ProtocolRef.
From S2P Require Import Rpc Processor RpcSpec.
From S2P Require Site Response ResponseSpec SiteFrame S3 MysqlProxy MemcacheProxy Handler ServerSpec ServerInv.
From S2P Require ServerDemo.
Import S3 MysqlProxy MemcacheProxy Response SiteFrame Handler ServerSpec ServerInv.

Section service.
Context {Mem Db E T : Type}.
Context {clib : CLib} `{Boost} `{Pcre} `{LibXml} `{AlgorithmFrame}.
Context `{MemcacheClient Mem} `{SqlEngine Db} `{S3Env E} `{Os T}.
Abbreviation World := (World Mem Db E T).
Context (testMode : bool) (cache_path : string) (log_fuel rand_fuel : nat).

(** [class VaeDbHandler : virtual public VaeDbIf]. *)
#[local] Instance VaeDbHandler : VaeDbIf World := {
  if_ping := ping log_fuel;
  if_closeSession := closeSession log_fuel;
  if_createInfo := createInfo log_fuel;
  if_data := data log_fuel;
  if_get := get log_fuel;
  if_openSession := openSession testMode cache_path log_fuel rand_fuel;
  if_resetSite := resetSite testMode log_fuel;
  if_structure := structure log_fuel;
  if_sessionCacheGet := sessionCacheGet;
  if_sessionCacheSet := sessionCacheSet;
  if_sessionCacheDelete := sessionCacheDelete;
  if_shortTermCacheGet := shortTermCacheGet;
  if_shortTermCacheSet := shortTermCacheSet;
  if_shortTermCacheDelete := shortTermCacheDelete;
  if_longTermCacheGet := longTermCacheGet;
  if_longTermCacheSet := longTermCacheSet;
  if_longTermCacheDelete := longTermCacheDelete;
  if_longTermCacheEmpty := longTermCacheEmpty;
  if_longTermCacheSweeperInfo := longTermCacheSweeperInfo;
  if_sitewideLock := sitewideLock;
  if_sitewideUnlock := sitewideUnlock;
}.

Lemma answering_state {A} (f : A → reply) (m : eff World A) w : (answering f m w).2 = (m w).2.
Proof. unfold answering, mbind, eff_mbind, eff_bind. by destruct (m w) as [[] ?]. Qed.

Section processor.
Context {P : Type} `{TProtocol P}.
Variable (fuel : nat) (what : exn → string).
Abbreviation method := (method (P := P) (W := World)).

(** [w'] is what [w] becomes by at most one call of the interface. *)
Definition at_most_one_call (w w' : World) : Prop :=
  w' = w ∨ ∃ r, w' = (dispatch testMode cache_path log_fuel rand_fuel r w).2.

Tactic Notation "called" open_constr(r) := exists r; symmetry; apply answering_state.

Lemma method_calls (m : method) args w :
  m ∈ processMap fuel →
  ∃ r, (m_call m args w).2 = (dispatch testMode cache_path log_fuel rand_fuel r w).2.
Proof.
  unfold processMap. rewrite list_elem_of_In. simpl. intros Hin.
  repeat destruct Hin as [<-|Hin]; simpl in args |- *; destruct_pairs; try done.
  - called Ping.
  - called (CloseSession _ _).
  - called (OnSession (CreateInfo _ _ _)).
  - called (OnSession (Data _ _)).
  - called (OnSession (Get _ _ _ _)).
  - called (OpenSession _ _ _ _).
  - called (ResetSite _ _).
  - called (OnSession (Structure _ _)).
  - called (OnSession (SessionCacheGet _ _)).
  - called (OnSession (SessionCacheSet _ _ _)).
  - called (OnSession (SessionCacheDelete _ _)).
  - called (OnSession (ShortTermCacheGet _ _ _)).
  - called (OnSession (ShortTermCacheSet _ _ _ _ _)).
  - called (OnSession (ShortTermCacheDelete _ _)).
  - called (OnSession (LongTermCacheGet _ _ _ _)).
  - called (OnSession (LongTermCacheSet _ _ _ _ _)).
  - called (OnSession (LongTermCacheDelete _ _)).
  - called (OnSession (LongTermCacheEmpty _)).
  - called (OnSession (LongTermCacheSweeperInfo _)).
  - called (OnSession (SitewideLock _)).
  - called (OnSession (SitewideUnlock _)).
Qed.

(** From [I], the state of the server ends in [J] whatever the outcome. *)
Definition leads {A} (I J : World → Prop) (m : eff (P * World) A) : Prop := ∀ s, I s.2 → J (m s).2.2.

Lemma leads_bind {A B} (I J : World → Prop) (m : eff (P * World) A) (f : A → eff (P * World) B) :
  leads I J m → (∀ a, leads J J (f a)) → leads I J (m ≫= f).
Proof.
  intros Hm Hf s Hs. specialize (Hm s Hs). unfold mbind, eff_mbind, eff_bind.
  destruct (m s) as [[] s1]; simpl in *; [by apply Hf|done..].
Qed.
Lemma leads_protocol {A} I (m : eff P A) : leads I I (on_protocol m).
Proof. intros [p w] Hw. unfold on_protocol, zoom. simpl. by destruct (m p). Qed.
Lemma leads_through {A B} (I J : World → Prop) (m : eff P A) (f : A → eff (P * World) B) :
  (∀ w, I w → J w) → (∀ a, leads I J (f a)) → leads I J (on_protocol m ≫= f).
Proof.
  intros Hij Hf s Hs. pose proof (leads_protocol I m s Hs) as Hm. unfold mbind, eff_mbind, eff_bind.
  destruct (on_protocol m s) as [[] s1]; simpl in *; [by apply Hf|auto..].
Qed.

Lemma leads_process (m : method) seqid w0 :
  m ∈ processMap fuel → leads (λ w, w = w0) (at_most_one_call w0) (Rpc.process fuel what m seqid).
Proof.
  intros Hin. assert (∀ w, w = w0 → at_most_one_call w0 w) as Hnone by (by left). unfold Rpc.process.
  apply leads_through; [done|]. intros args. do 2 (apply leads_through; [done|]; intros _).
  apply leads_bind.
  - intros [p w] Hw. simpl in Hw. subst w. unfold try_catch, on_iface, zoom. simpl.
    destruct (method_calls m args w0 Hin) as [r Hr]. right. exists r. rewrite <- Hr.
    destruct (m_call m args w0) as [[a|e|u|] w1]; simpl; [done| |done..]. by destruct (is_std_exception e).
  - intros r. destruct (result_of what m r); apply leads_protocol.
Qed.

(** C27: whatever bytes arrive, and however the protocol that decodes them
    behaves, serving a message changes the state of the server by at most one
    call of the interface: in particular its invariant is kept. *)
Theorem served_bytes_safe (p : P) (w : World) :
  at_most_one_call w (serve fuel what (processMap fuel) (p, w)).2.2 ∧
  (world_ok testMode w → evolves testMode w (serve fuel what (processMap fuel) (p, w)).2.2).
Proof.
  assert (at_most_one_call w (serve fuel what (processMap fuel) (p, w)).2.2) as Hw.
  { revert p. assert (leads (λ w', w' = w) (at_most_one_call w) (serve fuel what (processMap fuel))) as Hl; [|intros p; by apply Hl].
    apply leads_through; [by left|]. intros [[fname mtype] seqid]. unfold Rpc.dispatchCall.
    destruct (List.find _ _) as [m|] eqn:Em.
    - apply leads_process. apply List.find_some in Em as [Hin _]. by apply list_elem_of_In.
    - do 3 (apply leads_through; [by left|]; intros _). intros s Hs. left. by apply leads_protocol. }
  split; [done|]. intros Hok. destruct Hw as [->|[r ->]]; [by apply evolves_refl|].
  by apply inv_dispatch, evolves_refl.
Qed.
End processor.
End service.

(** * The server of [ServerDemo] on queues *)

Import ServerDemo.

Definition what (e : exn) : string :=
  match e with
  | InternalError m | QueryError m | SyntaxError m | SQLException m | RuntimeError m | ThriftError m => m
  | CStringError m => m
  end.

#[local] Instance demo_handler : VaeDbIf World := VaeDbHandler false "/c" 5 5.

(** A client that asks for a session with a wrong key gets the exception that
    the handler throws. *)
Example rpc_transparent_witness :
  ∃ call p' answer q' w' c',
    send (openSession_method 9) ("shop", "k3", false, 42%Z) empty = (Ok (), p') ∧ outp p' = call ∧
    serve 9 what (processMap 9) (receive call, start) = (Ok (), (q', w')) ∧ outp q' = answer ∧
    recv 9 (openSession_method (P := queues) (W := World) 9) (receive answer) = (Throw Site.key_mismatch, c').
Proof.
  set (m := openSession_method (P := queues) (W := World) 9).
  destruct (rpc_transparent 9 what ltac:(lia) m _ _ ("shop", "k3", false, 42%Z) start
    (inr Site.key_mismatch) (dispatch false "/c" 5 5 (OpenSession "shop" "k3" false 42) start).2 empty
    (served_openSession 9)) as (call & p' & E & O & Hserver).
  - split; [vm_compute; reflexivity|]. split; [vm_compute; reflexivity|]. split; [discriminate|reflexivity].
  - vm_compute. reflexivity.
  - split; vm_compute; reflexivity.
  - simpl. lia.
  - destruct (Hserver (receive call) []) as (answer & q' & Es & _ & Os & Hclient).
    { by rewrite app_nil_r. }
    { simpl. lia. }
    destruct (Hclient (receive answer) []) as (c' & Ec & _).
    { by rewrite app_nil_r. }
    exists call, p', answer, q', (ServerDemo.call (OpenSession "shop" "k3" false 42) start).2, c'. split; [exact E|]. split; [exact O|]. split; [exact Es|].
    split; [exact Os|]. exact Ec.
Defined.

Example unknown_method_witness :
  ∃ q', serve 9 what (processMap 9) (receive [KMessage "drop" T_CALL 5; KStruct; KStop; KStructEnd; KMessageEnd], start)
        = (Ok (), (q', start)) ∧
    outp q' = [KMessage "drop" T_EXCEPTION 5; KException "Invalid method name: 'drop'"; KMessageEnd].
Proof.
  destruct (unknown_method 9 what (processMap 9) "drop" 5 [KStruct; KStop; KStructEnd] start
    (receive [KMessage "drop" T_CALL 5; KStruct; KStop; KStructEnd; KMessageEnd]) []) as (q' & E & _ & O).
  - reflexivity.
  - apply (value_struct [KStop]). constructor.
  - vm_compute. reflexivity.
  - reflexivity.
  - simpl. lia.
  - exists q'. split; [exact E|exact O].
Defined.

Example served_bytes_safe_witness :
  world_ok false (serve 9 what (processMap 9) (receive [KMessage "ping" T_CALL 5; KStruct], start)).2.2.
Proof.
  destruct (served_bytes_safe false "/c" 5 5 9 what (receive [KMessage "ping" T_CALL 5; KStruct]) start)
    as [_ Hs].
  destruct (Hs start_ok) as [Hok _]. exact Hok.
Defined.
