(* ===== verification/SiteThreads.v ===== *)
(** Threads inside [getSite], [reloadSite] and [_resetSite] of
    [cpp/vae_db_handler.cpp].  A site is loaded under the mutex of its key
    ([siteMutexes]); the table of sites is read and written under [sitesMutex],
    one critical section at a time; reading the feed and building the site happen
    outside of [sitesMutex], so that other threads run in between.  One step is
    one critical section, one read of the store or the construction of one site;
    [threads_alone] relates the steps to the definitions of [Handler].  The bus
    runs [reloadSite] in its own thread and once more in a spawned one. *)
From Stdlib Require Import ZArith.
From S2P Require Import Prelude Cpp Extern QueryLog VaeTypes Xml.
From S2P Require Site SiteSpec Response Session SiteFrame S3 MysqlProxy MemcacheProxy Pool.
From S2P Require Handler HandlerSpec ServerSpec ServerInv.
Import SiteSpec S3 MysqlProxy MemcacheProxy Response SiteFrame Handler HandlerSpec ServerSpec ServerInv.

(** The arguments of [getSite]. *)
Record site_request := { rq_subdomain : string; rq_secret : string; rq_staging : bool }.
Definition rq_key (r : site_request) : string := sites_key (rq_subdomain r) (rq_staging r).

(** Where a thread is: what it does next. *)
Inductive pc :=
| Enter (r : site_request)                            (* lock the site's mutex *)
| Lookup (r : site_request)
| Feed (r : site_request)
| Load (r : site_request) (xml : string)
| Publish (r : site_request) (p : site_ptr)           (* sites[sitesKey] = site *)
| Validate (r : site_request) (p : site_ptr)
| Got (r : site_request) (p : site_ptr)
| Reload (sub : string)
| ReloadFeed (sub : string) (prod staging : bool)
| ReloadErase (sub : string) (prod staging : bool) (xml : string)
| ReloadEnter (sub : string) (todo : list bool) (xml : string)
| ReloadLoad (sub : string) (st : bool) (todo : list bool) (xml : string)
| ReloadPublish (sub : string) (st : bool) (todo : list bool) (xml : string) (p : site_ptr)
| ResetSite (sub secret : string)
| Finished
| Stopped (why : outcome unit).

(** A thread about to lock a mutex: the site, and what follows. *)
Definition entering (c : pc) : option (string * bool * pc) :=
  match c with
  | Enter r => Some (rq_subdomain r, rq_staging r, Lookup r)
  | ReloadEnter sub (st :: todo) xml => Some (sub, st, ReloadLoad sub st todo xml)
  | _ => None
  end.

(** The mutex that a thread holds. *)
Definition holds (c : pc) : option string :=
  match c with
  | Lookup r | Feed r | Load r _ | Publish r _ | Validate r _ => Some (rq_key r)
  | ReloadLoad sub st _ _ | ReloadPublish sub st _ _ _ => Some (sites_key sub st)
  | _ => None
  end.

Section interleaving.
Context {Mem Db E T : Type}.
Context {clib : CLib} `{Boost} `{Pcre} `{LibXml} `{AlgorithmFrame}.
Context `{MemcacheClient Mem} `{SqlEngine Db} `{S3Env E} `{Os T}.
Abbreviation World := (World Mem Db E T).
Context (testMode : bool) (cache_path : string).

Definition read_feed (sub : string) : eff World string :=
  on_s3 (read_s3 cache_path (sub +:+ "-feed.xml")).

Definition reload_todo (prod staging : bool) : list bool :=
  (if prod then [false] else []) ++ (if staging then [true] else []).

(** What a thread does without other threads in between, in [getSite]. *)
Definition get_body (c : pc) : option (eff World pc) :=
  match c with
  | Lookup r => Some (
      site ← _getSite testMode (rq_key r) (rq_secret r);
      mret match site with Some p => Got r p | None => Feed r end)
  | Feed r => Some (
      xml ← (if testMode then mret "" else read_feed (rq_subdomain r));
      mret (Load r xml))
  | Load r xml => Some (
      p ← new_site testMode cache_path (rq_subdomain r) (rq_staging r) xml;
      mret (Publish r p))
  | Publish r p => Some (modify (set_sites (<[rq_key r := p]>));; mret (Validate r p))
  | Validate r p => Some (
      (st ← site_at p; lift (Site.validateSecretKey testMode st (rq_secret r)));;
      mret (Got r p))
  | _ => None
  end.

(** The same in [reloadSite] and [_resetSite]. *)
Definition reload_body (c : pc) : option (eff World pc) :=
  match c with
  | Reload sub => Some (
      prod ← gets (λ w, sites w !! sub);
      staging ← gets (λ w, sites w !! (sub +:+ ".staging"));
      mret (ReloadFeed sub (bool_decide (is_Some prod)) (bool_decide (is_Some staging))))
  | ReloadFeed sub prod staging => Some (
      xml ← read_feed sub; mret (ReloadErase sub prod staging xml))
  | ReloadErase sub prod staging xml => Some (
      _resetSite testMode sub "" true;;
      mret (ReloadEnter sub (reload_todo prod staging) xml))
  | ReloadEnter sub [] xml => Some (mret Finished)
  | ReloadLoad sub st todo xml => Some (
      p ← new_site testMode cache_path sub st xml;
      mret (ReloadPublish sub st todo xml p))
  | ReloadPublish sub st todo xml p => Some (
      modify (set_sites (<[sites_key sub st := p]>));;
      mret (ReloadEnter sub todo xml))
  | ResetSite sub secret => Some (_resetSite testMode sub secret false;; mret Finished)
  | _ => None
  end.

Definition body (c : pc) : option (eff World pc) :=
  match get_body c with Some b => Some b | None => reload_body c end.

(** * The threads together *)

(** A thread whose function threw has ended. *)
Definition after (r : outcome pc) : pc :=
  match r with
  | Ok c => c
  | Throw e => Stopped (Throw e)
  | UB why => Stopped (UB why)
  | OutOfFuel => Stopped OutOfFuel
  end.

Record machine := { world : World; owner : gmap string nat; threads : list pc }.

(** The end of the scope of [lockSite]. *)
Definition unlock (c c' : pc) (o : gmap string nat) : gmap string nat :=
  match holds c with
  | Some k => if decide (holds c' = Some k) then o else delete k o
  | None => o
  end.

(** The next step of thread [i]; [None] when it waits or has ended. *)
Definition run_thread (i : nat) (m : machine) : option machine :=
  c ← threads m !! i;
  match entering c with
  | Some (sub, st, c') =>
      match owner m !! sites_key sub st with
      | Some _ => None
      | None => Some {| world := (_get_site_mutex sub st (world m)).2;
                        owner := <[sites_key sub st := i]> (owner m);
                        threads := <[i := c']> (threads m) |}
      end
  | None =>
      b ← body c;
      let '(r, w) := b (world m) in
      Some {| world := w; owner := unlock c (after r) (owner m);
              threads := <[i := after r]> (threads m) |}
  end.

(** Some thread runs, or the object store changes. *)
Inductive machine_step : machine → machine → Prop :=
| thread_runs i m m' : run_thread i m = Some m' → machine_step m m'
| store_changes e m :
    machine_step m {| world := set_s3 e (world m); owner := owner m; threads := threads m |}.

Definition starting (c : pc) : bool :=
  match c with Enter _ | Reload _ | ResetSite _ _ => true | _ => false end.
Definition launch (w : World) (cs : list pc) : machine :=
  {| world := w; owner := ∅; threads := cs |}.

(** * One thread alone *)

(** A thread run to its end, as its function. *)
Fixpoint alone (n : nat) (c : pc) : eff World pc :=
  match n with
  | O => mret c
  | S n =>
      match entering c, body c with
      | Some (sub, st, c'), _ => _get_site_mutex sub st;; alone n c'
      | None, Some b => c' ← b; alone n c'
      | None, None => mret c
      end
  end.

(** Both sides run the same computation first. *)
Ltac same_first :=
  rewrite ?eff_bind_ret; cbn [alone entering body get_body reload_body]; rewrite ?eff_bind_assoc;
  apply eff_bind_proper.
Lemma alone_getSite r (w : World) :
  alone 7 (Enter r) w
  = (p ← getSite testMode cache_path (rq_subdomain r) (rq_secret r) (rq_staging r); mret (Got r p)) w.
Proof.
  unfold getSite, _loadSite.
  same_first. intros _ w1. same_first. intros [p|] w2; [done|].
  same_first. intros xml w3. same_first. intros p w4. same_first. intros _ w5.
  same_first. intros st w6. same_first. done.
Qed.

(** The sites that a reload loads, one after the other. *)
Definition reload_all (sub xml : string) (todo : list bool) : eff World pc :=
  foldr (λ st rest,
      (_get_site_mutex sub st;; _loadSite testMode cache_path sub st xml;; mret ());; rest)
    (mret Finished) todo.

Lemma alone_reload_enter sub todo xml n (w : World) :
  3 * length todo < n → alone n (ReloadEnter sub todo xml) w = reload_all sub xml todo w.
Proof.
  revert n w. induction todo as [|st todo IH]; intros n w Hn; simpl in Hn.
  - destruct n as [|[|n]]; [lia|done..].
  - destruct n as [|[|[|n]]]; [lia..|]. unfold reload_all, _loadSite in *. cbn [foldr].
    same_first. intros _ w1. same_first. intros p w2. same_first. intros _ w3.
    rewrite !eff_bind_ret. apply IH. lia.
Qed.

(** A thread that meets no other does what the sequential definitions of
    [getSite], [reloadSite] and [_resetSite] do. *)
Theorem threads_alone (w : World) :
  (∀ r, alone 7 (Enter r) w
     = (p ← getSite testMode cache_path (rq_subdomain r) (rq_secret r) (rq_staging r);
        mret (Got r p)) w) ∧
  (∀ sub, alone 10 (Reload sub) w = (reloadSite testMode cache_path sub;; mret Finished) w) ∧
  (∀ sub secret, alone 1 (ResetSite sub secret) w
     = (_resetSite testMode sub secret false;; mret Finished) w).
Proof.
  split; [intros r; apply alone_getSite|]. split.
  - intros sub. unfold reloadSite. cbn [alone entering body get_body reload_body].
    same_first. intros prod w1. same_first. intros staging w2.
    same_first. intros xml w3. same_first. intros _ w4.
    etrans; [apply (alone_reload_enter sub (reload_todo _ _) xml 7 w4)|];
      destruct (bool_decide (is_Some prod)), (bool_decide (is_Some staging)); cbn; try lia;
      rewrite ?eff_bind_ret, ?eff_bind_assoc, ?eff_bind_ret; try done.
  - intros sub secret. cbn [alone entering body get_body reload_body]. same_first. done.
Qed.
Definition finished (c : pc) : bool :=
  match c with Got _ _ | Finished | Stopped _ => true | _ => false end.

(** ** What one step does *)

Abbreviation made_for := (made_for testMode).
Abbreviation grants := (grants testMode).
Abbreviation world_ok := (world_ok testMode).

(** The site that a thread holds a pointer to. *)
Definition at_site (w : World) (p : site_ptr) (P : Site.Site → Prop) : Prop :=
  ∃ st, site_objects w !! p = Some st ∧ P st.

Definition pc_ok (w : World) (c : pc) : Prop :=
  match c with
  | Publish r p | Validate r p => at_site w p (made_for (rq_key r))
  | Got r p => at_site w p (λ st, made_for (rq_key r) st ∧ grants st (rq_secret r))
  | ReloadPublish sub st _ _ p => at_site w p (made_for (sites_key sub st))
  | _ => True
  end.

Lemma at_site_mono w w' p P :
  site_objects w ⊆ site_objects w' → at_site w p P → at_site w' p P.
Proof. intros Hsub (st & Ho & HP). exists st. split; [|done]. by eapply lookup_weaken. Qed.
Lemma pc_ok_mono w w' c : site_objects w ⊆ site_objects w' → pc_ok w c → pc_ok w' c.
Proof. intros Hsub. destruct c; simpl; eauto using at_site_mono. Qed.

(** How many steps a thread has left, at most. *)
Definition work (c : pc) : nat :=
  match c with
  | Enter _ => 6 | Lookup _ => 5 | Feed _ => 4 | Load _ _ => 3 | Publish _ _ => 2 | Validate _ _ => 1
  | Reload _ => 10 | ReloadFeed _ _ _ => 9 | ReloadErase _ _ _ _ => 8
  | ReloadEnter _ todo _ => 1 + 3 * length todo
  | ReloadLoad _ _ todo _ => 3 + 3 * length todo
  | ReloadPublish _ _ todo _ _ => 2 + 3 * length todo
  | ResetSite _ _ => 1
  | Got _ _ | Finished | Stopped _ => 0
  end.

Definition step_ok (c : pc) (w : World) (c' : pc) (w' : World) : Prop :=
  world_ok w' ∧ site_objects w ⊆ site_objects w' ∧ pc_ok w' c' ∧
  (holds c' = None ∨ holds c' = holds c) ∧ work c' < work c.

Lemma bind_mret_run {A} (m : eff World A) (f : A → pc) w o w1 :
  m w = (o, w1) →
  (x ← m; mret (f x)) w = (f <$> o, w1).
Proof. intros Er. unfold mbind, eff_mbind, eff_bind. rewrite Er. by destruct o. Qed.

Lemma on_s3_run {A} (m : eff E A) (w : World) : ∃ r e, on_s3 m w = (r, set_s3 e w).
Proof. unfold on_s3, zoom. destruct (m (s3 w)) as [r e]. by exists r, e. Qed.

Lemma set_s3_ok e (w : World) : world_ok w → world_ok (set_s3 e w).
Proof. intros Hw. by apply (world_ok_same_but_sites testMode w); [..|apply (named_sites _ _ Hw)]. Qed.

(** A computation that keeps the invariant, and what its result satisfies. *)
Definition gives {A} (m : eff World A) (w : World) (Q : World → A → Prop) : Prop :=
  let '(o, w') := m w in
  world_ok w' ∧ site_objects w ⊆ site_objects w' ∧ ∀ a, o = Ok a → Q w' a.

Lemma gives_step {A} (m : eff World A) (f : A → pc) c (w : World) Q :
  gives m w Q → 0 < work c →
  (∀ a w', Q w' a → pc_ok w' (f a) ∧ (holds (f a) = None ∨ holds (f a) = holds c) ∧
     work (f a) < work c) →
  let '(o, w') := (x ← m; mret (f x)) w in step_ok c w (after o) w'.
Proof.
  unfold gives. destruct (m w) as [o w'] eqn:Em. intros (Hw & Hsub & HQ) Hc Hf.
  rewrite (bind_mret_run _ _ _ _ _ Em).
  destruct o as [a| | |]; [|split_and!; simpl; auto..].
  destruct (Hf a w' (HQ a eq_refl)) as (? & ? & ?). by split_and!.
Qed.

Lemma getSite_gives r (w : World) :
  world_ok w →
  gives (_getSite testMode (rq_key r) (rq_secret r)) w (λ w' o,
    match o with Some p => pc_ok w' (Got r p) | None => True end).
Proof.
  intros Hw. unfold gives. destruct (sites w !! rq_key r) as [p|] eqn:Ek.
  - destruct (named_sites _ _ Hw _ _ Ek) as (st & Ho & Hm).
    rewrite (getSite_cached_spec testMode _ (rq_secret r) p st w Ek Ho).
    split; [done|]. split; [done|]. case_decide; intros a [= <-]. by exists st.
  - unfold _getSite. rewrite eff_bind_gets, Ek. by split_and!; [..|intros a [= <-]].
Qed.

Lemma read_gives sub (w : World) : world_ok w → gives (read_feed sub) w (λ _ _, True).
Proof.
  intros Hw. unfold gives, read_feed.
  destruct (on_s3_run (read_s3 cache_path (sub +:+ "-feed.xml")) w) as (r & e & ->).
  split_and!; [by apply set_s3_ok|done..].
Qed.
Lemma feed_gives (b : bool) sub (w : World) :
  world_ok w → gives (if b then mret "" else read_feed sub) w (λ _ _, True).
Proof. intros Hw. destruct b; [done|by apply read_gives]. Qed.

Lemma new_site_gives sub staging xml (w : World) :
  world_ok w →
  gives (new_site testMode cache_path sub staging xml) w
    (λ w' p, at_site w' p (made_for (sites_key sub staging))).
Proof.
  intros Hw. unfold gives. pose proof (new_site_spec testMode cache_path sub staging xml w) as Hn.
  destruct (new_site _ _ _ _ _ w) as [o w']. destruct Hn as (Hs & Es & _ & Ho).
  assert (site_objects w ⊆ site_objects w') as Hsub by apply Hs.
  split_and!; [|done|].
  - apply (world_ok_same_but_sites testMode w); [done..|]. intros k p. rewrite Es.
    intros (st & Hp & Hm)%(named_sites _ _ Hw). exists st. split; [by eapply lookup_weaken|done].
  - intros p ->. destruct Ho as (st & keys & _ & E' & En). exists st.
    rewrite E', lookup_insert_eq. split; [done|]. by eapply made_for_new.
Qed.

Lemma publish_ok k p (w : World) :
  world_ok w → at_site w p (made_for k) → world_ok (set_sites (<[k := p]>) w).
Proof.
  intros Hw Hp. apply (world_ok_same_but_sites testMode w); [done..|].
  intros k' q. simpl. intros [[<- <-]|[_ Hq]]%lookup_insert_Some; [done|].
  by apply (named_sites _ _ Hw).
Qed.

Lemma validate_gives r p (w : World) :
  world_ok w → at_site w p (made_for (rq_key r)) →
  gives (st ← site_at p; lift (Site.validateSecretKey testMode st (rq_secret r))) w
    (λ w' _, pc_ok w' (Got r p)).
Proof.
  intros Hw (st & Ho & Hm). unfold gives. rewrite (eff_bind_ok _ _ _ _ _ (site_at_ok _ _ _ Ho)).
  split; [done|]. split; [done|]. intros [] Hg. by exists st.
Qed.

Lemma reset_gives sub secret force (w : World) :
  world_ok w → gives (_resetSite testMode sub secret force) w (λ _ _, True).
Proof.
  intros Hw. unfold gives. rewrite (resetSite_inner testMode sub secret force w Hw).
  repeat case_decide; split_and!; try done; by repeat apply delete_site_ok.
Qed.

Lemma body_step c (w : World) b :
  world_ok w → pc_ok w c → body c = Some b →
  let '(o, w') := b w in step_ok c w (after o) w'.
Proof.
  intros Hw Hc Hb. destruct c; try discriminate Hb; try destruct todo; unfold body in Hb; simplify_eq/=.
  all: try (eapply gives_step;
    [by auto using getSite_gives, read_gives, feed_gives, new_site_gives, validate_gives, reset_gives
    |simpl; lia|]).
  all: try (intros a w' HQ; split_and!; simpl in *; auto; lia).
  1: intros [p|] w' HQ; split_and!; simpl in *; auto; lia.
  3: intros _ w' _; split_and!; simpl; auto; destruct prod, staging; simpl; lia.
  all: split_and!; simpl; auto; first [by apply publish_ok|lia].
Qed.

(** ** Every interleaving *)

(** The owner of a mutex is the thread that holds it. *)
Definition owned (o : gmap string nat) (cs : list pc) : Prop :=
  ∀ k i, o !! k = Some i ↔ ∃ c, cs !! i = Some c ∧ holds c = Some k.

Record sound (w0 : World) (m : machine) : Prop := {
  sound_world : evolves testMode w0 (world m);
  sound_owner : owned (owner m) (threads m);
  sound_threads i c : threads m !! i = Some c → pc_ok (world m) c;
}.

Lemma entering_holds c sub st c' :
  entering c = Some (sub, st, c') →
  holds c = None ∧ holds c' = Some (sites_key sub st) ∧ work c' < work c ∧ ∀ w, pc_ok w c'.
Proof.
  destruct c as [| | | | | | | | | |? [|b todo]| | | | |]; simpl; intros [=]; subst; simpl;
    split_and!; auto; lia.
Qed.

(** A step of a thread: it locks its mutex, or runs its next piece. *)
Lemma run_thread_inv i m m' :
  run_thread i m = Some m' →
  ∃ c, threads m !! i = Some c ∧
    ((∃ sub st c', entering c = Some (sub, st, c') ∧ owner m !! sites_key sub st = None ∧
        m' = {| world := (_get_site_mutex sub st (world m)).2;
                owner := <[sites_key sub st := i]> (owner m);
                threads := <[i := c']> (threads m) |}) ∨
     (∃ b o w, entering c = None ∧ body c = Some b ∧ b (world m) = (o, w) ∧
        m' = {| world := w; owner := unlock c (after o) (owner m);
                threads := <[i := after o]> (threads m) |})).
Proof.
  unfold run_thread. destruct (threads m !! i) as [c|]; [|done]. simpl. exists c. split; [done|].
  destruct (entering c) as [[[sub st] c']|].
  - destruct (owner m !! _) eqn:Eo; [done|]. left. exists sub, st, c'. by simplify_eq.
  - destruct (body c) as [b|]; [|done]. simpl in *. destruct (b (world m)) as [o w] eqn:Eb.
    right. exists b, o, w. by simplify_eq.
Qed.

Lemma other_thread (cs : list pc) i c' j k :
  i ≠ j → (∃ d, <[i := c']> cs !! j = Some d ∧ holds d = Some k)
        ↔ (∃ d, cs !! j = Some d ∧ holds d = Some k).
Proof. intros Hij. by rewrite list_lookup_insert_ne. Qed.

Lemma this_thread (cs : list pc) i c c' k :
  cs !! i = Some c →
  (∃ d, <[i := c']> cs !! i = Some d ∧ holds d = Some k) ↔ holds c' = Some k.
Proof.
  intros Hi. rewrite list_lookup_insert_eq by by eapply lookup_lt_Some.
  split; [by intros (d & [= ->] & ?)|by exists c'].
Qed.

Lemma owned_lock o cs i c k c' :
  owned o cs → cs !! i = Some c → holds c = None → o !! k = None → holds c' = Some k →
  owned (<[k := i]> o) (<[i := c']> cs).
Proof.
  intros Ho Hi Hc Hk Hc' k' j. destruct (decide (i = j)) as [<-|Hij].
  - rewrite (this_thread cs i c), Hc', lookup_insert_Some by done. split; [|naive_solver].
    intros [[<- _]|[_ (d & Hd & Hh)%Ho]]; congruence.
  - rewrite other_thread, <- (Ho k' j), lookup_insert_Some by done. split; [naive_solver|].
    intros Hj. right. split; [congruence|done].
Qed.

Lemma owned_unlock o cs i c c' :
  owned o cs → cs !! i = Some c → (holds c' = None ∨ holds c' = holds c) →
  owned (unlock c c' o) (<[i := c']> cs).
Proof.
  intros Ho Hi Hc k j. unfold unlock.
  assert (∀ k', o !! k' = Some i ↔ holds c = Some k') as Hi'.
  { intros k'. rewrite (Ho k' i), Hi. split; [by intros (d & [= ->] & ?)|by exists c]. }
  destruct (decide (i = j)) as [<-|Hij].
  - rewrite (this_thread cs i c) by done. destruct (holds c) as [k0|] eqn:Hh.
    + case_decide as Hd; [rewrite Hi', Hd; naive_solver|].
      rewrite lookup_delete_Some, Hi'. destruct Hc; naive_solver.
    + rewrite Hi'. destruct Hc; naive_solver.
  - rewrite other_thread, <- (Ho k j) by done. destruct (holds c) as [k0|]; [|done].
    case_decide; [done|]. rewrite lookup_delete_Some. split; [by intros [_ ?]|].
    intros Hj. split; [|done]. intros <-. assert (o !! k0 = Some i) by by apply Hi'. congruence.
Qed.

Lemma threads_mono (w w' : World) (cs : list pc) (i j : nat) c' d :
  (∀ (i : nat) c, cs !! i = Some c → pc_ok w c) → site_objects w ⊆ site_objects w' → pc_ok w' c' →
  <[i := c']> cs !! j = Some d → pc_ok w' d.
Proof.
  intros Hcs Hsub Hc' [(_ & <- & _)|[_ Hj]]%list_lookup_insert_Some; [done|].
  by eapply pc_ok_mono, Hcs.
Qed.

Lemma sound_step w0 m m' : sound w0 m → machine_step m m' → sound w0 m'.
Proof.
  intros Hs Hm. destruct Hm as [i m1 m2 (c & Hi & [(sub & st & c' & Hc & Hk & ->)|
    (b & o & w & _ & Hb & Eb & ->)])%run_thread_inv|e m1]; destruct Hs as [Hw Ho Ht].
  - destruct (entering_holds _ _ _ _ Hc) as (Hh & Hh' & _ & Hok). split; simpl.
    + exact (inv_set_mutexes testMode w0 _ (world m1) Hw).
    + by eapply owned_lock.
    + intros j d. by apply (threads_mono (world m1)).
  - pose proof (body_step c (world m1) b (proj1 Hw) (Ht _ _ Hi) Hb) as Hb'. rewrite Eb in Hb'.
    destruct Hb' as (Hok & Hsub & Hc & Hh & _). split; simpl.
    + by apply (evolves_extends testMode w0 (world m1)).
    + by eapply owned_unlock.
    + intros j d. by apply (threads_mono (world m1)).
  - split; simpl; [|done|].
    + apply (evolves_extends testMode w0 (world m1)); [done| |done]. by apply set_s3_ok, Hw.
    + intros i c Hi. by apply (pc_ok_mono (world m1)), Ht with i.
Qed.

Lemma launch_sound w cs : world_ok w → Forall starting cs → sound w (launch w cs).
Proof.
  intros Hw Hcs.
  assert (∀ i c, cs !! i = Some c → holds c = None ∧ pc_ok w c) as Hc.
  { intros i c Hi. pose proof (Forall_lookup_1 _ _ _ _ Hcs Hi) as Hs. by destruct c. }
  split; simpl.
  - by apply evolves_refl.
  - intros k i. rewrite lookup_empty. split; [done|]. intros (c & Hi%Hc & Hh).
    by destruct Hi; congruence.
  - intros i c Hi. by apply (Hc i c Hi).
Qed.

Lemma reachable_sound w cs m :
  world_ok w → Forall starting cs → rtc machine_step (launch w cs) m → sound w m.
Proof.
  intros Hw Hcs. apply (rtc_invariant machine_step (sound w)); [by apply launch_sound|].
  apply sound_step.
Qed.

Lemma one_holder w0 m i j c d k :
  sound w0 m → threads m !! i = Some c → threads m !! j = Some d →
  holds c = Some k → holds d = Some k → i = j.
Proof.
  intros Hs Hi Hj Hc Hd. assert (owner m !! k = Some i) by (apply (sound_owner _ _ Hs); eauto).
  assert (owner m !! k = Some j) by (apply (sound_owner _ _ Hs); eauto). congruence.
Qed.

(** Whatever the interleaving of threads that get, reload and reset sites,
    and of changes of the object store: no two threads hold the mutex of one
    site; the state of the server stays consistent and no site object changes;
    a thread whose [getSite] answered has a site made for the name and mode it
    asked for, which accepts its secret key. *)
Theorem threads_safe w cs m :
  world_ok w → Forall starting cs → rtc machine_step (launch w cs) m →
  (∀ i j c d k, threads m !! i = Some c → threads m !! j = Some d →
     holds c = Some k → holds d = Some k → i = j) ∧
  evolves testMode w (world m) ∧
  (∀ i r p, threads m !! i = Some (Got r p) →
     ∃ st, site_objects (world m) !! p = Some st ∧ made_for (rq_key r) st ∧ grants st (rq_secret r)).
Proof.
  intros Hw Hcs Hr. pose proof (reachable_sound w cs m Hw Hcs Hr) as Hs. split_and!.
  - intros i j c d k. by apply (one_holder w).
  - apply Hs.
  - intros i r p Hi. exact (sound_threads _ _ Hs i _ Hi).
Qed.

(** ** Threads that only get sites *)

Definition getting (w : World) (c : pc) : Prop :=
  match c with
  | Enter _ | Lookup _ | Stopped _ => True
  | Feed r | Load r _ | Publish r _ => sites w !! rq_key r = None
  | Validate r p | Got r p => sites w !! rq_key r = Some p
  | _ => False
  end.

Definition get_step (c : pc) (w : World) (c' : pc) (w' : World) : Prop :=
  sites w ⊆ sites w' ∧ getting w' c' ∧ ∀ k, holds c ≠ Some k → sites w' !! k = sites w !! k.

Lemma same_sites_step {A} (m : eff World A) (f : A → pc) c (w : World) :
  sites (m w).2 = sites w → (∀ a, (m w).1 = Ok a → getting w (f a)) →
  let '(o, w') := (x ← m; mret (f x)) w in get_step c w (after o) w'.
Proof.
  destruct (m w) as [o w1] eqn:Em. simpl. intros Es Hf. rewrite (bind_mret_run _ _ _ _ _ Em).
  assert (∀ c', getting w c' → getting w1 c') as Hg by (intros []; simpl; by rewrite ?Es).
  unfold get_step. rewrite Es. destruct o as [a| | |]; split_and!; simpl; auto.
Qed.

Lemma lookup_get r (w : World) :
  world_ok w →
  (_getSite testMode (rq_key r) (rq_secret r) w).2 = w ∧
  ∀ a, (_getSite testMode (rq_key r) (rq_secret r) w).1 = Ok a → sites w !! rq_key r = a.
Proof.
  intros Hw. destruct (sites w !! rq_key r) as [p|] eqn:Ek.
  - destruct (named_sites _ _ Hw _ _ Ek) as (st & Ho & _).
    rewrite (getSite_cached_spec testMode _ (rq_secret r) p st w Ek Ho).
    split; [done|]. simpl. case_decide; by intros a [= <-].
  - unfold _getSite. rewrite eff_bind_gets, Ek. split; [done|]. by intros a [= <-].
Qed.

Lemma feed_same_sites (b : bool) sub (w : World) :
  sites ((if b then mret "" else read_feed sub) w).2 = sites w.
Proof.
  destruct b; [done|]. unfold read_feed.
  by destruct (on_s3_run (read_s3 cache_path (sub +:+ "-feed.xml")) w) as (r & e & ->).
Qed.

Lemma validate_same_world secret p (w : World) :
  ((st ← site_at p; lift (Site.validateSecretKey testMode st secret)) w).2 = w.
Proof.
  unfold site_at, mbind, eff_mbind, eff_bind, gets, lift. simpl.
  by destruct (site_objects w !! p).
Qed.

Lemma getting_step c (w : World) b :
  world_ok w → getting w c → body c = Some b →
  let '(o, w') := b w in get_step c w (after o) w'.
Proof.
  intros Hw Hc Hb. destruct c; try discriminate Hb; try done; unfold body in Hb; simplify_eq/=.
  - destruct (lookup_get r w Hw) as [Ew Hl]. apply same_sites_step; [by rewrite Ew|].
    intros [p|] Hp; by apply Hl.
  - by apply same_sites_step; [apply feed_same_sites|].
  - apply same_sites_step; [|done].
    pose proof (new_site_spec testMode cache_path (rq_subdomain r) (rq_staging r) xml w) as Hn.
    destruct (new_site _ _ _ _ _ w). apply Hn.
  - split; simpl; [by apply insert_subseteq|]. split; [by rewrite lookup_insert_eq|].
    intros k Hk. rewrite lookup_insert_ne; [done|]. congruence.
  - by apply same_sites_step; [rewrite validate_same_world|].
Qed.

Definition all_getting (m : machine) : Prop := ∀ i c, threads m !! i = Some c → getting (world m) c.

(** A thread is not disturbed by those that hold other mutexes. *)
Lemma getting_other (w w' : World) c d :
  sites w ⊆ sites w' → (∀ k, holds c ≠ Some k → sites w' !! k = sites w !! k) →
  (∀ k, holds c = Some k → holds d ≠ Some k) → getting w d → getting w' d.
Proof.
  intros Hsub Hk Hne. destruct d; simpl; try done; intros Hd;
    try (by eapply lookup_weaken); rewrite Hk; try done; by intros ?%Hne.
Qed.

Lemma all_getting_step w0 m m' :
  sound w0 m → all_getting m → machine_step m m' →
  all_getting m' ∧ sites (world m) ⊆ sites (world m').
Proof.
  intros Hs Ha Hm. destruct Hm as [i m m' (c & Hi & [(sub & st & c' & Hc & Hk & ->)|
    (b & o & w & _ & Hb & Eb & ->)])%run_thread_inv|e m]; [| |by split].
  - split; [|done]. intros j d [(_ & <- & _)|[_ Hj]]%list_lookup_insert_Some.
    + pose proof (Ha _ _ Hi) as Hg. by destruct c as [| | | | | | | | | |? [|]| | | | |]; simplify_eq/=.
    + by specialize (Ha _ _ Hj); destruct d.
  - pose proof (getting_step c (world m) b (proj1 (sound_world _ _ Hs)) (Ha _ _ Hi) Hb) as Hg.
    rewrite Eb in Hg. destruct Hg as (Hsub & Hg & Hk). split; [|done].
    intros j d [(_ & <- & _)|[Hij Hj]]%list_lookup_insert_Some; [done|]. simpl.
    apply (getting_other (world m) w c d); [done..| |by apply (Ha j)].
    intros k Hck Hdk. apply Hij. by eapply one_holder.
Qed.

(** C5: as long as threads only get sites, each site is loaded once: an entry
    of the table is never replaced, and all the threads that asked for one name
    and mode answer the same object, the one in the table. *)
Theorem site_loaded_once w rs m m' :
  world_ok w → rtc machine_step (launch w (Enter <$> rs)) m → rtc machine_step m m' →
  sites (world m) ⊆ sites (world m') ∧
  ∀ i j r r' p p', threads m !! i = Some (Got r p) → threads m' !! j = Some (Got r' p') →
    rq_key r = rq_key r' → p = p' ∧ sites (world m') !! rq_key r = Some p.
Proof.
  intros Hw Hr Hr'.
  assert (sound w m ∧ all_getting m) as [Hs Ha].
  { apply (rtc_invariant machine_step (λ m, sound w m ∧ all_getting m) (launch w (Enter <$> rs)) m);
      [| |done].
    - split.
      + apply launch_sound; [done|]. apply Forall_fmap, Forall_true. by intros r.
      + intros i c. simpl. rewrite list_lookup_fmap. by destruct (rs !! i); intros [= <-].
    - intros a b [Hs Ha] Hstep. split; [by eapply sound_step|by eapply all_getting_step]. }
  assert (sound w m' ∧ all_getting m' ∧ sites (world m) ⊆ sites (world m')) as (_ & Ha' & Hsub).
  { apply (rtc_invariant machine_step
      (λ b, sound w b ∧ all_getting b ∧ sites (world m) ⊆ sites (world b)) m m'); [done| |done].
    intros a b (Hs1 & Ha1 & Hsub1) Hstep.
    destruct (all_getting_step w a b Hs1 Ha1 Hstep) as [Hb Hab].
    split_and!; [by eapply sound_step|done|by etrans]. }
  split; [done|]. intros i j r r' p p' Hi Hj E'.
  pose proof (Ha _ _ Hi) as Hp. pose proof (Ha' _ _ Hj) as Hp'. simpl in *.
  assert (sites (world m') !! rq_key r = Some p) by by eapply lookup_weaken.
  split; [congruence|done].
Qed.

(** ** Every thread ends *)

Definition total (m : machine) : nat := sum_list (work <$> threads m).

Lemma sum_insert (l : list nat) i x y :
  l !! i = Some x → sum_list (<[i := y]> l) + x = sum_list l + y.
Proof.
  revert i. induction l as [|z l IH]; intros [|i]; simpl; [done..| |].
  - intros [= ->]. lia.
  - intros Hi. specialize (IH i Hi). lia.
Qed.

Lemma total_insert (cs : list pc) i c c' :
  cs !! i = Some c → work c' < work c →
  sum_list (work <$> <[i := c']> cs) < sum_list (work <$> cs).
Proof.
  intros Hi Hlt. rewrite list_fmap_insert.
  assert ((work <$> cs) !! i = Some (work c)) as Hw by by rewrite list_lookup_fmap, Hi.
  pose proof (sum_insert _ _ _ (work c') Hw). lia.
Qed.

Lemma run_decreases w0 m i m' : sound w0 m → run_thread i m = Some m' → total m' < total m.
Proof.
  intros Hs (c & Hi & [(sub & st & c' & Hc & _ & ->)|(b & o & w & _ & Hb & Eb & ->)])%run_thread_inv.
  - by apply (total_insert _ i c), (entering_holds _ _ _ _ Hc).
  - pose proof (body_step c (world m) b (proj1 (sound_world _ _ Hs)) (sound_threads _ _ Hs _ _ Hi) Hb) as Hst.
    rewrite Eb in Hst. by apply (total_insert _ i c), Hst.
Qed.

Lemma body_runs m i c :
  threads m !! i = Some c → entering c = None → is_Some (body c) → is_Some (run_thread i m).
Proof.
  intros Hi Hc [b Hb]. unfold run_thread. rewrite Hi. cbn [mbind option_bind].
  rewrite Hc, Hb. cbn [mbind option_bind]. destruct (b (world m)). by eexists.
Qed.

(** A thread that holds a mutex does not wait for another. *)
Lemma holder_runs m i c k :
  threads m !! i = Some c → holds c = Some k → is_Some (run_thread i m).
Proof. intros Hi Hk. apply (body_runs m i c Hi); by destruct c. Qed.

Lemma some_thread_runs w0 m i c :
  sound w0 m → threads m !! i = Some c → ¬ finished c → ∃ j, is_Some (run_thread j m).
Proof.
  intros Hs Hi Hf. destruct (entering c) as [[[sub st] c']|] eqn:Hc.
  - destruct (owner m !! sites_key sub st) as [j|] eqn:Ho.
    + apply (sound_owner _ _ Hs) in Ho as (d & Hj & Hd). exists j. by eapply holder_runs.
    + exists i. unfold run_thread. rewrite Hi. simpl. rewrite Hc, Ho. by eexists.
  - exists i. apply (body_runs m i c Hi Hc).
    destruct c as [| | | | | | | | | |? [|]| | | | |]; try discriminate Hc;
      first [by destruct Hf|eexists; reflexivity].
Qed.

Lemma total_start cs : Forall starting cs → sum_list (work <$> cs) ≤ 10 * length cs.
Proof.
  induction 1 as [|c cs Hc _ IH]; [done|].
  change (work c + sum_list (work <$> cs) ≤ 10 * S (length cs)).
  assert (work c ≤ 10) by (destruct c; try done; simpl; lia). lia.
Qed.

(** No schedule of [n] threads is longer than [10 * n] steps, and none ends
    with a thread that waits for a mutex: when no thread can run, all have
    ended. *)
Theorem threads_end w cs m :
  world_ok w → Forall starting cs → rtc machine_step (launch w cs) m →
  total (launch w cs) ≤ 10 * length cs ∧
  (∀ i m', run_thread i m = Some m' → total m' < total m) ∧
  ((∀ i, run_thread i m = None) → Forall finished (threads m)).
Proof.
  intros Hw Hcs Hr. pose proof (reachable_sound w cs m Hw Hcs Hr) as Hs.
  split; [by apply total_start|]. split; [intros i m'; by eapply run_decreases|].
  intros Hnone. apply Forall_lookup. intros i c Hi. destruct (decide (finished c)) as [|Hf]; [done|].
  destruct (some_thread_runs w m i c Hs Hi Hf) as (j & m' & Hj). by rewrite Hnone in Hj.
Qed.
End interleaving.
