(* ===== verification/SiteThreadsDemo.v ===== *)
(** Threads of a small server: the theorems of [SiteThreads] applied, and a
    schedule after which the server keeps an old feed. *)
From Stdlib Require Import ZArith.
From S2P Require Import Prelude Cpp Extern Regex QueryLog Util VaeTypes Xml XmlRef.
From S2P Require Site SiteSpec Response ResponseSpec Session SiteFrame S3 MysqlProxy MemcacheProxy Pool.
From S2P Require Handler HandlerSpec ServerSpec ServerInv ServerDemo SiteThreads.
Import S3 MysqlProxy MemcacheProxy SiteFrame Handler ServerSpec ServerInv SiteThreads.

(** The demonstration site, and the same site published once more. *)
Definition republished : tree :=
  match demo_tree with
  | Elem name attrs [content; design; _] =>
      Elem name attrs [content; design; Elem "generation" [] [Text "8"]]
  | t => t
  end.
#[export] Instance two_feeds : LibXml := libxml_ref [("old", demo_tree); ("new", republished)].
#[export] Existing Instances BoostRef.boost_ref ResponseSpec.SortRef.algorithms
  algorithm_frame_ref S3Ref.s3env S3Ref.s3env_laws ServerDemo.counter_os.

Abbreviation World := (World (gmap string string) Tables S3Ref.env Z).
Abbreviation machine := (machine (Mem := gmap string string) (Db := Tables) (E := S3Ref.env) (T := Z)).

Definition bucket (feed : string) : S3Ref.env :=
  S3Ref.up (list_to_map [("shop-feed.xml", feed); ("shop-secret", "k1,k2")]).
Definition start : World :=
  Build_World ∅ ∅ ∅ ∅ (QueryLog_new None) MemRef.proxy ServerDemo.mysql (bucket "old") 7%Z.
Lemma threads_start_ok : world_ok false start.
Proof.
  apply start_world_ok; [exact MemRef.proxy_pool|vm_compute; discriminate|exact ServerDemo.mysql_pool_ok|].
  vm_compute. discriminate.
Defined.

Definition k1 : site_request := {| rq_subdomain := "shop"; rq_secret := "k1"; rq_staging := false |}.
Definition k2 : site_request := {| rq_subdomain := "shop"; rq_secret := "k2"; rq_staging := false |}.

(** The threads of a list run, one step each. *)
Definition schedule (run : list nat) (m : machine) : option machine :=
  foldr (λ i k m, m' ← run_thread false "/c" i m; k m') Some run m.

Lemma schedule_steps run m m' : schedule run m = Some m' → rtc (machine_step false "/c") m m'.
Proof.
  revert m. induction run as [|i run IH]; intros m; [by intros [= ->]|]. simpl.
  destruct (run_thread false "/c" i m) as [m1|] eqn:E; [|done]. simpl. intros Hm.
  eapply rtc_l; [by eapply thread_runs|by apply IH].
Qed.

(** Two threads that get the same site: the second waits, then finds it. *)
Definition two : machine := launch start (Enter <$> [k1; k2]).
Definition done_two : machine :=
  match schedule [0; 0; 0; 0; 0; 0; 1; 1] two with Some m => m | None => two end.
Lemma two_run : schedule [0; 0; 0; 0; 0; 0; 1; 1] two = Some done_two.
Proof. vm_compute. reflexivity. Qed.
Example second_waits : schedule [0; 1] two = None.
Proof. vm_compute. reflexivity. Qed.
Example both_got : threads done_two = [Got k1 1%positive; Got k2 1%positive].
Proof. vm_compute. reflexivity. Qed.
Lemma two_starting : Forall starting (Enter <$> [k1; k2]).
Proof. by repeat constructor. Qed.

Example threads_safe_witness :
  rtc (machine_step false "/c") two done_two ∧
  ∃ st, site_objects (world done_two) !! 1%positive = Some st ∧ grants false st "k2".
Proof.
  pose proof (schedule_steps _ _ _ two_run) as Hr. split; [exact Hr|].
  destruct (threads_safe false "/c" start (Enter <$> [k1; k2]) done_two threads_start_ok two_starting Hr)
    as (_ & _ & Hg).
  destruct (Hg 1 k2 1%positive) as (st & Ho & _ & Hk); [vm_compute; reflexivity|].
  exists st. split; [exact Ho|exact Hk].
Defined.

Example site_loaded_once_witness :
  rtc (machine_step false "/c") two done_two ∧ sites (world done_two) !! "shop" = Some 1%positive.
Proof.
  pose proof (schedule_steps _ _ _ two_run) as Hr. split; [exact Hr|].
  destruct (site_loaded_once false "/c" start [k1; k2] done_two done_two threads_start_ok Hr (rtc_refl _ _))
    as [_ Hs].
  destruct (Hs 0 1 k1 k2 1%positive 1%positive) as [_ E]; [vm_compute; reflexivity..|].
  exact E.
Defined.

Example threads_end_witness : total two ≤ 20 ∧ Forall finished (threads done_two).
Proof.
  destruct (threads_end false "/c" start (Enter <$> [k1; k2]) done_two threads_start_ok two_starting
    (schedule_steps _ _ _ two_run)) as (Hb & _ & Hf).
  split; [exact Hb|]. apply Hf. intros [|[|i]]; [vm_compute; reflexivity..|].
  unfold run_thread. rewrite both_got. reflexivity.
Defined.

(** * A reload that comes too early *)

Definition republish (m : machine) : machine :=
  {| world := set_s3 (bucket "new") (world m); owner := owner m; threads := threads m |}.

(** A thread reads the feed of a site that is not loaded; the feed is replaced
    and both reloads of its message run: the site is not in the table, so that
    they have nothing to load; then the first thread publishes what it read. *)
Definition late : option machine :=
  m ← schedule [0; 0; 0] (launch start [Enter k1; Reload "shop"; Reload "shop"]);
  schedule ([1; 1; 1; 1] ++ [2; 2; 2; 2] ++ [0; 0; 0]) (republish m).

Definition generation_of (w : World) (key : string) : option Z :=
  p ← sites w !! key; st ← site_objects w !! p; Some (Site.generation st).

(** The reloads have ended, the store has generation 8, the server keeps 7. *)
Example reload_lost :
  (m ← late; Some (threads m, generation_of (world m) "shop"))
  = Some ([Got k1 1%positive; Finished; Finished], Some 7%Z)
  ∧ generation_of (getSite false "/c" "shop" "k1" false (set_s3 (bucket "new") start)).2 "shop"
    = Some 8%Z.
Proof. split; vm_compute; reflexivity. Qed.
