(* ===== verification/Main.v ===== *)
(** [cpp/main.cpp] and [cpp/logger.h]: from the command line and the environment to
    the server.  The parser of options ([boost::program_options]), the MySQL
    driver, the object store's library and the file system are parameters; what
    [main] starts last, the library's thread pool server, is the value it returns. *)
From Stdlib Require Import ZArith.
From S2P Require Import Prelude Cpp Extern Regex QueryLog Util VaeTypes Xml XmlRef.
From S2P Require Pool MysqlProxy MemcacheProxy S3 Response Session SiteFrame Handler HandlerSpec ServerSpec ServerInv.
Import Pool MysqlProxy MemcacheProxy S3 Response SiteFrame Handler HandlerSpec ServerSpec ServerInv.

(** * The logger *)

Inductive LogLevel := error | warning | info | debug.
#[export] Instance LogLevel_eq_dec : EqDecision LogLevel.
Proof. solve_decision. Defined.
Definition level_value (l : LogLevel) : Z :=
  match l with error => 0 | warning => 1 | info => 2 | debug => 3 end.

(** The output of the program: [Logger::displayLevel], the lines on [cout], the
    content of [/tmp/vaedb.pid]. *)
Record Console := { displayLevel : LogLevel; cout : list string; pidfile : option Z }.
Definition Console_new : Console := {| displayLevel := info; cout := []; pidfile := None |}.
Definition set_displayLevel (l : LogLevel) (c : Console) : Console :=
  {| displayLevel := l; cout := cout c; pidfile := pidfile c |}.
Definition print (line : string) (c : Console) : Console :=
  {| displayLevel := displayLevel c; cout := cout c ++ [line]; pidfile := pidfile c |}.
Definition set_pidfile (p : Z) (c : Console) : Console :=
  {| displayLevel := displayLevel c; cout := cout c; pidfile := Some p |}.

(** [L(level) << text;], by the thread [tid]. *)
Definition L (tid : Z) (level : LogLevel) (text : string) : eff Console unit := λ c,
  if (level_value (displayLevel c) <? level_value level)%Z then (Ok (), c)
  else (Ok (), print ("[" +:+ pretty tid +:+ "] " +:+ text) c).

(** * What the program is given *)

Record ConnectOptions := { hostName : string; userName : string; password : string; opt_reconnect : bool }.

Record Environment := {
  getenv : string → option string;
  (** [driver->connect], [con->setSchema]: no value or [false] is an
      [SQLException] with that text. *)
  connect : ConnectOptions → nat → con + string;
  setSchema : con → string → option string;
  (** The [i]-th [new memcache::Memcache]. *)
  new_client : nat → con;
  S3_initialize : string → bool;
  (** Whether an [ofstream] on this path can be written. *)
  can_open : string → bool;
  getpid : Z; gettid : Z;
}.

(** [variables_map]: what the command line says. *)
Record Options := {
  opt_help : bool; opt_test : bool;
  opt_log_level : option string; opt_query_log : option string;
  opt_port : option Z; opt_busaddress : option string; opt_workers : option Z;
  opt_aws_access_key : option string; opt_aws_secret_key : option string;
  opt_aws_bucket : option string; opt_feed_cache_path : option string;
  opt_mysql_username : option string; opt_mysql_password : option string;
  opt_mysql_database : option string; opt_mysql_host : option string;
  opt_memcached_host : option string;
}.

(** The variables of [main] after [po::notify]. *)
Record Config := {
  port : Z; busaddress : string; workers : Z;
  aws_access_key : string; aws_secret_key : string; aws_bucket : string; feed_cache_path : string;
  mysql_username : string; mysql_password : string; mysql_database : string; mysql_host : string;
  memcached_host : string;
}.

Definition configure (env : Environment) (o : Options) : Config :=
  let var name dflt := default dflt (getenv env name) in
  {| port := default 9091%Z (opt_port o);
     busaddress := default "tcp://*:5091" (opt_busaddress o);
     workers := default 12%Z (opt_workers o);
     aws_access_key := default (var "AWS_ACCESS_KEY" "") (opt_aws_access_key o);
     aws_secret_key := default (var "AWS_SECRET_KEY" "") (opt_aws_secret_key o);
     aws_bucket := default "" (opt_aws_bucket o);
     feed_cache_path := default "/tmp" (opt_feed_cache_path o);
     mysql_username := default (var "MYSQL_USERNAME" "root") (opt_mysql_username o);
     mysql_password := default (var "MYSQL_PASSWORD" "") (opt_mysql_password o);
     mysql_database := default (var "MYSQL_DATABASE" "vaedb") (opt_mysql_database o);
     mysql_host := default (var "MYSQL_HOST" "localhost") (opt_mysql_host o);
     memcached_host := default (var "MEMCACHED_HOST" "127.0.0.1") (opt_memcached_host o) |}.

(** * Starting *)

Section main.
Context `{Pcre} {Mem Db E T : Type}.
Variable env : Environment.
Abbreviation log := (L (gettid env)).

Definition level_of (name : string) : option LogLevel :=
  if decide (name = "error") then Some error
  else if decide (name = "warning") then Some warning
  else if decide (name = "info") then Some info
  else if decide (name = "debug") then Some debug
  else None.
Definition set_log_level (o : Options) : eff Console unit :=
  match opt_log_level o with
  | None => mret ()
  | Some name =>
      match level_of name with
      | Some l => modify (set_displayLevel l)
      | None => log warning ("Invalid log_level specified: '" +:+ name +:+ "', defaulting to 'warning'.")
      end
  end.

(** [p_querylog_stream]: an empty file, or null. *)
Definition open_query_log (o : Options) : eff Console (option string) :=
  match opt_query_log o with
  | None => mret None
  | Some path =>
      if can_open env path then mret (Some "")
      else log warning ("Unable to write to query log file: '" +:+ path +:+ "'.");; mret None
  end.

(** [MysqlProxy::createConnection] for the [i]-th connection. *)
Definition createConnection (cfg : Config) (i : nat) : eff Console (option con) :=
  match connect env {| hostName := "tcp://" +:+ mysql_host cfg +:+ ":3306"; userName := mysql_username cfg;
                       password := mysql_password cfg; opt_reconnect := true |} i with
  | inr what => log error ("Error Connecting To MySQL: " +:+ what);; mret None
  | inl con =>
      match setSchema env con (mysql_database cfg) with
      | Some what => log error ("Error Selecting Database in MySQL: " +:+ what);; mret None
      | None => mret (Some con)
      end
  end.
Fixpoint createConnections (cfg : Config) (l : list nat) : eff Console (list (option con)) :=
  match l with
  | [] => mret []
  | i :: l => c ← createConnection cfg i; cs ← createConnections cfg l; mret (c :: cs)
  end.
(** [MysqlProxy::MysqlProxy] and [MemcacheProxy::MemcacheProxy]. *)
Definition start_mysql (cfg : Config) (db : Db) : eff Console (MysqlProxy Db) :=
  log info (" Connecting to MySQL Server: " +:+ mysql_host cfg);;
  cons ← createConnections cfg (seq 0 NUM_CONNECTIONS);
  mret {| MysqlProxy.mysql_database := mysql_database cfg; mysql_pool := Pool_new cons; mysql_db := db |}.

Definition start_memcache (cfg : Config) (mem : Mem) : eff Console (MemcacheProxy Mem) :=
  let memcache := MemcacheProxy_new (memcached_host cfg) (new_client env) mem in
  log info (" Connecting to Memcache via: " +:+ connectString memcache);;
  mret memcache.

Definition writePid : eff Console unit :=
  if can_open env "/tmp/vaedb.pid" then modify (set_pidfile (getpid env))
  else log warning "Could not write PID file /tmp/vaedb.pid".

(** [VaeDbHandler::VaeDbHandler]. *)
Definition VaeDbHandler_new (queryLog : QueryLog) (memcacheProxy : MemcacheProxy Mem)
    (mysqlProxy : MysqlProxy Db) (e : E) (o : T) : eff Console (World Mem Db E T) :=
  writePid;;
  log error "VaeDB Running";;
  mret (Build_World ∅ ∅ ∅ ∅ queryLog memcacheProxy mysqlProxy e o).

(** What [main] serves: [testMode], [_cache_path], the bus's address, the port
    and threads of the server, and the handler. *)
Record Server := {
  srv_testMode : bool; srv_cache_path : string; srv_busaddress : string;
  srv_port : Z; srv_workers : Z; srv_world : World Mem Db E T;
}.
Inductive ended := Exit (status : Z) | Serving (s : Server).

(** [parsed] is what [po::parse_command_line] gives, [usage] the text of the
    options; the last arguments are the servers and devices behind the proxies. *)
Definition main (parsed : outcome Options) (usage : string) (mem : Mem) (db : Db) (e : E) (o : T)
    : eff Console ended :=
  vm ← lift parsed;
  let cfg := configure env vm in
  if opt_help vm then modify (print usage);; mret (Exit 1)
  else
    set_log_level vm;;
    p_querylog_stream ← open_query_log vm;
    let query_log := QueryLog_new p_querylog_stream in
    memcache ← start_memcache cfg mem;
    mysql ← start_mysql cfg db;
    if S3_initialize env (aws_bucket cfg) then
      handler ← VaeDbHandler_new query_log memcache mysql e o;
      mret (Serving {| srv_testMode := opt_test vm; srv_cache_path := feed_cache_path cfg;
                       srv_busaddress := busaddress cfg; srv_port := port cfg;
                       srv_workers := workers cfg; srv_world := handler |})
    else log error "S3 failed to initialize.";; mret (Exit (-1)).

(** * What it does *)

(** Only lines are printed. *)
Record chatter (c c' : Console) : Prop := {
  same_level : displayLevel c' = displayLevel c;
  same_pid : pidfile c' = pidfile c;
  more_lines : cout c `prefix_of` cout c';
}.
#[local] Instance chatter_preorder : PreOrder chatter.
Proof.
  split; [by intros c|]. intros c1 c2 c3 [? ? ?] [? ? ?]. split; [congruence|congruence|by etrans].
Qed.

(** [m] answers [a] and only talks. *)
Definition talks {A} (m : eff Console A) (a : A) : Prop := ∀ c, ∃ c', m c = (Ok a, c') ∧ chatter c c'.

Lemma talks_ret {A} (a : A) : talks (mret a) a.
Proof. intros c. by exists c. Qed.
Lemma talks_bind {A B} (m : eff Console A) (f : A → eff Console B) a b :
  talks m a → talks (f a) b → talks (m ≫= f) b.
Proof.
  intros Hm Hf c. destruct (Hm c) as (c1 & E1 & H1). destruct (Hf c1) as (c2 & E2 & H2).
  exists c2. rewrite (eff_bind_ok _ _ _ _ _ E1). split; [done|by etrans].
Qed.
Lemma talks_log level text : talks (log level text) ().
Proof.
  intros c. unfold L. case_match; [by exists c|]. eexists. split; [done|]. split; [done..|].
  by apply prefix_app_r.
Qed.
Create HintDb talk discriminated.
#[local] Hint Resolve talks_ret talks_bind talks_log : talk.

(** The connections that the driver gives. *)
Definition connection (cfg : Config) (i : nat) : option con :=
  match connect env {| hostName := "tcp://" +:+ mysql_host cfg +:+ ":3306"; userName := mysql_username cfg;
                       password := mysql_password cfg; opt_reconnect := true |} i with
  | inl con => match setSchema env con (mysql_database cfg) with None => Some con | Some _ => None end
  | inr _ => None
  end.

Lemma createConnections_talk cfg l : talks (createConnections cfg l) (connection cfg <$> l).
Proof.
  induction l as [|i l IH]; simpl; [auto with talk|].
  eapply talks_bind; [|eapply talks_bind; [exact IH|auto with talk]].
  unfold createConnection, connection. repeat case_match; eauto with talk.
Qed.
Lemma start_mysql_talks cfg (db : Db) :
  talks (start_mysql cfg db) (MysqlProxy_new (mysql_database cfg) (connection cfg) db).
Proof.
  eapply talks_bind; [apply talks_log|]. eapply talks_bind; [apply createConnections_talk|]. apply talks_ret.
Qed.
Lemma start_memcache_talks cfg (mem : Mem) :
  talks (start_memcache cfg mem) (MemcacheProxy_new (memcached_host cfg) (new_client env) mem).
Proof. eapply talks_bind; [apply talks_log|apply talks_ret]. Qed.

(** The query log is kept when a path is given and can be written. *)
Definition query_log_of (vm : Options) : QueryLog :=
  QueryLog_new (path ← opt_query_log vm; if can_open env path then Some "" else None).
Lemma open_query_log_talks vm :
  talks (open_query_log vm) (path ← opt_query_log vm; if can_open env path then Some "" else None).
Proof. unfold open_query_log. destruct (opt_query_log vm) as [path|]; simpl; [case_match|]; eauto with talk. Qed.

(** The level that is in force after the options were read. *)
Definition level_chosen (vm : Options) (old : LogLevel) : LogLevel :=
  default old (opt_log_level vm ≫= level_of).
Lemma set_log_level_run vm c :
  ∃ c', set_log_level vm c = (Ok (), c') ∧
    displayLevel c' = level_chosen vm (displayLevel c) ∧ pidfile c' = pidfile c.
Proof.
  unfold set_log_level, level_chosen. destruct (opt_log_level vm) as [name|]; simpl; [|by exists c].
  destruct (level_of name) as [l|]; [by eexists|].
  destruct (talks_log warning ("Invalid log_level specified: '" +:+ name +:+ "', defaulting to 'warning'.") c)
    as (c' & Er & []). by exists c'.
Qed.

Lemma VaeDbHandler_new_run ql mem mysql e o c :
  ∃ c', VaeDbHandler_new ql mem mysql e o c = (Ok (Build_World ∅ ∅ ∅ ∅ ql mem mysql e o), c') ∧
    displayLevel c' = displayLevel c ∧
    pidfile c' = if can_open env "/tmp/vaedb.pid" then Some (getpid env) else pidfile c.
Proof.
  unfold VaeDbHandler_new, writePid.
  assert (∀ c, ∃ c', (log error "VaeDB Running";; mret (Build_World ∅ ∅ ∅ ∅ ql mem mysql e o)) c
    = (Ok (Build_World ∅ ∅ ∅ ∅ ql mem mysql e o), c') ∧ chatter c c') as Hrun.
  { intros c1. apply (talks_bind _ _ () _); [apply talks_log|apply talks_ret]. }
  destruct (can_open env "/tmp/vaedb.pid").
  - rewrite eff_bind_modify. destruct (Hrun (set_pidfile (getpid env) c)) as (c' & Er & []). by exists c'.
  - destruct (talks_log warning "Could not write PID file /tmp/vaedb.pid" c) as (c1 & E1 & [L1 P1 _]).
    rewrite (eff_bind_ok _ _ _ _ _ E1). destruct (Hrun c1) as (c' & Er & [L2 P2 _]).
    exists c'. split; [done|]. split; congruence.
Qed.

(** What is served, for the options [vm]. *)
Definition server_of (vm : Options) (mem : Mem) (db : Db) (e : E) (o : T) : Server :=
  let cfg := configure env vm in
  {| srv_testMode := opt_test vm; srv_cache_path := feed_cache_path cfg;
     srv_busaddress := busaddress cfg; srv_port := port cfg; srv_workers := workers cfg;
     srv_world := Build_World ∅ ∅ ∅ ∅ (query_log_of vm)
       (MemcacheProxy_new (memcached_host cfg) (new_client env) mem)
       (MysqlProxy_new (mysql_database cfg) (connection cfg) db) e o |}.

Lemma main_started usage vm mem db e o c :
  opt_help vm = false →
  let s3_ok := S3_initialize env (aws_bucket (configure env vm)) in
  ∃ c', main (Ok vm) usage mem db e o c
        = (Ok (if s3_ok then Serving (server_of vm mem db e o) else Exit (-1)), c') ∧
    displayLevel c' = level_chosen vm (displayLevel c) ∧
    pidfile c' = if s3_ok && can_open env "/tmp/vaedb.pid" then Some (getpid env) else pidfile c.
Proof.
  intros Hh s3_ok. subst s3_ok. unfold main. rewrite (eff_bind_lift _ _ _ _ eq_refl), Hh.
  destruct (set_log_level_run vm c) as (c1 & E1 & L1 & P1).
  destruct (open_query_log_talks vm c1) as (c2 & E2 & [L2 P2 _]).
  destruct (start_memcache_talks (configure env vm) mem c2) as (c3 & E3 & [L3 P3 _]).
  destruct (start_mysql_talks (configure env vm) db c3) as (c4 & E4 & [L4 P4 _]).
  rewrite (eff_bind_ok _ _ _ _ _ E1), (eff_bind_ok _ _ _ _ _ E2).
  rewrite (eff_bind_ok _ _ _ _ _ E3), (eff_bind_ok _ _ _ _ _ E4).
  destruct (S3_initialize env _).
  - destruct (VaeDbHandler_new_run (query_log_of vm)
      (MemcacheProxy_new (memcached_host (configure env vm)) (new_client env) mem)
      (MysqlProxy_new (mysql_database (configure env vm)) (connection (configure env vm)) db) e o c4)
      as (c5 & E5 & L5 & P5).
    rewrite (eff_bind_ok _ _ _ _ _ E5). exists c5. split; [done|]. split; [congruence|].
    rewrite P5. simpl. case_match; [done|congruence].
  - destruct (talks_log error "S3 failed to initialize." c4) as (c5 & E5 & [L5 P5 _]).
    rewrite (eff_bind_ok _ _ _ _ _ E5). exists c5. split; [done|]. split; simpl; congruence.
Qed.

(** C23: how the program starts.  The help text ends it with status 1 before
    anything is opened; without the object store's library it ends with status -1;
    otherwise it serves, with no session and no site, the pools of the connections
    that could be made, and a query log only if its file can be written.  The log
    level is the one asked for; an unknown name leaves it as it was. *)
Theorem main_ends usage vm mem db e o c :
  let '(r, c') := main (Ok vm) usage mem db e o c in
  if opt_help vm then r = Ok (Exit 1) ∧ c' = print usage c
  else
    let s3_ok := S3_initialize env (aws_bucket (configure env vm)) in
    r = Ok (if s3_ok then Serving (server_of vm mem db e o) else Exit (-1)) ∧
    displayLevel c' = level_chosen vm (displayLevel c) ∧
    pidfile c' = if s3_ok && can_open env "/tmp/vaedb.pid" then Some (getpid env) else pidfile c.
Proof.
  destruct (opt_help vm) eqn:Eh; [unfold main; by rewrite (eff_bind_lift _ _ _ _ eq_refl), Eh|].
  by destruct (main_started usage vm mem db e o c Eh) as (c' & -> & ?).
Qed.
End main.
Arguments Server Mem Db E T : clear implicits.
Arguments ended Mem Db E T : clear implicits.

(** * From the start on *)

Section running.
Context {Mem Db E T : Type}.
Context {clib : CLib} `{Boost} `{Pcre} `{LibXml} `{AlgorithmFrame}.
Context `{MemcacheClient Mem} `{SqlEngine Db} `{S3Env E} `{Os T}.
Variable env : Environment.

(** A pool that got a connection has one to give. *)
Lemma pool_ready cons :
  NoDup (omap id cons) → omap id cons ≠ [] →
  pool_ok (Pool_new cons) ∧ availableConnections (Pool_new cons) ≠ 0%Z.
Proof.
  intros Hd Hne. destruct (Pool_new_ok cons Hd) as (Hok & Hu & Hp). split; [done|].
  intros E0. destruct Hok as [_ Hc]. rewrite E0 in Hc. apply Hne, Permutation_nil. rewrite <- Hp.
  destruct (connPool (Pool_new cons)) as [|[c []] m]; [done| |]; csimpl in *; [lia|done].
Qed.

Lemma clients_ready : 
  (∀ i j, new_client env i = new_client env j → i = j) →
  let cons := (λ i, Some (new_client env i)) <$> seq 0 MEMCACHE_NUM_CONNECTIONS in
  NoDup (omap id cons) ∧ omap id cons ≠ [].
Proof.
  intros Hinj cons. assert (omap id cons = new_client env <$> seq 0 MEMCACHE_NUM_CONNECTIONS) as ->.
  { unfold cons. generalize (seq 0 MEMCACHE_NUM_CONNECTIONS). intros l.
    induction l as [|x l IH]; [done|]. csimpl. by rewrite IH. }
  split; [|done]. apply NoDup_fmap_2; [by intros ???; apply Hinj|apply NoDup_seq].
Qed.

(** The objects that the constructors of the proxies make. *)
Record connections_ok (cfg : Config) : Prop := {
  distinct_connections : NoDup (omap id (connection env cfg <$> seq 0 NUM_CONNECTIONS));
  some_connection : omap id (connection env cfg <$> seq 0 NUM_CONNECTIONS) ≠ [];
  distinct_clients i j : new_client env i = new_client env j → i = j;
}.

Lemma started_ok vm (mem : Mem) (db : Db) (e : E) (o : T) :
  connections_ok (configure env vm) →
  world_ok (opt_test vm) (srv_world (server_of env vm mem db e o)).
Proof.
  intros [Hd Hne Hinj]. destruct (clients_ready Hinj) as [Hd' Hne'].
  apply start_world_ok; by apply pool_ready.
Qed.

End running.

(** * A start *)

From S2P Require ResponseSpec ServerDemo.
Import ServerDemo.

Module Demo.
Definition env : Environment := {|
  getenv name := if decide (name = "MYSQL_USERNAME") then Some "vae" else None;
  connect o i := if decide (i < 7) then inl (Pos.of_succ_nat i) else inr "too many connections";
  setSchema _ _ := None;
  new_client i := Pos.of_succ_nat i;
  S3_initialize bucket := bool_decide (bucket ≠ "");
  can_open path := bool_decide (path ≠ "/nowhere/log");
  getpid := 4711; gettid := 12;
|}.
Definition options : Options := {|
  opt_help := false; opt_test := false; opt_log_level := Some "loud"; opt_query_log := Some "/nowhere/log";
  opt_port := None; opt_busaddress := None; opt_workers := None;
  opt_aws_access_key := None; opt_aws_secret_key := None; opt_aws_bucket := Some "feeds";
  opt_feed_cache_path := Some "/c"; opt_mysql_username := None; opt_mysql_password := None;
  opt_mysql_database := None; opt_mysql_host := None; opt_memcached_host := None;
|}.
Definition run : outcome (ended (gmap string string) MysqlProxy.Tables S3Ref.env Z) * Console :=
  main env (Ok options) "" ∅ SqlRef.tables (S3Ref.up bucket) 7%Z Console_new.
Definition server : Server (gmap string string) MysqlProxy.Tables S3Ref.env Z :=
  server_of env options ∅ SqlRef.tables (S3Ref.up bucket) 7%Z.
End Demo.

(** The message of an unknown level promises the level warning; the level stays
    info, at which the lines that follow are shown. *)
Example invalid_log_level :
  displayLevel (Demo.run).2 = info ∧ take 3 (cout (Demo.run).2) =
    ["[12] Invalid log_level specified: 'loud', defaulting to 'warning'.";
     "[12] Unable to write to query log file: '/nowhere/log'.";
     "[12]  Connecting to Memcache via: --TCP-KEEPALIVE --BINARY-PROTOCOL --SERVER=127.0.0.1"].
Proof. split; vm_compute; reflexivity. Qed.

