(* ===== verification/Bus.v ===== *)
(** [Bus::run] of [cpp/bus.cpp], among the threads of [SiteThreads]: for each
    message the bus reloads the site itself, looks through the threads it spawned
    for those that ended, and spawns one more that reloads the site again.  What
    the thread of the bus does inside [reloadSite] is a thread of the machine. *)
From Stdlib Require Import ZArith.
From S2P Require Import Prelude Cpp Extern Regex QueryLog Util VaeTypes Xml XmlRef.
From S2P Require Site SiteSpec Response ResponseSpec Session SiteFrame S3 MysqlProxy MemcacheProxy Pool.
From S2P Require Handler HandlerSpec ServerSpec ServerInv ServerDemo SiteThreads SiteThreadsDemo.
Import SiteSpec S3 MysqlProxy MemcacheProxy Response SiteFrame Handler HandlerSpec ServerSpec ServerInv SiteThreads.

(** Where the thread of the bus is.  [Cleaning sub it] is the loop over the vector,
    [it] the position of the iterator; [Down]: an exception left the function of
    a thread, which ends the program. *)
Inductive bus_pc :=
| Receive
| Reloading (sub : string) (own : nat)
| Cleaning (sub : string) (it : nat)
| Down.
#[export] Instance bus_pc_eq_dec : EqDecision bus_pc.
Proof. solve_decision. Defined.

Section bus.
Context {Mem Db E T : Type}.
Context {clib : CLib} `{Boost} `{Pcre} `{LibXml} `{AlgorithmFrame}.
Context `{MemcacheClient Mem} `{SqlEngine Db} `{S3Env E} `{Os T}.
Abbreviation World := (World Mem Db E T).
Abbreviation machine := (machine (Mem := Mem) (Db := Db) (E := E) (T := T)).
Context (testMode : bool) (cache_path : string).

(** [queue]: the messages on the socket; [handles]: the local [threads], by the
    number of their thread; [deleted]: the objects that were deleted. *)
Record bus := {
  server : machine; at_ : bus_pc; queue : list string; handles : list nat; deleted : list nat;
}.

(** A thread that starts. *)
Definition spawn (c : pc) (m : machine) : machine :=
  {| world := world m; owner := owner m; threads := threads m ++ [c] |}.

(** [timed_join(waittime)], with no time to wait. *)
Definition timed_join (h : nat) (m : machine) : bool :=
  match threads m !! h with Some c => finished c | None => false end.

(** The next step of the bus; [None] when it waits. *)
Definition run_bus (b : bus) : option bus :=
  let m := server b in
  match at_ b with
  | Receive =>
      match queue b with
      | [] => None
      | sub :: q => Some {| server := spawn (Reload sub) m; at_ := Reloading sub (length (threads m));
                            queue := q; handles := handles b; deleted := deleted b |}
      end
  | Reloading sub own =>
      match threads m !! own with
      | Some Finished => Some {| server := m; at_ := Cleaning sub 0; queue := queue b;
                                 handles := handles b; deleted := deleted b |}
      | Some (Stopped _) => Some {| server := m; at_ := Down; queue := queue b;
                                    handles := handles b; deleted := deleted b |}
      | _ => None
      end
  | Cleaning sub it =>
      match handles b !! it with
      | Some h =>
          if timed_join h m
          then Some {| server := m; at_ := Cleaning sub it; queue := queue b;
                       handles := delete it (handles b); deleted := deleted b ++ [h] |}
          else Some {| server := m; at_ := Cleaning sub (S it); queue := queue b;
                       handles := handles b; deleted := deleted b |}
      | None => Some {| server := spawn (Reload sub) m; at_ := Receive; queue := queue b;
                        handles := handles b ++ [length (threads m)]; deleted := deleted b |}
      end
  | Down => None
  end.

Definition put_server (m : machine) (b : bus) : bus :=
  {| server := m; at_ := at_ b; queue := queue b; handles := handles b; deleted := deleted b |}.
Definition arrive (sub : string) (b : bus) : bus :=
  {| server := server b; at_ := at_ b; queue := queue b ++ [sub]; handles := handles b; deleted := deleted b |}.
Definition terminate (b : bus) : bus :=
  {| server := server b; at_ := Down; queue := queue b; handles := handles b; deleted := deleted b |}.

(** The bus runs, another thread runs or the store changes, a message arrives, a
    client's call starts, or an exception leaves a spawned thread. *)
Inductive bus_step : bus → bus → Prop :=
| bus_runs b b' : run_bus b = Some b' → bus_step b b'
| others_run b m : at_ b ≠ Down → machine_step testMode cache_path (server b) m → bus_step b (put_server m b)
| message_arrives sub b : bus_step b (arrive sub b)
| call_starts c b : at_ b ≠ Down → starting c → bus_step b (put_server (spawn c (server b)) b)
| thread_throws h why b :
    h ∈ handles b → threads (server b) !! h = Some (Stopped why) → bus_step b (terminate b).

(** The program once [main] has started the thread of the bus. *)
Definition bus_start (w : World) : bus :=
  {| server := launch w []; at_ := Receive; queue := []; handles := []; deleted := [] |}.

(** * Invariant *)

Abbreviation sound := (sound testMode).
Abbreviation world_ok := (world_ok testMode).

Lemma spawn_lookup c (m : machine) i d :
  threads (spawn c m) !! i = Some d ↔ threads m !! i = Some d ∨ i = length (threads m) ∧ d = c.
Proof.
  simpl. rewrite lookup_app_Some, list_lookup_singleton_Some. split.
  - intros [?|[? [? <-]]]; [by left|right]. split; [lia|done].
  - intros [?|[-> ->]]; [by left|right]. split; [lia|]. split; [lia|done].
Qed.

(** A new thread holds nothing. *)
Lemma sound_spawn w0 m c : sound w0 m → starting c → sound w0 (spawn c m).
Proof.
  intros [Hw Ho Ht] Hc. split; [done| |].
  - intros k i. rewrite (Ho k i). split; intros (d & Hd & Hh); exists d; (split; [|done]).
    + apply spawn_lookup. by left.
    + apply spawn_lookup in Hd as [Hd|[-> ->]]; [done|]. by destruct c.
  - intros i d [Hd|[-> ->]]%spawn_lookup; [by apply (Ht i)|]. by destruct c.
Qed.

(** Threads that have ended stay so. *)
Definition ended_in (m : machine) (h : nat) : Prop := timed_join h m = true.

Lemma ended_some m h : ended_in m h → h < length (threads m).
Proof. unfold ended_in, timed_join. destruct (threads m !! h) eqn:Eh; [|done]. by intros _; eapply lookup_lt_Some. Qed.

Lemma ended_spawn c m h : ended_in m h → ended_in (spawn c m) h.
Proof.
  unfold ended_in, timed_join. destruct (threads m !! h) as [d|] eqn:Eh; [|done]. intros Hd.
  simpl. by rewrite (lookup_app_l_Some _ _ _ _ Eh).
Qed.

Lemma finished_waits c : finished c → entering c = None ∧ body (Mem := Mem) (Db := Db) (E := E) (T := T) testMode cache_path c = None.
Proof. by destruct c. Qed.

Lemma machine_step_threads (m m' : machine) i c :
  machine_step testMode cache_path m m' → threads m !! i = Some c →
  ∃ c', threads m' !! i = Some c' ∧ (finished c → c' = c).
Proof.
  intros Hs Hi. destruct Hs as [j m m' (d & Hj & [(sub & st & d' & Hd & Hk & ->)|
    (b & o & w & _ & Hb & Eb & ->)])%run_thread_inv|e m]; [| |by exists c]; simpl.
  - destruct (decide (j = i)) as [->|Hne]; [|rewrite list_lookup_insert_ne by done; by exists c].
    rewrite list_lookup_insert_eq by by eapply lookup_lt_Some. eexists. split; [done|].
    intros Hf. simplify_eq. apply finished_waits in Hf as [Hf _]. congruence.
  - destruct (decide (j = i)) as [->|Hne]; [|rewrite list_lookup_insert_ne by done; by exists c].
    rewrite list_lookup_insert_eq by by eapply lookup_lt_Some. eexists. split; [done|].
    intros Hf. simplify_eq. apply finished_waits in Hf as [_ Hf]. congruence.
Qed.

Lemma machine_step_ended (m m' : machine) h :
  machine_step testMode cache_path m m' → ended_in m h → ended_in m' h.
Proof.
  intros Hs. unfold ended_in, timed_join. destruct (threads m !! h) as [c|] eqn:Eh; [|done]. intros Hc.
  destruct (machine_step_threads m m' h c Hs Eh) as (c' & -> & Hf). rewrite Hf; [done|by rewrite Hc].
Qed.
Lemma machine_step_length (m m' : machine) i :
  machine_step testMode cache_path m m' → i < length (threads m) → i < length (threads m').
Proof.
  intros Hs [c Hc]%lookup_lt_is_Some. destruct (machine_step_threads m m' i c Hs Hc) as (c' & Hc' & _).
  by eapply lookup_lt_Some.
Qed.

(** A thread inside [reloadSite]. *)
Definition reloads (c : pc) : bool :=
  match c with
  | Reload _ | ReloadFeed _ _ _ | ReloadErase _ _ _ _ | ReloadEnter _ _ _ | ReloadLoad _ _ _ _
  | ReloadPublish _ _ _ _ _ | Finished | Stopped _ => true
  | _ => false
  end.
Definition reloading (m : machine) (i : nat) : Prop := ∃ c, threads m !! i = Some c ∧ reloads c.

Lemma reloads_after {A} (f : A → pc) (r : outcome A) : (∀ a, reloads (f a)) → reloads (after (f <$> r)).
Proof. intros Hf. by destruct r; simpl. Qed.

Lemma body_reloads c b (w : World) :
  reloads c → body testMode cache_path c = Some b → reloads (after (b w).1).
Proof.
  intros Hc Hb. assert (∀ A (m : eff World A) (f : A → pc), (∀ a, reloads (f a)) →
    reloads (after ((x ← m; mret (f x)) w).1)) as Hbind.
  { intros A m f Hf. destruct (m w) as [o w1] eqn:Em. rewrite (bind_mret_run _ _ _ _ _ Em).
    by apply reloads_after. }
  destruct c as [| | | | | | | | | |? [|]| | | | |]; try discriminate Hc; try discriminate Hb;
    unfold body in Hb; simplify_eq/=; try done; by apply Hbind.
Qed.

Lemma reloading_step (m m' : machine) i :
  machine_step testMode cache_path m m' → reloading m i → reloading m' i.
Proof.
  intros Hs (c & Hi & Hc). destruct Hs as [j m m' (d & Hj & [(sub & st & d' & Hd & Hk & ->)|
    (b & o & w & _ & Hb & Eb & ->)])%run_thread_inv|e m]; [| |by exists c];
    (destruct (decide (j = i)) as [->|Hne]; [|exists c; simpl; by rewrite list_lookup_insert_ne]);
    (eexists; simpl; rewrite list_lookup_insert_eq by (by eapply lookup_lt_Some)); (split; [done|]);
    simplify_eq.
  - by destruct d as [| | | | | | | | | |? [|]| | | | |]; simplify_eq/=.
  - pose proof (body_reloads d b (world m) Hc Hb) as Hr. by rewrite Eb in Hr.
Qed.

Lemma reloading_spawn c (m : machine) i : reloading m i → reloading (spawn c m) i.
Proof. intros (d & Hd & Hr). exists d. split; [|done]. apply spawn_lookup. by left. Qed.

(** Each handle is one thread; those that were deleted had ended; the bus waits
    for a thread that exists. *)
Record bus_ok (w0 : World) (b : bus) : Prop := {
  bus_sound : sound w0 (server b);
  bus_distinct : NoDup (handles b ++ deleted b);
  bus_handles h : h ∈ handles b → h < length (threads (server b));
  bus_deleted h : h ∈ deleted b → ended_in (server b) h;
  bus_own sub own : at_ b = Reloading sub own → reloading (server b) own;
}.

Lemma bus_start_ok w : world_ok w → bus_ok w (bus_start w).
Proof.
  intros Hw. split; [by apply launch_sound|constructor|by intros ? ?%not_elem_of_nil..|done].
Qed.

(** The server changes, the threads of the bus do not. *)
Lemma bus_ok_server w0 b m :
  bus_ok w0 b → sound w0 m → (∀ h, ended_in (server b) h → ended_in m h) →
  (∀ i, i < length (threads (server b)) → i < length (threads m)) →
  (∀ i, reloading (server b) i → reloading m i) → bus_ok w0 (put_server m b).
Proof. intros [Hs Hd Hh He Ho] Hm Hend Hlen Hrel. split; simpl; eauto. Qed.

Lemma bus_ok_spawn w0 b c : bus_ok w0 b → starting c → bus_ok w0 (put_server (spawn c (server b)) b).
Proof.
  intros Hb Hc. apply bus_ok_server; [done|by apply sound_spawn; [apply Hb|]|by intros h; apply ended_spawn|..].
  - intros i. simpl. rewrite length_app. lia.
  - intros i. apply reloading_spawn.
Qed.

(** The bus moves on: its position, queue, handles and deletions change. *)
Lemma bus_ok_moves w0 b pos q hs ds :
  bus_ok w0 b → NoDup (hs ++ ds) → (∀ h, h ∈ hs → h < length (threads (server b))) →
  (∀ h, h ∈ ds → ended_in (server b) h) →
  (∀ sub own, pos = Reloading sub own → reloading (server b) own) →
  bus_ok w0 {| server := server b; at_ := pos; queue := q; handles := hs; deleted := ds |}.
Proof. intros [Hs _ _ _ _]. by split. Qed.

Lemma delete_perm (hs : list nat) i h : hs !! i = Some h → hs ≡ₚ h :: delete i hs.
Proof. intros Hi. by apply delete_Permutation. Qed.

Lemma run_bus_ok w0 b b' : bus_ok w0 b → run_bus b = Some b' → bus_ok w0 b'.
Proof.
  intros Hb. pose proof Hb as [Hs Hd Hh He Ho]. unfold run_bus. destruct (at_ b) as [|sub own|sub it|] eqn:Ea.
  - destruct (queue b) as [|sub q]; [done|]. intros [= <-].
    apply (bus_ok_moves w0 (put_server (spawn (Reload sub) (server b)) b)); simpl.
    + by apply bus_ok_spawn.
    + done.
    + intros h Hin%Hh. rewrite length_app. lia.
    + intros h Hin%He. by apply ended_spawn.
    + intros sub' own [= _ <-]. exists (Reload sub). split; [|done]. apply spawn_lookup. by right.
  - destruct (threads (server b) !! own) as [[]|]; try done; intros [= <-]; by apply bus_ok_moves.
  - destruct (handles b !! it) as [h|] eqn:Eh.
    + destruct (timed_join h (server b)) eqn:Ej; intros [= <-]; [|by apply bus_ok_moves].
      pose proof (delete_perm _ _ _ Eh) as Hp. apply bus_ok_moves; [done| | | |done].
      * assert (delete it (handles b) ++ deleted b ++ [h] ≡ₚ (h :: delete it (handles b)) ++ deleted b) as -> by solve_Permutation.
        by rewrite <- Hp.
      * intros h' Hin. apply Hh. rewrite Hp. by right.
      * intros h' [Hin|Hin]%elem_of_app; [by apply He|]. by apply list_elem_of_singleton in Hin as ->.
    + intros [= <-]. apply (bus_ok_moves w0 (put_server (spawn (Reload sub) (server b)) b)); simpl.
      * by apply bus_ok_spawn.
      * rewrite <- app_assoc. apply NoDup_app in Hd as (Hd1 & Hd2 & Hd3). apply NoDup_app.
        assert ((length (threads (server b)) ∉ handles b) ∧ (length (threads (server b)) ∉ deleted b)) as [Hn1 Hn2].
        { split; [intros Hin%Hh; lia|intros Hin%He%ended_some; lia]. }
        split; [done|]. split.
        -- intros h Hin [->|Hin']%elem_of_cons; [done|by apply (Hd2 h)].
        -- by constructor.
      * intros h [Hin%Hh| ->%list_elem_of_singleton]%elem_of_app; rewrite length_app; simpl; lia.
      * intros h Hin%He. by apply ended_spawn.
      * done.
  - done.
Qed.

Lemma bus_step_ok w0 b b' : bus_ok w0 b → bus_step b b' → bus_ok w0 b'.
Proof.
  intros Hb Hs. destruct Hs as [b b' Hr|b m _ Hm|sub b|c b _ Hc|h why b _ _].
  - by eapply run_bus_ok.
  - apply bus_ok_server; [done|by eapply sound_step; [apply Hb|]|intros h; by apply machine_step_ended|..].
    + intros i. by apply machine_step_length.
    + intros i. by apply reloading_step.
  - destruct Hb. by apply bus_ok_moves.
  - by apply bus_ok_spawn.
  - destruct Hb. by apply bus_ok_moves.
Qed.

Lemma bus_reachable w b : world_ok w → rtc bus_step (bus_start w) b → bus_ok w b.
Proof. intros Hw. apply (rtc_invariant bus_step (bus_ok w)); [by apply bus_start_ok|apply bus_step_ok]. Qed.

(** C18: the bus, among any calls of clients and changes of the store: the state
    of the server stays consistent and no two threads hold the mutex of a site;
    each thread that the bus spawned has one object, which is deleted once, and
    only after the thread has ended; the bus never waits for a thread that does
    not exist. *)
Theorem bus_safe w b :
  world_ok w → rtc bus_step (bus_start w) b →
  evolves testMode w (world (server b)) ∧
  (∀ i j c d k, threads (server b) !! i = Some c → threads (server b) !! j = Some d →
     holds c = Some k → holds d = Some k → i = j) ∧
  NoDup (handles b ++ deleted b) ∧
  (∀ h, h ∈ deleted b → ∃ c, threads (server b) !! h = Some c ∧ finished c) ∧
  (∀ h, h ∈ handles b → is_Some (threads (server b) !! h)) ∧
  (∀ sub own, at_ b = Reloading sub own → ∃ c, threads (server b) !! own = Some c ∧ reloads c).
Proof.
  intros Hw Hr. pose proof (bus_reachable w b Hw Hr) as [Hs Hd Hh He Ho]. split_and!.
  - apply Hs.
  - intros i j c d k. by apply (one_holder testMode w).
  - done.
  - intros h Hin%He. unfold ended_in, timed_join in Hin.
    destruct (threads (server b) !! h) as [c|]; [|done]. exists c. by rewrite Hin.
  - intros h Hin%Hh. by apply lookup_lt_is_Some.
  - exact Ho.
Qed.

(** ** Every message is handled *)

(** The steps that [n] more messages cost, at most, when the vector has [h]
    threads: 10 for each reload, and a walk over the vector. *)
Fixpoint messages_cost (n h : nat) : nat :=
  match n with O => 0 | S n => 24 + h + messages_cost n (S h) end.
Definition bus_left (b : bus) : nat :=
  let h := length (handles b) in
  total (server b) +
  match at_ b with
  | Receive => messages_cost (length (queue b)) h
  | Reloading _ _ => 13 + h + messages_cost (length (queue b)) (S h)
  | Cleaning _ it => 11 + (h - it) + messages_cost (length (queue b)) (S h)
  | Down => messages_cost (length (queue b)) (S h)
  end.

Lemma messages_cost_mono n h h' : h ≤ h' → messages_cost n h ≤ messages_cost n h'.
Proof. revert h h'. induction n as [|n IH]; intros h h' Hh; simpl; [lia|]. specialize (IH (S h) (S h')). lia. Qed.

Lemma total_spawn c (m : machine) : total (spawn c m) = total m + work c.
Proof.
  unfold total. simpl. rewrite fmap_app. generalize (work <$> threads m). intros l.
  induction l as [|x l IH]; simpl in *; lia.
Qed.

Lemma run_bus_left b b' : run_bus b = Some b' → bus_left b' < bus_left b.
Proof.
  unfold run_bus, bus_left. destruct (at_ b) as [|sub own|sub it|] eqn:Ea; [| | |done].
  - destruct (queue b) as [|sub q] eqn:Eq; [done|]. intros [= <-]. cbn -[total]. rewrite total_spawn. simpl. lia.
  - destruct (threads (server b) !! own) as [[]|]; try done; intros [= <-]; cbn -[total]; lia.
  - destruct (handles b !! it) as [h|] eqn:Eh.
    + pose proof (lookup_lt_Some _ _ _ Eh). destruct (timed_join h (server b)); intros [= <-]; cbn -[total messages_cost].
      * rewrite length_delete by done.
        pose proof (messages_cost_mono (length (queue b)) (S (length (handles b) - 1)) (S (length (handles b))) ltac:(lia)). lia.
      * lia.
    + intros [= <-]. cbn -[total messages_cost]. rewrite total_spawn, length_app. simpl.
      rewrite Nat.add_1_r. lia.
Qed.

(** C19: the bus always gets on: each of its steps and each step of a thread uses
    up a part of a number that only new messages and new calls raise; and when
    neither the bus nor any thread can move, and the program has not ended by an
    exception, every message was taken from the socket, its reloads have ended,
    and so have all the calls. *)
Theorem bus_settles w b :
  world_ok w → rtc bus_step (bus_start w) b →
  (∀ b', run_bus b = Some b' → bus_left b' < bus_left b) ∧
  (∀ i m, run_thread testMode cache_path i (server b) = Some m → bus_left (put_server m b) < bus_left b) ∧
  (at_ b ≠ Down → run_bus b = None → (∀ i, run_thread testMode cache_path i (server b) = None) →
   at_ b = Receive ∧ queue b = [] ∧ Forall finished (threads (server b))).
Proof.
  intros Hw Hr. pose proof (bus_reachable w b Hw Hr) as [Hs Hd Hh He Ho].
  split; [apply run_bus_left|]. split.
  - intros i m Hm%(run_decreases testMode cache_path w); [|done]. unfold bus_left. cbn -[total messages_cost]. lia.
  - intros Hup Hb Ht. assert (Forall finished (threads (server b))) as Hf.
    { apply Forall_lookup. intros i c Hi. destruct (decide (finished c)) as [|Hc]; [done|].
      destruct (some_thread_runs testMode cache_path w _ i c Hs Hi Hc) as (j & m & Hj). by rewrite Ht in Hj. }
    unfold run_bus in Hb. destruct (at_ b) as [|sub own|sub it|] eqn:Ea; [| | |done].
    + by destruct (queue b).
    + destruct (Ho sub own eq_refl) as (c & Hc & Hrel). rewrite Hc in Hb.
      pose proof (Forall_lookup_1 _ _ _ _ Hf Hc). by destruct c.
    + destruct (handles b !! it); [by destruct (timed_join _ _)|done].
Qed.
End bus.

(** * Two messages *)

Import SiteThreadsDemo.

Module Demo.
Abbreviation bus := (bus (Mem := gmap string string) (Db := Tables) (E := S3Ref.env) (T := Z)).
Inductive act := RunBus | RunThread (i : nat) | Message (sub : string) | Call (c : pc).
Definition perform (a : act) (b : bus) : option bus :=
  match a with
  | RunBus => run_bus b
  | RunThread i =>
      if decide (at_ b = Down) then None
      else m ← run_thread false "/c" i (server b); Some (put_server m b)
  | Message sub => Some (arrive sub b)
  | Call c => if decide (at_ b ≠ Down ∧ starting c = true) then Some (put_server (spawn c (server b)) b) else None
  end.
Definition performs (l : list act) (b : bus) : option bus := foldl (λ b a, b' ← b; perform a b') (Some b) l.

Lemma perform_steps a b b' : perform a b = Some b' → bus_step false "/c" b b'.
Proof.
  destruct a; simpl.
  - by apply bus_runs.
  - case_decide as Hd; [done|]. destruct (run_thread _ _ _ _) as [m|] eqn:Em; [|done]. intros [= <-].
    apply others_run; [done|]. by eapply thread_runs.
  - intros [= <-]. apply message_arrives.
  - case_decide as Hd; [|done]. intros [= <-]. apply call_starts; [apply Hd|]. by destruct Hd as [_ ->].
Qed.
Lemma performs_steps l b b' : performs l b = Some b' → rtc (bus_step false "/c") b b'.
Proof.
  unfold performs. revert b. induction l as [|a l IH]; intros b; simpl; [by intros [= ->]|].
  destruct (perform a b) as [b1|] eqn:E1.
  - intros Hl. eapply rtc_l; [by eapply perform_steps|by apply IH].
  - intros Hl. exfalso. revert Hl. clear. induction l; simpl; [done|done].
Qed.

(** A client gets the site; two messages come in, the second after the thread
    that the first one spawned has ended. *)
Definition first : list act :=
  Call (Enter k1) :: replicate 6 (RunThread 0) ++ [Message "shop"; RunBus] ++ replicate 7 (RunThread 1)
  ++ [RunBus; RunBus] ++ replicate 7 (RunThread 2).
Definition second : list act :=
  [Message "shop"; RunBus] ++ replicate 7 (RunThread 3) ++ [RunBus; RunBus; RunBus] ++ replicate 7 (RunThread 4).
Definition final : bus :=
  match performs (first ++ second) (bus_start start) with Some b => b | None => bus_start start end.
Lemma final_run : performs (first ++ second) (bus_start start) = Some final.
Proof. vm_compute. reflexivity. Qed.
End Demo.

Example bus_safe_witness :
  handles Demo.final = [4] ∧ deleted Demo.final = [2] ∧
  (∃ c, threads (server Demo.final) !! 2 = Some c ∧ finished c).
Proof.
  destruct (bus_safe false "/c" start Demo.final threads_start_ok (Demo.performs_steps _ _ _ Demo.final_run))
    as (_ & _ & _ & Hd & _).
  split; [vm_compute; reflexivity|]. split; [vm_compute; reflexivity|].
  apply Hd. vm_compute. left.
Defined.

Example bus_settles_witness : queue Demo.final = [] ∧ Forall finished (threads (server Demo.final)).
Proof.
  destruct (bus_settles false "/c" start Demo.final threads_start_ok (Demo.performs_steps _ _ _ Demo.final_run))
    as (_ & _ & Hf).
  destruct Hf as (_ & Hq & Ht).
  - vm_compute. discriminate.
  - vm_compute. reflexivity.
  - intros [|[|[|[|[|i]]]]]; [vm_compute; reflexivity..|]. unfold run_thread.
    assert (length (threads (server Demo.final)) = 5) as El by (vm_compute; reflexivity).
    rewrite (lookup_ge_None_2 (threads (server Demo.final))) by (rewrite El; lia). reflexivity.
  - split; [exact Hq|exact Ht].
Defined.
