(* ===== verification/SessionThreads.v ===== *)
(** Threads inside [Session::get] of [cpp/session.cpp].  The handler gives the
    session to its caller and lets go of [sessionsMutex], and the session has no
    mutex of its own: the number of a response is read from the vector
    ([responses.size()+1]) before the response is appended.  Here each operation
    on the vector is one step, as if it were atomic, which [std::vector] does not
    even promise; running a query on the site is one step too:
    [ConcurrentRequests] shows that its answer does not depend on what other
    requests do to the site in between. *)
From Stdlib Require Import ZArith.
From S2P Require Import Prelude Cpp Extern Regex Util VaeTypes Xml XmlRef Query Site Response Session.
From S2P Require QuerySpec SiteSpec ResponseSpec SiteFrame.

Inductive pc :=
| Start (responseId : Z) (query : string) (options : gmap string string)
| Compute (parent : option Response) (query : string) (options : gmap string string)
| Write (r : Response)
| Number (r : Response) (w : VaeDbResponse)         (* _return.id = responses.size()+1 *)
| Push (r : Response) (w : VaeDbResponse)           (* responses.push_back(response) *)
| Answered (r : Response) (w : VaeDbResponse)
| Failed (why : outcome unit).

Section threads.
Context {clib : CLib} `{Boost} `{Pcre} `{LibXml} `{Algorithms}.

(** What a thread does next, without other threads in between. *)
Definition body (c : pc) : option (eff (Session * Site) pc) :=
  match c with
  | Start i query options => Some (parent ← parent_of i; mret (Compute parent query options))
  | Compute parent query options =>
      Some (r ← on_site (Response_query parent query options); mret (Write r))
  | Write r => Some (w ← on_site (writeVaeDbResponse r); mret (Number r w))
  | Number r w =>
      Some (n ← gets (λ s, length (responses s.1));
            mret (Push r (set_response_id (wrap32 (Z.of_nat n + 1)) w)))
  | Push r w => Some (modify (λ s, (push_back r s.1, s.2));; mret (Answered r w))
  | Answered _ _ | Failed _ => None
  end.
Definition after (r : outcome pc) : pc :=
  match r with
  | Ok c => c
  | Throw e => Failed (Throw e)
  | UB why => Failed (UB why)
  | OutOfFuel => Failed OutOfFuel
  end.

Record calls := { shared : Session * Site; running : list pc }.

Definition run_call (i : nat) (m : calls) : option calls :=
  c ← running m !! i;
  b ← body c;
  let '(r, s) := b (shared m) in
  Some {| shared := s; running := <[i := after r]> (running m) |}.
Definition calls_step (m m' : calls) : Prop := ∃ i, run_call i m = Some m'.

(** One thread, run to its end. *)
Fixpoint alone (n : nat) (c : pc) : eff (Session * Site) pc :=
  match n with
  | O => mret c
  | S n => match body c with Some b => c' ← b; alone n c' | None => mret c end
  end.

(** A call that meets no other is [Session::get]. *)
Lemma alone_get i query options s :
  (c ← alone 5 (Start i query options);
   match c with Answered _ w => mret w | _ => ub "not answered" end) s
  = get i query options s.
Proof.
  unfold get.
  do 4 (rewrite ?eff_bind_ret; cbn [alone body]; rewrite ?eff_bind_assoc; apply eff_bind_proper; intros).
  by rewrite ?eff_bind_ret.
Qed.

(** * Numbers *)

(** The response of a thread is in the vector, at the number that it answered or
    behind it; a number that was read is at most the next free one. *)
Definition pc_ok (l : list Response) (c : pc) : Prop :=
  match c with
  | Push r w => (1 ≤ response_id w ≤ Z.of_nat (length l) + 1)%Z
  | Answered r w => (1 ≤ response_id w)%Z ∧
      ∃ pos : nat, l !! pos = Some r ∧ (response_id w ≤ Z.of_nat pos + 1)%Z
  | _ => True
  end.

Lemma pc_ok_grow l k c : pc_ok l c → pc_ok (l ++ k) c.
Proof.
  destruct c; simpl; try done; rewrite ?length_app.
  - intros ?. lia.
  - intros [Hi (pos & Hp & Hle)]. split; [done|]. exists pos. split; [|done]. by apply lookup_app_l_Some.
Qed.

(** Threads that have not appended yet. *)
Definition to_push (c : pc) : nat :=
  match c with Answered _ _ | Failed _ => 0 | _ => 1 end.
Definition bound (m : calls) : Z :=
  (Z.of_nat (length (responses (shared m).1)) + Z.of_nat (sum_list (to_push <$> running m)))%Z.

Lemma to_push_insert cs i c c' :
  cs !! i = Some c → sum_list (to_push <$> <[i := c']> cs) + to_push c = sum_list (to_push <$> cs) + to_push c'.
Proof.
  revert i. induction cs as [|d cs IH]; intros [|i]; csimpl; [done..| |].
  - intros [= ->]. lia.
  - intros Hi. specialize (IH i Hi). lia.
Qed.

Definition same_responses (t t' : Session * Site) : Prop := responses t'.1 = responses t.1.

(** What a step does to the vector. *)
Lemma call_body_step c b s o s' :
  body c = Some b → b s = (o, s') → (Z.of_nat (length (responses s.1)) < 2 ^ 31 - 1)%Z →
  pc_ok (responses s.1) c →
  ∃ k, responses s'.1 = responses s.1 ++ k ∧ pc_ok (responses s'.1) (after o) ∧
    length k + to_push (after o) ≤ to_push c.
Proof.
  intros Hb Hrun Hl Hc.
  assert (∀ A (m : eff (Session * Site) A) (f : A → pc), b = (x ← m; mret (f x)) →
    (∀ t, preserves (same_responses t) m) → to_push c = 1 →
    (∀ a, pc_ok (responses s.1) (f a)) →
    ∃ k, responses s'.1 = responses s.1 ++ k ∧ pc_ok (responses s'.1) (after o) ∧
      length k + to_push (after o) ≤ to_push c) as Hkeep.
  { intros A m f -> Hm Ht Hf. exists []. rewrite app_nil_r, Ht. specialize (Hm s s eq_refl).
    unfold same_responses, mbind, eff_mbind, eff_bind, mret, eff_mret, eff_ret in *.
    destruct (m s) as [[a| | |] s1]; simplify_eq/=; (split; [done|]); try (split; [done|lia]).
    rewrite Hm. split; [apply Hf|]. destruct (f a); simpl; lia. }
  assert (∀ i t, preserves (same_responses t) (response_at i)) as Hr.
  { intros i t. apply preserves_bind; [auto with eff|]. intros l. case_match; auto with eff. }
  assert (∀ A (m : eff Site A) t, preserves (same_responses t) (on_site m)) as Hs.
  { intros A m t [s1 st1] E. by rewrite on_site_eq. }
  destruct c; simplify_eq/=.
  - eapply Hkeep; [reflexivity|intros t|done|done]. unfold parent_of. case_decide; [auto with eff|].
    apply preserves_bind; auto with eff.
  - eapply Hkeep; [reflexivity|apply Hs|done|done].
  - eapply Hkeep; [reflexivity|apply Hs|done|done].
  - rewrite eff_bind_gets in Hrun. injection Hrun as <- <-. exists []. rewrite app_nil_r. split; [done|]. simpl. split; [|lia]. rewrite wrap32_id by lia. lia.
  - rewrite eff_bind_modify in Hrun. injection Hrun as <- <-. exists [r]. split; [done|]. simpl. split; [|lia]. split; [apply Hc|]. exists (length (responses s.1)).
    split; [|apply Hc]. rewrite lookup_app_r by done. by rewrite Nat.sub_diag.
Qed.

Record calls_ok (l : list Response) (m : calls) : Prop := {
  calls_prefix : l `prefix_of` responses (shared m).1;
  calls_numbers i c : running m !! i = Some c → pc_ok (responses (shared m).1) c;
  calls_bound : (bound m < 2 ^ 31)%Z;
}.

Lemma calls_step_ok l m m' : calls_ok l m → calls_step m m' → calls_ok l m'.
Proof.
  intros [Hp Hn Hb] [i Hr]. unfold run_call in Hr.
  destruct (running m !! i) as [c|] eqn:Hi; [|done]. simpl in Hr.
  destruct (body c) as [b|] eqn:Ec; [|done]. simpl in Hr.
  destruct (b (shared m)) as [o s'] eqn:Eb. injection Hr as <-.
  pose proof (to_push_insert _ _ _ (after o) Hi) as Hsum. unfold bound in Hb.
  assert (1 ≤ to_push c) as Hone by by destruct c.
  destruct (call_body_step c b (shared m) o s' Ec Eb) as (k & Hk & Hok & Hcount); [|by eapply Hn|].
  { assert (to_push c ≤ sum_list (to_push <$> running m)); [|lia].
    clear -Hi. revert i Hi. induction (running m) as [|d cs IH]; intros [|i]; csimpl; [done..| |].
    - intros [= ->]. lia.
    - intros Hi%IH. lia. }
  split; simpl.
  - rewrite Hk. by apply prefix_app_r.
  - intros j d [(-> & <- & _)|[_ Hj]]%list_lookup_insert_Some; [done|]. rewrite Hk. by apply pc_ok_grow, (Hn j).
  - unfold bound. simpl. rewrite Hk, length_app. lia.
Qed.

End threads.

(** * Two calls at once *)

#[local] Existing Instances BoostRef.boost_ref demo_libxml ResponseSpec.SortRef.algorithms.

Module Demo.
Definition both : list pc := [Start 0 "/artist" ∅; Start 0 "/artist/album" ∅].
Definition start : calls := {| shared := (Session_new 1 100, QuerySpec.Demo.site); running := both |}.
Definition schedule (l : list nat) : option calls := foldl (λ m i, m ← m; run_call i m) (Some start) l.
(** Both have read the size of the vector before one of them appends. *)
Definition final : calls :=
  match schedule [0; 0; 0; 0; 1; 1; 1; 1; 0; 1] with Some m => m | None => start end.

Lemma call_schedule_steps l m : schedule l = Some m → rtc calls_step start m.
Proof.
  unfold schedule. revert m. induction l as [|i l IH] using rev_ind; intros m; [by intros [= <-]|].
  rewrite foldl_app. simpl. destruct (foldl _ _ l) as [m1|]; [|done]. simpl. intros Hm.
  eapply rtc_r; [by apply IH|]. by exists i.
Qed.
Lemma final_steps : rtc calls_step start final.
Proof. apply (call_schedule_steps [0; 0; 0; 0; 1; 1; 1; 1; 0; 1]). vm_compute. reflexivity. Qed.
Definition answer (i : nat) : option (Response * Z) :=
  match running final !! i with Some (Answered r w) => Some (r, response_id w) | _ => None end.
End Demo.

(** Both calls answer the number 1: the second client gets the number of the
    response of the first. *)
Example same_number :
  snd <$> Demo.answer 0 = Some 1%Z ∧ snd <$> Demo.answer 1 = Some 1%Z ∧
  length (responses (shared Demo.final).1) = 2 ∧
  element (responses (shared Demo.final).1) 0 = fst <$> Demo.answer 0 ∧
  element (responses (shared Demo.final).1) 0 ≠ fst <$> Demo.answer 1.
Proof. vm_compute. repeat split; try reflexivity. discriminate. Qed.

