(* ===== verification/SessionCalls.v ===== *)
(** All calls of [cpp/session.cpp], from several sessions that share one site,
    at the granularity of [SharedSite]: a call finds a response in the vector of
    its session, works on the site as a thread of [ConcurrentRequests], and for
    [Session::get] reads the size of the vector and appends to it.  Each access to
    a vector is one step.  Every call answers what it answers alone, up to the
    number of a new response ([SessionThreads] is about the numbers). *)
From Stdlib Require Import ZArith.
From S2P Require Import Prelude Cpp Extern Regex Util VaeTypes Xml XmlRef Query Site Response Session.
From S2P Require Import SharedSite ConcurrentRequests.
From S2P Require QuerySpec SiteSpec ResponseSpec.

(** What a client gets. *)
Inductive answer :=
| CreateInfoAnswer (w : VaeDbCreateInfoResponse)
| DataAnswer (w : VaeDbDataResponse)
| GetAnswer (w : VaeDbResponse)
| StructureAnswer (w : VaeDbStructureResponse).

(** Without the number of a new response. *)
Definition unnumbered (a : answer) : answer :=
  match a with GetAnswer w => GetAnswer (set_response_id 0 w) | a => a end.

Section calls.
Context {clib : CLib} `{Boost} `{Pcre} `{LibXml} {alg : Algorithms} {algt : AlgorithmThreads}.

(** A call with no other beside it. *)
Definition alone_call (c : call) : eff (Session * Site) answer :=
  match c with
  | CreateInfo i q => w ← createInfo i q; mret (CreateInfoAnswer w)
  | Data i => w ← data i; mret (DataAnswer w)
  | Get i q o => w ← get i q o; mret (GetAnswer w)
  | Structure i => w ← structure i; mret (StructureAnswer w)
  end.

(** Not in random order. *)
Definition call_repeatable (c : call) : Prop :=
  match c with Get _ _ o => sortType (parse_options o) ≠ Shuffle | _ => True end.

(** What a call asks of the site, from the responses of its session. *)
Definition find (c : { c | call_repeatable c }) : eff (Session * Site) { r | repeatable r } :=
  match c with
  | exist _ (CreateInfo i q) _ => parent ← parent_of i; mret (exist _ (RunCreate parent q) Logic.I)
  | exist _ (Data i) _ => r ← response_at i; mret (exist _ (WriteData r) Logic.I)
  | exist _ (Get i q o) Hr => parent ← parent_of i; mret (exist _ (RunQuery parent q o) Hr)
  | exist _ (Structure i) _ => r ← response_at i; mret (exist _ (WriteStructures r) Logic.I)
  end.

(** Where a call is. *)
Inductive pc :=
| Start
| Running (made : option Response) (th : thread reply)
| Number (r : Response) (w : VaeDbResponse)         (* _return.id = responses.size()+1 *)
| Push (r : Response) (w : VaeDbResponse)           (* responses.push_back(response) *)
| Ended (o : outcome answer).

(** [response->writeVaeDbResponse(_return)]. *)
Definition writing (r : Response) : { r | repeatable r } := exist _ (WriteContexts r) Logic.I.

(** What follows the work on the site. *)
Definition follow (c : call) (made : option Response) (rep : reply) : pc :=
  match c, made, rep with
  | CreateInfo _ _, None, Made r => Ended (Ok (CreateInfoAnswer (writeVaeDbCreateInfoResponse r)))
  | Data _, None, DataOf w => Ended (Ok (DataAnswer w))
  | Structure _, None, StructuresOf w => Ended (Ok (StructureAnswer w))
  | Get _ _ _, None, Made r => Running (Some r) (as_thread (serve (proj1_sig (writing r))))
  | Get _ _ _, Some r, Contexts w => Number r w
  | _, _, _ => Ended (UB "another reply")
  end.
Definition on_ok {A} (k : A → pc) (o : outcome A) : pc :=
  match o with
  | Ok a => k a
  | Throw e => Ended (Throw e)
  | UB why => Ended (UB why)
  | OutOfFuel => Ended OutOfFuel
  end.

Record job := { session_of : nat; what : { c | call_repeatable c }; at_ : pc }.
Definition move (p : pc) (j : job) : job :=
  {| session_of := session_of j; what := what j; at_ := p |}.

Record state := { the_site : Site; sessions : list Session; jobs : list job }.

(** The next step of a call: its place, the site and its session afterwards. *)
Definition job_step (c : { c | call_repeatable c }) (p : pc) (st : Site) (ses : Session)
    : option (pc * Site * Session) :=
  match p with
  | Start => Some (on_ok (λ r, Running None (as_thread (serve (proj1_sig r)))) (find c (ses, st)).1, st, ses)
  | Running made (Done o) => Some (on_ok (follow (proj1_sig c) made) o, st, ses)
  | Running made (Act x k) =>
      let '(r, st') := SharedSite.perform x st in Some (Running made (after k r), st', ses)
  | Number r w => Some (Push r (set_response_id (wrap32 (Z.of_nat (length (responses ses)) + 1)) w), st, ses)
  | Push r w => Some (Ended (Ok (GetAnswer w)), st, push_back r ses)
  | Ended _ => None
  end.

Definition run_job (i : nat) (m : state) : option state :=
  j ← jobs m !! i; ses ← sessions m !! session_of j;
  '(p, st, ses') ← job_step (what j) (at_ j) (the_site m) ses;
  Some {| the_site := st; sessions := <[session_of j := ses']> (sessions m);
          jobs := <[i := move p j]> (jobs m) |}.
Definition calls_step (m m' : state) : Prop := ∃ i, run_job i m = Some m'.

(** * Answers *)

Section answers.
Context (t : Tree) (D : gset cptr) (s : Site).
Hypothesis Hs : serving t D s.
Abbreviation ans r := (serve r s).1.

(** The answer of a call that asks [rq] of the site. *)
Definition answer_of (c : call) (rq : request) : outcome answer :=
  rep ← ans rq;
  match c, rep with
  | CreateInfo _ _, Made r => Ok (CreateInfoAnswer (writeVaeDbCreateInfoResponse r))
  | Data _, DataOf w => Ok (DataAnswer w)
  | Structure _, StructuresOf w => Ok (StructureAnswer w)
  | Get _ _ _, Made r =>
      rep ← ans (WriteContexts r);
      match rep with Contexts w => Ok (GetAnswer w) | _ => UB "another reply" end
  | _, _ => UB "another reply"
  end.

Definition expected (c : { c | call_repeatable c }) (ses : Session) : outcome answer :=
  rq ← (find c (ses, s)).1; answer_of (proj1_sig c) (proj1_sig rq).

Lemma response_at_found i ses : ∃ o, response_at i (ses, s) = (o, (ses, s)).
Proof.
  unfold response_at. rewrite eff_bind_gets. case_match; [|by eexists].
  destruct (element _ _); by eexists.
Qed.
Lemma parent_of_found i ses : ∃ o, parent_of i (ses, s) = (o, (ses, s)).
Proof.
  unfold parent_of. case_decide; [by eexists|]. destruct (response_at_found i ses) as [o E].
  unfold mbind, eff_mbind, eff_bind. rewrite E. by destruct o; eexists.
Qed.

(** The response is written on the site as it was before the query. *)
Lemma written_later rq r :
  repeatable rq → (serve (WriteContexts r) (serve rq s).2).1 = ans (WriteContexts r).
Proof.
  intros Hr. pose proof (answer_stable (serve (proj1_sig (exist _ rq Hr))) t D s s Hs Hs) as [_ Hs'].
  by apply (answer_stable (serve (proj1_sig (writing r))) t D).
Qed.

(** [expected] is the answer of the call alone, up to its number. *)
Lemma expected_alone c ses :
  unnumbered <$> expected c ses = unnumbered <$> (alone_call (proj1_sig c) (ses, s)).1.
Proof.
  unfold expected, answer_of. destruct c as [[i q|i|i q o|i] Hr]; cbn [find proj1_sig alone_call].
  - unfold createInfo. destruct (parent_of_found i ses) as [p E].
    unfold mbind, eff_mbind, eff_bind, outcome_mbind, outcome_bind. rewrite E. destruct p as [p| | |]; try done. rewrite on_site_eq.
    simpl. unfold mbind, eff_mbind, eff_bind. simpl. by destruct (Response_create p q s) as [[] ?].
  - unfold data. destruct (response_at_found i ses) as [p E].
    unfold mbind, eff_mbind, eff_bind, outcome_mbind, outcome_bind. rewrite E. destruct p as [p| | |]; try done. rewrite on_site_eq.
    simpl. unfold mbind, eff_mbind, eff_bind. simpl. by destruct (writeVaeDbDataResponse p s) as [[] ?].
  - unfold get. destruct (parent_of_found i ses) as [p E].
    unfold mbind, eff_mbind, eff_bind, outcome_mbind, outcome_bind. rewrite E. destruct p as [p| | |]; try done. rewrite on_site_eq.
    pose proof (λ r, written_later (RunQuery p q o) r Hr) as Hw. revert Hw. simpl proj1_sig.
    simpl. unfold mbind, eff_mbind, eff_bind. simpl.
    destruct (Response_query p q o s) as [[r| | |] s1]; try done. simpl. intros Hw. specialize (Hw r).
    rewrite on_site_eq. rewrite <- Hw. simpl. by destruct (writeVaeDbResponse r s1) as [[] ?].
  - unfold structure. destruct (response_at_found i ses) as [p E].
    unfold mbind, eff_mbind, eff_bind, outcome_mbind, outcome_bind. rewrite E. destruct p as [p| | |]; try done. rewrite on_site_eq.
    simpl. unfold mbind, eff_mbind, eff_bind. simpl. by destruct (writeVaeDbStructureResponse p s) as [[] ?].
Qed.

(** * Calls in progress *)

(** [ses] is the session as the call found it, [st] the site now. *)
Definition in_progress (c : { c | call_repeatable c }) (p : pc) (st : Site) (ses : Session) : Prop :=
  match p with
  | Start => True
  | Running None th =>
      ∃ rq, (find c (ses, s)).1 = Ok rq ∧ safe t D (ans (proj1_sig rq)) st th
  | Running (Some r) th =>
      expected c ses = (rep ← ans (WriteContexts r);
                        match rep with Contexts w => Ok (GetAnswer w) | _ => UB "another reply" end) ∧
      (∃ i q o, proj1_sig c = Get i q o) ∧ safe t D (ans (WriteContexts r)) st th
  | Number _ w | Push _ w => unnumbered <$> expected c ses = Ok (unnumbered (GetAnswer w))
  | Ended o => unnumbered <$> o = unnumbered <$> expected c ses
  end.

Lemma in_progress_grows c p st st' ses :
  grows st st' → in_progress c p st ses → in_progress c p st' ses.
Proof.
  intros Hg. destruct p as [|[r|] th| | |]; simpl; try done.
  - intros (He & Hc & Ht). do 2 (split; [done|]). by eapply safe_grows.
  - intros (rq & Hf & Ht). exists rq. split; [done|]. by eapply safe_grows.
Qed.

(** The site does not change what a call finds. *)
Lemma find_site c ses st : (find c (ses, st)).1 = (find c (ses, s)).1.
Proof.
  assert (∀ i, (response_at i (ses, st)).1 = (response_at i (ses, s)).1 ∧
    (parent_of i (ses, st)).1 = (parent_of i (ses, s)).1) as Hi.
  { intros i. assert ((response_at i (ses, st)).1 = (response_at i (ses, s)).1) as Hr.
    { unfold response_at. rewrite !eff_bind_gets. simpl. case_match; [|done]. by destruct (element _ _). }
    split; [done|]. unfold parent_of. case_decide; [done|].
    unfold mbind, eff_mbind, eff_bind.
    destruct (response_at i (ses, st)) as [[] ?], (response_at i (ses, s)) as [[] ?]; by simplify_eq/=. }
  destruct c as [[i q|i|i q o|i] Hr]; cbn [find]; destruct (Hi i) as [H1' H2']; clear Hi;
    unfold mbind, eff_mbind, eff_bind;
    first [destruct (parent_of i (ses, st)) as [[] ?], (parent_of i (ses, s)) as [[] ?]; by simplify_eq/=
          |destruct (response_at i (ses, st)) as [[] ?], (response_at i (ses, s)) as [[] ?]; by simplify_eq/=].
Qed.

(** After the work on the site. *)
Lemma follow_progress c made o st ses :
  in_progress c (Running made (Done o)) st ses →
  in_progress c (on_ok (follow (proj1_sig c) made) o) st ses.
Proof.
  destruct made as [r|]; cbn [in_progress safe].
  - intros (He & (i & q & o' & Hc) & ->). rewrite Hc. unfold mbind, outcome_mbind, outcome_bind in He.
    destruct (ans (WriteContexts r)) as [[]| | |]; cbn [on_ok follow in_progress]; by rewrite He.
  - intros (rq & Hf & ->). unfold expected, answer_of in *.
    destruct (ans (proj1_sig rq)) as [rep|e|w|] eqn:Ea; cbn [on_ok].
    2-4: cbn [in_progress]; unfold expected, answer_of; rewrite Hf; simpl; by rewrite Ea.
    destruct (proj1_sig c) as [i q|i|i q o'|i] eqn:Ec, rep as [r|w|w|w]; cbn [follow in_progress];
      unfold expected, answer_of; rewrite ?Ec, Hf; simpl; rewrite ?Ea; simpl; try done.
    split; [done|]. split; [by eexists _, _, _|].
    exact (answered_alone (serve (proj1_sig (writing r))) t D s st Hs).
Qed.

Lemma job_step_progress c p st ses0 ses p' st' ses' :
  serving t D st → in_progress c p st ses0 → (p = Start → ses0 = ses) →
  job_step c p st ses = Some (p', st', ses') →
  serving t D st' ∧ grows st st' ∧ in_progress c p' st' ses0 ∧
  responses ses `prefix_of` responses ses'.
Proof.
  intros Hst Hp Hse Hstep. destruct p as [|made [o|B x k]|r w|r w|o]; cbn [job_step] in Hstep.
  - rewrite find_site in Hstep. injection Hstep as <- <- <-. rewrite Hse by done.
    do 2 (split; [done|]). split; [|done]. destruct (find c (ses, s)).1 as [rq|e|w|] eqn:Ef;
      cbn [on_ok in_progress]; [|unfold expected; by rewrite Ef..].
    exists rq. split; [done|]. by apply answered_alone.
  - injection Hstep as <- <- <-. do 2 (split; [done|]). split; [by apply follow_progress|done].
  - destruct (SharedSite.perform x st) as [r st1] eqn:Ex. injection Hstep as <- <- <-.
    assert (∀ o, safe t D o st (Act x k) →
      serving t D st1 ∧ grows st st1 ∧ safe t D o st1 (after k r)) as Hsafe.
    { intros o Ho. cbn [safe] in Ho. specialize (Ho st Hst ltac:(done)). rewrite Ex in Ho.
      destruct Ho as (? & ? & Hr). do 2 (split; [done|]). by destruct r; simpl; [|subst o..]. }
    destruct made as [r1|].
    + destruct Hp as (He & Hc & Ho). by destruct (Hsafe _ Ho) as (? & ? & ?).
    + destruct Hp as (rq & Hf & Ho). destruct (Hsafe _ Ho) as (? & ? & ?).
      do 2 (split; [done|]). split; [by exists rq|done].
  - injection Hstep as <- <- <-. by do 3 (split; [done|]).
  - injection Hstep as <- <- <-. do 2 (split; [done|]). split; [done|]. by eexists.
  - done.
Qed.

(** ** Every call *)

(** The calls and sessions at the beginning, and how they are now. *)
Definition job_ok (sessions0 : list Session) (m : state) (j0 j : job) : Prop :=
  session_of j = session_of j0 ∧ what j = what j0 ∧
  (at_ j = Start ∨
   ∃ ses0 ses ses',
     sessions0 !! session_of j = Some ses0 ∧ sessions m !! session_of j = Some ses' ∧
     responses ses0 `prefix_of` responses ses ∧ responses ses `prefix_of` responses ses' ∧
     in_progress (what j) (at_ j) (the_site m) ses).
Record calls_ok (sessions0 : list Session) (jobs0 : list job) (m : state) : Prop := {
  ok_site : serving t D (the_site m);
  ok_sessions : Forall2 (λ a b, responses a `prefix_of` responses b) sessions0 (sessions m);
  ok_jobs : Forall2 (job_ok sessions0 m) jobs0 (jobs m);
}.

Lemma run_job_ok sessions0 jobs0 m m' :
  calls_ok sessions0 jobs0 m → calls_step m m' → calls_ok sessions0 jobs0 m'.
Proof.
  intros [Hst Hse Hj] [i Hr]. unfold run_job in Hr.
  destruct (jobs m !! i) as [j|] eqn:Hi; [|done]. simpl in Hr.
  destruct (sessions m !! session_of j) as [ses|] eqn:Hn; [|done]. simpl in Hr.
  destruct (job_step (what j) (at_ j) (the_site m) ses) as [[[p st] ses']|] eqn:Hstep; [|done].
  injection Hr as <-.
  destruct (Forall2_lookup_r _ _ _ _ _ Hj Hi) as (j0 & Hi0 & Hk & Hw & Hat).
  destruct (Forall2_lookup_r _ _ _ _ _ Hse Hn) as (ses0 & Hn0 & Hpre).
  (* the session as this call found it *)
  assert (∃ found, responses ses0 `prefix_of` responses found ∧ responses found `prefix_of` responses ses ∧
    in_progress (what j) (at_ j) (the_site m) found ∧ (at_ j = Start → found = ses))
    as (found & Hf0 & Hf & Hp & Hfs).
  { assert (at_ j = Start ∨ at_ j ≠ Start) as [E|E] by (destruct (at_ j); by auto).
    - exists ses. split; [done|]. split; [done|]. by rewrite E.
    - destruct Hat as [?|(s0 & found & s' & Hs0 & Hs' & H0' & Hf & Hp)]; [done|].
      simplify_eq. exists found. by do 3 (split; [done|]). }
  destruct (job_step_progress _ _ _ _ _ _ _ _ Hst Hp Hfs Hstep) as (Hst' & Hg & Hp' & Hgrow).
  assert (∀ n s1, sessions m !! n = Some s1 →
    ∃ s2, <[session_of j := ses']> (sessions m) !! n = Some s2 ∧ responses s1 `prefix_of` responses s2)
    as Hlook.
  { intros n s1 Hs1. destruct (decide (n = session_of j)) as [->|Hne].
    - simplify_eq. exists ses'. split; [|done]. apply list_lookup_insert_eq. by eapply lookup_lt_Some.
    - exists s1. by rewrite list_lookup_insert_ne by done. }
  split; simpl.
  - done.
  - rewrite <- (list_insert_id sessions0 _ _ Hn0). apply Forall2_insert; [done|]. by trans (responses ses).
  - rewrite <- (list_insert_id jobs0 i j0 Hi0). apply Forall2_insert.
    + eapply Forall2_impl; [done|]. intros a b (Hab & Hwb & Hb). do 2 (split; [done|]).
      destruct Hb as [?|(s0 & fb & s' & Hs0 & Hs' & H0' & Hfb & Hpb)]; [by left|right].
      destruct (Hlook _ _ Hs') as (s2 & Hs2 & Hp2). exists s0, fb, s2.
      do 3 (split; [done|]). split; [by trans (responses s')|]. by eapply in_progress_grows.
    + do 2 (split; [done|]). right. destruct (Hlook _ _ Hn) as (s2 & Hs2 & Hp2).
      exists ses0, found, s2. do 3 (split; [done|]). split; [by trans (responses ses)|done].
Qed.
End answers.

(** * Every call ends *)

(** A step of a call, whatever it finds. *)
Definition next_pc (p' p : pc) : Prop :=
  ∃ c st ses st' ses', job_step c p st ses = Some (p', st', ses').

Lemma ended_finite o : Acc next_pc (Ended o).
Proof. by constructor; intros p (? & ? & ? & ? & ? & ?). Qed.

Lemma on_ok_finite {A} (k : A → pc) o : (∀ a, Acc next_pc (k a)) → Acc next_pc (on_ok k o).
Proof. intros Hk. destruct o; simpl; [done|apply ended_finite..]. Qed.

(** A call on the site ends when what follows does. *)
Lemma running_finite made th :
  (∀ c rep, Acc next_pc (follow c made rep)) → Acc next_pc (Running made th).
Proof.
  intros Hf. induction th as [o|B x k IH]; constructor; intros p (c & st & ses & st' & ses' & E);
    cbn [job_step] in E.
  - injection E as <- <- <-. by apply on_ok_finite.
  - destruct (SharedSite.perform x st) as [r st1]. injection E as <- <- <-.
    destruct r as [b| | |]; simpl; [apply IH|..]; constructor;
      intros p (c1 & ? & ? & ? & ? & E1); cbn [job_step] in E1; injection E1 as <- <- <-; apply ended_finite.
Qed.

Lemma pc_finite p : Acc next_pc p.
Proof.
  assert (∀ r w, Acc next_pc (Push r w)) as Hpush.
  { intros r w. constructor. intros p' (c & st & ses & st' & ses' & [= <- <- <-]). apply ended_finite. }
  assert (∀ r w, Acc next_pc (Number r w)) as Hnumber.
  { intros r w. constructor. intros p' (c & st & ses & st' & ses' & [= <- <- <-]). apply Hpush. }
  assert (∀ r th, Acc next_pc (Running (Some r) th)) as Hwriting.
  { intros r th. apply running_finite. intros c rep.
    destruct c, rep; simpl; first [apply Hnumber|apply ended_finite]. }
  assert (∀ th, Acc next_pc (Running None th)) as Hrunning.
  { intros th. apply running_finite. intros c rep.
    destruct c, rep; simpl; first [apply Hwriting|apply ended_finite]. }
  destruct p as [|[r|] th|r w|r w|o]; [|done..|apply ended_finite].
  constructor. intros p' (c & st & ses & st' & ses' & E). cbn [job_step] in E. injection E as <- <- <-.
  by apply on_ok_finite.
Qed.

Lemma calls_finite m : sn calls_step m.
Proof.
  remember (at_ <$> jobs m) as l eqn:El. pose proof (one_of_finite next_pc l pc_finite) as Hl.
  revert m El. induction Hl as [l _ IH]. intros m ->. constructor. intros m' [i Hr].
  apply (IH (at_ <$> jobs m')); [|done]. unfold run_job in Hr.
  destruct (jobs m !! i) as [j|] eqn:Hi; [|done]. simpl in Hr.
  destruct (sessions m !! session_of j) as [ses|] eqn:Hn; [|done]. simpl in Hr.
  destruct (job_step (what j) (at_ j) (the_site m) ses) as [[[p st] ses']|] eqn:Hstep; [|done].
  injection Hr as <-. simpl. exists i, (at_ j), p. split; [by rewrite list_lookup_fmap, Hi|].
  split; [by repeat eexists|]. by rewrite list_fmap_insert.
Qed.

(** Calls of several sessions that share one loaded site, in any
    interleaving of their steps on the vectors and on the site: a call that has
    ended has answered, up to the number of a new response, what it answers when
    it is made alone, on its session as it was at some moment since the start,
    with the caches as they were loaded; exceptions included. No session loses a
    response, and no interleaving is endless. *)
Theorem session_calls_serial testMode su staging keys rawxml s ses0 cs m :
  Site_new testMode su staging keys rawxml = Ok s →
  rtc calls_step {| the_site := s; sessions := ses0;
                    jobs := (λ c, {| session_of := c.1; what := c.2; at_ := Start |}) <$> cs |} m →
  Forall2 (λ a b, responses a `prefix_of` responses b) ses0 (sessions m) ∧ sn calls_step m ∧
  ∀ i n c j o, cs !! i = Some (n, c) → jobs m !! i = Some j → at_ j = Ended o →
    ∃ before found now, ses0 !! n = Some before ∧ sessions m !! n = Some now ∧
      responses before `prefix_of` responses found ∧ responses found `prefix_of` responses now ∧
      unnumbered <$> o = unnumbered <$> (alone_call (proj1_sig c) (found, s)).1.
Proof.
  intros [Hc Hm]%SiteSpec.Site_new_coherent Hr.
  assert (serving (tree s) (dom (caches s)) s) as Hs by by split.
  assert (calls_ok (tree s) (dom (caches s)) s ses0
    ((λ c, {| session_of := c.1; what := c.2; at_ := Start |}) <$> cs) m) as [_ Hse Hj].
  { eapply rtc_invariant; [|by intros ???; eapply run_job_ok|done]. split; simpl.
    - done.
    - apply Forall_Forall2_diag, Forall_forall. by intros.
    - apply Forall_Forall2_diag, Forall_fmap, Forall_forall. intros c _. do 2 (split; [done|]). by left. }
  split; [done|]. split; [apply calls_finite|]. intros i n c j o Hi Hji Ho.
  destruct (Forall2_lookup_r _ _ _ _ _ Hj Hji) as (j0 & Hi0 & Hk & Hw & Hat).
  rewrite list_lookup_fmap, Hi in Hi0. simplify_eq/=.
  destruct Hat as [E|(s0 & found & s' & Hs0 & Hs' & H0' & Hf & Hp)]; [by rewrite E in Ho|].
  exists s0, found, s'. do 4 (split; [done|]). rewrite Ho in Hp. simpl in Hp. rewrite Hp. by eapply expected_alone.
Qed.
End calls.

(** * Two sessions on one site *)

#[local] Existing Instances BoostRef.boost_ref demo_libxml ResponseSpec.SortRef.algorithms.

Module Demo.
Definition by_name : { c | call_repeatable c }.
Proof. exists (Get 0 "/artist" {["unique" := "name"]}). vm_compute. discriminate. Defined.
Definition first_data : { c | call_repeatable c } := exist _ (Data 1) Logic.I.
(** The first session asks for artists, then for the data of its first response;
    the second session asks for artists meanwhile. *)
Definition calls : list (nat * { c | call_repeatable c }) := [(0, by_name); (1, by_name); (0, first_data)].
Definition start : state :=
  {| the_site := QuerySpec.Demo.site; sessions := [Session_new 1 100; Session_new 1 101];
     jobs := (λ c, {| session_of := c.1; what := c.2; at_ := Start |}) <$> calls |}.
Definition run (l : list nat) : state := foldl (λ m i, default m (run_job i m)) start l.
Definition order : list nat := concat (repeat [0; 1] 25) ++ repeat 2 25.

Lemma run_steps l : rtc calls_step start (run l).
Proof.
  unfold run. induction l as [|i l IH] using rev_ind; [done|].
  rewrite foldl_app. simpl. destruct (run_job i _) as [m|] eqn:E; [|done].
  eapply rtc_r; [done|]. by exists i.
Qed.
Definition artists_data : VaeDbDataResponse :=
  Eval vm_compute in
  match at_ <$> jobs (run order) !! 2 with
  | Some (Ended (Ok (DataAnswer w))) => w
  | _ => {| data_contexts := [] |}
  end.
Lemma data_ended : at_ <$> jobs (run order) !! 2 = Some (Ended (Ok (DataAnswer artists_data))).
Proof. vm_compute. reflexivity. Qed.
Lemma data_job : ∃ j, jobs (run order) !! 2 = Some j ∧ Ended (Ok (DataAnswer artists_data)) = at_ j.
Proof. exact (proj1 (fmap_Some at_ _ _) data_ended). Qed.
End Demo.

Example session_calls_serial_witness :
  (λ d, dfc_data d !! "name") <$> data_contexts Demo.artists_data = [Some "Miles Davis"; Some "Art Blakey"] ∧
  ∃ found : Session, Ok (DataAnswer Demo.artists_data) =
    unnumbered <$> (alone_call (Data 1) (found, QuerySpec.Demo.site)).1.
Proof.
  split; [vm_compute; reflexivity|]. destruct Demo.data_job as (j & Hj & Ho).
  destruct (session_calls_serial true "demo.xml" false "" "" QuerySpec.Demo.site
    [Session_new 1 100; Session_new 1 101] Demo.calls (Demo.run Demo.order)
    QuerySpec.Demo.site_loaded (Demo.run_steps Demo.order)) as (_ & _ & Ha).
  destruct (Ha 2 0 Demo.first_data j (Ok (DataAnswer Demo.artists_data)) eq_refl Hj (eq_sym Ho))
    as (b & found & n & _ & _ & _ & _ & E).
  exists found. exact E.
Defined.
