(* ===== verification/ServerThreads.v ===== *)
(** The table of sessions of [cpp/vae_db_handler.cpp] under threads: calls look
    their session up under [sessionsMutex] and then work on it without; sessions
    are opened and closed meanwhile, the reaper of [cpp/reaper.cpp] erases old
    ones, and sites are loaded.  A call keeps its session by a [shared_ptr], and
    the session its site: objects are numbered, and are not deleted here
    ([SiteLife] deletes them).  The steps on a session and its site are those of
    [SessionCalls]. *)
From Stdlib Require Import ZArith.
From S2P Require Import Prelude Cpp Extern Regex Util VaeTypes Xml XmlRef Query Site Response Session.
From S2P Require Import SharedSite ConcurrentRequests SessionCalls.
From S2P Require QuerySpec SiteSpec ResponseSpec Handler HandlerSpec ServerSpec.

Section server.
Context {clib : CLib} `{Boost} `{Pcre} `{LibXml} {alg : Algorithms} {algt : AlgorithmThreads}.

(** What a thread of the server does, and where it is. *)
Inductive work :=
| Calling (sessionId : Z) (c : { c | call_repeatable c })      (* createInfo, data, get, structure *)
| On (n : nat) (c : { c | call_repeatable c }) (p : pc)        (* holds session object [n] *)
| Unknown (sessionId : Z) (c : { c | call_repeatable c })      (* "invalid session ID" *)
| Opening (p : site_ptr) (suggestedSessionId : Z)              (* openSession, after getSite *)
| Opened (sessionId : Z) (n : nat) (generation : Z)
| Closing (sessionId : Z)
| Closed.

Record server := {
  table : gmap Z nat;                                          (* sessions *)
  objects : list Session;
  site_objects : gmap site_ptr Site;
  running : list work;
}.

(** [while (sessions.count(sessionId)) sessionId = rand();] ends with a number
    that is not in the table, the suggested one if it is not. *)
Definition chosen (m : gmap Z nat) (suggestedSessionId sessionId : Z) : Prop :=
  m !! sessionId = None ∧ (m !! suggestedSessionId = None → sessionId = suggestedSessionId).

(** The reaper keeps a session. *)
Definition kept (l : list Session) (now : Z) (e : Z * nat) : bool :=
  match l !! e.2 with
  | Some s => negb (Handler.SESSION_REAP_TIME <? now - createdAt s)%Z
  | None => true
  end.

Inductive server_step : server → server → Prop :=
| step_found i sessionId c n tbl l sts ws :
    ws !! i = Some (Calling sessionId c) → tbl !! sessionId = Some n →
    server_step (Build_server tbl l sts ws) (Build_server tbl l sts (<[i := On n c Start]> ws))
| step_unknown i sessionId c tbl l sts ws :
    ws !! i = Some (Calling sessionId c) → tbl !! sessionId = None →
    server_step (Build_server tbl l sts ws) (Build_server tbl l sts (<[i := Unknown sessionId c]> ws))
| step_call i n c p p' ses ses' st st' tbl l sts ws :
    ws !! i = Some (On n c p) → l !! n = Some ses → sts !! site ses = Some st →
    job_step c p st ses = Some (p', st', ses') →
    server_step (Build_server tbl l sts ws)
      (Build_server tbl (<[n := ses']> l) (<[site ses := st']> sts) (<[i := On n c p']> ws))
| step_open i p suggested sessionId now st tbl l sts ws :
    ws !! i = Some (Opening p suggested) → sts !! p = Some st → chosen tbl suggested sessionId →
    server_step (Build_server tbl l sts ws)
      (Build_server (<[sessionId := length l]> tbl) (l ++ [Session_new p now]) sts
         (<[i := Opened sessionId (length l) (generation st)]> ws))
| step_close i sessionId tbl l sts ws :
    ws !! i = Some (Closing sessionId) →
    server_step (Build_server tbl l sts ws)
      (Build_server (delete sessionId tbl) l sts (<[i := Closed]> ws))
| step_reap now tbl l sts ws :
    server_step (Build_server tbl l sts ws)
      (Build_server (base.filter (λ e, kept l now e = true) tbl) l sts ws)
| step_load p testMode su staging keys rawxml st tbl l sts ws :
    sts !! p = None → Site_new testMode su staging keys rawxml = Ok st →
    server_step (Build_server tbl l sts ws) (Build_server tbl l (<[p := st]> sts) ws).

(** * Invariant *)

(** What no step undoes: objects stay, responses keep their numbers, sites keep
    their documents and filled tables. *)
Record extends (m m' : server) : Prop := {
  extends_objects n ses : objects m !! n = Some ses →
    ∃ ses', objects m' !! n = Some ses' ∧ site ses' = site ses ∧
      responses ses `prefix_of` responses ses';
  extends_sites p st : site_objects m !! p = Some st →
    ∃ st', site_objects m' !! p = Some st' ∧ tree st' = tree st ∧
      dom (caches st') = dom (caches st) ∧ grows st st';
}.
#[export] Instance extends_preorder : PreOrder extends.
Proof.
  split.
  - intros m. split; [intros n ses ?; by exists ses|intros p st ?; by exists st].
  - intros m1 m2 m3 [H1o H1s] [H2o H2s]. split.
    + intros n ses (s2 & E2 & Hs2 & Hp2)%H1o. destruct (H2o _ _ E2) as (s3 & E3 & Hs3 & Hp3).
      exists s3. split; [done|]. split; [congruence|by trans (responses s2)].
    + intros p st (s2 & E2 & Ht2 & Hd2 & Hg2)%H1s. destruct (H2s _ _ E2) as (s3 & E3 & Ht3 & Hd3 & Hg3).
      exists s3. split; [done|]. split; [congruence|]. split; [congruence|by trans s2].
Qed.

(** A call holds a session that exists, and is in progress on that session as it
    was when the call found its response. *)
Definition work_ok (m : server) (w : work) : Prop :=
  match w with
  | On n c p => ∃ ses st, objects m !! n = Some ses ∧ site_objects m !! site ses = Some st ∧
      (p = Start ∨ ∃ found s,
        site found = site ses ∧ responses found `prefix_of` responses ses ∧
        serving (tree st) (dom (caches st)) s ∧
        in_progress (tree st) (dom (caches st)) s c p st found)
  | Opened _ n _ => is_Some (objects m !! n)
  | _ => True
  end.

Record server_ok (m : server) : Prop := {
  ok_table sessionId n : table m !! sessionId = Some n → is_Some (objects m !! n);
  ok_distinct i j n : table m !! i = Some n → table m !! j = Some n → i = j;
  ok_objects n ses : objects m !! n = Some ses → is_Some (site_objects m !! site ses);
  ok_sites p st : site_objects m !! p = Some st → serving (tree st) (dom (caches st)) st;
  ok_work i w : running m !! i = Some w → work_ok m w;
}.

Lemma work_ok_extends m m' w : extends m m' → work_ok m w → work_ok m' w.
Proof.
  intros [Ho Hst] Hw. destruct w as [| n c p | | | i n g | | ]; simpl in *; try done.
  - destruct Hw as (ses & st & En & Es & Hp).
    destruct (Ho _ _ En) as (ses' & En' & Hsite & Hpre). destruct (Hst _ _ Es) as (st' & Es' & Ht & Hd & Hg).
    exists ses', st'. split; [done|]. split; [by rewrite Hsite|].
    destruct Hp as [?|(found & s & Hf & Hpf & Hs & Hp)]; [by left|right].
    exists found, s. split; [congruence|]. split; [by trans (responses ses)|].
    rewrite Ht, Hd. split; [done|]. by eapply in_progress_grows.
  - destruct Hw as [ses En]. destruct (Ho _ _ En) as (ses' & En' & _). by exists ses'.
Qed.

(** The workers after a step of worker [i]. *)
Lemma works_after m m' i w :
  (∀ j w', running m !! j = Some w' → work_ok m w') → extends m m' →
  running m' = <[i := w]> (running m) → work_ok m' w →
  ∀ j w', running m' !! j = Some w' → work_ok m' w'.
Proof.
  intros Hall He Hr Hw j w'. rewrite Hr. intros [(-> & <- & _)|[_ Hj]]%list_lookup_insert_Some; [done|].
  by eapply work_ok_extends, Hall.
Qed.

Lemma job_step_site c p st ses p' st' ses' :
  job_step c p st ses = Some (p', st', ses') → site ses' = site ses.
Proof.
  intros E. destruct p as [|made [o|B x k]|r w|r w|o]; cbn [job_step] in E.
  3: destruct (SharedSite.perform x st).
  all: by simplify_eq/=.
Qed.

(** A step of a call, on a session that may have got responses since. *)
Lemma call_step m n c p ses st p' st' ses' :
  server_ok m → work_ok m (On n c p) → objects m !! n = Some ses →
  site_objects m !! site ses = Some st → job_step c p st ses = Some (p', st', ses') →
  responses ses `prefix_of` responses ses' ∧ serving (tree st) (dom (caches st)) st' ∧ grows st st' ∧
  ∃ found s, site found = site ses ∧ responses found `prefix_of` responses ses ∧
    serving (tree st) (dom (caches st)) s ∧
    in_progress (tree st) (dom (caches st)) s c p' st' found.
Proof.
  intros Hok (ses1 & st1 & En & Es & Hp) En' Es' Hstep.
  rewrite En' in En. injection En as <-. rewrite Es' in Es. injection Es as <-.
  pose proof (ok_sites _ Hok _ _ Es') as Hst.
  assert (∃ found s, site found = site ses ∧ responses found `prefix_of` responses ses ∧
    serving (tree st) (dom (caches st)) s ∧ in_progress (tree st) (dom (caches st)) s c p st found ∧
    (p = Start → found = ses)) as (found & s & Hf & Hpf & Hs & Hpr & Hfs).
  { assert (p = Start ∨ p ≠ Start) as [->|Hne] by (destruct p; by auto); [by exists ses, st|].
    destruct Hp as [?|(found & s & ? & ? & ? & ?)]; [done|]. by exists found, s. }
  destruct (job_step_progress _ _ _ Hs _ _ _ _ _ _ _ _ Hst Hpr Hfs Hstep) as (Hst' & Hg & Hp' & Hgrow).
  do 3 (split; [done|]). by exists found, s.
Qed.

Lemma step_extends m m' : server_ok m → server_step m m' → extends m m'.
Proof.
  intros Hok Hstep. destruct Hstep as
    [| |i n c p p' ses ses' st st' tbl l sts ws Hi Hn Hp Hj|i p sug id now st tbl l sts ws Hi Hp Hid| |
     |p tm su sg ks rx st tbl l sts ws Hp Hnew].
  1,2,5,6: split; simpl; [intros n0 s0 ?; by exists s0|intros p0 s0 ?; by exists s0].
  - destruct (call_step _ n c p ses st p' st' ses' Hok) as (Hgrow & [_ [_ Ht Hd]] & Hg & _); [by eapply (ok_work _ Hok i)|done..|].
    split; simpl.
    + intros n0 s0 E0. destruct (decide (n0 = n)) as [->|Hne].
      * exists ses'. rewrite list_lookup_insert_eq by (by eapply lookup_lt_Some).
        rewrite Hn in E0. injection E0 as <-. split; [done|]. split; [by eapply job_step_site|done].
      * exists s0. by rewrite list_lookup_insert_ne.
    + intros p0 s0 E0. destruct (decide (p0 = site ses)) as [->|Hne].
      * exists st'. rewrite lookup_insert_eq. rewrite Hp in E0. by injection E0 as <-.
      * exists s0. by rewrite lookup_insert_ne.
  - split; simpl; [|intros p0 s0 ?; by exists s0]. intros n0 s0 E0. exists s0.
    split; [by apply lookup_app_l_Some|done].
  - split; simpl; [intros n0 s0 ?; by exists s0|]. intros p0 s0 E0. exists s0.
    split; [|done]. apply lookup_insert_Some. right. split; [|done]. intros <-. by rewrite Hp in E0.
Qed.

Lemma serving_itself t D s : serving t D s → serving (tree s) (dom (caches s)) s.
Proof. by intros [Hc [Hm <- <-]]. Qed.

(** A step that changes the tables of the site, and a session. *)
Lemma server_call_ok i n c p p' ses ses' st st' tbl l sts ws :
  server_ok (Build_server tbl l sts ws) →
  ws !! i = Some (On n c p) → l !! n = Some ses → sts !! site ses = Some st →
  job_step c p st ses = Some (p', st', ses') →
  server_ok (Build_server tbl (<[n := ses']> l) (<[site ses := st']> sts) (<[i := On n c p']> ws)).
Proof.
  intros Hok Hi Hn Hp Hj.
  pose proof (step_extends _ _ Hok (step_call i n c p p' ses ses' st st' tbl l sts ws Hi Hn Hp Hj)) as He.
  destruct (call_step _ n c p ses st p' st' ses' Hok) as (Hgrow & Hst' & Hg & found & s & Hf & Hpf & Hs & Hpr);
    [by eapply (ok_work _ Hok i)|done..|].
  pose proof (job_step_site _ _ _ _ _ _ _ Hj) as Hsite.
  pose proof Hst' as [_ [_ Ht Hd]].
  split; simpl.
  - intros id n0 [s0 E]%(ok_table _ Hok). destruct (extends_objects _ _ He n0 s0 E) as (s1 & E1 & _). by exists s1.
  - apply (ok_distinct _ Hok).
  - intros n0 s0 [(-> & -> & _)|[_ E]]%list_lookup_insert_Some.
    + rewrite Hsite, lookup_insert_eq. done.
    + destruct (ok_objects _ Hok _ _ E) as [st0 E0].
      destruct (extends_sites _ _ He _ _ E0) as (st1 & E1 & _). by exists st1.
  - intros p0 s0 [[<- <-]|[_ E]]%lookup_insert_Some; [by eapply serving_itself|by apply (ok_sites _ Hok p0)].
  - apply (works_after _ _ i (On n c p') (ok_work _ Hok) He eq_refl). simpl. exists ses', st'.
    rewrite list_lookup_insert_eq by (by eapply lookup_lt_Some). rewrite Hsite, lookup_insert_eq, Ht, Hd.
    do 2 (split; [done|]). right. exists found, s. split; [done|]. by split; [trans (responses ses)|].
Qed.

Lemma server_step_ok m m' : server_ok m → server_step m m' → server_ok m'.
Proof.
  intros Hok Hstep. pose proof (step_extends _ _ Hok Hstep) as He.
  pose proof (ok_table _ Hok) as Htbl. pose proof (ok_distinct _ Hok) as Hdis.
  pose proof (ok_objects _ Hok) as Hobj. pose proof (ok_sites _ Hok) as Hsites.
  pose proof (λ i w, works_after _ m' i w (ok_work _ Hok) He) as Hwork.
  destruct Hstep as
    [i id c n tbl l sts ws Hi Hn|i id c tbl l sts ws Hi Hn
    |i n c p p' ses ses' st st' tbl l sts ws Hi Hn Hp Hj|i p sug id now st tbl l sts ws Hi Hp [Hid _]
    |i id tbl l sts ws Hi|now tbl l sts ws|p tm su sg ks rx st tbl l sts ws Hp Hnew]; simpl in *.
  - split; [done..|]. eapply Hwork; [done|]. destruct (Htbl _ _ Hn) as [ses En].
    destruct (Hobj _ _ En) as [st Es]. exists ses, st. do 2 (split; [done|]). by left.
  - split; [done..|]. by eapply Hwork.
  - by eapply server_call_ok.
  - assert (∀ id' n', tbl !! id' = Some n' → n' < length l) as Hlt.
    { intros id' n' E. apply lookup_lt_is_Some. by eapply Htbl. }
    split; simpl.
    + intros id' n' [[<- <-]|[_ E]]%lookup_insert_Some.
      * exists (Session_new p now). by rewrite lookup_app_r, Nat.sub_diag.
      * destruct (Htbl _ _ E) as [s0 E0]. exists s0. by apply lookup_app_l_Some.
    + intros i1 i2 n' [[<- <-]|[_ E1]]%lookup_insert_Some [[<- E2]|[_ E2]]%lookup_insert_Some; [done|..].
      * apply Hlt in E2. lia.
      * subst n'. apply Hlt in E1. lia.
      * by eapply Hdis.
    + intros n' s0 [E|[_ E]]%lookup_app_Some; [by eapply Hobj|].
      apply list_lookup_singleton_Some in E as [_ <-]. by exists st.
    + done.
    + eapply Hwork; [done|]. simpl. rewrite lookup_app_r, Nat.sub_diag by done. by eexists.
  - split; simpl; [|..|by eapply Hwork]; [|..|done|done].
    + intros id' n' [_ E]%lookup_delete_Some. by eapply Htbl.
    + intros i1 i2 n' [_ E1]%lookup_delete_Some [_ E2]%lookup_delete_Some. by eapply Hdis.
  - split; simpl; [| |done|done|].
    + intros id' n' [E _]%map_lookup_filter_Some. by eapply Htbl.
    + intros i1 i2 n' [E1 _]%map_lookup_filter_Some [E2 _]%map_lookup_filter_Some. by eapply Hdis.
    + intros j w Hw. eapply work_ok_extends; [done|]. by eapply (ok_work _ Hok).
  - split; simpl; [done|done| | |].
    + intros n' s0 E. destruct (Hobj _ _ E) as [st0 E0]. destruct (extends_sites _ _ He _ _ E0) as (st1 & E1 & _).
      by exists st1.
    + intros p0 s0 [[<- <-]|[_ E]]%lookup_insert_Some; [|by apply (Hsites p0)].
      apply SiteSpec.Site_new_coherent in Hnew as [??]. by split.
    + intros j w Hw. eapply work_ok_extends; [done|]. by eapply (ok_work _ Hok).
Qed.

Lemma expected_stable t D s s' c ses :
  serving t D s → serving t D s' → expected s c ses = expected s' c ses.
Proof.
  intros Hs Hs'. unfold expected. rewrite (find_site s c ses s').
  destruct (find c (ses, s)).1 as [rq| | |]; [|done..].
  unfold mbind, outcome_mbind, outcome_bind, answer_of.
  destruct (answer_stable (serve (proj1_sig rq)) t D s s' Hs Hs') as [-> _].
  unfold mbind, outcome_mbind, outcome_bind.
  destruct (serve (proj1_sig rq) s).1 as [[r|w|w|w]| | |]; [|done..]. destruct (proj1_sig c); try done.
  destruct (answer_stable (serve (proj1_sig (writing r))) t D s s' Hs Hs') as [E _].
  change (proj1_sig (writing r)) with (WriteContexts r) in E. by rewrite E.
Qed.

(** Threads that have not begun. *)
Definition arriving (w : work) : Prop :=
  match w with Calling _ _ | Opening _ _ | Closing _ => True | _ => False end.

(** C7: a server to which calls arrive while sessions are opened, closed and
    reaped and sites are loaded, in any interleaving of their critical sections,
    of the steps on sessions and of the steps on sites: a call that found its
    session and has ended has answered, up to the number of a new response, what
    it answers alone, exceptions included, on that session as it was at some
    moment since it was opened, and on its site, even if the session has been
    closed or the site replaced since; no two numbers of the table name one
    session. *)
Theorem server_calls_serial ws m :
  Forall arriving ws → rtc server_step (Build_server ∅ [] ∅ ws) m →
  (∀ i n c o, running m !! i = Some (On n c (Ended o)) →
    ∃ ses found st, objects m !! n = Some ses ∧ site_objects m !! site ses = Some st ∧
      site found = site ses ∧ responses found `prefix_of` responses ses ∧
      unnumbered <$> o = unnumbered <$> (alone_call (proj1_sig c) (found, st)).1) ∧
  (∀ i j n, table m !! i = Some n → table m !! j = Some n → i = j).
Proof.
  intros Hws Hr. assert (server_ok m) as Hok.
  { eapply rtc_invariant; [|by intros ???; eapply server_step_ok|done].
    split; simpl; [done..|]. intros i w Hi. pose proof (Forall_lookup_1 _ _ _ _ Hws Hi) as Ha.
    by destruct w. }
  split; [|apply (ok_distinct _ Hok)]. intros i n c o Hi.
  destruct (ok_work _ Hok _ _ Hi) as (ses & st & En & Es & [?|(found & s & Hf & Hpf & Hs & Hp)]); [done|].
  exists ses, found, st. do 4 (split; [done|]). simpl in Hp. rewrite Hp.
  pose proof (ok_sites _ Hok _ _ Es) as Hst.
  rewrite (expected_stable _ _ s st c found Hs Hst). by eapply expected_alone.
Qed.

(** * The table as [Handler] has it *)

(** [sessions] of [Handler.World]: the objects that the table points to. *)
Definition sessions_of (tbl : gmap Z nat) (l : list Session) : gmap Z Session :=
  omap (λ n, l !! n) tbl.

Lemma sessions_of_lookup tbl l i : sessions_of tbl l !! i = tbl !! i ≫= λ n, l !! n.
Proof. apply lookup_omap. Qed.

Lemma sessions_of_close tbl l i : sessions_of (delete i tbl) l = delete i (sessions_of tbl l).
Proof. apply omap_delete. Qed.

Lemma sessions_of_open tbl l i ses :
  (∀ j n, tbl !! j = Some n → is_Some (l !! n)) →
  sessions_of (<[i := length l]> tbl) (l ++ [ses]) = <[i := ses]> (sessions_of tbl l).
Proof.
  intros Hl. apply map_eq. intros j. rewrite sessions_of_lookup.
  destruct (decide (j = i)) as [->|Hne].
  - rewrite !lookup_insert_eq. simpl. by rewrite lookup_app_r, Nat.sub_diag.
  - rewrite !lookup_insert_ne by done. rewrite sessions_of_lookup.
    destruct (tbl !! j) as [n|] eqn:Ej; [|done]. simpl.
    destruct (Hl j n Ej) as [s Es]. rewrite Es. by apply lookup_app_l_Some.
Qed.

(** One round of the reaper. *)
Lemma sessions_of_reap tbl l now :
  (∀ j n, tbl !! j = Some n → is_Some (l !! n)) →
  sessions_of (base.filter (λ e, kept l now e = true) tbl) l
  = Handler.reap_loop now (map_to_list (sessions_of tbl l)) (sessions_of tbl l).
Proof.
  intros Hl. rewrite HandlerSpec.reap_loop_map. apply map_eq. intros i.
  rewrite sessions_of_lookup, !map_lookup_filter, sessions_of_lookup.
  destruct (tbl !! i) as [n|] eqn:Ei; [|done]. simpl. destruct (Hl i n Ei) as [s Es]. rewrite Es. simpl.
  assert (kept l now (i, n) = true ↔ ¬ HandlerSpec.old now s) as Hk.
  { unfold kept, HandlerSpec.old. simpl. rewrite Es, negb_true_iff, Z.ltb_ge. lia. }
  case_guard; case_guard; simpl; [done|tauto..|done].
Qed.

(** [unused_id] chooses. *)
Lemma unused_id_chosen {Mem Db E T} `{Handler.Os T} fuel i j (w w' : Handler.World Mem Db E T) tbl l :
  Handler.sessions w = sessions_of tbl l → (∀ j n, tbl !! j = Some n → is_Some (l !! n)) →
  Handler.unused_id fuel i w = (Ok j, w') → chosen tbl i j.
Proof.
  intros Hw Hl Eu. pose proof (ServerSpec.unused_id_spec fuel i w) as Hs. rewrite Eu, Hw in Hs.
  destruct Hs as (o & _ & Hj & Hi). rewrite sessions_of_lookup in *. split.
  - destruct (tbl !! j) as [n|] eqn:Ej; [|done]. destruct (Hl j n Ej) as [s Es]. simpl in Hj. congruence.
  - intros E0. apply Hi. by rewrite E0.
Qed.
End server.

(** * A session closed while it answers *)

#[local] Existing Instances BoostRef.boost_ref demo_libxml ResponseSpec.SortRef.algorithms.

Module Demo.
Definition works : list work := [Opening 1 5; Calling 5 SessionCalls.Demo.by_name; Closing 5].
(** The site is loaded, session 5 is opened, found by the call, and closed. *)
Definition closed : server :=
  {| table := ∅; objects := [Session_new 1 100]; site_objects := {[1%positive := QuerySpec.Demo.site]};
     running := [Opened 5 0 (generation QuerySpec.Demo.site); On 0 SessionCalls.Demo.by_name Start; Closed] |}.

Lemma to_closed : rtc server_step (Build_server ∅ [] ∅ works) closed.
Proof.
  eapply rtc_l; [exact (step_load 1 true "demo.xml" false "" "" QuerySpec.Demo.site ∅ [] ∅ works
    eq_refl QuerySpec.Demo.site_loaded)|].
  eapply rtc_l; [eapply (step_open 0 1 5 5 100 QuerySpec.Demo.site); [done|done|by split]|].
  eapply rtc_l; [by eapply (step_found 1 5 SessionCalls.Demo.by_name 0)|].
  eapply rtc_l; [by eapply (step_close 2 5)|]. simpl. rewrite delete_insert_id by done. apply rtc_refl.
Qed.

Definition run_call (i : nat) (m : server) : server :=
  match running m !! i with
  | Some (On n c p) =>
      match objects m !! n with
      | Some ses =>
          match site_objects m !! site ses with
          | Some st =>
              match job_step c p st ses with
              | Some (p', st', ses') =>
                  {| table := table m; objects := <[n := ses']> (objects m);
                     site_objects := <[site ses := st']> (site_objects m);
                     running := <[i := On n c p']> (running m) |}
              | None => m
              end
          | None => m
          end
      | None => m
      end
  | _ => m
  end.
Lemma run_call_steps i m : rtc server_step m (run_call i m).
Proof.
  unfold run_call. destruct m as [tbl l sts ws]. simpl.
  destruct (ws !! i) as [[| n c p | | | | | ]|] eqn:Ei; try done.
  destruct (l !! n) as [ses|] eqn:En; [|done]. destruct (sts !! site ses) as [st|] eqn:Es; [|done].
  destruct (job_step c p st ses) as [[[p' st'] ses']|] eqn:Ej; [|done].
  apply rtc_once. by eapply step_call.
Qed.
Definition final : server := Nat.iter 40 (run_call 1) closed.
Lemma to_final : rtc server_step (Build_server ∅ [] ∅ works) final.
Proof.
  unfold final. generalize 40 as n. induction n as [|n IH]; [exact to_closed|].
  simpl. etrans; [exact IH|apply run_call_steps].
Qed.
Definition answered (w : work) : option (call * outcome answer) :=
  match w with On _ c (Ended o) => Some (proj1_sig c, o) | _ => None end.
Definition artists : outcome answer :=
  Eval vm_compute in default OutOfFuel (snd <$> (running final !! 1 ≫= answered)).
Definition asked : call := Get 0 "/artist" {["unique" := "name"]}.
Lemma call_seen : running final !! 1 ≫= answered = Some (asked, artists).
Proof. vm_compute. reflexivity. Qed.
Lemma call_answered : ∃ n c, running final !! 1 = Some (On n c (Ended artists)) ∧ proj1_sig c = asked.
Proof.
  destruct (proj1 (bind_Some _ _ _) call_seen) as (w & Hw & Ha).
  destruct w as [|n c [| | | |o]| | | | |]; try discriminate Ha. exists n, c. injection Ha as Hc <-. by split.
Qed.
End Demo.

Example server_calls_serial_witness :
  (∃ w, Demo.artists = Ok (GetAnswer w)) ∧ ∃ found st,
  unnumbered <$> Demo.artists = unnumbered <$> (alone_call Demo.asked (found, st)).1.
Proof.
  split; [eexists; reflexivity|]. destruct Demo.call_answered as (n & c & Hi & Hc).
  assert (Forall arriving Demo.works) as Hw by (repeat constructor).
  destruct (proj1 (server_calls_serial Demo.works Demo.final Hw Demo.to_final) 1 n c Demo.artists Hi)
    as (ses & found & st & _ & _ & _ & _ & E).
  exists found, st. rewrite <- Hc. exact E.
Defined.
