(* ===== verification/SiteLife.v ===== *)
(** The life of site objects: [shared_ptr<Site>] in [cpp/vae_db_handler.h] and
    [cpp/session.h].  A site is kept by the table of sites and by the sessions on
    it; it is deleted when the last of them lets go, after which its address can be
    used again.  [Handler] keeps every object: here it is shown that this makes no
    difference to what the server answers. *)
From Stdlib Require Import ZArith.
From S2P Require Import Prelude Cpp Extern Regex QueryLog Util VaeTypes Xml XmlRef.
From S2P Require Site SiteSpec Response Session SiteFrame S3 MysqlProxy MemcacheProxy Pool Handler HandlerSpec.
From S2P Require ServerDemo.
Import SiteSpec S3 MysqlProxy MemcacheProxy Response SiteFrame Handler.

(** * Release *)

Section release.
Context {Mem Db E T : Type}.
Abbreviation World := (World Mem Db E T).

(** The sites that a [shared_ptr] points to between calls. *)
Definition referenced (w : World) : gset site_ptr :=
  list_to_set (snd <$> map_to_list (sites w))
  ∪ list_to_set ((λ e, Session.site e.2) <$> map_to_list (sessions w)).

(** The objects that nothing points to are deleted. *)
Definition release (w : World) : World :=
  set_objects (base.filter (λ e, e.1 ∈ referenced w)) w.

Lemma referenced_sites w k p : sites w !! k = Some p → p ∈ referenced w.
Proof.
  intros Hk. unfold referenced. apply elem_of_union_l, elem_of_list_to_set, list_elem_of_fmap.
  exists (k, p). split; [done|]. by apply elem_of_map_to_list.
Qed.
Lemma referenced_sessions w i s : sessions w !! i = Some s → Session.site s ∈ referenced w.
Proof.
  intros Hi. unfold referenced. apply elem_of_union_r, elem_of_list_to_set, list_elem_of_fmap.
  exists (i, s). split; [done|]. by apply elem_of_map_to_list.
Qed.
Lemma referenced_inv w p :
  p ∈ referenced w → (∃ k, sites w !! k = Some p) ∨ ∃ i s, sessions w !! i = Some s ∧ Session.site s = p.
Proof.
  unfold referenced. rewrite elem_of_union, !elem_of_list_to_set, !list_elem_of_fmap.
  intros [([k q] & -> & Hk)|([i s] & -> & Hi)].
  - left. exists k. by apply elem_of_map_to_list.
  - right. exists i, s. split; [|done]. by apply elem_of_map_to_list.
Qed.
End release.

(** * Two runs in step *)

(** Which address of one run stands for which of the other. *)
Abbreviation renaming := (gmap site_ptr site_ptr).

Definition injective (f : renaming) : Prop := ∀ p p' q, f !! p = Some q → f !! p' = Some q → p = p'.

(** Both end in the same way, with results in [Q]. *)
Definition same_end {A B} (Q : A → B → Prop) (r : outcome A) (r' : outcome B) : Prop :=
  match r, r' with
  | Ok a, Ok b => Q a b
  | Throw e, Throw e' => e = e'
  | UB why, UB why' => why = why'
  | OutOfFuel, OutOfFuel => True
  | _, _ => False
  end.

Section relates.
Context {St : Type} (sim : renaming → St → St → Prop).

(** From states that [sim] relates under a renaming that extends [f], [m] and
    [m'] end alike, in states related under a larger renaming. *)
Definition relates {A B} (f : renaming) (Q : renaming → A → B → Prop) (m : eff St A) (m' : eff St B) : Prop :=
  ∀ g s s', f ⊆ g → sim g s s' →
  ∃ g', g ⊆ g' ∧ same_end (Q g') (m s).1 (m' s').1 ∧ sim g' (m s).2 (m' s').2.

Lemma relates_bind {A B C D} f (Q : renaming → A → B → Prop) (R : renaming → C → D → Prop)
    (m : eff St A) (m' : eff St B) k k' :
  relates f Q m m' → (∀ g a b, f ⊆ g → Q g a b → relates g R (k a) (k' b)) →
  relates f R (m ≫= k) (m' ≫= k').
Proof.
  intros Hm Hk g s s' Hg Hs. destruct (Hm g s s' Hg Hs) as (g1 & H1 & He & Hs1).
  unfold mbind, eff_mbind, eff_bind. destruct (m s) as [r s1], (m' s') as [r' s1'].
  destruct r, r'; simpl in *; try done; [|by exists g1..].
  destruct (Hk g1 a a0 ltac:(by etrans) He g1 s1 s1' ltac:(done) Hs1) as (g2 & H2 & He2 & Hs2).
  exists g2. split; [by etrans|done].
Qed.
Lemma relates_ret {A B} f (Q : renaming → A → B → Prop) (a : A) (b : B) :
  (∀ g, f ⊆ g → Q g a b) → relates f Q (mret a) (mret b).
Proof. intros HQ g s s' Hg Hs. exists g. split; [done|]. split; [by apply HQ|done]. Qed.
Lemma relates_lift {A} f (o : outcome A) : relates f (λ _, eq) (lift o) (lift o).
Proof. intros g s s' Hg Hs. exists g. split; [done|]. split; [by destruct o|done]. Qed.
Lemma relates_same_end {A} f (m : eff St A) :
  (∀ s, ∃ r, m s = (r, s) ∧ ∀ s', m s' = (r, s')) → relates f (λ _, eq) m m.
Proof.
  intros Hm g s s' Hg Hs. destruct (Hm s) as (r & -> & ->). exists g.
  split; [done|]. split; [by destruct r|done].
Qed.
Lemma relates_gets {A B} f (Q : renaming → A → B → Prop) (h : St → A) (h' : St → B) :
  (∀ g s s', f ⊆ g → sim g s s' → Q g (h s) (h' s')) → relates f Q (gets h) (gets h').
Proof. intros HQ g s s' Hg Hs. exists g. split; [done|]. split; [by apply HQ|done]. Qed.
Lemma relates_modify f (h h' : St → St) :
  (∀ g s s', f ⊆ g → sim g s s' → sim g (h s) (h' s')) → relates f (λ _, eq) (modify h) (modify h').
Proof. intros Hh g s s' Hg Hs. exists g. split; [done|]. split; [done|by apply Hh]. Qed.
Lemma relates_weaken {A B} f (Q R : renaming → A → B → Prop) (m : eff St A) (m' : eff St B) :
  relates f Q m m' → (∀ g a b, f ⊆ g → Q g a b → R g a b) → relates f R m m'.
Proof.
  intros Hm HQ g s s' Hg Hs. destruct (Hm g s s' Hg Hs) as (g' & Hg' & He & Hs'). exists g'.
  split; [done|]. split; [|done]. destruct (m s).1, (m' s').1; simpl in *; try done.
  apply HQ; [by etrans|done].
Qed.
Lemma relates_seq {A C D} f (R : renaming → C → D → Prop) (m m' : eff St A) k k' :
  relates f (λ _, eq) m m' → (∀ g a, f ⊆ g → relates g R (k a) (k' a)) → relates f R (m ≫= k) (m' ≫= k').
Proof. intros Hm Hk. eapply relates_bind; [exact Hm|]. intros g a b Hg <-. by apply Hk. Qed.
Lemma relates_when f b (m m' : eff St unit) :
  relates f (λ _, eq) m m' → relates f (λ _, eq) (when b m) (when b m').
Proof. destruct b; [done|]. intros _. by apply relates_ret. Qed.
End relates.

(** ** The two servers *)

(** [s] on another address of its site. *)
Definition on_address (q : site_ptr) (s : Session.Session) : Session.Session :=
  {| Session.createdAt := Session.createdAt s; Session.responses := Session.responses s; Session.site := q |}.

Section same_servers.
Context {Mem Db E T : Type}.
Context {clib : CLib} `{Boost} `{Pcre} `{LibXml} `{Algorithms}.
Context `{MemcacheClient Mem} `{SqlEngine Db} `{S3Env E} `{Os T}.
Abbreviation World := (World Mem Db E T).
Context (testMode : bool) (cache_path : string) (log_fuel rand_fuel : nat).

Definition same_ptr (f : renaming) (p q : site_ptr) : Prop := f !! p = Some q.
Definition same_session (f : renaming) (s s' : Session.Session) : Prop :=
  ∃ q, same_ptr f (Session.site s) q ∧ s' = on_address q s.

(** Everything but the addresses of sites is equal; the second server may have
    fewer objects. *)
Record same_server (f : renaming) (w w' : World) : Prop := {
  sim_inj : injective f;
  sim_objects p q : same_ptr f p q →
    ∃ st, site_objects w !! p = Some st ∧ site_objects w' !! q = Some st;
  sim_sites k : option_Forall2 (same_ptr f) (sites w !! k) (sites w' !! k);
  sim_sessions i : option_Forall2 (same_session f) (sessions w !! i) (sessions w' !! i);
  sim_mutexes : siteMutexes w = siteMutexes w';
  sim_log : queryLog w = queryLog w';
  sim_mem : memcacheProxy w = memcacheProxy w';
  sim_mysql : mysqlProxy w = mysqlProxy w';
  sim_s3 : s3 w = s3 w';
  sim_os : os w = os w';
}.
Abbreviation related := (relates same_server).

Lemma same_session_mono f g s s' : f ⊆ g → same_session f s s' → same_session g s s'.
Proof. intros Hg (q & Hq & ->). exists q. split; [|done]. by eapply lookup_weaken. Qed.

Lemma same_option_mono {A B} (Q R : A → B → Prop) o o' :
  option_Forall2 Q o o' → (∀ a b, Q a b → R a b) → option_Forall2 R o o'.
Proof. intros [a b HQ|] HR; constructor. by apply HR. Qed.

(** Parts that both have, changed in the same way. *)
Lemma same_mem f w w' m : same_server f w w' → same_server f (set_mem m w) (set_mem m w').
Proof. by intros []. Qed.
Lemma same_mysql f w w' m : same_server f w w' → same_server f (set_mysql m w) (set_mysql m w').
Proof. by intros []. Qed.
Lemma same_s3 f w w' e : same_server f w w' → same_server f (set_s3 e w) (set_s3 e w').
Proof. by intros []. Qed.
Lemma same_os f w w' o : same_server f w w' → same_server f (set_os o w) (set_os o w').
Proof. by intros []. Qed.
Lemma same_log f w w' l : same_server f w w' → same_server f (set_log l w) (set_log l w').
Proof. by intros []. Qed.

Lemma rel_mem {A} f (m : eff (MemcacheProxy Mem) A) : related f (λ _, eq) (on_mem m) (on_mem m).
Proof.
  intros g w w' Hg Hw. exists g. split; [done|]. unfold on_mem, zoom. rewrite (sim_mem _ _ _ Hw).
  destruct (m (memcacheProxy w')) as [o x]. split; [by destruct o|by apply same_mem].
Qed.
Lemma rel_mysql {A} f (m : eff (MysqlProxy Db) A) : related f (λ _, eq) (on_mysql m) (on_mysql m).
Proof.
  intros g w w' Hg Hw. exists g. split; [done|]. unfold on_mysql, zoom. rewrite (sim_mysql _ _ _ Hw).
  destruct (m (mysqlProxy w')) as [o x]. split; [by destruct o|by apply same_mysql].
Qed.
Lemma rel_s3 {A} f (m : eff E A) : related f (λ _, eq) (on_s3 m) (on_s3 m).
Proof.
  intros g w w' Hg Hw. exists g. split; [done|]. unfold on_s3, zoom. rewrite (sim_s3 _ _ _ Hw).
  destruct (m (s3 w')) as [o x]. split; [by destruct o|by apply same_s3].
Qed.
Lemma rel_os {A} f (h : T → A * T) : related f (λ _, eq) (from_os h) (from_os h).
Proof.
  intros g w w' Hg Hw. exists g. split; [done|]. unfold from_os. rewrite (sim_os _ _ _ Hw).
  destruct (h (os w')) as [o x]. split; [done|by apply same_os].
Qed.

(** ** Sites *)

Lemma rel_site_at f p q : same_ptr f p q → related f (λ _, eq) (site_at p) (site_at q).
Proof.
  intros Hp g w w' Hg Hw. exists g. split; [done|].
  destruct (sim_objects _ _ _ Hw p q) as (st & Ho & Ho'); [by eapply lookup_weaken|].
  unfold site_at. rewrite !eff_bind_gets, Ho, Ho'. by split.
Qed.

Lemma rel_get_site_mutex f sub st : related f (λ _, eq) (_get_site_mutex sub st) (_get_site_mutex sub st).
Proof.
  apply relates_modify. intros g w w' _ []. split; simpl; try done. congruence.
Qed.

Lemma rel_lookup_site f k :
  related f (λ g, option_Forall2 (same_ptr g)) (gets (λ w, sites w !! k)) (gets (λ w, sites w !! k)).
Proof. apply relates_gets. intros g w w' _ Hw. apply (sim_sites _ _ _ Hw). Qed.

(** A new object has a new address in both. *)
Lemma same_allocate f w w' p q st :
  same_server f w w' → site_objects w !! p = None → site_objects w' !! q = None →
  f ⊆ <[p := q]> f ∧
  same_server (<[p := q]> f) (set_objects (<[p := st]>) w) (set_objects (<[q := st]>) w').
Proof.
  intros [Hinj Ho Hs Hss ? ? ? ? ? ?] Hp Hq.
  assert (f !! p = None) as Hfp.
  { destruct (f !! p) as [q'|] eqn:E0; [|done]. destruct (Ho _ _ E0) as (st' & Hst & _). congruence. }
  assert (∀ p', f !! p' ≠ Some q) as Hfq by (intros p' (st' & _ & Hst)%Ho; congruence).
  assert (f ⊆ <[p := q]> f) as Hsub by by apply insert_subseteq.
  split; [done|]. split; simpl; try done.
  - intros p1 p2 q' [[<- <-]|[Hn1 Hp1]]%lookup_insert_Some [[<- Hq']|[Hn2 Hp2]]%lookup_insert_Some; try done.
    + by destruct (Hfq p2).
    + subst q'. by destruct (Hfq p1).
    + by eapply Hinj.
  - intros p' q' [[<- <-]|[Hne Hp']]%lookup_insert_Some.
    + exists st. by rewrite !lookup_insert_eq.
    + destruct (Ho _ _ Hp') as (st' & Ho1 & Ho2). exists st'. assert (q ≠ q') by (intros ->; congruence).
      by rewrite !lookup_insert_ne.
  - intros k. eapply same_option_mono; [apply Hs|]. intros ? ? Hl. exact (lookup_weaken _ _ _ _ Hl Hsub).
  - intros i. eapply same_option_mono; [apply Hss|]. intros ? ?. by apply same_session_mono.
Qed.
Lemma rel_allocate f st :
  related f same_ptr
    (p ← gets (λ w, fresh (dom (site_objects w))); modify (set_objects (<[p := st]>));; mret p)
    (p ← gets (λ w, fresh (dom (site_objects w))); modify (set_objects (<[p := st]>));; mret p).
Proof.
  intros g w w' Hg Hw.
  destruct (same_allocate g w w' (fresh (dom (site_objects w))) (fresh (dom (site_objects w'))) st Hw)
    as [Hsub Hw']; [apply not_elem_of_dom, is_fresh..|].
  eexists. split; [exact Hsub|]. split; [by apply lookup_insert_eq|done].
Qed.

Lemma same_set_sites f w w' h h' :
  same_server f w w' →
  (∀ k, option_Forall2 (same_ptr f) (h (sites w) !! k) (h' (sites w') !! k)) →
  same_server f (set_sites h w) (set_sites h' w').
Proof. intros [] Hh. by split. Qed.
Lemma same_set_sessions f w w' h h' :
  same_server f w w' →
  (∀ i, option_Forall2 (same_session f) (h (sessions w) !! i) (h' (sessions w') !! i)) →
  same_server f (set_sessions h w) (set_sessions h' w').
Proof. intros [] Hh. by split. Qed.
Lemma same_entry {K} `{EqDecision K, Countable K} {A B} (Q : A → B → Prop) (m : gmap K A) (m' : gmap K B) k a b :
  Q a b → (∀ j, option_Forall2 Q (m !! j) (m' !! j)) →
  ∀ j, option_Forall2 Q (<[k := a]> m !! j) (<[k := b]> m' !! j).
Proof.
  intros Hab Hm j. destruct (decide (k = j)) as [<-|].
  - rewrite !lookup_insert_eq. by constructor.
  - by rewrite !lookup_insert_ne.
Qed.
Lemma same_removed {K} `{EqDecision K, Countable K} {A B} (Q : A → B → Prop) (m : gmap K A) (m' : gmap K B) k :
  (∀ j, option_Forall2 Q (m !! j) (m' !! j)) →
  ∀ j, option_Forall2 Q (delete k m !! j) (delete k m' !! j).
Proof.
  intros Hm j. destruct (decide (k = j)) as [<-|].
  - rewrite !lookup_delete_eq. constructor.
  - by rewrite !lookup_delete_ne.
Qed.

Lemma rel_new_site f sub staging xml :
  related f same_ptr (new_site testMode cache_path sub staging xml)
                     (new_site testMode cache_path sub staging xml).
Proof.
  apply relates_seq; [destruct testMode; [by apply relates_ret|apply rel_s3]|]. intros g keys Hg.
  apply relates_seq; [apply relates_lift|]. intros g2 st Hg2. apply rel_allocate.
Qed.
Lemma rel_loadSite f sub staging xml :
  related f same_ptr (_loadSite testMode cache_path sub staging xml)
                     (_loadSite testMode cache_path sub staging xml).
Proof.
  eapply relates_bind; [apply rel_new_site|]. intros g p q Hg Hp.
  apply relates_seq; [|intros g2 [] Hg2; apply relates_ret; intros g3 Hg3].
  - apply relates_modify. intros g2 w w' Hg2 Hw. apply same_set_sites; [done|].
    apply same_entry; [by eapply lookup_weaken|apply (sim_sites _ _ _ Hw)].
  - do 2 (eapply lookup_weaken; [|done]). done.
Qed.
Lemma rel_getSite_loaded f k secret :
  related f (λ g, option_Forall2 (same_ptr g)) (_getSite testMode k secret) (_getSite testMode k secret).
Proof.
  eapply relates_bind; [apply rel_lookup_site|]. intros g o o' Hg [p q Hp|].
  - apply relates_seq; [by apply rel_site_at|]. intros g2 st Hg2.
    apply relates_seq; [apply relates_lift|]. intros g3 [] Hg3. apply relates_ret.
    intros g4 Hg4. constructor. eapply lookup_weaken; [exact Hp|by repeat (etrans; [eassumption|])].
  - apply relates_ret. constructor.
Qed.
Lemma rel_getSite f sub secret staging :
  related f same_ptr (getSite testMode cache_path sub secret staging)
                     (getSite testMode cache_path sub secret staging).
Proof.
  apply relates_seq; [apply rel_get_site_mutex|]. intros g [] Hg.
  eapply relates_bind; [apply rel_getSite_loaded|]. intros g2 o o' Hg2 [p q Hp|].
  { apply relates_ret. intros g3 Hg3. by eapply lookup_weaken. }
  apply relates_seq; [destruct testMode; [by apply relates_ret|apply rel_s3]|]. intros g3 xml Hg3.
  eapply relates_bind; [apply rel_loadSite|]. intros g4 p q Hg4 Hp.
  apply relates_seq; [by apply rel_site_at|]. intros g5 st Hg5.
  apply relates_seq; [apply relates_lift|]. intros g6 [] Hg6. apply relates_ret. intros g7 Hg7.
  eapply lookup_weaken; [exact Hp|by repeat (etrans; [eassumption|])].
Qed.

Lemma rel_deref {S A B} (sim : renaming → S → S → Prop) f (Q : renaming → A → B → Prop) why o o' :
  (∀ g, f ⊆ g → option_Forall2 (Q g) o o') → relates sim f Q (deref why o) (deref why o').
Proof.
  intros HQ g s s' Hg Hs. exists g. split; [done|]. by destruct (HQ g Hg).
Qed.

Lemma rel_eraseSite f k secret force :
  related f (λ _, eq) (_eraseSite testMode k secret force) (_eraseSite testMode k secret force).
Proof.
  apply relates_seq.
  - destruct force; [by apply relates_ret|].
    eapply relates_bind; [apply rel_lookup_site|]. intros g o o' Hg Ho.
    eapply (relates_bind _ _ same_ptr); [apply rel_deref; intros g2 Hg2|].
    { eapply same_option_mono; [exact Ho|]. intros p q Hp. by eapply lookup_weaken. }
    intros g2 p q Hg2 Hp. apply relates_seq; [by apply rel_site_at|]. intros; apply relates_lift.
  - intros g [] Hg. apply relates_modify. intros g2 w w' Hg2 Hw.
    apply same_set_sites; [done|]. apply same_removed, (sim_sites _ _ _ Hw).
Qed.
Lemma rel_erase_if_loaded f k secret force :
  related f (λ _, eq) (erase_if_loaded testMode k secret force) (erase_if_loaded testMode k secret force).
Proof.
  eapply relates_bind; [apply rel_lookup_site|]. intros g o o' Hg [p q Hp|];
    [apply rel_eraseSite|by apply relates_ret].
Qed.
Lemma rel_resetSite f sub secret force :
  related f (λ _, eq) (_resetSite testMode sub secret force) (_resetSite testMode sub secret force).
Proof. apply relates_seq; intros; apply rel_erase_if_loaded. Qed.

Lemma rel_loaded_again f sub staging xml :
  related f (λ _, eq)
    (_get_site_mutex sub staging;; _loadSite testMode cache_path sub staging xml;; mret ())
    (_get_site_mutex sub staging;; _loadSite testMode cache_path sub staging xml;; mret ()).
Proof.
  apply relates_seq; [apply rel_get_site_mutex|]. intros g [] Hg.
  eapply relates_bind; [apply rel_loadSite|]. intros. by apply relates_ret.
Qed.
Lemma rel_reloadSite f sub :
  related f (λ _, eq) (reloadSite testMode cache_path sub) (reloadSite testMode cache_path sub).
Proof.
  eapply relates_bind; [apply rel_lookup_site|]. intros g o1 o1' Hg H1'.
  eapply relates_bind; [apply rel_lookup_site|]. intros g2 o2 o2' Hg2 H2'.
  apply relates_seq; [apply rel_s3|]. intros g3 xml Hg3.
  apply relates_seq; [apply rel_resetSite|]. intros g4 [] Hg4.
  replace (bool_decide (is_Some o1')) with (bool_decide (is_Some o1)) by by destruct H1'.
  replace (bool_decide (is_Some o2')) with (bool_decide (is_Some o2)) by by destruct H2'.
  apply relates_seq; intros; apply relates_when, rel_loaded_again.
Qed.

(** ** Sessions *)

Lemma rel_find_session f i :
  related f (λ g, option_Forall2 (same_session g)) (find_session i) (find_session i).
Proof. apply relates_gets. intros g w w' _ Hw. apply (sim_sessions _ _ _ Hw). Qed.

Lemma rel_subdomain_of f s s' :
  same_session f s s' → related f (λ _, eq) (subdomain_of s) (subdomain_of s').
Proof.
  intros (q & Hq & ->). apply relates_seq; [by apply rel_site_at|]. intros. by apply relates_ret.
Qed.

(** The methods of a session do not look at the address of its site. *)
Definition blind {A} (m : eff (Session.Session * Site.Site) A) : Prop := ∀ s st,
  Session.site (m (s, st)).2.1 = Session.site s ∧
  ∀ q, m (on_address q s, st) = ((m (s, st)).1, (on_address q (m (s, st)).2.1, (m (s, st)).2.2)).

Lemma blind_ret {A} (a : A) : blind (mret a).
Proof. done. Qed.
Lemma blind_bind {A B} (m : eff (Session.Session * Site.Site) A) (k : A → eff _ B) :
  blind m → (∀ a, blind (k a)) → blind (m ≫= k).
Proof.
  intros Hm Hk s st. destruct (Hm s st) as [Hs Hq]. unfold mbind, eff_mbind, eff_bind.
  destruct (m (s, st)) as [o [s1 st1]]. simpl in *. split.
  - destruct o; try done. rewrite <- Hs. apply (Hk a s1 st1).
  - intros q. rewrite Hq. destruct o; try done. apply (Hk a s1 st1).
Qed.
Lemma blind_lift {A} (o : outcome A) : blind (lift o).
Proof. by intros s st. Qed.
Lemma blind_deref {A} why (o : option A) : blind (deref why o).
Proof. by destruct o. Qed.
Lemma blind_throw {A} e : blind (throw e : eff _ A).
Proof. done. Qed.
Lemma blind_on_site {A} (m : eff Site.Site A) : blind (Session.on_site m).
Proof. intros s st. split; [by rewrite Session.on_site_eq|]. intros q. by rewrite !Session.on_site_eq. Qed.
Lemma blind_responses {A} (h : list Response → A) : blind (gets (λ s, h (Session.responses s.1))).
Proof. done. Qed.
Lemma blind_push_back r : blind (modify (λ s, (Session.push_back r s.1, s.2))).
Proof. done. Qed.
Lemma blind_response_at i : blind (Session.response_at i).
Proof.
  apply blind_bind; [apply (blind_responses id)|]. intros l.
  case_match; [apply blind_deref|apply blind_throw].
Qed.
Lemma blind_parent_of i : blind (Session.parent_of i).
Proof.
  unfold Session.parent_of. case_decide; [apply blind_ret|].
  apply blind_bind; [apply blind_response_at|]. intros. apply blind_ret.
Qed.

Lemma blind_createInfo i query : blind (Session.createInfo i query).
Proof.
  apply blind_bind; [apply blind_parent_of|]. intros p.
  apply blind_bind; [apply blind_on_site|]. intros. apply blind_ret.
Qed.
Lemma blind_data i : blind (Session.data i).
Proof. apply blind_bind; [apply blind_response_at|]. intros. apply blind_on_site. Qed.
Lemma blind_structure i : blind (Session.structure i).
Proof. apply blind_bind; [apply blind_response_at|]. intros. apply blind_on_site. Qed.
Lemma blind_get i query options : blind (Session.get i query options).
Proof.
  apply blind_bind; [apply blind_parent_of|]. intros p.
  do 2 (apply blind_bind; [apply blind_on_site|intros ?]).
  apply blind_bind; [apply (blind_responses length)|]. intros n.
  apply blind_bind; [apply blind_push_back|]. intros. apply blind_ret.
Qed.

Lemma rel_in_session {A} f i s s' (m : eff (Session.Session * Site.Site) A) :
  blind m → same_session f s s' → related f (λ _, eq) (in_session i s m) (in_session i s' m).
Proof.
  intros Hm (q & Hq & ->) g w w' Hg Hw. exists g. split; [done|].
  assert (same_ptr g (Session.site s) q) as Hq' by by eapply lookup_weaken.
  destruct (sim_objects _ _ _ Hw _ _ Hq') as (st & Ho & Ho').
  unfold in_session. simpl. rewrite Ho, Ho'.
  destruct (Hm s st) as [Hs Hblind]. rewrite Hblind. destruct (m (s, st)) as [r [s1 st1]]. simpl in *.
  split; [by destruct r|]. apply same_set_sessions.
  - destruct Hw as [Hinj Hos ? ? ? ? ? ? ? ?]. split; simpl; try done.
    intros p2 q2 Hp2. destruct (decide (p2 = Session.site s)) as [->|Hne].
    + assert (q2 = q) as -> by congruence. exists st1. by rewrite !lookup_insert_eq.
    + assert (q2 ≠ q) as Hne' by (intros ->; by destruct Hne; eapply Hinj).
      rewrite !lookup_insert_ne by done. by apply Hos.
  - apply same_entry; [|apply (sim_sessions _ _ _ Hw)]. exists q. by rewrite Hs.
Qed.

(** ** Calls *)

Definition same_local (f : renaming) (x y : World * QueryLogEntry) : Prop :=
  same_server f x.1 y.1 ∧ x.2 = y.2.

Lemma rel_outer {A B} f (Q : renaming → A → B → Prop) m m' :
  related f Q m m' → relates same_local f Q (outer m) (outer m').
Proof.
  intros Hm g [w l] [w' l'] Hg [Hw Hl]. simpl in *. destruct (Hm g w w' Hg Hw) as (g' & Hg' & He & Hw').
  exists g'. destruct (m w), (m' w'). done.
Qed.
Lemma rel_set_local f h : relates same_local f (λ _, eq) (set_local h) (set_local h).
Proof. intros g [w l] [w' l'] Hg [Hw Hl]. simpl in *. subst l'. by exists g. Qed.

Lemma rel_with_entry {A} f name args (body body' : eff (World * QueryLogEntry) A) :
  relates same_local f (λ _, eq) body body' →
  related f (λ _, eq) (with_entry log_fuel name args body) (with_entry log_fuel name args body').
Proof.
  intros Hb g w w' Hg Hw. unfold with_entry. rewrite <- (sim_log _ _ _ Hw), <- (sim_os _ _ _ Hw).
  destruct (QueryLogEntry_new (queryLog w)) as [entry log].
  destruct (if is_logging log then _ else _) as [start o].
  assert (same_server g (set_os o (set_log log w)) (set_os o (set_log log w'))) as Hw1
    by by apply same_os, same_log.
  destruct (log_args _ _ _ _) as [e|e|e|]; [|by exists g..].
  destruct (Hb g (_, e) (_, e) Hg (conj Hw1 eq_refl)) as (g2 & Hg2 & He & Hw2).
  exists g2. split; [done|].
  destruct (body _) as [r [w2 e2]], (body' _) as [r' [w2' e2']]. destruct Hw2 as [Hw2 He2].
  simpl in *. subst e2'.
  destruct r, r'; simpl in *; try done; simplify_eq;
    rewrite <- (sim_log _ _ _ Hw2), <- (sim_os _ _ _ Hw2); destruct (if is_logging log then _ else _);
    (split; [done|by apply same_os, same_log]).
Qed.

Lemma rel_session_body {A} f i (d : A) m :
  blind m → relates same_local f (λ _, eq) (session_body i d m) (session_body i d m).
Proof.
  intros Hm. eapply relates_bind; [apply rel_outer, rel_find_session|].
  intros g o o' Hg [s s' Hs|]; [|by apply relates_ret].
  apply relates_seq; [by apply rel_outer, rel_subdomain_of|]. intros g2 sub Hg2.
  apply relates_seq; [apply rel_set_local|]. intros g3 [] Hg3.
  apply rel_outer, rel_in_session; [done|]. apply (same_session_mono g); [by etrans|done].
Qed.

Lemma rel_with_subdomain {A} f i (d : A) body :
  (∀ g sub, related g (λ _, eq) (body sub) (body sub)) →
  related f (λ _, eq) (with_subdomain i d body) (with_subdomain i d body).
Proof.
  intros Hb. eapply relates_bind; [apply rel_find_session|]. intros g o o' Hg [s s' Hs|].
  - apply relates_seq; [by apply rel_subdomain_of|]. intros. apply Hb.
  - by apply relates_ret.
Qed.

Lemma rel_unused_id f fuel i : related f (λ _, eq) (unused_id fuel i) (unused_id fuel i).
Proof.
  revert f i. induction fuel as [|fuel IH]; intros f i; simpl.
  { intros g w w' Hg Hw. by exists g. }
  eapply relates_bind; [apply rel_find_session|]. intros g o o' Hg [s s' Hs|]; [|by apply relates_ret].
  apply relates_seq; [apply rel_os|]. intros. apply IH.
Qed.

Lemma rel_openSession f sub secret staging i :
  related f (λ _, eq) (openSession testMode cache_path log_fuel rand_fuel sub secret staging i)
                      (openSession testMode cache_path log_fuel rand_fuel sub secret staging i).
Proof.
  apply rel_with_entry. eapply relates_bind; [apply rel_outer, rel_getSite|]. intros g p q Hg Hp.
  apply relates_seq; [apply rel_outer, rel_unused_id|]. intros g2 j Hg2.
  apply relates_seq; [apply rel_outer, rel_os|]. intros g3 now Hg3.
  assert (same_ptr g3 p q) as Hp3 by (eapply lookup_weaken; [exact Hp|by etrans]).
  apply relates_seq; [apply rel_outer, relates_modify|intros g4 [] Hg4].
  - intros g4 w w' Hg4 Hw. apply same_set_sessions; [done|].
    apply same_entry; [|apply (sim_sessions _ _ _ Hw)]. exists q. split; [by eapply lookup_weaken|done].
  - apply relates_seq; [apply rel_outer, rel_site_at; by eapply lookup_weaken|]. intros g5 st Hg5.
    apply relates_seq; [apply rel_set_local|]. intros. by apply relates_ret.
Qed.
Lemma rel_closeSession f i secret :
  related f (λ _, eq) (closeSession log_fuel i secret) (closeSession log_fuel i secret).
Proof.
  apply rel_with_entry. eapply relates_bind; [apply rel_outer, rel_find_session|].
  intros g o o' Hg [s s' Hs|]; [|by apply relates_ret].
  apply rel_outer, relates_modify. intros g2 w w' Hg2 Hw. apply same_set_sessions; [done|].
  apply same_removed, (sim_sessions _ _ _ Hw).
Qed.

Lemma rel_answering {A} f (h : A → reply) m m' :
  related f (λ _, eq) m m' → related f (λ _, eq) (answering h m) (answering h m').
Proof. intros Hm. apply relates_seq; [done|]. intros. by apply relates_ret. Qed.

Create HintDb sim discriminated.
#[local] Hint Resolve blind_createInfo blind_data blind_get blind_structure rel_mem rel_mysql : sim.

Lemma rel_session_dispatch f r :
  related f (λ _, eq) (session_dispatch log_fuel r) (session_dispatch log_fuel r).
Proof.
  destruct r; apply rel_answering;
    first [apply rel_with_entry, rel_session_body; auto with sim
          |apply rel_with_subdomain; intros g sub; auto with sim].
  - apply relates_seq; [case_match; [by apply relates_ret|auto with sim]|]. intros g2 answer Hg2.
    case_decide; [|by apply relates_ret]. apply relates_seq; [auto with sim|]. intros g3 v Hg3.
    apply relates_seq; [auto with sim|]. intros. by apply relates_ret.
  - apply relates_seq; auto with sim.
  - apply relates_seq; auto with sim.
  - apply relates_seq; [auto with sim|]. intros. by apply relates_ret.
Qed.
Lemma rel_dispatch f r :
  related f (λ _, eq) (dispatch testMode cache_path log_fuel rand_fuel r)
                      (dispatch testMode cache_path log_fuel rand_fuel r).
Proof.
  destruct r; [apply rel_answering..|apply rel_session_dispatch].
  - apply rel_with_entry. by apply relates_ret.
  - apply rel_openSession.
  - apply rel_closeSession.
  - apply rel_with_entry, rel_outer, rel_resetSite.
Qed.

(** ** The reaper and the bus *)

Lemma rel_reap f : related f (λ _, eq) reap reap.
Proof.
  apply relates_seq; [apply rel_os|]. intros g now Hg.
  apply relates_seq; [apply relates_modify|intros; apply rel_mysql].
  intros g2 w w' _ Hw. apply same_set_sessions; [done|]. intros i.
  rewrite !HandlerSpec.reap_loop_map, !map_lookup_filter.
  destruct (sim_sessions _ _ _ Hw i) as [s s' Hs|]; [|constructor].
  destruct Hs as (q & Hq & ->). unfold HandlerSpec.old. simpl.
  do 2 case_guard; simpl; try done; constructor. by exists q.
Qed.
Lemma rel_bus_message f sub :
  related f (λ _, eq) (bus_message testMode cache_path sub) (bus_message testMode cache_path sub).
Proof. apply relates_seq; intros; apply rel_reloadSite. Qed.

(** ** Runs *)

Inductive event := Call (r : request) | Message (subdomain : string) | Round.

Definition serve (e : event) : eff World reply :=
  match e with
  | Call r => dispatch testMode cache_path log_fuel rand_fuel r
  | Message sub => answering (λ _, RVoid) (bus_message testMode cache_path sub)
  | Round => answering (λ _, RVoid) reap
  end.

Lemma rel_serve f e : related f (λ _, eq) (serve e) (serve e).
Proof.
  destruct e; [apply rel_dispatch|apply rel_answering, rel_bus_message|apply rel_answering, rel_reap].
Qed.

(** The answers to a sequence of events, and the last state; [after] runs when
    an event has been served. *)
Fixpoint history (after : World → World) (es : list event) (w : World) : list (outcome reply) * World :=
  match es with
  | [] => ([], w)
  | e :: es =>
      let '(r, w) := serve e w in
      let '(rs, w) := history after es (after w) in (r :: rs, w)
  end.

(** Addresses of objects that the second run deletes are forgotten. *)
Lemma same_release f w w' :
  same_server f w w' →
  same_server (base.filter (λ e, e.2 ∈ referenced w') f) w (release w').
Proof.
  intros [Hinj Ho Hs Hss ? ? ? ? ? ?].
  assert (∀ p q, same_ptr (base.filter (λ e, e.2 ∈ referenced w') f) p q ↔
    same_ptr f p q ∧ q ∈ referenced w') as Hf.
  { intros p q. unfold same_ptr. by rewrite map_lookup_filter_Some. }
  split; simpl; try done.
  - intros p p' q [Hp _]%Hf [Hp' _]%Hf. by eapply Hinj.
  - intros p q [Hp Hq]%Hf. destruct (Ho p q Hp) as (st & Hst & Hst'). exists st.
    split; [done|]. by apply map_lookup_filter_Some.
  - intros k. pose proof (referenced_sites w' k) as Hr. destruct (Hs k) as [p q Hpq|]; constructor.
    apply Hf. auto.
  - intros i. pose proof (referenced_sessions w' i) as Hr. destruct (Hss i) as [s s' (q & Hq & ->)|]; constructor.
    exists q. split; [|done]. apply Hf. split; [done|]. by apply (Hr (on_address q s)).
Qed.

(** Every pointer leads to a site. *)
Definition hosted (w : World) : Prop := ∀ p, p ∈ referenced w → is_Some (site_objects w !! p).

Lemma same_start w : hosted w → same_server (map_imap (λ p _, Some p) (site_objects w)) w w.
Proof.
  intros Hw. assert (∀ p q, same_ptr (map_imap (λ p _, Some p) (site_objects w)) p q ↔
    is_Some (site_objects w !! p) ∧ p = q) as Hf.
  { intros p q. unfold same_ptr. rewrite map_lookup_imap. destruct (site_objects w !! p) as [st|]; simpl; (split; [intros [=]|intros [[? [=]] [=]]]); subst; eauto. }
  split; try done.
  - by intros p p' q [_ ->]%Hf [_ ->]%Hf.
  - intros p q [[st Hst] <-]%Hf. by exists st.
  - intros k. destruct (sites w !! k) as [p|] eqn:E0; constructor. apply Hf.
    split; [|done]. by eapply Hw, referenced_sites.
  - intros i. destruct (sessions w !! i) as [[c l p]|] eqn:E0; constructor. exists p. split; [|done].
    apply Hf. split; [|done]. apply Hw, (referenced_sessions w i _ E0).
Qed.

Lemma same_history f es w w' :
  same_server f w w' →
  (history id es w).1 = (history release es w').1 ∧
  ∃ g, same_server g (history id es w).2 (history release es w').2.
Proof.
  revert f w w'. induction es as [|e es IH]; intros f w w' Hw; [split; [done|by exists f]|].
  destruct (rel_serve f e f w w' ltac:(done) Hw) as (g & _ & He & Hw2). simpl.
  destruct (serve e w) as [r w2], (serve e w') as [r' w2']. simpl in *.
  destruct (IH _ _ _ (same_release _ _ _ Hw2)) as [Heq Hg].
  change (id w2) with w2. destruct (history id es w2), (history release es (release w2')). simpl in *.
  split; [|done]. f_equal; [|done]. destruct r, r'; simpl in *; try done; congruence.
Qed.

(** C20: when the sites that no table and no session points to are deleted after
    every call, bus message and round of the reaper, and their addresses are used
    again, every call answers what it answers on a server that keeps them for
    ever, errors included, and the two servers differ in the addresses of their
    sites only. *)
Theorem freed_sites_invisible es w :
  hosted w →
  (history release es w).1 = (history id es w).1 ∧
  ∃ f, same_server f (history id es w).2 (history release es w).2.
Proof.
  intros Hw. destruct (same_history _ es w w (same_start w Hw)) as [Heq Hf]. by rewrite Heq.
Qed.
End same_servers.

(** * The server of [ServerDemo] *)

Section demo.
Import Util XmlRef ServerDemo.

(** A site is reset under a session that uses it and loaded again; the session is
    closed, the old site is deleted and the next one has its address. *)
Definition replaced : list event :=
  [Call (OpenSession "shop" "k2" false 42); Call (ResetSite "shop" "k1");
   Call (OpenSession "shop" "k1" false 43); Call (OnSession (Get 42 0 "/artist" ∅));
   Call (CloseSession 42 "k2"); Message "shop"; Call (OpenSession "shop" "k1" false 44)].

Example freed_sites_invisible_witness :
  let kept := history false "/c" 5 5 id replaced start in
  let freed := history false "/c" 5 5 release replaced start in
  freed.1 = kept.1 ∧ size (site_objects freed.2) = 2 ∧ size (site_objects kept.2) = 4.
Proof.
  split; [|split; vm_compute; reflexivity].
  refine (proj1 (freed_sites_invisible false "/c" 5 5 replaced start _)).
  intros p Hp. vm_compute in Hp. discriminate.
Defined.
End demo.
