(* ===== verification/TypedSite.v ===== *)
(** The integers of what a site answers fit [int32_t]: identifiers and structure
    numbers come out of [atoi], sizes out of node sets; what [TypedServer] needs
    to type the replies of the server. *)
From Stdlib Require Import ZArith.
From S2P Require Import Prelude Cpp Extern VaeTypes Xml Query Site SiteSpec ProtocolSpec ThriftSpec.
From S2P Require Import Response SiteFrame.
From S2P Require LruCache Session.

(** * Values *)

(** An outcome, if it is a value, satisfies [Q]. *)
Definition yields {A} (o : outcome A) (Q : A → Prop) : Prop := ∀ a, o = Ok a → Q a.

Lemma yields_bind {A B} (o : outcome A) (f : A → outcome B) P Q :
  yields o P → (∀ a, P a → yields (f a) Q) → yields (o ≫= f) Q.
Proof. intros Ho Hf b. destruct o as [a| | |]; try done. simpl. by apply Hf, Ho. Qed.
Lemma yields_seq {A B} (o : outcome A) (f : A → outcome B) Q :
  (∀ a, yields (f a) Q) → yields (o ≫= f) Q.
Proof. intros Hf. by apply (yields_bind _ _ (λ _, True)). Qed.
Lemma yields_ret {A} (a : A) (Q : A → Prop) : Q a → yields (Ok a) Q.
Proof. by intros Ha b [= <-]. Qed.

Section keeps.
Context {S : Type} (I : S → Prop).

Lemma keeps_seq {A B} (m : eff S A) (f : A → eff S B) Q :
  preserves I m → (∀ a, keeps I (f a) Q) → keeps I (m ≫= f) Q.
Proof. intros Hm Hf. eapply keeps_bind; [by apply keeps_preserves|auto]. Qed.
Lemma keeps_weaken {A} (m : eff S A) (P Q : A → Prop) :
  keeps I m P → (∀ a, P a → Q a) → keeps I m Q.
Proof. intros Hm HPQ s Hs. destruct (Hm s Hs) as [? Ha]. split; auto. Qed.
Lemma keeps_lift {A} (o : outcome A) Q : yields o Q → keeps I (lift o : eff S A) Q.
Proof. by intros Ho s Hs. Qed.
Lemma keeps_throw {A} e (Q : A → Prop) : keeps I (throw e : eff S A) Q.
Proof. by intros s Hs. Qed.
Lemma keeps_ub {A} why (Q : A → Prop) : keeps I (ub why : eff S A) Q.
Proof. by intros s Hs. Qed.
Lemma keeps_no_fuel {A} (Q : A → Prop) : keeps I (no_fuel : eff S A) Q.
Proof. by intros s Hs. Qed.
Lemma keeps_deref {A} why (o : option A) (Q : A → Prop) :
  (∀ a, o = Some a → Q a) → keeps I (deref why o : eff S A) Q.
Proof. intros Ho. destruct o as [a|]; [by apply keeps_ret, Ho|by apply keeps_ub]. Qed.
Lemma keeps_gets {A} (f : S → A) (Q : A → Prop) : (∀ s, I s → Q (f s)) → keeps I (gets f) Q.
Proof. intros Hf s Hs. split; [done|]. by intros a [= <-]; apply Hf. Qed.
End keeps.

(** Follows the structure of a computation, the pieces ([tac]) first. *)
Ltac keep_with tac :=
  repeat first
    [ tac | apply keeps_ret | apply keeps_throw | apply keeps_ub | apply keeps_no_fuel
    | eapply keeps_bind; [solve [tac]|intros]
    | eapply keeps_seq; [solve [preserve_with tac]|intros]
    | progress case_match ].

Lemma atoi_valid s : i32_valid (atoi s).
Proof. apply wrap32_range. Qed.
Lemma zero_valid : i32_valid 0.
Proof. done. Qed.

(** * Queries *)

(** The size of a node set is an [int]. *)
Class NodeSetLaws `{LibXml} : Prop := {
  node_set_size q n h l : xmlXPathEvalExpression q n h = XPATH_NODESET l → (Z.of_nat (length l) < 2 ^ 31)%Z;
}.

Record query_typed (q : Query) : Prop := {
  qt_size : (0 ≤ qsize q < 2 ^ 31)%Z; qt_nodes : (Z.of_nat (length (nodeTab q)) < 2 ^ 31)%Z;
}.

Lemma result_typed o : query_typed (result o).
Proof. by destruct o. Qed.

Section queries.
Context `{Boost} `{Pcre} `{NodeSetLaws}.

Lemma runRawQuery_typed t n q d : yields (runRawQuery t n q d) query_typed.
Proof.
  unfold runRawQuery. destruct (xmlXPathNewContext _); [|done].
  destruct (xmlXPathEvalExpression _ _ _) as [|[|p l]|] eqn:E; [done|by apply yields_ret| |done].
  apply node_set_size in E. case_decide; apply yields_ret; [apply result_typed|].
  split; simpl in *; lia.
Qed.
Lemma runDesignQuery_typed t c q : yields (runDesignQuery t c q) query_typed.
Proof. apply yields_seq. intros n. apply runRawQuery_typed. Qed.

Lemma Query_path_typed t c query q : yields (Query_path t c query q) query_typed.
Proof. unfold Query_path, runQuery. do 4 (apply yields_seq; intros). apply runRawQuery_typed. Qed.

Lemma Query_id_typed t c query q : yields (Query_id t c query q) query_typed.
Proof.
  unfold Query_id. repeat case_match; try apply Query_path_typed; [|apply yields_ret, result_typed].
  do 2 (apply yields_seq; intros). apply Query_path_typed.
Qed.

Lemma permalink_loop_typed t parts i :
  yields (permalink_loop t parts i) (λ r, match r with inl q => query_typed q | inr _ => True end).
Proof.
  induction i as [|i IH]; cbn [permalink_loop]; [apply yields_ret, result_typed|].
  case_match; [|done]. case_decide; [apply yields_ret, result_typed|].
  apply yields_seq. intros c. by apply yields_ret.
Qed.

Lemma Query_new_typed t c q : yields (Query_new t c q) query_typed.
Proof.
  unfold Query_new. destruct (re_replace false _ _ q) as [q'|];
    (destruct (re_full_match false _ _) as [[|l [|]]|]; try apply Query_id_typed;
     eapply yields_bind; [apply permalink_loop_typed|]; intros [r|[c' p]] Hr;
     [by apply yields_ret|apply Query_id_typed]).
Qed.
End queries.

(** * Contexts *)

Definition structure_typed (st : VaeDbStructure) : Prop := i32_valid (structure_id st).
Record context_typed (x : Context) : Prop := {
  ct_id : i32_valid (id x);
  ct_structure : ∀ st, structure x = Some st → structure_typed st;
  ct_context : i32_valid (context_id (vaeDbContext x));
  ct_context_structure : i32_valid (context_structure_id (vaeDbContext x));
}.

(** While the site is loaded. *)
Record loading_typed (s : Site) : Prop := {
  lt_contexts c x : contexts (tree s) !! c = Some x → context_typed x;
  lt_structures i st : structures s !! i = Some st → structure_typed st;
  lt_generation : i32_valid (generation s);
}.

Section loading.
Context `{Boost} `{Pcre} `{LibXml}.
Abbreviation I := loading_typed.

Lemma typed_same {A} (m : eff Site A) :
  (∀ s, contexts (tree (m s).2) = contexts (tree s) ∧ structures (m s).2 = structures s
      ∧ generation (m s).2 = generation s) → preserves I m.
Proof. intros Hm s [Hc Hs Hg]. destruct (Hm s) as (E1 & E2 & E3). split; rewrite ?E1, ?E2, ?E3; done. Qed.

Lemma typed_in_tree {A} (f : Tree → outcome A) : preserves I (in_tree f).
Proof. by apply typed_same. Qed.
Lemma typed_node_at p : preserves I (node_at p).
Proof. by apply typed_same. Qed.
Lemma typed_modify_doc f : preserves I (modify_doc f).
Proof. by apply typed_same. Qed.
Lemma typed_set_roots r d : preserves I (modify (set_tree (set_roots r d))).
Proof. by apply typed_same. Qed.
Lemma typed_set_nodes f : preserves I (modify (set_tree (set_nodes f))).
Proof. by apply typed_same. Qed.
Lemma typed_set_permalinks f : preserves I (modify (set_tree (set_permalinks f))).
Proof. by apply typed_same. Qed.
Lemma typed_set_associations f : preserves I (modify (set_associations f)).
Proof. by apply typed_same. Qed.
Lemma typed_set_clean l l2 : preserves I (modify (set_clean l l2)).
Proof. by apply typed_same. Qed.
Lemma typed_new_context c :
  preserves I (modify (λ s, set_next_context (Pos.succ c) (set_caches (<[c := ContextCache_new]>) s))).
Proof. by apply typed_same. Qed.
Lemma typed_set_generation s0 : preserves I (modify (set_generation (wrap32 (strtol s0)))).
Proof. intros s [Hc Hs _]. split; [done..|]. apply wrap32_range. Qed.
Lemma typed_set_structure i st : structure_typed st → preserves I (modify (set_structures (<[i := st]>))).
Proof. intros Hst s [Hc Hs Hg]. split; [done| |done]. intros j st'. simpl. intros [[_ <-]|[_ ?]]%lookup_insert_Some; eauto. Qed.
Lemma typed_put_context c x : context_typed x → preserves I (put_context c x).
Proof. intros Hx s [Hc Hs Hg]. split; [|done..]. intros c' x'. simpl. intros [[_ <-]|[_ ?]]%lookup_insert_Some; eauto. Qed.
Lemma typed_delete_context c : preserves I (delete_context c).
Proof. intros s [Hc Hs Hg]. split; [|done..]. intros c' x'. simpl. intros [_ ?]%lookup_delete_Some. eauto. Qed.

Lemma typed_context_at c : keeps I (context_at c) context_typed.
Proof.
  intros s Hs. split; [done|]. intros x. simpl. unfold context_of.
  destruct (contexts (tree s) !! c) eqn:E; [|done]. intros [= <-]. by eapply lt_contexts.
Qed.
Create HintDb typed discriminated.
#[local] Hint Resolve typed_in_tree typed_node_at typed_modify_doc typed_set_roots typed_set_nodes
  typed_set_permalinks typed_set_associations typed_set_clean typed_new_context typed_set_generation
  typed_delete_context : typed.

Lemma typed_context_at_any c : preserves I (context_at c).
Proof. eapply preserves_keeps, typed_context_at. Qed.
#[local] Hint Resolve typed_context_at_any : typed.

Lemma structure_attrs_typed l st :
  structure_typed st → yields (structure_attrs l st) structure_typed.
Proof.
  revert st. induction l as [|a l IH]; intros st Hst; cbn [structure_attrs]; [by apply yields_ret|].
  do 3 (apply yields_seq; intros). by apply IH.
Qed.

Lemma structureFromStructureId_typed i :
  i32_valid i → keeps I (structureFromStructureId i) structure_typed.
Proof.
  intros Hi. unfold structureFromStructureId.
  eapply keeps_bind; [apply (keeps_gets _ _ (λ o, ∀ st, o = Some st → structure_typed st))|].
  { intros s Hs st. by apply (lt_structures _ Hs). }
  intros [st|] Hst; [by apply keeps_ret, Hst|].
  do 3 (apply keeps_seq; [auto with typed eff|]; intros).
  eapply keeps_bind; [apply keeps_lift, structure_attrs_typed, Hi|]. intros st Ht.
  apply keeps_seq; [by apply typed_set_structure|]. intros _. by apply keeps_ret.
Qed.

Lemma attrs_loop_typed staging l i j pl :
  i32_valid i → i32_valid j →
  yields (attrs_loop staging l i j pl)
    (λ r, ∀ i' j' pl', r = Some (i', j', pl') → i32_valid i' ∧ i32_valid j').
Proof.
  revert i j pl. induction l as [|a l IH]; intros i j pl Hi Hj; cbn [attrs_loop].
  { apply yields_ret. by intros ??? [= <- <- _]. }
  assert (∀ z : Z, i32_valid z → ∀ k : string, yields (if decide (attr_name a = k) then atoi <$> attr_content a else Ok z) i32_valid) as Ha.
  { intros z Hz k. case_decide; [|by apply yields_ret]. destruct (attr_content a); try done.
    apply yields_ret, atoi_valid. }
  eapply yields_bind; [by apply Ha|]. intros i' Hi'.
  eapply yields_bind; [by apply Ha|]. intros j' Hj'. apply yields_seq. intros pl'.
  case_match; [by apply yields_ret|by apply IH].
Qed.

Lemma populateAttrs_typed p :
  keeps I (populateAttrs p) (λ r, ∀ i pl st, r = Some (i, pl, st) →
    i32_valid i ∧ ∀ st', st = Some st' → structure_typed st').
Proof.
  unfold populateAttrs. do 2 (apply keeps_seq; [auto with typed eff|]; intros).
  eapply keeps_bind; [by apply keeps_lift, attrs_loop_typed|].
  intros [[[i j] pl]|] Hr; [|by apply keeps_ret]. destruct (Hr i j pl eq_refl) as [Hi Hj].
  case_match; [|apply keeps_ret; by intros ??? [= <- _ <-]].
  eapply keeps_bind; [by apply structureFromStructureId_typed|]. intros st Hst.
  apply keeps_ret. intros ??? [= <- _ <-]. split; [done|]. by intros ? [= <-].
Qed.

Lemma context_new_typed p i pl st ty data :
  i32_valid i → (∀ st', st = Some st' → structure_typed st') →
  context_typed {| node := p; id := i; permalink := pl; structure := st; ctype := ty;
    vaeDbContext := {| context_id := i;
      context_structure_id := match st with Some st => structure_id st | None => 0%Z end;
      context_type := ty; context_permalink := default "" pl; context_data := data; context_dataMap := ∅ |};
    pointerNodes := []; killMe := false |}.
Proof. intros Hi Hst. split; simpl; [done..|]. destruct st as [st|]; [by apply Hst|done]. Qed.

Lemma typed_construction fuel :
  (∀ p, preserves I (Context_new fuel p)) ∧ (∀ top child, preserves I (children_loop fuel top child)).
Proof.
  induction fuel as [|fuel [IH1 IH2]]; [by split; intros; apply preserves_no_fuel|].
  split; intros; cbn [Context_new children_loop].
  - apply preserves_bind; [unfold new_context; preserve; auto with typed|]. intros c.
    apply (preserves_keeps _ _ (λ _, True)).
    eapply keeps_bind; [apply populateAttrs_typed|]. intros [[[i pl] st]|] Hr; apply keeps_preserves.
    2: { apply preserves_bind; [by apply typed_put_context|]. auto with eff. }
    destruct (Hr i pl st eq_refl) as [Hi Hst].
    preserve; auto with typed; try (unfold getSingleData_node; preserve; auto with typed).
    all: apply typed_put_context; by apply (context_new_typed p i pl).
  - unfold attach. preserve; auto with typed.
Qed.

Lemma typed_bind_context {A} c (f : Context → eff Site A) :
  (∀ x, context_typed x → preserves I (f x)) → preserves I (context_at c ≫= f).
Proof.
  intros Hf. apply (preserves_keeps _ _ (λ _, True)). eapply keeps_bind; [apply typed_context_at|].
  intros x Hx. by apply keeps_preserves, Hf.
Qed.

Lemma typed_pointers c l x : context_typed x → preserves I (put_context c (set_pointerNodes l x)).
Proof. intros []. by apply typed_put_context. Qed.
#[local] Hint Resolve typed_pointers : typed.

Lemma typed_initializeAssociation c : preserves I (initializeAssociation c).
Proof.
  unfold initializeAssociation, getSingleData_node, forward_association, reverse_association, copy_node.
  preserve_with ltac:(apply typed_bind_context; intros); auto with typed.
Qed.

Lemma typed_load testMode rawxml : preserves I (loadXmlDoc testMode rawxml).
Proof.
  unfold loadXmlDoc, one_node. preserve_with ltac:(apply typed_initializeAssociation); auto with typed;
    apply (proj2 (typed_construction _)).
Qed.

Lemma Site_new_typed testMode su staging keys rawxml s :
  Site_new testMode su staging keys rawxml = Ok s → loading_typed s.
Proof.
  unfold Site_new. pose proof (typed_load testMode rawxml (Site_init testMode su staging keys)) as Hl.
  destruct (loadXmlDoc _ _ _) as [[]]; [|done..]. intros [= <-]. by destruct Hl; split.
Qed.
End loading.

(** * Answers *)

(** A loaded site: the cached queries are those that the tree gives. *)
Record site_typed `{Boost} `{Pcre} `{LibXml} (s : Site) : Prop := {
  st_loaded : loading_typed s;
  st_coherent : coherent s;
}.

Definition created_typed (c : VaeDbCreateInfo) : Prop :=
  i32_valid (create_structure_id c) ∧ i32_valid (create_row_id c).
Definition vaeDbContext_typed (c : VaeDbContext) : Prop :=
  i32_valid (context_id c) ∧ i32_valid (context_structure_id c).
Definition rfc_typed (r : VaeDbResponseForContext) : Prop :=
  Forall vaeDbContext_typed (rfc_contexts r) ∧ i32_valid (rfc_totalItems r).
Record response_typed (r : Response) : Prop := {
  rt_totals : Forall (λ rc, i32_valid (total rc)) (r_contexts r);
  rt_created : Forall created_typed (createInfos r);
}.

Section answering.
Context {clib : CLib} `{Boost} `{Pcre} {lx : LibXml} {laws : NodeSetLaws}.
Context {alg : Algorithms} {algf : AlgorithmFrame}.
Abbreviation I := site_typed.

Lemma ty_in_tree {A} (f : Tree → outcome A) Q :
  (∀ t, yields (f t) Q) → keeps I (in_tree f) Q.
Proof. intros Hf s Hs. split; [done|]. apply Hf. Qed.
Lemma ty_read_tree {A} (f : Tree → outcome A) : preserves I (in_tree f).
Proof. by intros s. Qed.
Lemma ty_node_at p : preserves I (node_at p).
Proof. by intros s. Qed.
Lemma ty_set_caches f : preserves I (modify (set_caches f)).
Proof. intros s [[Hc Hs Hg] [Hw Hm He]]. split; by split. Qed.
Lemma ty_context_at c : keeps I (context_at c) context_typed.
Proof. intros s Hs. split; [done|]. by apply (typed_context_at c s), Hs. Qed.
Lemma ty_fetch_query k : keeps I (fetch_query k) query_typed.
Proof.
  intros s [[Hc Hs Hg] Hk]. destruct (fetch_query_spec k s Hk) as (c & -> & Hk' & _). split.
  - split; [by split|done].
  - apply Query_new_typed.
Qed.
Lemma ty_cache_at c : preserves I (cache_at c).
Proof. unfold cache_at. preserve. Qed.
Lemma ty_fetched k : preserves I (fetch_query k).
Proof. eapply preserves_keeps, ty_fetch_query. Qed.
Lemma ty_context_read c : preserves I (context_at c).
Proof. eapply preserves_keeps, ty_context_at. Qed.
Create HintDb ty discriminated.
#[local] Hint Resolve ty_read_tree ty_node_at ty_set_caches ty_cache_at ty_fetched ty_context_read : ty.

Lemma ty_populateData c : preserves I (populateData c).
Proof. unfold populateData. preserve; auto with ty. Qed.
#[local] Hint Resolve ty_populateData : ty.
Lemma ty_getData c q : preserves I (getData c q).
Proof. unfold getData. preserve; auto with ty. Qed.
Lemma ty_getCount c q : preserves I (getCount c q).
Proof. unfold getCount. preserve; auto with ty. Qed.
Lemma ty_getId c : keeps I (getId c) i32_valid.
Proof. eapply keeps_bind; [apply ty_context_at|]. intros x Hx. by apply keeps_ret, ct_id. Qed.
Lemma ty_getId_any c : preserves I (getId c).
Proof. eapply preserves_keeps, ty_getId. Qed.
#[local] Hint Resolve ty_getData ty_getCount ty_getId_any : ty.

Lemma ty_sortCallback fields a b : preserves I (sortCallback fields a b).
Proof. induction fields; cbn [sortCallback]; preserve; auto with ty. Qed.
Lemma ty_unique_value c fields v : preserves I (unique_value c fields v).
Proof. revert v. induction fields; intros v; cbn [unique_value]; preserve; auto with ty. Qed.
Lemma ty_order o l : preserves I (order o l).
Proof.
  unfold order. destruct (sortType o); [apply preserves_ret..| |].
  - apply shuffle_frame.
  - apply sort_frame. intros a b. apply ty_sortCallback.
Qed.
#[local] Hint Resolve ty_unique_value ty_order : ty.

(** Each node is counted once. *)
Lemma ty_visit o i j p g : keeps I (visit o i j p g) (λ g', (matches g ≤ matches g' ≤ matches g + 1)%Z).
Proof.
  unfold visit. apply keeps_seq; [unfold accept, uniqueMatch; preserve; auto with ty|].
  intros [ok found]. destruct ok; simpl; [|apply keeps_ret; simpl; lia].
  repeat case_match; try (apply keeps_ret; simpl; lia).
  apply keeps_seq; [auto with ty|]. intros [c|]; apply keeps_ret; simpl; lia.
Qed.
Lemma ty_visit_all o i j l g :
  keeps I (visit_all o i j l g) (λ g', (matches g ≤ matches g' ≤ matches g + Z.of_nat (length l))%Z).
Proof.
  revert g. induction l as [|p l IH]; intros g; cbn [visit_all]; [apply keeps_ret; simpl; lia|].
  eapply keeps_bind; [apply ty_visit|]. intros g1 H1. eapply keeps_weaken; [apply IH|].
  intros g2 H2. simpl in *. lia.
Qed.
Lemma ty_pick_contexts q i n : preserves I (pick_contexts q i n).
Proof. revert i. induction n; intros i; cbn [pick_contexts]; preserve; auto with ty. Qed.

Lemma ty_query o c q : keeps I (query o c q) (λ r, i32_valid (total r)).
Proof.
  unfold query. eapply keeps_bind; [apply ty_fetch_query|]. intros Q [Hs Hn].
  apply keeps_seq; [auto with eff|]. intros [sk pg]. apply keeps_seq; [auto with eff|]. intros [st en].
  eapply (keeps_bind _ _ _ (λ r, i32_valid r.2)).
  - unfold pick. case_match.
    + eapply keeps_bind; [apply ty_visit_all|]. intros g Hg. apply keeps_ret.
      unfold i32_valid. simpl in *. lia.
    + apply keeps_seq; [apply ty_pick_contexts|]. intros l. apply keeps_ret. unfold i32_valid, getSize. simpl. lia.
  - intros [l n] Hi. apply keeps_seq; [auto with ty|]. intros l'. by apply keeps_ret.
Qed.

Lemma create_structure_typed l z : i32_valid z → yields (create_structure l z) i32_valid.
Proof.
  revert z. induction l as [|a l IH]; intros z Hz; cbn [create_structure]; [by apply yields_ret|].
  eapply yields_bind; [|apply IH]. case_decide; [|by apply yields_ret].
  destruct (attr_content a); try done. apply yields_ret, atoi_valid.
Qed.

Lemma ty_create_info c q : keeps I (Response.createInfo c q) created_typed.
Proof.
  unfold Response.createInfo. apply keeps_seq; [auto with eff|]. intros part.
  apply keeps_seq; [unfold create_context; preserve_with ltac:(apply ty_fetched); auto with ty|]. intros c'.
  apply (keeps_bind _ _ _ i32_valid).
  { destruct c'; [apply ty_getId|by apply keeps_ret]. }
  intros row Hrow. case_match; [apply keeps_throw|]. apply keeps_seq; [auto with ty|]. intros Q.
  case_match; [|apply keeps_throw]. do 2 (apply keeps_seq; [auto with ty eff|]; intros).
  eapply keeps_bind; [by apply keeps_lift, create_structure_typed|]. intros z Hz. by apply keeps_ret.
Qed.

Lemma ty_map_eff {A B} (f : A → eff Site B) (Q : B → Prop) l :
  (∀ a, a ∈ l → keeps I (f a) Q) → keeps I (map_eff f l) (Forall Q).
Proof.
  induction l as [|a l IH]; intros Hf; cbn [map_eff]; [by apply keeps_ret|].
  eapply keeps_bind; [apply Hf; by left|]. intros b Hb.
  eapply keeps_bind; [apply IH; intros; apply Hf; by right|]. intros bs Hbs.
  apply keeps_ret. by constructor.
Qed.

Lemma ty_Response_query parent q o : keeps I (Response_query parent q o) response_typed.
Proof.
  eapply keeps_bind; [apply ty_map_eff; intros; apply ty_query|]. intros l Hl. by apply keeps_ret.
Qed.
Lemma ty_Response_create parent q : keeps I (Response_create parent q) response_typed.
Proof.
  eapply keeps_bind; [apply ty_map_eff; intros; apply ty_create_info|]. intros l Hl. by apply keeps_ret.
Qed.

Lemma ty_write r :
  response_typed r → keeps I (writeVaeDbResponse r) (λ v, Forall rfc_typed (response_contexts v)).
Proof.
  intros [Hr _]. eapply keeps_bind; [|intros l Hl; by apply keeps_ret]. apply ty_map_eff. intros rc Hrc.
  eapply (keeps_bind _ _ _ (Forall vaeDbContext_typed)).
  - apply ty_map_eff. intros c _. eapply keeps_bind; [apply ty_context_at|]. intros x []. by apply keeps_ret.
  - intros cs Hcs. apply keeps_ret. split; [done|]. by eapply Forall_forall in Hr.
Qed.
Lemma ty_write_data r : preserves I (writeVaeDbDataResponse r).
Proof.
  apply (preserves_keeps _ _ (λ _, True)). eapply keeps_bind; [|intros l Hl; by apply keeps_ret].
  apply (ty_map_eff _ (λ _, True)). intros c _. apply keeps_preserves. unfold toVaeDbDataForContext.
  preserve; auto with ty.
Qed.
Lemma ty_write_structure r :
  keeps I (writeVaeDbStructureResponse r) (λ v, Forall structure_typed (structure_contexts v)).
Proof.
  eapply keeps_bind; [|intros l Hl; by apply keeps_ret]. apply ty_map_eff. intros c _.
  eapply keeps_bind; [apply ty_context_at|]. intros x [_ Hx _ _]. apply keeps_ret.
  destruct (structure x); [by apply Hx|done].
Qed.
End answering.
