(* ===== verification/TypedServer.v ===== *)
(** Every call is answered with a value of the type that [vae.thrift] declares for
    it: the right kind of reply, and integers that fit their width.  Strings,
    lists and maps are only as long as the feed makes them; [short] says that
    they are within what Thrift can carry. *)
From Stdlib Require Import ZArith.
From S2P Require Import Prelude Cpp Extern Regex QueryLog Util VaeTypes Xml XmlRef ProtocolSpec ThriftSpec TypedSite.
From S2P Require Site SiteSpec Response ResponseSpec Session SiteFrame S3 MysqlProxy MemcacheProxy Pool Handler HandlerSpec ServerDemo.
Import S3 MysqlProxy MemcacheProxy Response SiteFrame SiteSpec Handler.

(** * Lengths *)

Class Short (A : Type) := short : A → Prop.
#[export] Instance short_text : Short string := text_valid.
#[export] Instance short_map : Short (gmap string string) := map_valid.
#[export] Instance short_list {A} `{Short A} : Short (list A) := list_valid short.
#[export] Instance short_context : Short VaeDbContext := λ c,
  short (context_type c) ∧ short (context_permalink c) ∧ short (context_data c) ∧ short (context_dataMap c).
#[export] Instance short_structure : Short VaeDbStructure := λ s,
  short (structure_name s) ∧ short (structure_type s) ∧ short (structure_permalink s).
#[export] Instance short_rfc : Short VaeDbResponseForContext := λ r, short (rfc_contexts r).
#[export] Instance short_response : Short VaeDbResponse := λ r, short (response_contexts r).
#[export] Instance short_dfc : Short VaeDbDataForContext := λ r, short (dfc_data r).
#[export] Instance short_create : Short VaeDbCreateInfo := λ _, True.
#[export] Instance short_reply : Short reply := λ a,
  match a with
  | RVoid | RInt _ | ROpenSession _ => True
  | RString s => short s
  | RCreateInfo r => short (create_contexts r)
  | RData r => short (data_contexts r)
  | RResponse r => short r
  | RStructure r => short (structure_contexts r)
  | RDataForContext r => short r
  end.

Lemma list_valid_combine {A} (P Q R : A → Prop) l :
  list_valid P l → Forall Q l → (∀ x, P x → Q x → R x) → list_valid R l.
Proof.
  intros [Hl HP] HQ Hx. split; [done|]. rewrite Forall_forall in *. eauto.
Qed.

(** * Types of the interface *)

Definition session_reply_valid (r : session_request) (a : reply) : Prop :=
  match r, a with
  | CreateInfo _ _ _, RCreateInfo v => create_response_valid v
  | Data _ _, RData v => data_response_valid v
  | Get _ _ _ _, RResponse v => response_valid v
  | Structure _ _, RStructure v => structure_response_valid v
  | (ShortTermCacheGet _ _ _ | SessionCacheGet _ _ | LongTermCacheGet _ _ _ _), RString v => text_valid v
  | (ShortTermCacheSet _ _ _ _ _ | ShortTermCacheDelete _ _ | SessionCacheSet _ _ _ | SessionCacheDelete _ _
    | LongTermCacheSet _ _ _ _ _ | LongTermCacheDelete _ _ | LongTermCacheEmpty _), RVoid => True
  | LongTermCacheSweeperInfo _, RDataForContext v => dfc_valid v
  | (SitewideLock _ | SitewideUnlock _), RInt z => i32_valid z
  | _, _ => False
  end.
Definition reply_valid (r : request) (a : reply) : Prop :=
  match r, a with
  | Ping, RInt z => byte_valid z
  | OpenSession _ _ _ _, ROpenSession v => open_valid v
  | (CloseSession _ _ | ResetSite _ _), RVoid => True
  | OnSession r, a => session_reply_valid r a
  | _, _ => False
  end.

(** The one integer of a request that comes back. *)
Definition request_typed (r : request) : Prop :=
  match r with OpenSession _ _ _ i => i32_valid i | _ => True end.

(** [rand()] is an [int]. *)
Class RandLaw (T : Type) `{Os T} : Prop := {
  rand_int o : i32_valid (rand o).1;
}.

(** * Sessions *)

Definition session_typed (s : Session.Session) : Prop := Forall response_typed (Session.responses s).

Section sessions.
Context {clib : CLib} `{Boost} `{Pcre} {lx : LibXml} {laws : NodeSetLaws}.
Context {alg : Algorithms} {algf : AlgorithmFrame}.
Abbreviation I := (λ t : Session.Session * Site.Site, session_typed t.1 ∧ site_typed t.2).

Lemma ty_on_site {A} (m : eff Site.Site A) Q : keeps site_typed m Q → keeps I (Session.on_site m) Q.
Proof.
  intros Hm [s st] [Hs Ht]. rewrite Session.on_site_eq. destruct (Hm st Ht) as [H1 H2]. by split.
Qed.

Lemma ty_response_at i : keeps I (Session.response_at i) response_typed.
Proof.
  eapply keeps_bind; [apply (keeps_gets _ _ (Forall response_typed)); by intros s [? _]|].
  intros l Hl. case_match; [|apply keeps_throw]. apply keeps_deref. intros r.
  unfold Session.element. case_match; [done|]. intros Hr. by eapply Forall_lookup_1 in Hr.
Qed.
Lemma ty_parent_of i : preserves I (Session.parent_of i).
Proof.
  apply (preserves_keeps _ _ (λ _, True)). unfold Session.parent_of. case_decide; [by apply keeps_ret|].
  eapply keeps_bind; [apply ty_response_at|]. intros r _. by apply keeps_ret.
Qed.

Lemma ty_createInfo i q : keeps I (Session.createInfo i q) (λ v, Forall created_typed (create_contexts v)).
Proof.
  apply keeps_seq; [apply ty_parent_of|]. intros p.
  eapply keeps_bind; [apply ty_on_site, ty_Response_create|]. intros r [_ Hr]. by apply keeps_ret.
Qed.
Lemma ty_data i : preserves I (Session.data i).
Proof.
  apply (preserves_keeps _ _ (λ _, True)). eapply keeps_bind; [apply ty_response_at|]. intros r _.
  apply ty_on_site, keeps_preserves, ty_write_data.
Qed.
Lemma ty_structure i : keeps I (Session.structure i) (λ v, Forall structure_typed (structure_contexts v)).
Proof. eapply keeps_bind; [apply ty_response_at|]. intros r _. apply ty_on_site, ty_write_structure. Qed.

Lemma ty_get i q o :
  keeps I (Session.get i q o) (λ v, i32_valid (response_id v) ∧ Forall rfc_typed (response_contexts v)).
Proof.
  apply keeps_seq; [apply ty_parent_of|]. intros p.
  eapply keeps_bind; [apply ty_on_site, ty_Response_query|]. intros r Hr.
  eapply keeps_bind; [by apply ty_on_site, ty_write|]. intros v Hv.
  apply keeps_seq; [apply preserves_gets|]. intros n. apply keeps_seq.
  - apply preserves_modify. intros [s st] [Hs Ht]. split; [|done].
    apply Forall_app. split; [done|]. by constructor.
  - intros _. apply keeps_ret. split; [apply wrap32_range|done].
Qed.
End sessions.

(** * The server *)

Section server.
Context {Mem Db E T : Type}.
Context {clib : CLib} `{Boost} `{Pcre} {lx : LibXml} {laws : NodeSetLaws}.
Context {alg : Algorithms} {algf : AlgorithmFrame}.
Context `{MemcacheClient Mem} `{SqlEngine Db} `{S3Env E} {os_ops : Os T} {rand_law : RandLaw T}.
Abbreviation World := (World Mem Db E T).
Context (testMode : bool) (cache_path : string) (log_fuel rand_fuel : nat).

Record server_typed (w : World) : Prop := {
  typed_sessions i s : sessions w !! i = Some s → session_typed s;
  typed_sites p st : site_objects w !! p = Some st → site_typed st;
}.
Abbreviation I := server_typed.
Abbreviation IE := (λ t : World * QueryLogEntry, server_typed t.1).

Lemma ty_same {A} (m : eff World A) :
  (∀ w, sessions (m w).2 = sessions w ∧ site_objects (m w).2 = site_objects w) → preserves I m.
Proof. intros Hm w [Hs Ho]. destruct (Hm w) as [Es Eo]. split; rewrite ?Es, ?Eo; done. Qed.

Lemma ty_on_mem {A} (m : eff (MemcacheProxy Mem) A) : preserves I (on_mem m).
Proof. apply ty_same. intros w. unfold on_mem, zoom. by destruct (m _). Qed.
Lemma ty_on_mysql {A} (m : eff (MysqlProxy Db) A) : preserves I (on_mysql m).
Proof. apply ty_same. intros w. unfold on_mysql, zoom. by destruct (m _). Qed.
Lemma ty_on_s3 {A} (m : eff E A) : preserves I (on_s3 m).
Proof. apply ty_same. intros w. unfold on_s3, zoom. by destruct (m _). Qed.
Lemma ty_from_os {A} (f : T → A * T) : preserves I (from_os f).
Proof. apply ty_same. intros w. unfold from_os. by destruct (f _). Qed.
Lemma ty_find_session i : preserves I (find_session i).
Proof. by intros w. Qed.
Lemma ty_set_sites f : preserves I (modify (set_sites f)).
Proof. by apply ty_same. Qed.
Lemma ty_set_mutexes f : preserves I (modify (set_mutexes f)).
Proof. by apply ty_same. Qed.
Lemma ty_erase_session i : preserves I (modify (set_sessions (delete i))).
Proof. intros w [Hs Ho]. split; [|done]. intros j s. simpl. intros [_ ?]%lookup_delete_Some. eauto. Qed.
Lemma ty_site_at p : keeps I (site_at p) site_typed.
Proof.
  eapply keeps_bind; [apply (keeps_gets _ _ (λ o, ∀ st, o = Some st → site_typed st))|].
  - intros w Hw st. by apply (typed_sites _ Hw).
  - intros o Ho. by apply keeps_deref.
Qed.
Lemma ty_site_at_any p : preserves I (site_at p).
Proof. eapply preserves_keeps, ty_site_at. Qed.
Lemma ty_subdomain_of s : preserves I (subdomain_of s).
Proof. unfold subdomain_of. preserve_with ltac:(apply ty_site_at_any). Qed.
Create HintDb tw discriminated.
#[local] Hint Resolve ty_on_mem ty_on_mysql ty_on_s3 ty_from_os ty_find_session ty_set_sites ty_set_mutexes
  ty_erase_session ty_site_at_any ty_subdomain_of : tw.
#[local] Ltac steps := preserve_with ltac:(solve [auto with tw nocore]).

(** ** Sites *)

Lemma ty_new_site sub staging xml : preserves I (new_site testMode cache_path sub staging xml).
Proof.
  unfold new_site. apply (preserves_keeps _ _ (λ _, True)). apply keeps_seq; [steps|]. intros keys.
  eapply (keeps_bind _ _ _ site_typed).
  - apply keeps_lift. intros st Hst. split; [by eapply Site_new_typed|by eapply Site_new_coherent].
  - intros st Ht. apply keeps_preserves. steps. intros w [Hs Ho]. split; [done|].
    intros p' st'. simpl. intros [[_ <-]|[_ ?]]%lookup_insert_Some; eauto.
Qed.
#[local] Hint Resolve ty_new_site : tw.

Lemma ty_getSite sub key staging : preserves I (getSite testMode cache_path sub key staging).
Proof. unfold getSite, _get_site_mutex, _getSite, _loadSite. steps. Qed.
Lemma ty_resetSite sub key force : preserves I (_resetSite testMode sub key force).
Proof. unfold _resetSite, erase_if_loaded, _eraseSite. steps. Qed.
Lemma ty_reloadSite sub : preserves I (reloadSite testMode cache_path sub).
Proof. unfold reloadSite, _get_site_mutex, _loadSite. steps; apply ty_resetSite. Qed.
Lemma ty_reap : preserves I reap.
Proof.
  unfold reap, garbageCollect. steps. intros w [Hs Ho]. split; [|done]. intros i s. simpl.
  rewrite HandlerSpec.reap_loop_map. intros [Hi _]%map_lookup_filter_Some. eauto.
Qed.
#[local] Hint Resolve ty_getSite ty_resetSite ty_reloadSite ty_reap : tw.

(** ** Handlers *)

Lemma ty_outer {A} (m : eff World A) Q : keeps I m Q → keeps IE (outer m) Q.
Proof. intros Hm [w e] Hw. specialize (Hm w Hw). simpl. by destruct (m w). Qed.
Lemma ty_set_local f : preserves IE (set_local f).
Proof. by intros [w e]. Qed.

Lemma ty_with_entry {A} name args (body : eff (World * QueryLogEntry) A) Q :
  keeps IE body Q → keeps I (with_entry log_fuel name args body) Q.
Proof.
  intros Hb w Hw. assert (∀ w1 w2 : World, HandlerSpec.same_core w1 w2 → I w2 → I w1) as Hcore.
  { intros w1 w2 [[= Es _ Eo _ _ _ _]] [Hs Ho]. split; rewrite ?Es, ?Eo; done. }
  destruct (HandlerSpec.with_entry_cases log_fuel name args body w) as [(r & w' & -> & Hc & Hr)|(w1 & e & Hc & Hrun)].
  - split; [by eapply Hcore|]. intros a Ha. by destruct (Hr a).
  - pose proof (Hb (w1, e) (Hcore _ _ Hc Hw)) as [Hi Hq]. destruct (body (w1, e)) as [r [w2 e2]] eqn:Eb.
    destruct (Hrun _ _ _ eq_refl) as (w' & -> & Hc'). split; [by eapply Hcore|done].
Qed.

Lemma ty_in_session {A} i s (m : eff (Session.Session * Site.Site) A) Q :
  session_typed s → keeps (λ t, session_typed t.1 ∧ site_typed t.2) m Q → keeps I (in_session i s m) Q.
Proof.
  intros Hs Hm w [Hss Ho]. unfold in_session.
  destruct (site_objects w !! Session.site s) as [st|] eqn:Es; [|done].
  destruct (Hm (s, st)) as [[Hs' Ht'] Hq]; [by split; [|eapply Ho]|].
  destruct (m (s, st)) as [r [s' st']]. split; [|done]. split; simpl.
  - intros j t [[_ <-]|[_ ?]]%lookup_insert_Some; eauto.
  - intros p t [[_ <-]|[_ ?]]%lookup_insert_Some; eauto.
Qed.

Lemma ty_session_body {A} i (d : A) m (Q : A → Prop) :
  Q d → keeps (λ t, session_typed t.1 ∧ site_typed t.2) m Q → keeps IE (session_body i d m) Q.
Proof.
  intros Hd Hm. eapply keeps_bind.
  { apply ty_outer. apply (keeps_gets _ _ (λ o, ∀ s, o = Some s → session_typed s)).
    intros w Hw s. by apply (typed_sessions _ Hw). }
  intros [s|] Hs; [|by apply keeps_ret].
  eapply keeps_bind; [apply ty_outer, keeps_preserves, ty_subdomain_of|]. intros sub _.
  apply keeps_seq; [apply ty_set_local|]. intros _. apply ty_outer. apply ty_in_session; auto.
Qed.

Lemma ty_unused_id fuel i : i32_valid i → keeps I (unused_id fuel i) i32_valid.
Proof.
  revert i. induction fuel as [|fuel IH]; intros i Hi; cbn [unused_id]; [apply keeps_no_fuel|].
  apply keeps_seq; [apply ty_find_session|]. intros [s|]; [|by apply keeps_ret].
  eapply (keeps_bind _ _ _ i32_valid); [|apply IH]. intros w Hw. split; [by apply ty_from_os|].
  unfold from_os. pose proof (rand_int (os w)) as Hr. destruct (rand (os w)). by intros a [= <-].
Qed.

Lemma ty_openSession sub key staging i :
  i32_valid i → keeps I (openSession testMode cache_path log_fuel rand_fuel sub key staging i) open_valid.
Proof.
  intros Hi. apply ty_with_entry.
  eapply keeps_bind; [apply ty_outer, keeps_preserves, ty_getSite|]. intros p _.
  eapply keeps_bind; [by apply ty_outer, ty_unused_id|]. intros j Hj.
  eapply keeps_bind; [apply ty_outer, keeps_preserves, ty_from_os|]. intros now _.
  eapply (keeps_bind _ _ _ (λ _, True)).
  { apply ty_outer, keeps_preserves. intros w [Hs Ho]. split; [|done]. intros k s. simpl.
    intros [[_ <-]|[_ ?]]%lookup_insert_Some; [by constructor|eauto]. }
  intros _ _. eapply keeps_bind; [apply ty_outer, ty_site_at|]. intros st [Ht _].
  apply keeps_seq; [apply ty_set_local|]. intros _. apply keeps_ret. split; [done|]. apply Ht.
Qed.

Lemma ty_with_subdomain {A} i (d : A) body (Q : A → Prop) :
  Q d → (∀ sub, keeps I (body sub) Q) → keeps I (with_subdomain i d body) Q.
Proof.
  intros Hd Hb. apply keeps_seq; [apply ty_find_session|]. intros [s|]; [|by apply keeps_ret].
  apply keeps_seq; [apply ty_subdomain_of|]. apply Hb.
Qed.

(** What a body answers, the proxy answers. *)
Lemma ty_proxied {A} (m : string → eff Db A) Q :
  (∀ d, keeps (λ _, True) (m d) Q) → keeps I (on_mysql (with_connection m)) Q.
Proof.
  intros Hm w Hw. split; [by apply ty_on_mysql|]. intros a. unfold on_mysql, zoom, with_connection, Pool.pooled.
  destruct (Pool.getConnection _ _) as [[[c|]| | |] p]; try done.
  pose proof (Hm (mysql_database (mysqlProxy w)) (mysql_db (mysqlProxy w)) Logic.I) as [_ Hq].
  destruct (m _ _) as [o d]. simpl in *. intros ->. by apply Hq.
Qed.
Lemma keeps_catch {A} (m h : eff Db A) Q :
  keeps (λ _, True) m Q → keeps (λ _, True) h Q → keeps (λ _, True) (catch_sql m h) Q.
Proof.
  intros Hm Hh d _. split; [done|]. intros a. unfold catch_sql.
  destruct (Hm d Logic.I) as [_ Hd]. destruct (m d) as [[a'|[]| |] d']; simpl in *; try done.
  - by intros [= <-]; apply Hd.
  - by apply Hh.
Qed.

Lemma ty_answering {A} (f : A → reply) m P (Q : reply → Prop) :
  keeps I m P → (∀ a, P a → Q (f a)) → keeps I (answering f m) Q.
Proof. intros Hm Hf. eapply keeps_bind; [exact Hm|]. intros a Ha. by apply keeps_ret, Hf. Qed.

(** ** Replies *)

Lemma created_valid v : Forall created_typed (create_contexts v) → short (create_contexts v) → create_response_valid v.
Proof. intros Ht Hs. eapply list_valid_combine; [exact Hs|exact Ht|]. intros c _ []. by split. Qed.
Lemma structures_valid v :
  Forall structure_typed (structure_contexts v) → short (structure_contexts v) → structure_response_valid v.
Proof. intros Ht Hs. eapply list_valid_combine; [exact Hs|exact Ht|]. intros s (?&?&?) ?. by split. Qed.
Lemma response_valid_short v :
  i32_valid (response_id v) ∧ Forall rfc_typed (response_contexts v) → short v → response_valid v.
Proof.
  intros [Hi Ht] Hs. split; [done|]. eapply list_valid_combine; [exact Hs|exact Ht|].
  intros r Hr [Hc Hn]. split; [|done]. eapply list_valid_combine; [exact Hr|exact Hc|].
  intros c (?&?&?&?) []. by split.
Qed.

Lemma session_dispatch_typed r :
  keeps I (session_dispatch log_fuel r) (λ a, short a → session_reply_valid r a).
Proof.
  assert (∀ A (m : eff World A), preserves I m → keeps I m (λ _, True)) as Hp
    by (intros; by apply keeps_preserves).
  destruct r; simpl;
    try (eapply ty_answering;
      [apply (ty_with_subdomain _ _ _ (λ _, True)); [done|]; intros sub; apply Hp; solve [steps]
      |intros ? _ Hs; exact Hs]); eapply ty_answering.
  - apply ty_with_entry, ty_session_body; [|apply ty_createInfo]. by constructor.
  - intros v. apply created_valid.
  - apply ty_with_entry, (ty_session_body _ _ _ (λ _, True)); [done|]. apply keeps_preserves, ty_data.
  - intros v _ Hs. exact Hs.
  - apply ty_with_entry, ty_session_body; [|apply ty_get]. by split.
  - intros v. apply response_valid_short.
  - apply ty_with_entry, ty_session_body; [|apply ty_structure]. by constructor.
  - intros v. apply structures_valid.
  - apply (ty_with_subdomain _ _ _ i32_valid); [done|]. intros sub. apply ty_proxied. intros d.
    do 2 (apply keeps_catch; [do 2 (apply keeps_seq; [done|]; intros _); by apply keeps_ret|]). by apply keeps_ret.
  - done.
  - apply (ty_with_subdomain _ _ _ i32_valid); [done|]. intros sub. apply ty_proxied. intros d.
    apply keeps_catch; [do 2 (apply keeps_seq; [done|]; intros _)|]; by apply keeps_ret.
  - done.
Qed.

Lemma dispatch_typed r :
  request_typed r →
  keeps I (dispatch testMode cache_path log_fuel rand_fuel r) (λ a, short a → reply_valid r a).
Proof.
  intros Hr. destruct r as [|sub key staging i|i key|sub key|r]; [..|apply session_dispatch_typed];
    eapply ty_answering.
  - apply ty_with_entry. by apply (keeps_ret _ _ (λ z, z = 0%Z)).
  - by intros ? ->.
  - by apply ty_openSession.
  - done.
  - apply ty_with_entry. eapply keeps_bind; [apply ty_outer, keeps_preserves, ty_find_session|].
    intros [s|] _; [apply ty_outer, keeps_preserves, ty_erase_session|by apply keeps_ret].
  - done.
  - apply ty_with_entry, ty_outer, keeps_preserves, ty_resetSite.
  - done.
Qed.

(** ** The server *)

Inductive typed_step : World → World → Prop :=
| typed_call r w : request_typed r → typed_step w (dispatch testMode cache_path log_fuel rand_fuel r w).2
| typed_bus sub w : typed_step w (bus_message testMode cache_path sub w).2
| typed_reap w : typed_step w (reap w).2.

End server.

(** * The server of [ServerDemo] *)

(** Its document library, with node sets that a [int] can count. *)
Module Counted.
Definition count_nodes (o : xmlXPathObject) : xmlXPathObject :=
  match o with
  | XPATH_NODESET l => if decide (Z.of_nat (length l) < 2 ^ 31)%Z then o else XPATH_NULL
  | _ => o
  end.
#[export] Instance libxml : LibXml := {|
  xmlReadMemory := xmlReadMemory (LibXml := demo_libxml); xmlParseFile := xmlParseFile (LibXml := demo_libxml);
  xmlXPathNewContext := xmlXPathNewContext (LibXml := demo_libxml);
  xmlXPathEvalExpression q n h := count_nodes (xmlXPathEvalExpression (LibXml := demo_libxml) q n h);
  xmlUnlinkNode := xmlUnlinkNode (LibXml := demo_libxml); xmlFreeNode := xmlFreeNode (LibXml := demo_libxml);
  xmlFreeNodeList := xmlFreeNodeList (LibXml := demo_libxml); xmlCopyNode := xmlCopyNode (LibXml := demo_libxml);
  xmlAddChild := xmlAddChild (LibXml := demo_libxml);
|}.
#[export] Instance laws : NodeSetLaws.
Proof.
  split. intros q n h l. simpl. destruct (XmlRef.eval q n h) as [|l'|]; try done. simpl.
  case_decide; [by intros [= <-]|done].
Qed.
End Counted.
Import ServerDemo Counted.
#[local] Remove Hints demo_libxml : typeclass_instances.

#[local] Instance counter_rand : RandLaw Z.
Proof. split. intros o. unfold i32_valid. simpl. pose proof (Z.mod_pos_bound o (2 ^ 31)). lia. Qed.

Abbreviation counted_call := (dispatch false "/c" 5 5).
Definition counted : World := (counted_call (OpenSession "shop" "k2" false 42) start).2.
Definition artists : session_request := Get 42 0 "/artist" ∅.

Lemma no_data_valid : map_valid ∅.
Proof. split; [done|]. intros k v Hk. by rewrite lookup_empty in Hk. Qed.

